(** * Data-coupling and remap layer: GSMap / GSSegment and the MAM coupling

    A shallow embedding of
      - share/grid/remap/horizontal_remap_utility.cpp (GSMap, GSSegment), and
      - the MAM coupling header (field names, scratch buffer, wet/dry
        conversion kernels, chemistry work-array transfer),
    with the properties that the specification states about them, and
    further properties of the same code: the loading of a remap file from the
    chunks of the ranks to the remapped field, the checks of a map, the
    names of the fields down to the bytes of their buffers, the kernels and
    the prognostics of a column.

    Conventions.
      - C++ [int] / [Int] / [gid_type] values are integers in [Z]; loop
        counters range over [seq 0 n] and are injected with [Z.of_nat].
        DOF ids, counts and positions are those of a remap file and stay
        inside the range of [int]; where the source multiplies sizes
        ([buffer_size]) the 32-bit arithmetic is written out ([CInt]).
      - [Real] is [double].  The tolerance check of a segment is computed in
        binary64 as IEEE 754 defines it ([Binary64]), NaN and infinities
        included.  The wet/dry kernels are generic in the arithmetic
        ([RealOps]): binary64, the exact reals, and the reals with a
        rounding after every operation.  The weighted sums of a remap and
        the chemistry conversions are stated over the mathematical reals.
      - [Kokkos::parallel_for] and [Kokkos::parallel_reduce] run their
        iterations in index order, as the serial execution space does.
      - a one-dimensional Kokkos view is a [list]; an access outside its
        extent is undefined in the source and is [Undefined] here.
      - a failed [EKAT_REQUIRE] is [Fatal] in the result of the operation,
        and so is a failed [EKAT_KERNEL_ASSERT_MSG] (assertions are kept). *)

From Stdlib Require Import ZArith Lia Reals Lra String Ascii SpecFloat.
From stdpp Require Import base tactics option list numbers sorting.

Open Scope Z_scope.

(** ** Outcomes of an operation *)

(** An operation of the source either returns, stops at a failed
    [EKAT_REQUIRE] (or a Kokkos run-time check), or steps outside the defined
    behaviour of C++ (an access outside an array or a view, a read of a
    member that was never set). *)
Inductive Res (A : Type) : Type :=
| Ok (a : A)
| Fatal
| Undefined.
Arguments Ok {A} a.
Arguments Fatal {A}.
Arguments Undefined {A}.

#[global] Instance Res_ret : MRet Res := fun A a => Ok a.
#[global] Instance Res_bind : MBind Res := fun A B f m =>
  match m with
  | Ok a => f a
  | Fatal => Fatal
  | Undefined => Undefined
  end.

(** [EKAT_REQUIRE(cond)] *)
Definition require (cond : bool) : Res unit := if cond then Ok () else Fatal.

(** [EKAT_KERNEL_ASSERT_MSG(cond, msg)], in a build that keeps assertions *)
Definition kernel_assert (cond : bool) : Res unit := if cond then Ok () else Fatal.

(** [for (int ii = ...; ...; ii++) body], over the listed counter values. *)
Fixpoint for_each {S : Type} (body : S -> nat -> Res S) (iis : list nat) (st : S)
  : Res S :=
  match iis with
  | [] => Ok st
  | ii :: iis => st' ← body st ii; for_each body iis st'
  end.

(** The counter values of [for (int ii = lo; ii < hi; ii++)], [0 <= lo]. *)
Definition range (lo hi : Z) : list nat := seq (Z.to_nat lo) (Z.to_nat (hi - lo)).

(** ** Machine numbers *)

(** [int], 32 bits in two's complement, and its conversion to [size_t],
    64 bits.  A signed operation whose exact result is out of range wraps
    (the standard leaves it undefined; the compilers at hand wrap). *)
Module CInt.

Definition INT_MAX : Z := 2 ^ 31 - 1.

Definition wrap (z : Z) : Z := (z + 2 ^ 31) mod 2 ^ 32 - 2 ^ 31.

Definition add (x y : Z) : Z := wrap (x + y).

Definition mul (x y : Z) : Z := wrap (x * y).

(** The conversion of an [int] to [size_t]. *)
Definition to_size_t (z : Z) : Z := z mod 2 ^ 64.

(** The product of two [size_t]. *)
Definition size_mul (x y : Z) : Z := (x * y) mod 2 ^ 64.

End CInt.

(** [double]: the binary64 format of IEEE 754, with the operations that the
    Standard Library specifies (rounding to nearest, ties to even). *)
Module Binary64.

Definition prec : Z := 53.
Definition emax : Z := 1024.

Definition double : Type := spec_float.

(** The double [m * 2^e]; for [e = 0], an integer literal such as [100.0]. *)
Definition of_scaled (m e : Z) : double := binary_normalize prec emax m e false.

Definition of_Z (z : Z) : double := of_scaled z 0.

Definition nan : double := S754_nan.

Definition add : double -> double -> double := SFadd prec emax.
Definition sub : double -> double -> double := SFsub prec emax.
Definition mul : double -> double -> double := SFmul prec emax.
Definition div : double -> double -> double := SFdiv prec emax.

(** [std::abs] *)
Definition abs : double -> double := SFabs.

(** [x >= y]: false when either is NaN. *)
Definition ge (x y : double) : bool :=
  match SFcompare x y with
  | Some Gt | Some Eq => true
  | _ => false
  end.

(** [std::numeric_limits<double>::epsilon()], that is 2^-52 *)
Definition epsilon : double := of_scaled 1 (-52).

(** The real number that a finite double stands for. *)
Definition to_R (x : double) : option R :=
  match x with
  | S754_zero _ => Some 0%R
  | S754_finite s m e =>
      let v := if (0 <=? e)%Z then IZR (Z.pos m * 2 ^ e)
               else (IZR (Z.pos m) / IZR (2 ^ (- e)))%R in
      Some (if s then (- v)%R else v)
  | _ => None
  end.

End Binary64.

(** The operations on [Real] that the wet/dry conversions use. *)
Record RealOps (Real : Type) := mkOps {
  r_one : Real;
  r_add : Real -> Real -> Real;
  r_sub : Real -> Real -> Real;
  r_div : Real -> Real -> Real
}.
Arguments mkOps {Real}.
Arguments r_one {Real}.
Arguments r_add {Real}.
Arguments r_sub {Real}.
Arguments r_div {Real}.

(** [Real = double] *)
Definition binary64_ops : RealOps Binary64.double :=
  mkOps (Binary64.of_Z 1) Binary64.add Binary64.sub Binary64.div.

(** The reals, every operation followed by the rounding [rnd]; the literal
    [1.0] is exact. *)
Definition rounded_ops (rnd : R -> R) : RealOps R :=
  mkOps 1%R (fun x y => rnd (x + y)%R) (fun x y => rnd (x - y)%R)
        (fun x y => rnd (x / y)%R).

(** The reals without rounding. *)
Definition exact_ops : RealOps R := rounded_ops (fun x => x).

(** ** Kokkos views of rank one *)

Module View.

(** [v(i)] for an [int] index: defined inside the extent only. *)
Definition get {A} (v : list A) (i : Z) : Res A :=
  if i <? 0 then Undefined
  else match v !! Z.to_nat i with Some x => Ok x | None => Undefined end.

(** [v(i) = x] for an [int] index: defined inside the extent only. *)
Definition set {A} (v : list A) (i : Z) (x : A) : Res (list A) :=
  if i <? 0 then Undefined
  else if (Z.to_nat i <? length v)%nat then Ok (<[Z.to_nat i := x]> v)
  else Undefined.

(** [view_1d<T>(label, n)]: Kokkos value-initialises the [n] entries. *)
Definition alloc {A} (zero : A) (n : Z) : list A := replicate (Z.to_nat n) zero.

(** [v.extent(0)] *)
Definition extent {A} (v : list A) : Z := Z.of_nat (length v).

(** [Kokkos::deep_copy(dst, src)]: the extents must agree (a run-time error
    otherwise); [dst] then holds the entries of [src]. *)
Definition deep_copy {A} (dst src : list A) : Res (list A) :=
  if extent dst =? extent src then Ok src else Fatal.

(** Where a view lives.  [view_1d<Real>] is a view of the default device;
    its memory is the host's in a CPU build and the accelerator's otherwise. *)
Inductive MemorySpace := HostSpace | DeviceSpace.

(** [Kokkos::create_mirror_view(v)]: [v] itself when the host can reach its
    memory, a new value-initialised host view of the same extent otherwise.
    The entries of [v] are not copied. *)
Definition create_mirror_view {A} (zero : A) (space : MemorySpace) (v : list A)
  : list A :=
  match space with
  | HostSpace => v
  | DeviceSpace => alloc zero (extent v)
  end.

(** A [KOKKOS_LAMBDA] written in a member function reads the members through
    the captured [this], which points to the object in host memory: the
    reads are defined where the kernel runs on the host, and undefined in a
    kernel that runs on a device with a memory of its own. *)
Definition read_members (space : MemorySpace) : Res unit :=
  match space with
  | HostSpace => Ok ()
  | DeviceSpace => Undefined
  end.

End View.

(** [std::vector] *)
Module Vec.

(** [v[i]] for a loop counter *)
Definition at_ {A} (v : list A) (i : nat) : Res A :=
  match v !! i with Some x => Ok x | None => Undefined end.

Definition push_back {A} (v : list A) (x : A) : list A := v ++ [x].

(** [v.back()] *)
Definition back {A} (v : list A) : Res A :=
  match last v with Some x => Ok x | None => Undefined end.

(** [v.back() = x] *)
Definition set_back {A} (v : list A) (x : A) : list A := <[pred (length v) := x]> v.

(** [std::find(v.begin(), v.end(), x) - v.begin()]: the first position of
    [x], the size of [v] when [x] does not occur. *)
Fixpoint find_pos (v : list Z) (x : Z) : Z :=
  match v with
  | [] => 0
  | y :: v => if y =? x then 0 else 1 + find_pos v x
  end.

(** [std::sort(v.begin(), v.end())] on integers *)
Definition sort (v : list Z) : list Z := merge_sort Z.le v.

End Vec.

(** ** set_remap_segments_from_file: distribution of the [n_s] rows *)

Module Partition.

(** The chunk of rank [my_rank]:
<<
    int my_chunk  = remap_size/num_ranks;
    int remainder = remap_size - (my_chunk*num_ranks);
    if (remainder != 0) { my_chunk += my_rank<remainder ? 1 : 0; }
>>
    ([/] on [int] truncates: [Z.quot]). *)
Definition my_chunk (remap_size num_ranks my_rank : Z) : Z :=
  let my_chunk := remap_size ÷ num_ranks in
  let remainder := remap_size - my_chunk * num_ranks in
  if negb (remainder =? 0)
  then my_chunk + (if my_rank <? remainder then 1 else 0)
  else my_chunk.

(** [m_comm.all_gather(&my_chunk,chunks_glob,1)]: entry [r] is the value
    computed on rank [r]. *)
Definition all_gather (num_ranks : Z) (on_rank : Z -> Z) : list Z :=
  map (fun r : nat => on_rank (Z.of_nat r)) (seq 0 (Z.to_nat num_ranks)).

Definition chunks_glob (remap_size num_ranks : Z) : list Z :=
  all_gather num_ranks (my_chunk remap_size num_ranks).

(** [for (int ii=0; ii<n; ii++) acc += chunks_glob[ii];] *)
Definition sum_first (chunks : list Z) (n : Z) : Z :=
  fold_left (fun acc (ii : nat) => acc + default 0 (chunks !! ii))
            (seq 0 (Z.to_nat n)) 0.

Definition my_start (remap_size num_ranks my_rank : Z) : Z :=
  sum_first (chunks_glob remap_size num_ranks) my_rank.

Definition chunk_check (remap_size num_ranks : Z) : Z :=
  sum_first (chunks_glob remap_size num_ranks) num_ranks.

(** The condition of the [EKAT_REQUIRE_MSG] that guards the distribution. *)
Definition chunks_cover (remap_size num_ranks : Z) : bool :=
  chunk_check remap_size num_ranks =? remap_size.

End Partition.

(** ** set_remap_segments_from_file: grouping of the rows of a chunk *)

Module Grouping.

(** The three vectors of step 2 and the running minimum. *)
Record Chunks := mkChunks {
  chunk_dof : list Z;
  chunk_start : list Z;
  chunk_len : list Z;
  remap_min_dof : Z
}.

(** The body of [for (int ii=1; ii<my_chunk; ii++)]. *)
Definition group_step (tgt_col_h : list Z) (my_start : Z) (st : Chunks) (ii : nat)
  : Res Chunks :=
  t ← View.get tgt_col_h (Z.of_nat ii);
  let min_dof := Z.min t (remap_min_dof st) in
  last_dof ← Vec.back (chunk_dof st);
  if t =? last_dof then
    last_len ← Vec.back (chunk_len st);
    Ok (mkChunks (chunk_dof st) (chunk_start st)
                 (Vec.set_back (chunk_len st) (last_len + 1)) min_dof)
  else
    Ok (mkChunks (Vec.push_back (chunk_dof st) t)
                 (Vec.push_back (chunk_start st) (my_start + Z.of_nat ii))
                 (Vec.push_back (chunk_len st) 1) min_dof).

(** Step 2 on the rows [tgt_col_h] read by this rank:
<<
    chunk_dof.push_back(tgt_col_h(0));
    chunk_start.push_back(my_start);
    chunk_len.push_back(1);
    int remap_min_dof = tgt_col_h(0);
    for (int ii=1; ii<my_chunk; ii++) { ... }
>> *)
Definition group_rows (tgt_col_h : list Z) (my_start my_chunk : Z) : Res Chunks :=
  t0 ← View.get tgt_col_h 0;
  for_each (group_step tgt_col_h my_start) (range 1 my_chunk)
           (mkChunks [t0] [my_start] [1] t0).

(** Steps 1 and 2 on rank [my_rank], [row] being the variable of the file:
    the view [tgt_col] has extent [my_chunk] and receives the rows
    [my_start, my_start + my_chunk) of the file. *)
Definition read_rows (row : list Z) (my_start my_chunk : Z) : list Z :=
  take (Z.to_nat my_chunk) (drop (Z.to_nat my_start) row).

Definition group_on_rank (row : list Z) (num_ranks my_rank : Z) : Res Chunks :=
  let remap_size := View.extent row in
  let my_chunk := Partition.my_chunk remap_size num_ranks my_rank in
  let my_start := Partition.my_start remap_size num_ranks my_rank in
  _ ← require (Partition.chunks_cover remap_size num_ranks);
  group_rows (read_rows row my_start my_chunk) my_start my_chunk.

End Grouping.

(** ** GSSegment *)

Open Scope R_scope.

(** The segment, for the type [Real] of its weights. *)
Record GSSegment_ (Real : Type) := mkSegment {
  m_dof : Z;
  m_length : Z;
  m_source_dofs : list Z;
  m_source_idx : list Z;
  m_weights : list Real;
  (** set by [set_dof_idx] only; [None] until then *)
  m_dof_idx : option Z
}.
Arguments mkSegment {Real}.
Arguments m_dof {Real}.
Arguments m_length {Real}.
Arguments m_source_dofs {Real}.
Arguments m_source_idx {Real}.
Arguments m_weights {Real}.
Arguments m_dof_idx {Real}.

(** With real weights, for what a remap computes. *)
Abbreviation GSSegment := (GSSegment_ R).

Module Segment.

(** [GSSegment(dof_gid, length)] *)
Definition new (dof_gid length : Z) : GSSegment :=
  mkSegment dof_gid length (View.alloc 0%Z length) (View.alloc 0%Z length)
            (View.alloc 0 length) None.

(** [GSSegment(dof_gid, length, source_dofs, weights)] *)
Definition make (dof_gid length : Z) (source_dofs : list Z) (weights : list R)
  : Res GSSegment :=
  sd ← View.deep_copy (View.alloc 0%Z length) source_dofs;
  w ← View.deep_copy (View.alloc 0 length) weights;
  Ok (mkSegment dof_gid length sd (View.alloc 0%Z length) w None).

Definition set_dof_idx (seg : GSSegment) (ii : Z) : GSSegment :=
  mkSegment (m_dof seg) (m_length seg) (m_source_dofs seg) (m_source_idx seg)
            (m_weights seg) (Some ii).

Definition get_dof_idx (seg : GSSegment) : Res Z :=
  match m_dof_idx seg with Some ii => Ok ii | None => Undefined end.

Definition set_source_idx (seg : GSSegment) (idx : list Z) : GSSegment :=
  mkSegment (m_dof seg) (m_length seg) (m_source_dofs seg) idx
            (m_weights seg) (m_dof_idx seg).

(** [apply_segment]: the reduction
<<
    Kokkos::parallel_reduce(label, m_length, KOKKOS_LAMBDA (const int& ii, Real& loc) {
      Int idx = m_source_idx(ii);
      loc += source_data(idx)*m_weights(ii);
    },remapped_value);
>>
    starts from zero and overwrites [remapped_value] with the sum. *)
Definition apply_segment (space : View.MemorySpace) (seg : GSSegment)
    (source_data : list R) : Res R :=
  _ ← View.read_members space;
  for_each (fun loc ii =>
              idx ← View.get (m_source_idx seg) (Z.of_nat ii);
              s ← View.get source_data idx;
              w ← View.get (m_weights seg) (Z.of_nat ii);
              Ok (loc + s * w))
           (range 0 (m_length seg)) 0.

(** [check], on the doubles that the weights are:
<<
    Real wgt = 0.0;
    Kokkos::parallel_reduce(label, m_length, KOKKOS_LAMBDA (const int& ii, Real& lsum) {
      lsum += m_weights(ii);
    },wgt);
    Real tol = std::numeric_limits<Real>::epsilon() * 100.0;
    if (std::abs(wgt-1.0)>=tol) { ...; return false; }
    return true;
>> *)
Definition check (seg : GSSegment_ Binary64.double) : Res bool :=
  _ ← require (View.extent (m_source_dofs seg) =? m_length seg)%Z;
  _ ← require (View.extent (m_weights seg) =? m_length seg)%Z;
  _ ← require (View.extent (m_source_idx seg) =? m_length seg)%Z;
  wgt ← for_each (fun lsum ii =>
                    w ← View.get (m_weights seg) (Z.of_nat ii);
                    Ok (Binary64.add lsum w))
                 (range 0 (m_length seg)) (Binary64.of_Z 0);
  let tol := Binary64.mul Binary64.epsilon (Binary64.of_Z 100) in
  if Binary64.ge (Binary64.abs (Binary64.sub wgt (Binary64.of_Z 1))) tol
  then Ok false
  else Ok true.

End Segment.

Close Scope R_scope.

(** ** GSMap *)

(** The map, for the type [Real] of the weights of its segments. *)
Record GSMap_ (Real : Type) := mkMap {
  m_dofs_set : bool;
  m_dofs_gids : list Z;
  m_num_dofs : Z;
  m_map_segments : list (GSSegment_ Real);
  m_num_segments : Z;
  m_unique_dofs : list Z;
  m_unique_set : bool
}.
Arguments mkMap {Real}.
Arguments m_dofs_set {Real}.
Arguments m_dofs_gids {Real}.
Arguments m_num_dofs {Real}.
Arguments m_map_segments {Real}.
Arguments m_num_segments {Real}.
Arguments m_unique_dofs {Real}.
Arguments m_unique_set {Real}.

(** With real weights, for what a remap computes. *)
Abbreviation GSMap := (GSMap_ R).

Module Map.

(** [GSMap(comm)]: no DOF, no segment, nothing resolved. *)
Definition new : GSMap := mkMap false [] 0 [] 0 [] false.

(** [set_dof_gids] *)
Definition set_dof_gids (m : GSMap) (dofs_gids : list Z) (min_dof : Z) : Res GSMap :=
  _ ← require (0 <? View.extent dofs_gids);
  Ok (mkMap true (map (fun d => d - min_dof) dofs_gids) (View.extent dofs_gids)
            (m_map_segments m) (m_num_segments m)
            (m_unique_dofs m) (m_unique_set m)).

(** The first loop of [set_unique_source_dofs]: the source DOFs of all
    segments, each kept at its first occurrence. *)
Definition collect_segment (seg : GSSegment) (unique_dofs : list Z) : Res (list Z) :=
  for_each (fun u ii =>
              d ← View.get (m_source_dofs seg) (Z.of_nat ii);
              if Vec.find_pos u d =? View.extent u
              then Ok (Vec.push_back u d) else Ok u)
           (range 0 (m_length seg)) unique_dofs.

Definition collect_unique (segs : list GSSegment) (num_segments : Z) : Res (list Z) :=
  for_each (fun u iseg => seg ← Vec.at_ segs iseg; collect_segment seg u)
           (range 0 num_segments) [].

(** [for (int ii=0; ii<m_num_dofs; ii++) if (seg_dof == dofs_gids_h(ii)) {...; break;}] *)
Fixpoint scan_dofs (dofs_gids_h : list Z) (seg_dof : Z) (iis : list nat)
  : Res (option Z) :=
  match iis with
  | [] => Ok None
  | ii :: iis =>
      g ← View.get dofs_gids_h (Z.of_nat ii);
      if seg_dof =? g then Ok (Some (Z.of_nat ii))
      else scan_dofs dofs_gids_h seg_dof iis
  end.

(** The body of the second loop of [set_unique_source_dofs]. *)
Definition resolve_segment (dofs_gids : list Z) (num_dofs : Z)
    (unique_dofs : list Z) (seg : GSSegment) : Res GSSegment :=
  found ← scan_dofs dofs_gids (m_dof seg) (range 0 num_dofs);
  match found with
  | None => Fatal
  | Some ii =>
      let seg := Segment.set_dof_idx seg ii in
      src_idx ← for_each (fun src_idx_h ii =>
                            dof ← View.get (m_source_dofs seg) (Z.of_nat ii);
                            View.set src_idx_h (Z.of_nat ii)
                                     (Vec.find_pos unique_dofs dof))
                         (range 0 (m_length seg)) (m_source_idx seg);
      Ok (Segment.set_source_idx seg src_idx)
  end.

(** [set_unique_source_dofs] *)
Definition set_unique_source_dofs (m : GSMap) : Res GSMap :=
  unique_dofs ← collect_unique (m_map_segments m) (m_num_segments m);
  let unique_dofs := Vec.sort unique_dofs in
  segs ← for_each (fun segs iseg =>
                     seg ← Vec.at_ segs iseg;
                     seg' ← resolve_segment (m_dofs_gids m) (m_num_dofs m)
                                             unique_dofs seg;
                     Ok (<[iseg := seg']> segs))
                  (range 0 (m_num_segments m)) (m_map_segments m);
  Ok (mkMap (m_dofs_set m) (m_dofs_gids m) (m_num_dofs m)
            segs (m_num_segments m) unique_dofs true).

(** [for (int iseg=0; iseg<m_num_segments; iseg++) if (...) { match_loc = iseg; break; }] *)
Fixpoint scan_match (segs : list GSSegment) (seg_dof : Z) (iis : list nat) : Res Z :=
  match iis with
  | [] => Ok (-999)
  | iseg :: iis =>
      seg_ii ← Vec.at_ segs iseg;
      if m_dof seg_ii =? seg_dof then Ok (Z.of_nat iseg)
      else scan_match segs seg_dof iis
  end.

(** [parallel_for(label, len, [&](ii) { dst(ii+offset) = src(ii); })] *)
Definition copy_into {A} (dst src : list A) (offset len : Z) : Res (list A) :=
  for_each (fun dst ii =>
              x ← View.get src (Z.of_nat ii);
              View.set dst (Z.of_nat ii + offset) x)
           (range 0 len) dst.

(** The combined segment that replaces [seg_match]. *)
Definition combine (seg_match seg : GSSegment) : Res GSSegment :=
  let seg_dof := m_dof seg in
  let new_length := m_length seg + m_length seg_match in
  let new_seg := Segment.new seg_dof new_length in
  let match_len := m_length seg_match in
  sd ← copy_into (m_source_dofs new_seg) (m_source_dofs seg_match) 0 match_len;
  si ← copy_into (m_source_idx new_seg) (m_source_idx seg_match) 0 match_len;
  w ← copy_into (m_weights new_seg) (m_weights seg_match) 0 match_len;
  let seg_len := m_length seg in
  sd ← copy_into sd (m_source_dofs seg) match_len seg_len;
  si ← copy_into si (m_source_idx seg) match_len seg_len;
  w ← copy_into w (m_weights seg) match_len seg_len;
  Ok (mkSegment seg_dof new_length sd si w (m_dof_idx new_seg)).

(** [add_remap_segment] *)
Definition add_remap_segment (m : GSMap) (seg : GSSegment) : Res GSMap :=
  let seg_dof := m_dof seg in
  match_loc ← scan_match (m_map_segments m) seg_dof (range 0 (m_num_segments m));
  segs ← (if match_loc =? -999 then Ok (Vec.push_back (m_map_segments m) seg)
          else
            seg_match ← View.get (m_map_segments m) match_loc;
            new_seg ← combine seg_match seg;
            Ok (<[Z.to_nat match_loc := new_seg]> (m_map_segments m)));
  let m' := mkMap (m_dofs_set m) (m_dofs_gids m) (m_num_dofs m)
                  segs (View.extent segs) (m_unique_dofs m) (m_unique_set m) in
  if m_unique_set m' then set_unique_source_dofs m' else Ok m'.

(** [apply_remap] on views that live in [space]. *)
Definition apply_remap (space : View.MemorySpace) (m : GSMap)
    (source_data remapped_data : list R) : Res (list R) :=
  if m_num_dofs m =? 0 then Ok remapped_data
  else
    let remapped_data_h := View.create_mirror_view 0%R space remapped_data in
    h ← for_each (fun h iseg =>
                    seg ← Vec.at_ (m_map_segments m) iseg;
                    seg_dof_idx ← Segment.get_dof_idx seg;
                    _ ← View.get h seg_dof_idx;
                    v ← Segment.apply_segment space seg source_data;
                    View.set h seg_dof_idx v)
                 (range 0 (m_num_segments m)) remapped_data_h;
    View.deep_copy remapped_data h.

(** [check]: the DOFs are set and every segment passes its own check. *)
Definition check (m : GSMap_ Binary64.double) : Res unit :=
  _ ← require (m_dofs_set m);
  for_each (fun _ iseg =>
              seg ← Vec.at_ (m_map_segments m) iseg;
              seg_check ← Segment.check seg;
              require seg_check)
           (range 0 (View.extent (m_map_segments m))) ().

End Map.

(** ** Well-formed segments and maps *)

(** The three views of a segment have its declared length (what [check]
    requires and both constructors establish). *)
Definition seg_wf {Real} (seg : GSSegment_ Real) : Prop :=
  (0 <= m_length seg
   /\ View.extent (m_source_dofs seg) = m_length seg
   /\ View.extent (m_source_idx seg) = m_length seg
   /\ View.extent (m_weights seg) = m_length seg)%Z.

(** The counters of a map agree with its containers, and its segments are
    well formed. *)
Definition map_wf (m : GSMap) : Prop :=
  m_num_segments m = View.extent (m_map_segments m)
  /\ m_num_dofs m = View.extent (m_dofs_gids m)
  /\ Forall seg_wf (m_map_segments m).

(** The segments held for the target DOF [d]. *)
Definition segments_for (m : GSMap) (d : Z) : list GSSegment :=
  filter (fun seg => m_dof seg = d) (m_map_segments m).

(** The weighted sum of a segment over [source_data], entry by entry. *)
Definition weighted_sum (seg : GSSegment) (source_data : list R) : R :=
  foldr Rplus 0%R
        (zip_with (fun idx w => (default 0%R (source_data !! Z.to_nat idx) * w)%R)
                  (m_source_idx seg) (m_weights seg)).

(** The sum that [check] accumulates: from [0.0], the weights added one
    after the other in index order. *)
Definition accumulated (ws : list Binary64.double) : Binary64.double :=
  fold_left Binary64.add ws (Binary64.of_Z 0).

(** The exact sum of weights that are finite; nothing when one of them is
    an infinity or not a number. *)
Definition exact_sum (ws : list Binary64.double) : option R :=
  foldr (fun w acc => x ← Binary64.to_R w; s ← acc; Some (x + s)%R) (Some 0%R) ws.

(** [std::abs(wgt-1.0) >= tol], for [tol] the machine epsilon times
    [100.0]. *)
Definition off_unity (wgt : Binary64.double) : bool :=
  Binary64.ge (Binary64.abs (Binary64.sub wgt (Binary64.of_Z 1)))
              (Binary64.mul Binary64.epsilon (Binary64.of_Z 100)).

(** What resolution leaves alone in a segment: its target DOF, its length,
    its source DOFs and its weights. *)
Definition seg_core (seg : GSSegment) : Z * Z * list Z * list R :=
  (m_dof seg, m_length seg, m_source_dofs seg, m_weights seg).

(** Every segment of [segs] targets a DOF of the local list of [m]. *)
Definition local_targets (m : GSMap) (segs : list GSSegment) : Prop :=
  forall seg, seg ∈ segs -> m_dof seg ∈ m_dofs_gids m.

(** [dof_idx] is the first position of the target DOF in the local list. *)
Definition dof_idx_resolved (m : GSMap) (seg : GSSegment) : Prop :=
  exists k : nat,
    m_dof_idx seg = Some (Z.of_nat k)
    /\ m_dofs_gids m !! k = Some (m_dof seg)
    /\ forall j : nat, (j < k)%nat -> m_dofs_gids m !! j <> Some (m_dof seg).

(** Every [source_idx] entry is a valid index of the unique list, at which
    the unique list holds the source DOF of the same position. *)
Definition source_idx_resolved (m : GSMap) (seg : GSSegment) : Prop :=
  length (m_source_idx seg) = length (m_source_dofs seg)
  /\ forall (i : nat) idx, m_source_idx seg !! i = Some idx ->
       (0 <= idx < View.extent (m_unique_dofs m))%Z
       /\ m_unique_dofs m !! Z.to_nat idx = m_source_dofs seg !! i.

(** The state after [set_unique_source_dofs]. *)
Definition resolved (m : GSMap) : Prop :=
  m_unique_set m = true
  /\ StronglySorted Z.lt (m_unique_dofs m)
  /\ (forall d, d ∈ m_unique_dofs m
                <-> exists seg, seg ∈ m_map_segments m /\ d ∈ m_source_dofs seg)
  /\ forall seg, seg ∈ m_map_segments m ->
       dof_idx_resolved m seg /\ source_idx_resolved m seg.

(** What the specification says of two calls of [add_remap_segment] with
    segments [s1] then [s2] for one target DOF: both return, and the map then
    holds exactly one segment for that DOF, whose length is the sum of the
    two lengths and whose source DOFs and weights are those of [s1] followed
    by those of [s2]. *)
Definition two_calls_merge (m : GSMap) (s1 s2 : GSSegment) : Prop :=
  exists m1 m2 s,
    Map.add_remap_segment m s1 = Ok m1
    /\ Map.add_remap_segment m1 s2 = Ok m2
    /\ segments_for m2 (m_dof s1) = [s]
    /\ m_length s = (m_length s1 + m_length s2)%Z
    /\ m_source_dofs s = m_source_dofs s1 ++ m_source_dofs s2
    /\ m_weights s = m_weights s1 ++ m_weights s2.

(** The segments of a map target pairwise different DOFs (what
    [add_remap_segment] maintains by merging). *)
Definition distinct_targets (m : GSMap) : Prop :=
  NoDup (map m_dof (m_map_segments m)).

(** [source_data] has an entry for every unique source DOF of the map and
    [remapped_data] one for every local DOF. *)
Definition buffers_fit (m : GSMap) (source_data remapped_data : list R) : Prop :=
  (View.extent (m_unique_dofs m) <= View.extent source_data
   /\ View.extent (m_dofs_gids m) <= View.extent remapped_data)%Z.

(** What the specification says of [apply_remap] on views that live in
    [space]: it returns, the entry at the [dof_idx] of every segment is the
    weighted sum of that segment, and every entry that is the [dof_idx] of no
    segment is the one of [remapped_data]. *)
Definition writes_only_targets (space : View.MemorySpace) (m : GSMap)
    (source_data remapped_data : list R) : Prop :=
  exists remapped,
    Map.apply_remap space m source_data remapped_data = Ok remapped
    /\ length remapped = length remapped_data
    /\ (forall seg, seg ∈ m_map_segments m ->
          exists k : nat, m_dof_idx seg = Some (Z.of_nat k)
                          /\ remapped !! k = Some (weighted_sum seg source_data))
    /\ (forall i : nat,
          (forall seg, seg ∈ m_map_segments m -> m_dof_idx seg <> Some (Z.of_nat i)) ->
          remapped !! i = remapped_data !! i).

(** ** A small map *)

(** Two local DOFs, one segment for the first of them with two sources. *)
Definition example_unresolved : GSMap :=
  mkMap true [3; 4] 2
        [mkSegment 3 2 [7; 5] [0; 0] [0.5%R; 0.5%R] None] 1 [] false.

Definition example_map : GSMap :=
  mkMap true [3; 4] 2
        [mkSegment 3 2 [7; 5] [1; 0] [0.5%R; 0.5%R] (Some 0%Z)] 1 [5; 7] true.

Definition example_source : list R := [10%R; 20%R].
Definition example_target : list R := [1%R; 2%R].

(** * MAM coupling *)

(** ** Modes, species and gases *)

(** [mam4::AeroId], in the order of [aero_species_name]. *)
Inductive AeroId := SOA | SO4 | POM | BC | NaCl | DST | MOM | NoAero.

(** [mam4::ModeIndex] *)
Inductive ModeIndex := Accumulation | Aitken | Coarse | PrimaryCarbon | NoMode.

(** [mam4::GasId], in the order of [gas_species_name]. *)
Inductive GasId := O3 | H2O2 | H2SO4 | SO2 | DMS | SOAG | NoGas.

#[global] Instance AeroId_eq_dec : EqDecision AeroId.
Proof. solve_decision. Defined.
#[global] Instance ModeIndex_eq_dec : EqDecision ModeIndex.
Proof. solve_decision. Defined.
#[global] Instance GasId_eq_dec : EqDecision GasId.
Proof. solve_decision. Defined.

(** [static_cast<int>(aero_id)] *)
Definition aero_id_to_int (a : AeroId) : Z :=
  match a with
  | SOA => 0 | SO4 => 1 | POM => 2 | BC => 3 | NaCl => 4 | DST => 5 | MOM => 6
  | NoAero => 7
  end.

(** [static_cast<int>(mode_index)] *)
Definition mode_to_int (m : ModeIndex) : Z :=
  match m with
  | Accumulation => 0 | Aitken => 1 | Coarse => 2 | PrimaryCarbon => 3 | NoMode => 4
  end.

(** [static_cast<int>(gas_id)] *)
Definition gas_to_int (g : GasId) : Z :=
  match g with
  | O3 => 0 | H2O2 => 1 | H2SO4 => 2 | SO2 => 3 | DMS => 4 | SOAG => 5 | NoGas => 6
  end.

Definition num_aero_modes : Z := 4.
Definition num_aero_species : Z := 7.
Definition num_aero_gases : Z := 6.
Definition num_aero_tracers : Z := 7 + 4 + 7 + 3.

(** The mode-species registry [mam4::mode_aero_species(mode, species)]: the
    species at position [species] of mode [mode], [NoAero] past the last
    species of the mode.  The header that holds the table is not part of the
    sources at hand; the operations below take it as an argument. *)
Definition Registry := Z -> Z -> AeroId.

(** ** Field names *)

Module FieldNames.

(** A C array of names indexed by a compile-time range. *)
Definition name_at (names : list string) (i : Z) : Res string := View.get names i.

Definition aero_mode_name (mode : Z) : Res string :=
  name_at ["1"; "2"; "3"; "4"]%string mode.

Definition aero_species_name (species_id : Z) : Res string :=
  name_at ["soa"; "so4"; "pom"; "bc"; "nacl"; "dst"; "mom"]%string species_id.

Definition gas_species_name (gas_id : Z) : Res string :=
  name_at ["O3"; "H2O2"; "H2SO4"; "SO2"; "DMS"; "SOAG"]%string gas_id.

(** [gpu_strlen] *)
Definition gpu_strlen (s : string) : nat := String.length s.

(** [concat_2_strings], [concat_3_strings]: the bytes of the arguments one
    after the other, then the terminator. *)
Definition concat_2_strings (s1 s2 : string) : string := String.append s1 s2.
Definition concat_3_strings (s1 s2 s3 : string) : string :=
  String.append s1 (String.append s2 s3).

(** [!buffer[0]]: the buffer holds no name yet. *)
Definition is_blank (s : string) : bool :=
  match s with
  | EmptyString => true
  | String c _ => Ascii.eqb c Ascii.zero
  end.

(** The static buffers that memoise the names, one per mode for the number
    mixing ratios and one per mode and species for the mass mixing ratios;
    all of them blank when the program starts. *)
Record NameCache := mkCache {
  int_aero_nmr_names_ : Z -> string;
  cld_aero_nmr_names_ : Z -> string;
  int_aero_mmr_names_ : Z -> Z -> string;
  cld_aero_mmr_names_ : Z -> Z -> string
}.

Definition blank_cache : NameCache :=
  mkCache (fun _ => EmptyString) (fun _ => EmptyString)
          (fun _ _ => EmptyString) (fun _ _ => EmptyString).

Definition upd1 (f : Z -> string) (i : Z) (s : string) : Z -> string :=
  fun i' => if i' =? i then s else f i'.

Definition upd2 (f : Z -> Z -> string) (i j : Z) (s : string) : Z -> Z -> string :=
  fun i' j' => if (i' =? i) && (j' =? j) then s else f i' j'.

(** The index of a static array is inside its bounds. *)
Definition in_bounds (i n : Z) : Res unit :=
  if (0 <=? i) && (i <? n) then Ok () else Undefined.

Definition int_aero_nmr_field_name (c : NameCache) (mode : Z)
  : Res (string * NameCache) :=
  _ ← in_bounds mode num_aero_modes;
  if is_blank (int_aero_nmr_names_ c mode) then
    md ← aero_mode_name mode;
    let name := concat_2_strings "num_a" md in
    Ok (name, mkCache (upd1 (int_aero_nmr_names_ c) mode name) (cld_aero_nmr_names_ c)
                      (int_aero_mmr_names_ c) (cld_aero_mmr_names_ c))
  else Ok (int_aero_nmr_names_ c mode, c).

Definition cld_aero_nmr_field_name (c : NameCache) (mode : Z)
  : Res (string * NameCache) :=
  _ ← in_bounds mode num_aero_modes;
  if is_blank (cld_aero_nmr_names_ c mode) then
    md ← aero_mode_name mode;
    let name := concat_2_strings "num_c" md in
    Ok (name, mkCache (int_aero_nmr_names_ c) (upd1 (cld_aero_nmr_names_ c) mode name)
                      (int_aero_mmr_names_ c) (cld_aero_mmr_names_ c))
  else Ok (cld_aero_nmr_names_ c mode, c).

Definition int_aero_mmr_field_name (mode_aero_species : Registry) (c : NameCache)
    (mode species : Z) : Res (string * NameCache) :=
  _ ← in_bounds mode num_aero_modes;
  _ ← in_bounds species num_aero_species;
  if is_blank (int_aero_mmr_names_ c mode species) then
    let aero_id := mode_aero_species mode species in
    if bool_decide (aero_id <> NoAero) then
      sp ← aero_species_name (aero_id_to_int aero_id);
      md ← aero_mode_name mode;
      let name := concat_3_strings sp "_a" md in
      Ok (name, mkCache (int_aero_nmr_names_ c) (cld_aero_nmr_names_ c)
                        (upd2 (int_aero_mmr_names_ c) mode species name)
                        (cld_aero_mmr_names_ c))
    else Ok (int_aero_mmr_names_ c mode species, c)
  else Ok (int_aero_mmr_names_ c mode species, c).

Definition cld_aero_mmr_field_name (mode_aero_species : Registry) (c : NameCache)
    (mode species : Z) : Res (string * NameCache) :=
  _ ← in_bounds mode num_aero_modes;
  _ ← in_bounds species num_aero_species;
  if is_blank (cld_aero_mmr_names_ c mode species) then
    let aero_id := mode_aero_species mode species in
    if bool_decide (aero_id <> NoAero) then
      sp ← aero_species_name (aero_id_to_int aero_id);
      md ← aero_mode_name mode;
      let name := concat_3_strings sp "_c" md in
      Ok (name, mkCache (int_aero_nmr_names_ c) (cld_aero_nmr_names_ c)
                        (int_aero_mmr_names_ c)
                        (upd2 (cld_aero_mmr_names_ c) mode species name))
    else Ok (cld_aero_mmr_names_ c mode species, c)
  else Ok (cld_aero_mmr_names_ c mode species, c).

Definition gas_mmr_field_name (gas : Z) : Res string := gas_species_name gas.

(** The name that the specification gives to the mass mixing ratio of the
    species at position [species] of mode [mode]: the species, the tag
    ("_a" interstitial, "_c" cloudborne), the one-based mode; no name when
    the mode has no species at that position. *)
Definition species_label (a : AeroId) : string :=
  match a with
  | SOA => "soa" | SO4 => "so4" | POM => "pom" | BC => "bc"
  | NaCl => "nacl" | DST => "dst" | MOM => "mom" | NoAero => EmptyString
  end.

Definition mode_label (mode : Z) : string :=
  if mode =? 0 then "1" else if mode =? 1 then "2"
  else if mode =? 2 then "3" else "4".

Definition mmr_name (mode_aero_species : Registry) (tag : string) (mode species : Z)
  : string :=
  match mode_aero_species mode species with
  | NoAero => EmptyString
  | a => String.append (species_label a) (String.append tag (mode_label mode))
  end.

(** Every buffer is blank or holds the name of its slot. *)
Definition cache_ok (mode_aero_species : Registry) (c : NameCache) : Prop :=
  forall mode species,
    (int_aero_mmr_names_ c mode species = EmptyString
     \/ int_aero_mmr_names_ c mode species = mmr_name mode_aero_species "_a" mode species)
    /\ (cld_aero_mmr_names_ c mode species = EmptyString
        \/ cld_aero_mmr_names_ c mode species = mmr_name mode_aero_species "_c" mode species).

End FieldNames.

(** The registry of MAM4.
    Modelled from the spec: the table of [mam4::mode_aero_species] lives in
    the aerosol library, outside the sources at hand; the specification says
    that not every mode contains every species, and the coupling header
    fixes the species of each mode (7, 4, 7 and 3 of them, at the first
    positions of the mode). *)
Definition mam4_mode_aero_species : Registry := fun mode species =>
  default NoAero
    (row ← [ [SOA; SO4; POM; BC; NaCl; DST; MOM];
             [SOA; SO4; NaCl; MOM];
             [SOA; SO4; POM; BC; NaCl; DST; MOM];
             [POM; BC; MOM] ] !! Z.to_nat mode;
     row !! Z.to_nat species).

(** ** The scratch buffer *)

Module ScratchBuffer.

(** The members of [Buffer] that are views. *)
Inductive BufferField :=
| z_mid | dz | qv_dry | qc_dry | nc_dry | qi_dry | ni_dry | w_updraft
| dry_int_aero_nmr (m : nat)
| dry_cld_aero_nmr (m : nat)
| dry_int_aero_mmr (m a : nat)
| dry_cld_aero_mmr (m a : nat)
| dry_gas_mmr (g : nat)
| scratch (i : nat)
| z_iface.

#[global] Instance BufferField_eq_dec : EqDecision BufferField.
Proof. solve_decision. Defined.

(** An unmanaged view of rank two: where its data starts (an address
    counted in [Real]s; none for a view that was never bound) and its two
    extents. *)
Record uview_2d := mkView {
  v_data : option Z;
  v_extent0 : Z;
  v_extent1 : Z
}.

Definition unbound : uview_2d := mkView None 0 0.

(** [view.size()] *)
Definition size (v : uview_2d) : Z := v_extent0 v * v_extent1 v.

Record Buffer := mkBuffer {
  views : BufferField -> uview_2d;
  wsm_data : option Z
}.

Definition num_2d_scratch : Z := 10.

Definition num_2d_mid : Z :=
  8 + 2 * (num_aero_modes + num_aero_tracers) + num_aero_gases + num_2d_scratch.

Definition num_2d_iface : Z := 1.

(** [buffer_size], [sizeof_Real] being [sizeof(Real)]:
<<
    return sizeof(Real) *
      (Buffer::num_2d_mid * ncol * nlev +
       Buffer::num_2d_iface * ncol * (nlev+1));
>>
    The sum in parentheses is computed in [int], converted to [size_t] and
    multiplied there. *)
Definition buffer_size (sizeof_Real : Z) (ncol nlev : Z) : Z :=
  CInt.size_mul sizeof_Real
    (CInt.to_size_t
       (CInt.add (CInt.mul (CInt.mul num_2d_mid ncol) nlev)
                 (CInt.mul (CInt.mul num_2d_iface ncol) (CInt.add nlev 1)))).

(** The number of [Real]s in the views of a buffer of [ncol] columns and
    [nlev] levels. *)
Definition num_reals (ncol nlev : Z) : Z :=
  num_2d_mid * (ncol * nlev) + num_2d_iface * (ncol * (nlev + 1)).

(** The initialiser of [view_2d_mid_ptrs]. *)
Definition mid_ptrs_init : list BufferField :=
  [ z_mid; dz; qv_dry; qc_dry; nc_dry; qi_dry; ni_dry; w_updraft;
    dry_int_aero_nmr 0; dry_int_aero_nmr 1; dry_int_aero_nmr 2; dry_int_aero_nmr 3;
    dry_cld_aero_nmr 0; dry_cld_aero_nmr 1; dry_cld_aero_nmr 2; dry_cld_aero_nmr 3;
    dry_int_aero_mmr 0 0; dry_int_aero_mmr 0 1; dry_int_aero_mmr 0 2;
    dry_int_aero_mmr 0 3; dry_int_aero_mmr 0 4; dry_int_aero_mmr 0 5;
    dry_int_aero_mmr 0 6;
    dry_cld_aero_mmr 0 0; dry_cld_aero_mmr 0 1; dry_cld_aero_mmr 0 2;
    dry_cld_aero_mmr 0 3; dry_cld_aero_mmr 0 4; dry_cld_aero_mmr 0 5;
    dry_cld_aero_mmr 0 6;
    dry_int_aero_mmr 1 0; dry_int_aero_mmr 1 1; dry_int_aero_mmr 1 2;
    dry_int_aero_mmr 1 3;
    dry_cld_aero_mmr 1 0; dry_cld_aero_mmr 1 1; dry_cld_aero_mmr 1 2;
    dry_cld_aero_mmr 1 3;
    dry_int_aero_mmr 2 0; dry_int_aero_mmr 2 1; dry_int_aero_mmr 2 2;
    dry_int_aero_mmr 2 3; dry_int_aero_mmr 2 4; dry_int_aero_mmr 2 5;
    dry_int_aero_mmr 2 6;
    dry_cld_aero_mmr 2 0; dry_cld_aero_mmr 2 1; dry_cld_aero_mmr 2 2;
    dry_cld_aero_mmr 2 3; dry_cld_aero_mmr 2 4; dry_cld_aero_mmr 2 5;
    dry_cld_aero_mmr 2 6;
    dry_int_aero_mmr 3 0; dry_int_aero_mmr 3 1; dry_int_aero_mmr 3 2;
    dry_cld_aero_mmr 3 0; dry_cld_aero_mmr 3 1; dry_cld_aero_mmr 3 2;
    dry_gas_mmr 0; dry_gas_mmr 1; dry_gas_mmr 2; dry_gas_mmr 3; dry_gas_mmr 4;
    dry_gas_mmr 5 ].

(** The views that [view_2d_mid_ptrs] points to once the scratch fields are
    entered. *)
Definition mid_views : list BufferField := mid_ptrs_init ++ map scratch (seq 0 10).

(** [uview_2d* view_2d_mid_ptrs[Buffer::num_2d_mid] = { ... }]: the entries
    past the initialiser are null. *)
Definition mid_ptrs_array : list (option BufferField) :=
  map Some mid_ptrs_init
  ++ replicate (Z.to_nat num_2d_mid - length mid_ptrs_init) None.

(** [for (i < num_2d_scratch) view_2d_mid_ptrs[num_2d_mid+i-num_2d_scratch] = &buffer.scratch[i];] *)
Definition set_scratch_ptrs (ptrs : list (option BufferField))
  : Res (list (option BufferField)) :=
  for_each (fun ptrs i =>
              View.set ptrs (num_2d_mid + Z.of_nat i - num_2d_scratch)
                       (Some (scratch i)))
           (range 0 num_2d_scratch) ptrs.

Definition set_view (b : Buffer) (f : BufferField) (v : uview_2d) : Buffer :=
  mkBuffer (fun f' => if decide (f' = f) then v else views b f') (wsm_data b).

(** [for (i < n) { *ptrs[i] = view_2d(mem, ncol, extent1); mem += ptrs[i]->size(); }] *)
Definition bind_views (ptrs : list (option BufferField)) (n : Z) (ncol extent1 : Z)
    (st : Buffer * Z) : Res (Buffer * Z) :=
  for_each (fun '(buffer, mem) i =>
              p ← View.get ptrs (Z.of_nat i);
              match p with
              | None => Undefined
              | Some f =>
                  let buffer := set_view buffer f (mkView (Some mem) ncol extent1) in
                  Ok (buffer, mem + size (views buffer f))
              end)
           (range 0 n) st.

(** [init_buffer], [memory] being [buffer_manager.get_memory()]; the second
    component of the result is the number of bytes it returns. *)
Definition init_buffer (sizeof_Real : Z) (memory : Z) (ncol nlev : Z) (buffer : Buffer)
  : Res (Buffer * Z) :=
  let mem := memory in
  view_2d_mid_ptrs ← set_scratch_ptrs mid_ptrs_array;
  '(buffer, mem) ← bind_views view_2d_mid_ptrs num_2d_mid ncol nlev (buffer, mem);
  let view_2d_iface_ptrs := [Some z_iface] in
  '(buffer, mem) ← bind_views view_2d_iface_ptrs num_2d_iface ncol (nlev + 1)
                              (buffer, mem);
  let buffer := mkBuffer (views buffer) (Some mem) in
  Ok (buffer, (mem - memory) * sizeof_Real).

(** The views that stand for something: the eight midpoint fields of the dry
    atmosphere, the number mixing ratios of the four modes, the mass mixing
    ratios of the species of each mode (7, 4, 7 and 3 of them), the six
    gases, the ten scratch fields, and the interface field. *)
Definition species_in_mode (m : nat) : nat :=
  match m with 0 => 7 | 1 => 4 | 2 => 7 | 3 => 3 | _ => 0 end%nat.

Definition is_used_view (f : BufferField) : bool :=
  match f with
  | z_iface => true
  | dry_int_aero_nmr m | dry_cld_aero_nmr m => (m <? 4)%nat
  | dry_int_aero_mmr m a | dry_cld_aero_mmr m a => (a <? species_in_mode m)%nat
  | dry_gas_mmr g => (g <? 6)%nat
  | scratch i => (i <? 10)%nat
  | _ => true
  end.

(** The part of the arena that a bound view covers, [lo, hi). *)
Definition covers (v : uview_2d) (lo hi : Z) : Prop :=
  v_data v = Some lo /\ hi = lo + size v.

(** The views that [Buffer] declares. *)
Definition is_member (f : BufferField) : bool :=
  match f with
  | dry_int_aero_nmr m | dry_cld_aero_nmr m => (m <? 4)%nat
  | dry_int_aero_mmr m a | dry_cld_aero_mmr m a => (m <? 4)%nat && (a <? 7)%nat
  | dry_gas_mmr g => (g <? 6)%nat
  | scratch i => (i <? 10)%nat
  | _ => true
  end.

(** What the specification says of [init_buffer] on the views [all_views]:
    it returns [buffer_size] bytes, the size of [num_reals] values of type
    [Real]; every view is bound to a non-empty range of the arena, which
    starts at [memory] and holds that many values; the ranges of two views
    are disjoint; and the ranges follow one another without a gap (every
    [Real] of the arena is in the range of a view). *)
Definition binds_every_view (all_views : BufferField -> bool)
    (sizeof_Real memory ncol nlev : Z) (buffer : Buffer) : Prop :=
  exists buffer',
    init_buffer sizeof_Real memory ncol nlev buffer
    = Ok (buffer', buffer_size sizeof_Real ncol nlev)
    /\ buffer_size sizeof_Real ncol nlev = sizeof_Real * num_reals ncol nlev
    /\ (forall f, all_views f = true ->
          exists lo hi, covers (views buffer' f) lo hi
                        /\ memory <= lo /\ lo < hi
                        /\ hi <= memory + num_reals ncol nlev)
    /\ (forall f g lo hi lo' hi',
          all_views f = true -> all_views g = true -> f <> g ->
          covers (views buffer' f) lo hi -> covers (views buffer' g) lo' hi' ->
          hi <= lo' \/ hi' <= lo)
    /\ (forall a, memory <= a < memory + num_reals ncol nlev ->
          exists f lo hi, all_views f = true
                          /\ covers (views buffer' f) lo hi /\ lo <= a < hi).

(** A buffer none of whose views is bound. *)
Definition fresh_buffer : Buffer := mkBuffer (fun _ => unbound) None.

End ScratchBuffer.

(** ** Wet and dry mixing ratios *)

Module Coupling.

(** The thread team that runs a kernel: [team.league_rank()] is all that the
    kernels ask of it. *)
Record Team := mkTeam {
  league_rank : Z
}.

Section Views.
Context {Real : Type}.

(** A view of rank two over columns and levels: the entries of an allocated
    view, nothing for a view whose [data()] is null.  The extents are not
    modelled: the kernels touch the entries [(column_index, k)], [k] below
    the number of levels, which the host framework allocates. *)
Definition view_2d_ := option (nat -> nat -> Real).

(** [v.data() != nullptr] *)
Definition is_allocated (v : view_2d_) : bool :=
  match v with Some _ => true | None => false end.

(** [v(i,k)] *)
Definition rd (v : view_2d_) (i k : nat) : Res Real :=
  match v with Some f => Ok (f i k) | None => Undefined end.

Definition upd (f : nat -> nat -> Real) (i k : nat) (x : Real) : nat -> nat -> Real :=
  fun i' k' => if (i' =? i)%nat && (k' =? k)%nat then x else f i' k'.

(** [v(i,k) = x] *)
Definition wr (v : view_2d_) (i k : nat) (x : Real) : Res view_2d_ :=
  match v with Some f => Ok (Some (upd f i k x)) | None => Undefined end.

(** The mixing ratios of [WetAtmosphere] (its other member, [omega], plays
    no part below). *)
Record WetAtmosphere_ := mkWetAtm {
  wet_qv : view_2d_;
  wet_qc : view_2d_;
  wet_nc : view_2d_;
  wet_qi : view_2d_;
  wet_ni : view_2d_
}.

(** The mixing ratios of [DryAtmosphere]. *)
Record DryAtmosphere_ := mkDryAtm {
  dry_qv : view_2d_;
  dry_qc : view_2d_;
  dry_nc : view_2d_;
  dry_qi : view_2d_;
  dry_ni : view_2d_
}.

Record AerosolState_ := mkAero {
  int_aero_nmr : nat -> view_2d_;
  cld_aero_nmr : nat -> view_2d_;
  int_aero_mmr : nat -> nat -> view_2d_;
  cld_aero_mmr : nat -> nat -> view_2d_;
  gas_mmr : nat -> view_2d_
}.

End Views.

Arguments view_2d_ : clear implicits.
Arguments WetAtmosphere_ : clear implicits.
Arguments DryAtmosphere_ : clear implicits.
Arguments AerosolState_ : clear implicits.

(** The views and states with real entries. *)
Abbreviation view_2d := (view_2d_ R).
Abbreviation WetAtmosphere := (WetAtmosphere_ R).
Abbreviation DryAtmosphere := (DryAtmosphere_ R).
Abbreviation AerosolState := (AerosolState_ R).

(** The views of an [AerosolState], by name. *)
Inductive AeroField :=
| IntNmr (m : nat)
| CldNmr (m : nat)
| IntMmr (m a : nat)
| CldMmr (m a : nat)
| GasMmr (g : nat).

#[global] Instance AeroField_eq_dec : EqDecision AeroField.
Proof. solve_decision. Defined.

(** The views that the loops of the kernels name. *)
Definition named (d : AeroField) : bool :=
  match d with
  | IntNmr m | CldNmr m => (m <? 4)%nat
  | IntMmr m a | CldMmr m a => (m <? 4)%nat && (a <? 7)%nat
  | GasMmr g => (g <? 6)%nat
  end.

(** The views that the kernels convert without asking whether they are
    allocated. *)
Definition required (d : AeroField) : bool :=
  match d with
  | IntNmr m => (m <? 4)%nat
  | GasMmr g => (g <? 6)%nat
  | _ => false
  end.

Section Kernels.
Context {Real : Type} (ops : RealOps Real).

Definition get (st : AerosolState_ Real) (d : AeroField) : view_2d_ Real :=
  match d with
  | IntNmr m => int_aero_nmr st m
  | CldNmr m => cld_aero_nmr st m
  | IntMmr m a => int_aero_mmr st m a
  | CldMmr m a => cld_aero_mmr st m a
  | GasMmr g => gas_mmr st g
  end.

Definition set1 (f : nat -> view_2d_ Real) (m : nat) (v : view_2d_ Real)
  : nat -> view_2d_ Real :=
  fun m' => if (m' =? m)%nat then v else f m'.

Definition set2 (f : nat -> nat -> view_2d_ Real) (m a : nat) (v : view_2d_ Real)
  : nat -> nat -> view_2d_ Real :=
  fun m' a' => if (m' =? m)%nat && (a' =? a)%nat then v else f m' a'.

Definition set (st : AerosolState_ Real) (d : AeroField) (v : view_2d_ Real)
  : AerosolState_ Real :=
  match d with
  | IntNmr m => mkAero (set1 (int_aero_nmr st) m v) (cld_aero_nmr st)
                       (int_aero_mmr st) (cld_aero_mmr st) (gas_mmr st)
  | CldNmr m => mkAero (int_aero_nmr st) (set1 (cld_aero_nmr st) m v)
                       (int_aero_mmr st) (cld_aero_mmr st) (gas_mmr st)
  | IntMmr m a => mkAero (int_aero_nmr st) (cld_aero_nmr st)
                         (set2 (int_aero_mmr st) m a v) (cld_aero_mmr st) (gas_mmr st)
  | CldMmr m a => mkAero (int_aero_nmr st) (cld_aero_nmr st)
                         (int_aero_mmr st) (set2 (cld_aero_mmr st) m a v) (gas_mmr st)
  | GasMmr g => mkAero (int_aero_nmr st) (cld_aero_nmr st)
                       (int_aero_mmr st) (cld_aero_mmr st) (set1 (gas_mmr st) g v)
  end.

(** Modelled from the spec: [PF::calculate_drymmr_from_wetmmr] is defined in
    share/util/scream_common_physics_functions, which is not among the
    sources at hand; the specification gives the identity
    dry = wet / (1 - wet) with the wet water vapor as the factor. *)
Definition calculate_drymmr_from_wetmmr (wetmmr qv_wet : Real) : Real :=
  r_div ops wetmmr (r_sub ops (r_one ops) qv_wet).

(** Modelled from the spec: [PF::calculate_wetmmr_from_drymmr], from the same
    absent file; the specification calls it the inverse direction with the
    dry water vapor as the factor, that is wet = dry / (1 + qv_dry). *)
Definition calculate_wetmmr_from_drymmr (drymmr qv_dry : Real) : Real :=
  r_div ops drymmr (r_add ops (r_one ops) qv_dry).

(** [dst.X(i,k) = f(src.X(i,k))] for the view [d] of two aerosol states. *)
Definition convert (f : Real -> Real) (src : AerosolState_ Real) (d : AeroField)
    (i k : nat) (dst : AerosolState_ Real) : Res (AerosolState_ Real) :=
  x ← rd (get src d) i k;
  v ← wr (get dst d) i k (f x);
  Ok (set dst d v).

(** [if (dst.X.data()) dst.X(i,k) = f(src.X(i,k))] *)
Definition convert_if_allocated (f : Real -> Real) (src : AerosolState_ Real)
    (d : AeroField) (i k : nat) (dst : AerosolState_ Real)
  : Res (AerosolState_ Real) :=
  if is_allocated (get dst d) then convert f src d i k dst else Ok dst.

(** The body that both aerosol kernels run for the level [k] of column [i]:
    the loops over modes, over the species of each mode, and over gases. *)
Definition convert_level (f : Real -> Real) (src : AerosolState_ Real) (i k : nat)
    (dst : AerosolState_ Real) : Res (AerosolState_ Real) :=
  dst ← for_each (fun dst m =>
            dst ← convert f src (IntNmr m) i k dst;
            dst ← convert_if_allocated f src (CldNmr m) i k dst;
            for_each (fun dst a =>
                        dst ← convert_if_allocated f src (IntMmr m a) i k dst;
                        convert_if_allocated f src (CldMmr m a) i k dst)
                     (range 0 num_aero_species) dst)
         (range 0 num_aero_modes) dst;
  for_each (fun dst g => convert f src (GasMmr g) i k dst)
           (range 0 num_aero_gases) dst.

(** [compute_dry_mixing_ratios] on the atmosphere, run by [team] for the
    column [column_index] and [nlev] levels. *)
Definition compute_dry_mixing_ratios_atm (nlev : Z) (team : Team)
    (wet_atm : WetAtmosphere_ Real) (dry_atm : DryAtmosphere_ Real)
    (column_index : nat) : Res (DryAtmosphere_ Real) :=
  _ ← kernel_assert (Z.of_nat column_index =? league_rank team)%Z;
  let i := column_index in
  for_each (fun dry_atm k =>
              qv_ik ← rd (wet_qv wet_atm) i k;
              x ← rd (wet_qv wet_atm) i k;
              qv ← wr (dry_qv dry_atm) i k (calculate_drymmr_from_wetmmr x qv_ik);
              x ← rd (wet_qc wet_atm) i k;
              qc ← wr (dry_qc dry_atm) i k (calculate_drymmr_from_wetmmr x qv_ik);
              x ← rd (wet_nc wet_atm) i k;
              nc ← wr (dry_nc dry_atm) i k (calculate_drymmr_from_wetmmr x qv_ik);
              x ← rd (wet_qi wet_atm) i k;
              qi ← wr (dry_qi dry_atm) i k (calculate_drymmr_from_wetmmr x qv_ik);
              x ← rd (wet_ni wet_atm) i k;
              ni ← wr (dry_ni dry_atm) i k (calculate_drymmr_from_wetmmr x qv_ik);
              Ok (mkDryAtm qv qc nc qi ni))
           (range 0 nlev) dry_atm.

(** [compute_dry_mixing_ratios] on the aerosols. *)
Definition compute_dry_mixing_ratios (nlev : Z) (team : Team)
    (wet_atm : WetAtmosphere_ Real) (wet_aero dry_aero : AerosolState_ Real)
    (column_index : nat) : Res (AerosolState_ Real) :=
  _ ← kernel_assert (Z.of_nat column_index =? league_rank team)%Z;
  let i := column_index in
  for_each (fun dry_aero k =>
              qv_ik ← rd (wet_qv wet_atm) i k;
              convert_level (fun x => calculate_drymmr_from_wetmmr x qv_ik)
                            wet_aero i k dry_aero)
           (range 0 nlev) dry_aero.

(** [compute_wet_mixing_ratios] *)
Definition compute_wet_mixing_ratios (nlev : Z) (team : Team)
    (dry_atm : DryAtmosphere_ Real) (dry_aero wet_aero : AerosolState_ Real)
    (column_index : nat) : Res (AerosolState_ Real) :=
  _ ← kernel_assert (Z.of_nat column_index =? league_rank team)%Z;
  let i := column_index in
  for_each (fun wet_aero k =>
              qv_ik ← rd (dry_qv dry_atm) i k;
              convert_level (fun x => calculate_wetmmr_from_drymmr x qv_ik)
                            dry_aero i k wet_aero)
           (range 0 nlev) wet_aero.

(** The states that the kernels can be run on: the mixing ratios of both
    atmospheres are allocated, so are the required views of the three
    aerosol states, and a view that is allocated in the state a kernel
    writes is allocated in the state it reads. *)
Definition conforming (wet_atm : WetAtmosphere_ Real) (dry_atm : DryAtmosphere_ Real)
    (wet_aero dry_aero wet_out : AerosolState_ Real) : Prop :=
  (is_allocated (wet_qv wet_atm) && is_allocated (wet_qc wet_atm)
   && is_allocated (wet_nc wet_atm) && is_allocated (wet_qi wet_atm)
   && is_allocated (wet_ni wet_atm) = true)
  /\ (is_allocated (dry_qv dry_atm) && is_allocated (dry_qc dry_atm)
      && is_allocated (dry_nc dry_atm) && is_allocated (dry_qi dry_atm)
      && is_allocated (dry_ni dry_atm) = true)
  /\ forall d, named d = true ->
       (required d = true ->
          is_allocated (get wet_aero d) = true
          /\ is_allocated (get dry_aero d) = true
          /\ is_allocated (get wet_out d) = true)
       /\ (is_allocated (get dry_aero d) = true -> is_allocated (get wet_aero d) = true)
       /\ (is_allocated (get wet_out d) = true -> is_allocated (get dry_aero d) = true).

(** The round trip on column [i], run by [team]: the three kernels return,
    and every named view that is populated in the wet state holds, at every
    level of the column, a value that is [close] to the one it held
    ([close k original recovered], for the level [k]). *)
Definition round_trip (close : nat -> Real -> Real -> Prop) (nlev : Z) (team : Team)
    (wet_atm : WetAtmosphere_ Real) (dry_atm : DryAtmosphere_ Real)
    (wet_aero dry_aero wet_out : AerosolState_ Real) (i : nat) : Prop :=
  exists dry_atm' dry_aero' wet_out',
    compute_dry_mixing_ratios_atm nlev team wet_atm dry_atm i = Ok dry_atm'
    /\ compute_dry_mixing_ratios nlev team wet_atm wet_aero dry_aero i = Ok dry_aero'
    /\ compute_wet_mixing_ratios nlev team dry_atm' dry_aero' wet_out i = Ok wet_out'
    /\ forall d (k : nat) original recovered,
         named d = true -> (Z.of_nat k < nlev)%Z ->
         get wet_aero d = Some original ->
         get wet_out' d = Some recovered ->
         close k (original i k) (recovered i k).

(** What the specification says of the round trip: every value is the one
    that the view held. *)
Definition round_trip_recovers :=
  round_trip (fun _ original recovered => recovered = original).

End Kernels.

Arguments get {Real}.
Arguments set1 {Real}.
Arguments set2 {Real}.
Arguments set {Real}.
Arguments conforming {Real}.

(** The bound on the relative error of the round trip, for the unit roundoff
    [u] and the wet water vapor [qv]. *)
Definition rel_error (u qv : R) : R :=
  let kappa := (Rabs (1 - qv) + Rabs qv)%R in
  ((u * (3 + kappa) + u * u * (1 + kappa)) / ((1 - u) * (1 - kappa * u)))%R.

(** The round trip in an arithmetic on the reals, every value within the
    relative error [rel_error u qv] of the one that the view held. *)
Definition round_trip_within (ops : RealOps R) (u : R) (nlev : Z) (team : Team)
    (wet_atm : WetAtmosphere) (dry_atm : DryAtmosphere)
    (wet_aero dry_aero wet_out : AerosolState) (i : nat) : Prop :=
  forall q, wet_qv wet_atm = Some q ->
    round_trip ops
      (fun k original recovered =>
         (Rabs (recovered - original) <= Rabs original * rel_error u (q i k))%R)
      nlev team wet_atm dry_atm wet_aero dry_aero wet_out i.

End Coupling.

(** ** The effect of the aerosol kernels, view by view *)

Module CouplingSpec.
Import Coupling.

Section Spec.
Context {Real : Type}.

(** The entry [(i,k)] of the view [d] of [dst] becomes [f] of that of [src],
    when both views are allocated. *)
Definition conv1 (f : Real -> Real) (src : AerosolState_ Real) (i k : nat)
    (d : AeroField) (dst : AerosolState_ Real) : AerosolState_ Real :=
  match get src d, get dst d with
  | Some h, Some g => set dst d (Some (upd g i k (f (h i k))))
  | _, _ => dst
  end.

(** The views of an aerosol state in the order of the loops. *)
Definition fields : list AeroField :=
  flat_map (fun m => IntNmr m :: CldNmr m
                     :: flat_map (fun a => [IntMmr m a; CldMmr m a]) (seq 0 7))
           (seq 0 4)
  ++ map GasMmr (seq 0 6).

Definition level (f : Real -> Real) (src : AerosolState_ Real) (i k : nat)
    (dst : AerosolState_ Real) : AerosolState_ Real :=
  fold_left (fun st d => conv1 f src i k d st) fields dst.

(** All levels below [n], [f k] being the conversion at level [k]. *)
Definition column (f : nat -> Real -> Real) (src : AerosolState_ Real) (i : nat)
    (n : nat) (dst : AerosolState_ Real) : AerosolState_ Real :=
  fold_left (fun st k => level (f k) src i k st) (seq 0 n) dst.

(** The allocation of the named views is that of [dst0]. *)
Definition same_allocation (dst0 st : AerosolState_ Real) : Prop :=
  forall d, is_allocated (get st d) = is_allocated (get dst0 d).

End Spec.

(** A computation on a state that, under an invariant, returns what a
    function gives and keeps the invariant. *)
Definition realises {S} (I : S -> Prop) (c : S -> Res S) (p : S -> S) : Prop :=
  forall st, I st -> c st = Ok (p st) /\ I (p st).

End CouplingSpec.

(** ** Small coupling states *)

Module CouplingExample.
Import Coupling.

(** One value everywhere. *)
Definition uniform (x : R) : view_2d := Some (fun _ _ => x).

Definition wet_atm (qv : R) : WetAtmosphere :=
  mkWetAtm (uniform qv) (uniform 0) (uniform 0) (uniform 0) (uniform 0).

Definition dry_atm : DryAtmosphere :=
  mkDryAtm (uniform 0) (uniform 0) (uniform 0) (uniform 0) (uniform 0).

(** Every view populated, with one value. *)
Definition aero (x : R) : AerosolState :=
  mkAero (fun _ => uniform x) (fun _ => uniform x) (fun _ _ => uniform x)
         (fun _ _ => uniform x) (fun _ => uniform x).

(** The team of column [i]. *)
Definition team (i : nat) : Team := mkTeam (Z.of_nat i).

(** The same states in doubles, every entry an integer. *)
Definition uniform64 (z : Z) : view_2d_ Binary64.double :=
  Some (fun _ _ => Binary64.of_Z z).

Definition wet_atm64 (qv : Z) : WetAtmosphere_ Binary64.double :=
  mkWetAtm (uniform64 qv) (uniform64 0) (uniform64 0) (uniform64 0) (uniform64 0).

Definition dry_atm64 : DryAtmosphere_ Binary64.double :=
  mkDryAtm (uniform64 0) (uniform64 0) (uniform64 0) (uniform64 0) (uniform64 0).

Definition aero64 (z : Z) : AerosolState_ Binary64.double :=
  mkAero (fun _ => uniform64 z) (fun _ => uniform64 z) (fun _ _ => uniform64 z)
         (fun _ _ => uniform64 z) (fun _ => uniform64 z).

End CouplingExample.

(** ** Chemistry work arrays *)

Module WorkArrays.

Open Scope R_scope.

(** [gas_pcnst()]: the number of constituents of the chemistry work arrays,
    the length of the three tables below. *)
Definition gas_pcnst : Z := 31.

(** [DECLARE_PROG_TRANSFER_CONSTANTS]: the mode, the species and the gas of
    every constituent. *)
Definition mode_for_cnst : list ModeIndex :=
  [ NoMode; NoMode; NoMode; NoMode; NoMode; NoMode;
    Accumulation; Accumulation; Accumulation; Accumulation; Accumulation;
    Accumulation; Accumulation; Accumulation;
    Aitken; Aitken; Aitken; Aitken; Aitken;
    Coarse; Coarse; Coarse; Coarse; Coarse; Coarse; Coarse; Coarse;
    PrimaryCarbon; PrimaryCarbon; PrimaryCarbon; PrimaryCarbon ].

Definition aero_for_cnst : list AeroId :=
  [ NoAero; NoAero; NoAero; NoAero; NoAero; NoAero;
    SO4; POM; SOA; BC; DST; NaCl; MOM; NoAero;
    SO4; SOA; NaCl; MOM; NoAero;
    DST; NaCl; SO4; BC; POM; SOA; MOM; NoAero;
    POM; BC; MOM; NoAero ].

Definition gas_for_cnst : list GasId :=
  [ O3; H2O2; H2SO4; SO2; DMS; SOAG;
    NoGas; NoGas; NoGas; NoGas; NoGas; NoGas; NoGas; NoGas;
    NoGas; NoGas; NoGas; NoGas; NoGas;
    NoGas; NoGas; NoGas; NoGas; NoGas; NoGas; NoGas; NoGas;
    NoGas; NoGas; NoGas; NoGas ].

(** The entry [i] of a table, for a loop counter below [gas_pcnst]. *)
Definition mode_at (i : nat) : ModeIndex := default NoMode (mode_for_cnst !! i).
Definition aero_at (i : nat) : AeroId := default NoAero (aero_for_cnst !! i).
Definition gas_at (i : nat) : GasId := default NoGas (gas_for_cnst !! i).

(** Modelled from the spec: [mam4::aerosol_index_for_mode] belongs to the
    aerosol library, outside the sources at hand; it gives the position of a
    species within a mode of the registry, the species-indexed slot that the
    specification speaks of, and -1 for a species that the mode lacks. *)
Definition aerosol_index_for_mode (mode_aero_species : Registry)
    (mode : ModeIndex) (aero_id : AeroId) : Z :=
  default (-1)%Z
    (head (filter (fun s => mode_aero_species (mode_to_int mode) s = aero_id)
                  (map Z.of_nat (seq 0 7)))).

(** [mam4::Prognostics] for one column: every view is a function of the
    level (the object is fully populated). *)
Record Prognostics := mkProgs {
  n_mode_i : Z -> Z -> R;
  n_mode_c : Z -> Z -> R;
  q_aero_i : Z -> Z -> Z -> R;
  q_aero_c : Z -> Z -> Z -> R;
  q_gas : Z -> Z -> R
}.

(** [view(k) = x] for the view [m] of an array of views. *)
Definition put1 (f : Z -> Z -> R) (m k : Z) (x : R) : Z -> Z -> R :=
  fun m' => if (m' =? m)%Z
            then fun k' => if (k' =? k)%Z then x else f m' k'
            else f m'.

Definition put2 (f : Z -> Z -> Z -> R) (m a k : Z) (x : R) : Z -> Z -> Z -> R :=
  fun m' a' => if ((m' =? m) && (a' =? a))%Z
               then fun k' => if (k' =? k)%Z then x else f m' a' k'
               else f m' a'.

(** A work array [Real q[gas_pcnst()]] and [q[i] = x] for a loop counter. *)
Definition work_array := nat -> R.

Definition put (q : work_array) (i : nat) (x : R) : work_array :=
  fun i' => if (i' =? i)%nat then x else q i'.

Section Transfer.

Variable mode_aero_species : Registry.

(** Modelled from the spec: the molecular weights of the gases and of the
    aerosol species ([mam4::gas_species(g).molecular_weight],
    [mam4::aero_species(a).molecular_weight]) and of dry air are constants of
    the aerosol library. *)
Variables (gas_molecular_weight aero_molecular_weight : Z -> R).
Variable mw_dry_air : R.

(** Modelled from the spec: [mam4::conversions::vmr_from_mmr] and
    [mmr_from_vmr], of the aerosol library; the specification has them
    convert between mass and volume mixing ratio by the molecular weight of
    the species (relative to that of dry air). *)
Definition vmr_from_mmr (mmr molecular_wt : R) : R :=
  mmr * mw_dry_air / molecular_wt.

Definition mmr_from_vmr (vmr molecular_wt : R) : R :=
  vmr * molecular_wt / mw_dry_air.

(** [for (int i = 0; i < gas_pcnst(); ++i) body] on a state. *)
Definition for_cnst {S} (body : nat -> S -> S) (st : S) : S :=
  fold_left (fun st i => body i st) (range 0 gas_pcnst) st.

(** [transfer_prognostics_to_work_arrays] *)
Definition transfer_prognostics_to_work_arrays (progs : Prognostics) (k : Z)
    (q qqcw : work_array) : work_array * work_array :=
  for_cnst (fun i '(q, qqcw) =>
    let mode_index := mode_at i in
    let aero_id := aero_at i in
    let gas_id := gas_at i in
    if bool_decide (gas_id <> NoGas) then
      let g := gas_to_int gas_id in
      (put q i (q_gas progs g k), put qqcw i (q_gas progs g k))
    else
      let m := mode_to_int mode_index in
      if bool_decide (aero_id <> NoAero) then
        let a := aerosol_index_for_mode mode_aero_species mode_index aero_id in
        (put q i (q_aero_i progs m a k), put qqcw i (q_aero_c progs m a k))
      else
        (put q i (n_mode_i progs m k), put qqcw i (n_mode_c progs m k)))
    (q, qqcw).

(** [convert_work_arrays_to_vmr] *)
Definition convert_work_arrays_to_vmr (q qqcw vmr vmrcw : work_array)
  : work_array * work_array :=
  for_cnst (fun i '(vmr, vmrcw) =>
    let mode_index := mode_at i in
    let aero_id := aero_at i in
    let gas_id := gas_at i in
    if bool_decide (gas_id <> NoGas) then
      let g := gas_to_int gas_id in
      let mw := gas_molecular_weight g in
      (put vmr i (vmr_from_mmr (q i) mw), put vmrcw i (vmr_from_mmr (qqcw i) mw))
    else
      if bool_decide (aero_id <> NoAero) then
        let a := aerosol_index_for_mode mode_aero_species mode_index aero_id in
        let mw := aero_molecular_weight a in
        (put vmr i (vmr_from_mmr (q i) mw), put vmrcw i (vmr_from_mmr (qqcw i) mw))
      else
        (put vmr i (q i), put vmrcw i (qqcw i)))
    (vmr, vmrcw).

(** [convert_work_arrays_to_mmr] *)
Definition convert_work_arrays_to_mmr (vmr vmrcw q qqcw : work_array)
  : work_array * work_array :=
  for_cnst (fun i '(q, qqcw) =>
    let mode_index := mode_at i in
    let aero_id := aero_at i in
    let gas_id := gas_at i in
    if bool_decide (gas_id <> NoGas) then
      let g := gas_to_int gas_id in
      let mw := gas_molecular_weight g in
      (put q i (mmr_from_vmr (vmr i) mw), put qqcw i (mmr_from_vmr (vmrcw i) mw))
    else
      if bool_decide (aero_id <> NoAero) then
        let a := aerosol_index_for_mode mode_aero_species mode_index aero_id in
        let mw := aero_molecular_weight a in
        (put q i (mmr_from_vmr (vmr i) mw), put qqcw i (mmr_from_vmr (vmrcw i) mw))
      else
        (put q i (vmr i), put qqcw i (vmrcw i)))
    (q, qqcw).

(** [transfer_work_arrays_to_prognostics] *)
Definition transfer_work_arrays_to_prognostics (q qqcw : work_array)
    (progs : Prognostics) (k : Z) : Prognostics :=
  for_cnst (fun i progs =>
    let mode_index := mode_at i in
    let aero_id := aero_at i in
    let gas_id := gas_at i in
    if bool_decide (gas_id <> NoGas) then
      let g := gas_to_int gas_id in
      mkProgs (n_mode_i progs) (n_mode_c progs) (q_aero_i progs) (q_aero_c progs)
              (put1 (q_gas progs) g k (q i))
    else
      let m := mode_to_int mode_index in
      if bool_decide (aero_id <> NoAero) then
        let a := aerosol_index_for_mode mode_aero_species mode_index aero_id in
        mkProgs (n_mode_i progs) (n_mode_c progs)
                (put2 (q_aero_i progs) m a k (q i))
                (put2 (q_aero_c progs) m a k (qqcw i))
                (q_gas progs)
      else
        mkProgs (put1 (n_mode_i progs) m k (q i))
                (put1 (n_mode_c progs) m k (qqcw i))
                (q_aero_i progs) (q_aero_c progs) (q_gas progs))
    progs.

(** The composition of the four operations at level [k], from the
    prognostics [progs] into the prognostics [target], through work arrays
    that hold [q0], [qqcw0], [vmr0], [vmrcw0] beforehand. *)
Definition round_trip (progs target : Prognostics) (k : Z)
    (q0 qqcw0 vmr0 vmrcw0 : work_array) : Prognostics :=
  let '(q, qqcw) := transfer_prognostics_to_work_arrays progs k q0 qqcw0 in
  let '(vmr, vmrcw) := convert_work_arrays_to_vmr q qqcw vmr0 vmrcw0 in
  let '(q, qqcw) := convert_work_arrays_to_mmr vmr vmrcw q qqcw in
  transfer_work_arrays_to_prognostics q qqcw target k.

End Transfer.

Close Scope R_scope.

End WorkArrays.

(** ** What the chemistry round trip has to restore *)

Module WorkArraysSpec.

Import WorkArrays.

(** The structured values of [progs] at level [k] are those of [original]:
    the gases, the modal numbers of both phases and, for every species that a
    mode of the registry has, the interstitial and the cloudborne mass. *)
Definition restored_at (registry : Registry) (original progs : Prognostics)
    (k : Z) : Prop :=
  (forall g, 0 <= g < num_aero_gases ->
     q_gas progs g k = q_gas original g k) /\
  (forall m, 0 <= m < num_aero_modes ->
     n_mode_i progs m k = n_mode_i original m k /\
     n_mode_c progs m k = n_mode_c original m k) /\
  (forall m a, 0 <= m < num_aero_modes -> 0 <= a < num_aero_species ->
     registry m a <> NoAero ->
     q_aero_i progs m a k = q_aero_i original m a k /\
     q_aero_c progs m a k = q_aero_c original m a k).

(** The constituent [i] of the work arrays is a modal number mixing ratio:
    neither a gas nor an aerosol species. *)
Definition is_modal_number (i : nat) : Prop :=
  Z.of_nat i < gas_pcnst /\ gas_at i = NoGas /\ aero_at i = NoAero.

(** The conversions leave the entry [i] as it is, in both work arrays and in
    both directions. *)
Definition passes_unchanged (registry : Registry)
    (gas_molecular_weight aero_molecular_weight : Z -> R) (mw_dry_air : R)
    (i : nat) : Prop :=
  forall q qqcw vmr vmrcw : work_array,
    let to_vmr := convert_work_arrays_to_vmr registry gas_molecular_weight
                    aero_molecular_weight mw_dry_air q qqcw vmr vmrcw in
    let to_mmr := convert_work_arrays_to_mmr registry gas_molecular_weight
                    aero_molecular_weight mw_dry_air vmr vmrcw q qqcw in
    to_vmr.1 i = q i /\ to_vmr.2 i = qqcw i /\
    to_mmr.1 i = vmr i /\ to_mmr.2 i = vmrcw i.

(** Molecular weights are positive: that of dry air, those of the gases and
    those that the conversions look up for the aerosol species. *)
Definition positive_weights (gas_molecular_weight aero_molecular_weight : Z -> R)
    (mw_dry_air : R) : Prop :=
  (0 < mw_dry_air)%R /\
  (forall g, 0 <= g < num_aero_gases -> (0 < gas_molecular_weight g)%R) /\
  (forall a, 0 <= a < num_aero_species -> (0 < aero_molecular_weight a)%R).

End WorkArraysSpec.

Module WorkArraysExample.

Import WorkArrays.

(** Every view holds [x] at every level. *)
Definition progs (x : R) : Prognostics :=
  mkProgs (fun _ _ => x) (fun _ _ => x) (fun _ _ _ => x) (fun _ _ _ => x)
          (fun _ _ => x).

Definition work : work_array := fun _ => 0%R.

(** Weights of 2 for the species, and 29 for dry air. *)
Definition weight : Z -> R := fun _ => 2%R.
Definition mw_dry_air : R := 29%R.

End WorkArraysExample.

(** ** set_remap_segments_from_file: from the chunks to the segments *)

(** The three variables of a remap file, each of dimension [n_s]. *)
Record RemapFile := mkFile {
  file_row : list Z;
  file_col : list Z;
  file_S : list R
}.

Module Exchange.

(** What the ranks bring to a collective: [f r] is what rank [r] computes
    before it enters; the collective returns once every rank has. *)
Definition on_every_rank {A} (num_ranks : Z) (f : Z -> Res A) : Res (list A) :=
  for_each (fun acc r => x ← f (Z.of_nat r); Ok (acc ++ [x]))
           (range 0 num_ranks) [].

(** [m_comm.all_reduce(&x,&global,1,MPI_MIN)], [xs] being the values of [x]
    on the ranks. *)
Definition all_reduce_min (xs : list Z) : Res Z :=
  match xs with
  | [] => Undefined
  | x :: xs => Ok (fold_left Z.min xs x)
  end.

(** The displacement of every rank and the total number of chunks:
<<
    chunk_displacement[0] = 0;
    total_num_chunks = num_chunks_per_rank[0];
    for (int ii=1; ii<num_ranks; ii++) {
      chunk_displacement[ii] = total_num_chunks;
      total_num_chunks += num_chunks_per_rank[ii];
    }
>>
    (the array [new int[num_ranks]] is written in full before it is read). *)
Definition displacements (num_chunks_per_rank : list Z) (num_ranks : Z)
  : Res (list Z * Z) :=
  chunk_displacement ← View.set (View.alloc 0 num_ranks) 0 0;
  total_num_chunks ← View.get num_chunks_per_rank 0;
  for_each (fun '(chunk_displacement, total_num_chunks) ii =>
              chunk_displacement ← View.set chunk_displacement (Z.of_nat ii)
                                            total_num_chunks;
              n ← View.get num_chunks_per_rank (Z.of_nat ii);
              Ok (chunk_displacement, total_num_chunks + n))
           (range 1 num_ranks) (chunk_displacement, total_num_chunks).

(** The number of entries that the ranks before [r] send, [counts] being
    the number that every rank sends. *)
Definition psum (counts : list Z) (r : nat) : Z := foldr Z.add 0 (take r counts).

(** [MPI_Allgatherv(sendbuf,sendcount,MPI_INT,recvbuf,recvcounts,displs,MPI_INT,comm)],
    [sent] holding the [sendbuf] and the [sendcount] of every rank: the
    entries that rank [r] sends arrive at [recvbuf + displs[r]], and
    [recvcounts[r]] has to be the [sendcount] of rank [r]. *)
Definition all_gatherv (sent : list (list Z * Z)) (recvbuf recvcounts displs : list Z)
  : Res (list Z) :=
  for_each (fun recvbuf r =>
              '(sendbuf, sendcount) ← Vec.at_ sent r;
              count ← View.get recvcounts (Z.of_nat r);
              displ ← View.get displs (Z.of_nat r);
              _ ← require (sendcount =? count);
              Map.copy_into recvbuf sendbuf displ count)
           (range 0 (View.extent sent)) recvbuf.

End Exchange.

Module Assemble.

(** [std::vector<int> v(n); std::iota(v.begin(),v.end(),first);] *)
Definition iota (n first : Z) : list Z :=
  map (fun j : nat => first + Z.of_nat j) (seq 0 (Z.to_nat n)).

(** The vectors of step 3. *)
Record Selection := mkSelection {
  seg_dof : list Z;
  seg_start : list Z;
  seg_length : list Z;
  var_dof : list Z
}.

(** The body of the two loops of step 3, for the chunk [ii] and the local
    DOF [jj]. *)
Definition select_step (buff_dof buff_sta buff_len : list Z)
    (global_remap_min_dof : Z) (dofs_gids_h : list Z) (ii : nat)
    (sel : Selection) (jj : nat) : Res Selection :=
  d ← View.get buff_dof (Z.of_nat ii);
  g ← View.get dofs_gids_h (Z.of_nat jj);
  if d - global_remap_min_dof =? g then
    len ← View.get buff_len (Z.of_nat ii);
    sta ← View.get buff_sta (Z.of_nat ii);
    let var_tmp := iota len sta in
    Ok (mkSelection (Vec.push_back (seg_dof sel) d)
                    (Vec.push_back (seg_start sel) (View.extent (var_dof sel)))
                    (Vec.push_back (seg_length sel) len)
                    (var_dof sel ++ var_tmp))
  else Ok sel.

(** Step 3: the chunks whose DOF is one of this rank, and the entries of the
    file that they cover. *)
Definition select_chunks (buff_dof buff_sta buff_len : list Z)
    (total_num_chunks global_remap_min_dof : Z) (dofs_gids_h : list Z)
  : Res Selection :=
  for_each (fun sel ii =>
              for_each (select_step buff_dof buff_sta buff_len
                                    global_remap_min_dof dofs_gids_h ii)
                       (range 0 (View.extent dofs_gids_h)) sel)
           (range 0 total_num_chunks) (mkSelection [] [] [] []).

(** The triples of the three buffers, as one list. *)
Definition triples (dofs starts lens : list Z) : list (Z * (Z * Z)) :=
  zip dofs (zip starts lens).

(** The triples whose DOF, zero-based by [min_dof], is one of [dofs_gids]. *)
Definition chosen (min_dof : Z) (dofs_gids : list Z) (ts : list (Z * (Z * Z)))
  : list (Z * (Z * Z)) :=
  filter (fun t => (t.1 - min_dof) ∈ dofs_gids) ts.

(** The offsets in the file of the entries of a triple. *)
Definition block (t : Z * (Z * Z)) : list Z := iota t.2.2 t.2.1.

(** The selection that holds the triples [ts]: their DOFs and lengths, the
    offsets of their entries one triple after the other, and for every
    triple the place of its first entry among them. *)
Definition selection_of (ts : list (Z * (Z * Z))) : Selection :=
  mkSelection (map fst ts)
              (map (fun j => View.extent (concat (map block (take j ts))))
                   (seq 0 (length ts)))
              (map (fun t => t.2.2) ts)
              (concat (map block ts)).

(** What step 3 does with a triple that it selects. *)
Definition push_triple (sel : Selection) (t : Z * (Z * Z)) : Selection :=
  mkSelection (seg_dof sel ++ [t.1])
              (seg_start sel ++ [View.extent (var_dof sel)])
              (seg_length sel ++ [t.2.2])
              (var_dof sel ++ block t).

(** Modelled from the spec: [scorpio::set_dof] followed by
    [scorpio::grid_read_data_array] belongs to the I/O layer, outside the
    sources at hand; the specification has it read a distributed array keyed
    by the flat index list that the caller supplies: entry [i] of the result
    is the entry of the variable at offset [dofs[i]]. *)
Definition grid_read_data_array {A} (var : list A) (dofs : list Z) : Res (list A) :=
  for_each (fun data i =>
              offset ← Vec.at_ dofs i;
              x ← View.get var offset;
              Ok (data ++ [x]))
           (range 0 (View.extent dofs)) [].

(** The views of one segment:
<<
    Kokkos::parallel_for("", seglength, KOKKOS_LAMBDA (const int& jj) {
      int idx = segstart + jj;
      source_dofs(jj) = col(idx)-global_remap_min_dof;
      weights(jj)     = S(idx);
    });
>> *)
Definition fill_segment (col : list Z) (S : list R) (global_remap_min_dof : Z)
    (segstart seglength : Z) : Res (list Z * list R) :=
  for_each (fun '(source_dofs, weights) jj =>
              let idx := segstart + Z.of_nat jj in
              c ← View.get col idx;
              source_dofs ← View.set source_dofs (Z.of_nat jj)
                                     (c - global_remap_min_dof);
              s ← View.get S idx;
              weights ← View.set weights (Z.of_nat jj) s;
              Ok (source_dofs, weights))
           (range 0 seglength)
           (View.alloc 0 seglength, View.alloc 0%R seglength).

(** The last loop: one segment per selected chunk, added to the map. *)
Definition add_segments (sel : Selection) (col : list Z) (S : list R)
    (global_remap_min_dof : Z) (m : GSMap) : Res GSMap :=
  for_each (fun m ii =>
              seglength ← Vec.at_ (seg_length sel) ii;
              segstart ← Vec.at_ (seg_start sel) ii;
              '(source_dofs, weights) ← fill_segment col S global_remap_min_dof
                                                     segstart seglength;
              dof ← Vec.at_ (seg_dof sel) ii;
              seg ← Segment.make (dof - global_remap_min_dof) seglength
                                 source_dofs weights;
              Map.add_remap_segment m seg)
           (range 0 (View.extent (seg_dof sel))) m.

(** A triple lies inside a variable of [n_s] entries. *)
Definition in_file (n_s : Z) (t : Z * (Z * Z)) : Prop :=
  0 <= t.2.1 /\ 0 <= t.2.2 /\ t.2.1 + t.2.2 <= n_s.

(** The entries of a variable of the file that a triple covers. *)
Definition slice {A} (var : list A) (t : Z * (Z * Z)) : list A :=
  take (Z.to_nat t.2.2) (drop (Z.to_nat t.2.1) var).

(** The segment that the last loop builds for a triple. *)
Definition segment_of (col : list Z) (S : list R) (min_dof : Z) (t : Z * (Z * Z))
  : GSSegment :=
  mkSegment (t.1 - min_dof) t.2.2
            (map (fun c => c - min_dof) (slice col t))
            (View.alloc 0 t.2.2) (slice S t) None.

End Assemble.

(** [set_remap_segments_from_file] on rank [my_rank] of [num_ranks], for the
    variables [file] of the remap file.  Steps 1 and 2 run on every rank,
    and the collectives bring together what the ranks found. *)
Definition set_remap_segments_from_file (file : RemapFile) (num_ranks my_rank : Z)
    (m : GSMap) : Res GSMap :=
  (* steps 1 and 2 *)
  mine ← Grouping.group_on_rank (file_row file) num_ranks my_rank;
  chunks ← Exchange.on_every_rank num_ranks
              (Grouping.group_on_rank (file_row file) num_ranks);
  let num_chunks_per_rank :=
    map (fun c => View.extent (Grouping.chunk_dof c)) chunks in
  global_remap_min_dof ← Exchange.all_reduce_min (map Grouping.remap_min_dof chunks);
  '(chunk_displacement, total_num_chunks) ←
     Exchange.displacements num_chunks_per_rank num_ranks;
  let gather (field : Grouping.Chunks -> list Z) :=
    Exchange.all_gatherv
      (map (fun c => (field c, View.extent (Grouping.chunk_dof c))) chunks)
      (View.alloc 0 total_num_chunks) num_chunks_per_rank chunk_displacement in
  buff_dof ← gather Grouping.chunk_dof;
  buff_sta ← gather Grouping.chunk_start;
  buff_len ← gather Grouping.chunk_len;
  (* step 3 *)
  let dofs_gids_h := m_dofs_gids m in
  sel ← Assemble.select_chunks buff_dof buff_sta buff_len total_num_chunks
                               global_remap_min_dof dofs_gids_h;
  col_h ← Assemble.grid_read_data_array (file_col file) (Assemble.var_dof sel);
  S_h ← Assemble.grid_read_data_array (file_S file) (Assemble.var_dof sel);
  col ← View.deep_copy (View.alloc 0 (View.extent (Assemble.var_dof sel))) col_h;
  S ← View.deep_copy (View.alloc 0%R (View.extent (Assemble.var_dof sel))) S_h;
  Assemble.add_segments sel col S global_remap_min_dof m.

(** One call of [add_remap_segment] after the other, for the segments
    [segs] in turn. *)
Fixpoint add_each (segs : list GSSegment) (m : GSMap) : Res GSMap :=
  match segs with
  | [] => Ok m
  | seg :: segs => m' ← Map.add_remap_segment m seg; add_each segs m'
  end.

(** The pairs of source DOF and weight that the segments [segs] hold for the
    target DOF [d], segment after segment. *)
Definition entries_of (segs : list GSSegment) (d : Z) : list (Z * R) :=
  concat (map (fun seg => zip (m_source_dofs seg) (m_weights seg))
              (filter (fun seg => m_dof seg = d) segs)).

(** The entries of the file for the target DOF [d], zero-based by [min_dof]:
    the source DOF and the weight of every entry whose row is [d], in the
    order of the file. *)
Definition file_entries (file : RemapFile) : list (Z * (Z * R)) :=
  zip (file_row file) (zip (file_col file) (file_S file)).

Definition entries_for (file : RemapFile) (min_dof d : Z) : list (Z * R) :=
  map (fun e => (e.2.1 - min_dof, e.2.2))
      (filter (fun e => e.1 - min_dof = d) (file_entries file)).

(** The smallest target DOF of the file. *)
Definition min_row (file : RemapFile) : Z :=
  match file_row file with
  | [] => 0
  | r :: rows => fold_left Z.min rows r
  end.

(** A file of six entries for three target DOFs, the first of which comes
    back after the others. *)
Definition example_file : RemapFile :=
  mkFile [5; 5; 6; 7; 7; 5] [11; 12; 13; 14; 15; 16]
         [0.25%R; 0.25%R; 1%R; 0.5%R; 0.5%R; 0.5%R].

(** ** Triples of target DOF, start and length *)

Module Runs.

(** The triples [(dof, start, length)] of three vectors stand for the rows
    [rows] of the file from the offset [first] on: every triple is a run of
    [length >= 1] equal rows, which starts where the one before it ends. *)
Inductive covers : list Z -> list Z -> list Z -> Z -> list Z -> Prop :=
| covers_nil first : covers [] [] [] first []
| covers_cons d l dofs starts lens first rows :
    1 <= l ->
    covers dofs starts lens (first + l) rows ->
    covers (d :: dofs) (first :: starts) (l :: lens) first
           (replicate (Z.to_nat l) d ++ rows).

(** Two triples that follow one another are for different DOFs. *)
Definition adjacent_differ (dofs : list Z) : Prop :=
  forall (j : nat) d d',
    dofs !! j = Some d -> dofs !! Datatypes.S j = Some d' -> d <> d'.

(** [x] is the least entry of [l]. *)
Definition is_min (x : Z) (l : list Z) : Prop :=
  x ∈ l /\ forall y, y ∈ l -> x <= y.

End Runs.

(** ** What a remap computes *)

(** The value that a target DOF receives from the entries [(source DOF,
    weight)] of its segment, [x] being the source field as a function of the
    source DOF: the sum of the products, in the order of the entries. *)
Definition remap_value (entries : list (Z * R)) (x : Z -> R) : R :=
  foldr Rplus 0%R (map (fun e => (x e.1 * e.2)%R) entries).

(** ** What [check] accepts *)

(** The three views of the segment have the declared length, and the sum of
    the weights as [check] accumulates it is not off unity. *)
Definition passes_check (seg : GSSegment_ Binary64.double) : Prop :=
  View.extent (m_source_dofs seg) = m_length seg
  /\ View.extent (m_weights seg) = m_length seg
  /\ View.extent (m_source_idx seg) = m_length seg
  /\ off_unity (accumulated (m_weights seg)) = false.


(** ** The names of the number mixing ratios, and all names together *)

Module FieldNamesSpec.
Import FieldNames.

(** The name of the number mixing ratio of a mode: "num_a" (interstitial) or
    "num_c" (cloudborne), then the one-based mode. *)
Definition nmr_name (tag : string) (mode : Z) : string :=
  String.append tag (mode_label mode).

(** The buffers of the number mixing ratios are blank or hold the names of
    their slots. *)
Definition nmr_cache_ok (c : NameCache) : Prop :=
  forall mode,
    (int_aero_nmr_names_ c mode = EmptyString
     \/ int_aero_nmr_names_ c mode = nmr_name "num_a" mode)
    /\ (cld_aero_nmr_names_ c mode = EmptyString
        \/ cld_aero_nmr_names_ c mode = nmr_name "num_c" mode).

(** A request for the name of a field, by one of the five functions. *)
Inductive NameRequest :=
| IntNmrName (mode : Z)
| CldNmrName (mode : Z)
| IntMmrName (mode species : Z)
| CldMmrName (mode species : Z)
| GasName (gas : Z).

Definition field_name (mode_aero_species : Registry) (c : NameCache)
    (r : NameRequest) : Res string :=
  match r with
  | IntNmrName mode => p ← int_aero_nmr_field_name c mode; Ok p.1
  | CldNmrName mode => p ← cld_aero_nmr_field_name c mode; Ok p.1
  | IntMmrName mode species =>
      p ← int_aero_mmr_field_name mode_aero_species c mode species; Ok p.1
  | CldMmrName mode species =>
      p ← cld_aero_mmr_field_name mode_aero_species c mode species; Ok p.1
  | GasName gas => gas_mmr_field_name gas
  end.

(** The name that a request is answered with. *)
Definition expected_name (mode_aero_species : Registry) (r : NameRequest) : string :=
  match r with
  | IntNmrName mode => nmr_name "num_a" mode
  | CldNmrName mode => nmr_name "num_c" mode
  | IntMmrName mode species => mmr_name mode_aero_species "_a" mode species
  | CldMmrName mode species => mmr_name mode_aero_species "_c" mode species
  | GasName gas =>
      default EmptyString
        (["O3"; "H2O2"; "H2SO4"; "SO2"; "DMS"; "SOAG"]%string !! Z.to_nat gas)
  end.

(** The indices of the request are inside the ranges of modes, species
    positions and gases. *)
Definition in_range (r : NameRequest) : Prop :=
  match r with
  | IntNmrName mode | CldNmrName mode => 0 <= mode < num_aero_modes
  | IntMmrName mode species | CldMmrName mode species =>
      0 <= mode < num_aero_modes /\ 0 <= species < num_aero_species
  | GasName gas => 0 <= gas < num_aero_gases
  end.

(** Two requests are for the same field: the same function, the same mode
    and the same species of the registry, or the same gas. *)
Definition same_field (mode_aero_species : Registry) (r r' : NameRequest) : Prop :=
  match r, r' with
  | IntNmrName m, IntNmrName m' | CldNmrName m, CldNmrName m' => m = m'
  | IntMmrName m s, IntMmrName m' s' | CldMmrName m s, CldMmrName m' s' =>
      m = m' /\ mode_aero_species m s = mode_aero_species m' s'
  | GasName g, GasName g' => g = g'
  | _, _ => False
  end.

End FieldNamesSpec.


(** ** The name buffers, byte by byte *)

(** The functions that build the field names work on C strings: arrays of
    [char] read up to the first zero.  A [char] is its code here. *)
Module CString.

(** [while (s[l]) ++l;], at most [fuel] tests. *)
Fixpoint strlen_loop (s : list Z) (fuel : nat) (l : nat) : Res nat :=
  match fuel with
  | O => Undefined
  | S fuel =>
      c ← View.get s (Z.of_nat l);
      if c =? 0 then Ok l else strlen_loop s fuel (S l)
  end.

(** [gpu_strlen]: the loop leaves the array, if it does, at the test number
    [length s + 1]. *)
Definition gpu_strlen (s : list Z) : Res nat := strlen_loop s (S (length s)) 0.

(** [for (size_t i = 0; i < len; ++i) concatted[i + offset] = s[i];] *)
Definition copy_chars (concatted s : list Z) (offset len : nat) : Res (list Z) :=
  for_each (fun concatted i =>
              c ← View.get s (Z.of_nat i);
              View.set concatted (Z.of_nat i + Z.of_nat offset) c)
           (seq 0 len) concatted.

(** [concat_2_strings] *)
Definition concat_2_strings (s1 s2 concatted : list Z) : Res (list Z) :=
  len1 ← gpu_strlen s1;
  concatted ← copy_chars concatted s1 0 len1;
  len2 ← gpu_strlen s2;
  concatted ← copy_chars concatted s2 len1 len2;
  View.set concatted (Z.of_nat (len1 + len2)) 0.

(** [concat_3_strings] *)
Definition concat_3_strings (s1 s2 s3 concatted : list Z) : Res (list Z) :=
  len1 ← gpu_strlen s1;
  concatted ← copy_chars concatted s1 0 len1;
  len2 ← gpu_strlen s2;
  concatted ← copy_chars concatted s2 len1 len2;
  len3 ← gpu_strlen s3;
  concatted ← copy_chars concatted s3 (len1 + len2) len3;
  View.set concatted (Z.of_nat (len1 + len2 + len3)) 0.

(** The codes of the characters of a string, and the string literal: the
    codes followed by the terminator. *)
Definition chars (s : string) : list Z :=
  map (fun a => Z.of_nat (nat_of_ascii a)) (list_ascii_of_string s).

Definition literal (s : string) : list Z := chars s ++ [0].

(** An array holds the C string [t]: the characters [t], none of them zero,
    then a zero. *)
Definition holds (buffer : list Z) (t : list Z) : Prop :=
  Forall (fun c => c <> 0) t /\ exists rest, buffer = t ++ 0 :: rest.

End CString.

(** The name functions on the static buffers of [max_field_name_len] bytes. *)
Module CNames.
Import CString.

Definition max_field_name_len : Z := 128.

(** [static char names_[...][max_field_name_len()] = {};] *)
Definition blank_buffer : list Z := View.alloc 0 max_field_name_len.

Definition aero_mode_name (mode : Z) : Res (list Z) :=
  s ← FieldNames.aero_mode_name mode; Ok (literal s).

Definition aero_species_name (species_id : Z) : Res (list Z) :=
  s ← FieldNames.aero_species_name species_id; Ok (literal s).

Record NameBuffers := mkBuffers {
  int_aero_nmr_names_ : Z -> list Z;
  cld_aero_nmr_names_ : Z -> list Z;
  int_aero_mmr_names_ : Z -> Z -> list Z;
  cld_aero_mmr_names_ : Z -> Z -> list Z
}.

Definition blank_buffers : NameBuffers :=
  mkBuffers (fun _ => blank_buffer) (fun _ => blank_buffer)
            (fun _ _ => blank_buffer) (fun _ _ => blank_buffer).

Definition upd1 (f : Z -> list Z) (i : Z) (b : list Z) : Z -> list Z :=
  fun i' => if i' =? i then b else f i'.

Definition upd2 (f : Z -> Z -> list Z) (i j : Z) (b : list Z) : Z -> Z -> list Z :=
  fun i' j' => if (i' =? i) && (j' =? j) then b else f i' j'.

Definition int_aero_nmr_field_name (bufs : NameBuffers) (mode : Z)
  : Res (list Z * NameBuffers) :=
  _ ← FieldNames.in_bounds mode num_aero_modes;
  c0 ← View.get (int_aero_nmr_names_ bufs mode) 0;
  if c0 =? 0 then
    md ← aero_mode_name mode;
    name ← concat_2_strings (literal "num_a") md (int_aero_nmr_names_ bufs mode);
    Ok (name, mkBuffers (upd1 (int_aero_nmr_names_ bufs) mode name)
                        (cld_aero_nmr_names_ bufs)
                        (int_aero_mmr_names_ bufs) (cld_aero_mmr_names_ bufs))
  else Ok (int_aero_nmr_names_ bufs mode, bufs).

Definition cld_aero_nmr_field_name (bufs : NameBuffers) (mode : Z)
  : Res (list Z * NameBuffers) :=
  _ ← FieldNames.in_bounds mode num_aero_modes;
  c0 ← View.get (cld_aero_nmr_names_ bufs mode) 0;
  if c0 =? 0 then
    md ← aero_mode_name mode;
    name ← concat_2_strings (literal "num_c") md (cld_aero_nmr_names_ bufs mode);
    Ok (name, mkBuffers (int_aero_nmr_names_ bufs)
                        (upd1 (cld_aero_nmr_names_ bufs) mode name)
                        (int_aero_mmr_names_ bufs) (cld_aero_mmr_names_ bufs))
  else Ok (cld_aero_nmr_names_ bufs mode, bufs).

Definition int_aero_mmr_field_name (mode_aero_species : Registry) (bufs : NameBuffers)
    (mode species : Z) : Res (list Z * NameBuffers) :=
  _ ← FieldNames.in_bounds mode num_aero_modes;
  _ ← FieldNames.in_bounds species num_aero_species;
  c0 ← View.get (int_aero_mmr_names_ bufs mode species) 0;
  if c0 =? 0 then
    let aero_id := mode_aero_species mode species in
    if bool_decide (aero_id <> NoAero) then
      sp ← aero_species_name (aero_id_to_int aero_id);
      md ← aero_mode_name mode;
      name ← concat_3_strings sp (literal "_a") md (int_aero_mmr_names_ bufs mode species);
      Ok (name, mkBuffers (int_aero_nmr_names_ bufs) (cld_aero_nmr_names_ bufs)
                          (upd2 (int_aero_mmr_names_ bufs) mode species name)
                          (cld_aero_mmr_names_ bufs))
    else Ok (int_aero_mmr_names_ bufs mode species, bufs)
  else Ok (int_aero_mmr_names_ bufs mode species, bufs).

Definition cld_aero_mmr_field_name (mode_aero_species : Registry) (bufs : NameBuffers)
    (mode species : Z) : Res (list Z * NameBuffers) :=
  _ ← FieldNames.in_bounds mode num_aero_modes;
  _ ← FieldNames.in_bounds species num_aero_species;
  c0 ← View.get (cld_aero_mmr_names_ bufs mode species) 0;
  if c0 =? 0 then
    let aero_id := mode_aero_species mode species in
    if bool_decide (aero_id <> NoAero) then
      sp ← aero_species_name (aero_id_to_int aero_id);
      md ← aero_mode_name mode;
      name ← concat_3_strings sp (literal "_c") md (cld_aero_mmr_names_ bufs mode species);
      Ok (name, mkBuffers (int_aero_nmr_names_ bufs) (cld_aero_nmr_names_ bufs)
                          (int_aero_mmr_names_ bufs)
                          (upd2 (cld_aero_mmr_names_ bufs) mode species name))
    else Ok (cld_aero_mmr_names_ bufs mode species, bufs)
  else Ok (cld_aero_mmr_names_ bufs mode species, bufs).

(** A buffer of [max_field_name_len] bytes that holds the string [s]. *)
Definition holds_name (buffer : list Z) (s : string) : Prop :=
  View.extent buffer = max_field_name_len /\ holds buffer (chars s).

(** The buffers hold, byte by byte, the strings of the cache. *)
Definition holds_cache (bufs : NameBuffers) (c : FieldNames.NameCache) : Prop :=
  (forall mode, holds_name (int_aero_nmr_names_ bufs mode)
                           (FieldNames.int_aero_nmr_names_ c mode))
  /\ (forall mode, holds_name (cld_aero_nmr_names_ bufs mode)
                              (FieldNames.cld_aero_nmr_names_ c mode))
  /\ (forall mode species,
        holds_name (int_aero_mmr_names_ bufs mode species)
                   (FieldNames.int_aero_mmr_names_ c mode species))
  /\ (forall mode species,
        holds_name (cld_aero_mmr_names_ bufs mode species)
                   (FieldNames.cld_aero_mmr_names_ c mode species)).

End CNames.


(** ** What a kernel does to one view *)

Module CouplingFrame.
Import Coupling.

(** The view [g'] is the view [g] with the entries of column [i] at the
    levels below [nlev] replaced by [f] of the entries of [h] and of the
    factor; all other entries are those of [g]. *)
Definition column_converted {Real : Type} (f : Real -> Real -> Real)
    (factor h g g' : nat -> nat -> Real) (i : nat) (nlev : Z) : Prop :=
  (forall k : nat, Z.of_nat k < nlev -> g' i k = f (h i k) (factor i k))
  /\ (forall i' k' : nat, i' <> i \/ nlev <= Z.of_nat k' -> g' i' k' = g i' k').

(** All mixing ratios of the two atmospheres are allocated. *)
Definition all_allocated {Real : Type} (wet_atm : WetAtmosphere_ Real)
    (dry_atm : DryAtmosphere_ Real) : bool :=
  is_allocated (wet_qv wet_atm) && is_allocated (wet_qc wet_atm)
  && is_allocated (wet_nc wet_atm) && is_allocated (wet_qi wet_atm)
  && is_allocated (wet_ni wet_atm)
  && is_allocated (dry_qv dry_atm) && is_allocated (dry_qc dry_atm)
  && is_allocated (dry_nc dry_atm) && is_allocated (dry_qi dry_atm)
  && is_allocated (dry_ni dry_atm).

End CouplingFrame.


(** ** The prognostics of one column *)

Module Columns.
Import Coupling.

(** A view of rank one over the levels of a column; nothing for a view that
    is not defined. *)
Definition view_1d := option (nat -> R).

(** [ekat::subview(v, column_index)] of an allocated view *)
Definition subview (v : nat -> nat -> R) (column_index : nat) : nat -> R :=
  v column_index.

(** The views of [mam4::Prognostics]. *)
Record Prognostics := mkProgs {
  n_mode_i : nat -> view_1d;
  n_mode_c : nat -> view_1d;
  q_aero_i : nat -> nat -> view_1d;
  q_aero_c : nat -> nat -> view_1d;
  q_gas : nat -> view_1d
}.

(** The view of the prognostics that corresponds to a view of an aerosol
    state. *)
Definition get (progs : Prognostics) (d : AeroField) : view_1d :=
  match d with
  | IntNmr m => n_mode_i progs m
  | CldNmr m => n_mode_c progs m
  | IntMmr m a => q_aero_i progs m a
  | CldMmr m a => q_aero_c progs m a
  | GasMmr g => q_gas progs g
  end.

Definition set1 (f : nat -> view_1d) (m : nat) (v : view_1d) : nat -> view_1d :=
  fun m' => if (m' =? m)%nat then v else f m'.

Definition set2 (f : nat -> nat -> view_1d) (m a : nat) (v : view_1d)
  : nat -> nat -> view_1d :=
  fun m' a' => if (m' =? m)%nat && (a' =? a)%nat then v else f m' a'.

Definition set (progs : Prognostics) (d : AeroField) (v : view_1d) : Prognostics :=
  match d with
  | IntNmr m => mkProgs (set1 (n_mode_i progs) m v) (n_mode_c progs)
                        (q_aero_i progs) (q_aero_c progs) (q_gas progs)
  | CldNmr m => mkProgs (n_mode_i progs) (set1 (n_mode_c progs) m v)
                        (q_aero_i progs) (q_aero_c progs) (q_gas progs)
  | IntMmr m a => mkProgs (n_mode_i progs) (n_mode_c progs)
                          (set2 (q_aero_i progs) m a v) (q_aero_c progs) (q_gas progs)
  | CldMmr m a => mkProgs (n_mode_i progs) (n_mode_c progs)
                          (q_aero_i progs) (set2 (q_aero_c progs) m a v) (q_gas progs)
  | GasMmr g => mkProgs (n_mode_i progs) (n_mode_c progs)
                        (q_aero_i progs) (q_aero_c progs) (set1 (q_gas progs) g v)
  end.

(** [progs.X = ekat::subview(dry_aero.X, column_index)] *)
Definition take_column (dry_aero : AerosolState) (d : AeroField) (column_index : nat)
    (progs : Prognostics) : Res Prognostics :=
  match Coupling.get dry_aero d with
  | Some v => Ok (set progs d (Some (subview v column_index)))
  | None => Undefined
  end.

(** [if (dry_aero.X.data()) progs.X = ekat::subview(dry_aero.X, column_index)] *)
Definition take_column_if_allocated (dry_aero : AerosolState) (d : AeroField)
    (column_index : nat) (progs : Prognostics) : Res Prognostics :=
  if is_allocated (Coupling.get dry_aero d)
  then take_column dry_aero d column_index progs
  else Ok progs.

(** [interstitial_aerosols_for_column]; [progs] is the object that
    [mam4::Prognostics progs(nlev)] declares, whose constructor belongs to
    the aerosol library. *)
Definition interstitial_aerosols_for_column (progs : Prognostics)
    (dry_aero : AerosolState) (column_index : nat) : Res Prognostics :=
  progs ← for_each (fun progs m =>
             _ ← kernel_assert (is_allocated (int_aero_nmr dry_aero m));
             progs ← take_column dry_aero (IntNmr m) column_index progs;
             for_each (fun progs a =>
                         take_column_if_allocated dry_aero (IntMmr m a)
                                                  column_index progs)
                      (range 0 num_aero_species) progs)
           (range 0 num_aero_modes) progs;
  for_each (fun progs g =>
              _ ← kernel_assert (is_allocated (gas_mmr dry_aero g));
              take_column dry_aero (GasMmr g) column_index progs)
           (range 0 num_aero_gases) progs.

(** [aerosols_for_column] *)
Definition aerosols_for_column (progs : Prognostics) (dry_aero : AerosolState)
    (column_index : nat) : Res Prognostics :=
  progs ← interstitial_aerosols_for_column progs dry_aero column_index;
  for_each (fun progs m =>
              _ ← kernel_assert (is_allocated (cld_aero_nmr dry_aero m));
              progs ← take_column dry_aero (CldNmr m) column_index progs;
              for_each (fun progs a =>
                          take_column_if_allocated dry_aero (CldMmr m a)
                                                   column_index progs)
                       (range 0 num_aero_species) progs)
           (range 0 num_aero_modes) progs.

(** The views of the interstitial aerosols and of the gases. *)
Definition interstitial (d : AeroField) : bool :=
  match d with
  | IntNmr _ | IntMmr _ _ | GasMmr _ => true
  | CldNmr _ | CldMmr _ _ => false
  end.

(** The views that the functions assert to be allocated: the number mixing
    ratios of the modes and the gases. *)
Definition asserted (d : AeroField) : bool :=
  match d with
  | IntNmr m | CldNmr m => (m <? 4)%nat
  | GasMmr g => (g <? 6)%nat
  | IntMmr _ _ | CldMmr _ _ => false
  end.

(** The column of a view of the aerosol state where it is allocated, the
    view of [progs] otherwise. *)
Definition column_of (dry_aero : AerosolState) (column_index : nat)
    (progs : Prognostics) (d : AeroField) : view_1d :=
  match Coupling.get dry_aero d with
  | Some v => Some (subview v column_index)
  | None => get progs d
  end.

End Columns.

(** * Properties *)

(** ** Distribution of the rows over the ranks *)

Section PartitionFacts.
Import Partition.
Variables remap_size num_ranks : Z.
Hypothesis Hsize : 0 <= remap_size.
Hypothesis Hranks : 0 < num_ranks.

Let q := remap_size / num_ranks.
Let r := remap_size mod num_ranks.

Lemma my_chunk_closed my_rank :
  0 <= my_rank ->
  my_chunk remap_size num_ranks my_rank = q + (if my_rank <? r then 1 else 0).
Proof.
  intros Hrank. unfold my_chunk, q, r. rewrite Z.quot_div_nonneg by lia.
  pose proof (Z.div_mod remap_size num_ranks ltac:(lia)) as Hdm.
  pose proof (Z.mod_pos_bound remap_size num_ranks Hranks) as Hb.
  replace (remap_size - remap_size / num_ranks * num_ranks)
    with (remap_size mod num_ranks) by lia.
  destruct (Z.eqb_spec (remap_size mod num_ranks) 0) as [E|E]; simpl; [|easy].
  rewrite E. destruct (Z.ltb_spec my_rank 0); lia.
Qed.

Lemma chunks_glob_lookup (k : nat) :
  (k < Z.to_nat num_ranks)%nat ->
  chunks_glob remap_size num_ranks !! k
  = Some (my_chunk remap_size num_ranks (Z.of_nat k)).
Proof.
  intros Hk. unfold chunks_glob, all_gather.
  rewrite list_lookup_fmap, lookup_seq_lt by lia. reflexivity.
Qed.

Lemma sum_first_closed (k : nat) :
  (k <= Z.to_nat num_ranks)%nat ->
  sum_first (chunks_glob remap_size num_ranks) (Z.of_nat k)
  = Z.of_nat k * q + Z.min (Z.of_nat k) r.
Proof.
  unfold sum_first. rewrite Nat2Z.id.
  pose proof (Z.mod_pos_bound remap_size num_ranks Hranks) as Hb. fold r in Hb.
  induction k as [|k IH]; intros Hk.
  - simpl. lia.
  - rewrite seq_S, fold_left_app. simpl. rewrite IH by lia.
    rewrite chunks_glob_lookup by lia. simpl. rewrite my_chunk_closed by lia.
    destruct (Z.ltb_spec (Z.of_nat k) r); lia.
Qed.

Lemma my_start_closed my_rank :
  0 <= my_rank <= num_ranks ->
  my_start remap_size num_ranks my_rank = my_rank * q + Z.min my_rank r.
Proof.
  intros H. unfold my_start.
  rewrite <- (Z2Nat.id my_rank) at 1 by lia.
  rewrite sum_first_closed by lia. rewrite Z2Nat.id by lia. reflexivity.
Qed.

Lemma chunk_check_closed : chunk_check remap_size num_ranks = remap_size.
Proof.
  unfold chunk_check.
  rewrite <- (Z2Nat.id num_ranks) at 2 by lia.
  rewrite sum_first_closed by lia. rewrite Z2Nat.id by lia.
  pose proof (Z.div_mod remap_size num_ranks ltac:(lia)) as Hdm.
  pose proof (Z.mod_pos_bound remap_size num_ranks Hranks) as Hb.
  unfold q, r. lia.
Qed.

End PartitionFacts.

(** C7. For [0 <= n_s] entries and [0 < R] ranks, the chunks computed by
    [set_remap_segments_from_file] sum to [n_s] (so the fatal chunk-sum
    check passes), two chunks differ by at most one with the larger ones on
    the lowest ranks, every rank's range starts where the previous one ends
    (the first at 0, the last ending at [n_s]), and the ranges of two
    different ranks are disjoint. *)
Theorem partition_chunks_exact (n_s R : Z) :
  0 <= n_s -> 0 < R ->
  Partition.chunk_check n_s R = n_s
  /\ Partition.chunks_cover n_s R = true
  /\ (forall r1 r2, 0 <= r1 < R -> 0 <= r2 < R ->
        Z.abs (Partition.my_chunk n_s R r1 - Partition.my_chunk n_s R r2) <= 1)
  /\ (forall r1 r2, 0 <= r1 <= r2 -> r2 < R ->
        Partition.my_chunk n_s R r2 <= Partition.my_chunk n_s R r1)
  /\ Partition.my_start n_s R 0 = 0
  /\ (forall r, 0 <= r < R ->
        0 <= Partition.my_chunk n_s R r
        /\ Partition.my_start n_s R (r + 1)
           = Partition.my_start n_s R r + Partition.my_chunk n_s R r)
  /\ Partition.my_start n_s R R = n_s
  /\ (forall r1 r2, 0 <= r1 < r2 -> r2 < R ->
        Partition.my_start n_s R r1 + Partition.my_chunk n_s R r1
        <= Partition.my_start n_s R r2).
Proof.
  intros Hn HR.
  pose proof (Z.div_mod n_s R ltac:(lia)) as Hdm.
  pose proof (Z.mod_pos_bound n_s R HR) as Hb.
  assert (Hq : 0 <= n_s / R) by (apply Z.div_pos; lia).
  assert (Hcc := chunk_check_closed n_s R Hn HR).
  repeat apply conj.
  - exact Hcc.
  - unfold Partition.chunks_cover. rewrite Hcc. apply Z.eqb_refl.
  - intros r1 r2 H1 H2. rewrite !my_chunk_closed by lia.
    destruct (Z.ltb_spec r1 (n_s mod R)), (Z.ltb_spec r2 (n_s mod R)); lia.
  - intros r1 r2 H1 H2. rewrite !my_chunk_closed by lia.
    destruct (Z.ltb_spec r1 (n_s mod R)), (Z.ltb_spec r2 (n_s mod R)); lia.
  - rewrite my_start_closed by lia. lia.
  - intros r Hr. rewrite !my_start_closed, my_chunk_closed by lia.
    destruct (Z.ltb_spec r (n_s mod R)); lia.
  - rewrite my_start_closed by lia. nia.
  - intros r1 r2 H1 H2. rewrite !my_start_closed, my_chunk_closed by lia.
    destruct (Z.ltb_spec r1 (n_s mod R)); nia.
Qed.

Lemma partition_chunks_exact_witness :
  0 <= 10 /\ 0 < 4 /\ Partition.chunk_check 10 4 = 10
  /\ Partition.chunks_glob 10 4 = [3; 3; 2; 2]
  /\ Partition.my_start 10 4 2 = 6.
Proof.
  split; [lia|]. split; [lia|].
  split; [apply (partition_chunks_exact 10 4); lia|].
  split; reflexivity.
Defined.

(** ** Loops and views *)

Section LoopFacts.
Context {S : Type}.
Implicit Types (body : S -> nat -> Res S) (iis : list nat) (st : S).

Lemma for_each_app body iis1 iis2 st :
  for_each body (iis1 ++ iis2) st
  = st' ← for_each body iis1 st; for_each body iis2 st'.
Proof.
  revert st. induction iis1 as [|ii iis1 IH]; intros st; simpl; [reflexivity|].
  destruct (body st ii); simpl; auto.
Qed.

(** A loop whose body keeps an invariant and is defined under it returns,
    in a state that satisfies the invariant. *)
Lemma for_each_invariant (P : list nat -> S -> Prop) body iis st :
  P [] st ->
  (forall done ii st, P done st -> ii ∈ iis ->
     exists st', body st ii = Ok st' /\ P (done ++ [ii]) st') ->
  forall pre, (forall st, P [] st -> P pre st) ->
  exists st', for_each body iis st = Ok st' /\ P (pre ++ iis) st'.
Proof.
  intros H0 Hstep pre Hpre. apply Hpre in H0. clear Hpre.
  revert pre st H0 Hstep.
  induction iis as [|ii iis IH]; intros pre st H0 Hstep; simpl.
  - exists st. rewrite app_nil_r. auto.
  - destruct (Hstep pre ii st H0 ltac:(left)) as (st1 & E1 & H1).
    rewrite E1. simpl.
    destruct (IH (pre ++ [ii]) st1 H1) as (st' & E' & H').
    + intros done jj st2 H2 Hin. apply Hstep; [exact H2 | now right].
    + exists st'. rewrite <- app_assoc in H'. auto.
Qed.

Lemma for_each_ok (P : S -> Prop) body iis st :
  P st ->
  (forall ii st, P st -> ii ∈ iis -> exists st', body st ii = Ok st' /\ P st') ->
  exists st', for_each body iis st = Ok st' /\ P st'.
Proof.
  intros H0 Hstep.
  destruct (for_each_invariant (fun _ => P) body iis st H0) with (pre := @nil nat)
    as (st' & E & H'); eauto.
Qed.

End LoopFacts.

Lemma elem_of_range lo hi (ii : nat) :
  (0 <= lo)%Z -> ii ∈ range lo hi <-> (lo <= Z.of_nat ii < hi)%Z.
Proof. intros Hlo. unfold range. rewrite elem_of_seq. lia. Qed.

Lemma range_0_of_nat (n : nat) : range 0 (Z.of_nat n) = seq 0 n.
Proof. unfold range. f_equal. lia. Qed.

Section ViewFacts.
Context {A : Type}.
Implicit Types (v : list A) (i : Z) (x : A).

Lemma view_get_Ok v i x :
  View.get v i = Ok x <-> 0 <= i /\ v !! Z.to_nat i = Some x.
Proof.
  unfold View.get. destruct (Z.ltb_spec i 0).
  - split; [discriminate | lia].
  - destruct (v !! Z.to_nat i); split; intros; try easy.
    + split; [lia | congruence].
    + f_equal. destruct H0. congruence.
Qed.

Lemma view_get_of_nat v (n : nat) x : v !! n = Some x -> View.get v (Z.of_nat n) = Ok x.
Proof. intros H. apply view_get_Ok. rewrite Nat2Z.id. split; [lia | exact H]. Qed.

Lemma view_get_in_extent v i :
  0 <= i < View.extent v -> exists x, View.get v i = Ok x.
Proof.
  intros Hi. unfold View.extent in Hi.
  destruct (lookup_lt_is_Some_2 v (Z.to_nat i) ltac:(lia)) as [x Hx].
  exists x. apply view_get_Ok. split; [lia | exact Hx].
Qed.

Lemma view_get_outside v i :
  i < 0 \/ View.extent v <= i -> View.get v i = Undefined.
Proof.
  unfold View.get, View.extent. intros Hi. destruct (Z.ltb_spec i 0); [reflexivity|].
  rewrite (proj2 (lookup_ge_None v (Z.to_nat i))) by lia. reflexivity.
Qed.

Lemma view_set_Ok v i x :
  0 <= i < View.extent v -> View.set v i x = Ok (<[Z.to_nat i := x]> v).
Proof.
  unfold View.set, View.extent. intros Hi.
  destruct (Z.ltb_spec i 0); [lia|].
  destruct (Nat.ltb_spec (Z.to_nat i) (length v)); [reflexivity | lia].
Qed.

Lemma vec_back_Ok v : v <> [] -> exists x, Vec.back v = Ok x.
Proof.
  intros Hv. unfold Vec.back. destruct (last v) eqn:E; [eauto|].
  apply last_None in E. contradiction.
Qed.

End ViewFacts.

(** ** Grouping of the rows of a chunk *)

Lemma group_rows_defined tgt_col_h my_start my_chunk :
  View.extent tgt_col_h = my_chunk -> 1 <= my_chunk ->
  exists c, Grouping.group_rows tgt_col_h my_start my_chunk = Ok c.
Proof.
  intros Hext Hchunk. unfold Grouping.group_rows.
  destruct (view_get_in_extent tgt_col_h 0 ltac:(lia)) as [t0 E0].
  rewrite E0. simpl.
  destruct (for_each_ok
              (fun st => Grouping.chunk_dof st <> [] /\ Grouping.chunk_len st <> [])
              (Grouping.group_step tgt_col_h my_start) (range 1 my_chunk)
              (Grouping.mkChunks [t0] [my_start] [1] t0)) as (c & Ec & _).
  - split; discriminate.
  - intros ii st [Hd Hl] Hin. apply elem_of_range in Hin; [|lia].
    unfold Grouping.group_step.
    destruct (view_get_in_extent tgt_col_h (Z.of_nat ii) ltac:(lia)) as [t Et].
    rewrite Et. simpl.
    destruct (vec_back_Ok _ Hd) as [ld Eld]. rewrite Eld. simpl.
    destruct (vec_back_Ok _ Hl) as [ll Ell].
    destruct (t =? ld).
    + rewrite Ell. simpl. eexists. split; [reflexivity|]. simpl.
      split; [exact Hd|]. unfold Vec.set_back.
      intros Hnil. apply (f_equal length) in Hnil.
      rewrite length_insert in Hnil. destruct (Grouping.chunk_len st); easy.
    + eexists. split; [reflexivity|]. simpl. unfold Vec.push_back.
      split; intros Hnil; apply app_eq_nil in Hnil; destruct Hnil; discriminate.
  - eauto.
Qed.

Lemma group_rows_empty tgt_col_h my_start my_chunk :
  View.extent tgt_col_h = my_chunk -> my_chunk <= 0 ->
  Grouping.group_rows tgt_col_h my_start my_chunk = Undefined.
Proof.
  intros Hext Hchunk. unfold Grouping.group_rows.
  rewrite view_get_outside by lia. reflexivity.
Qed.

Lemma read_rows_extent (row : list Z) (R my_rank : Z) :
  0 < R -> 0 <= my_rank < R ->
  View.extent (Grouping.read_rows row
                 (Partition.my_start (View.extent row) R my_rank)
                 (Partition.my_chunk (View.extent row) R my_rank))
  = Partition.my_chunk (View.extent row) R my_rank.
Proof.
  intros HR Hrank. unfold Grouping.read_rows.
  set (n := View.extent row).
  assert (Hn : 0 <= n) by (unfold n, View.extent; lia).
  pose proof (Z.div_mod n R ltac:(lia)) as Hdm.
  pose proof (Z.mod_pos_bound n R HR) as Hb.
  assert (Hq : 0 <= n / R) by (apply Z.div_pos; lia).
  pose proof (my_start_closed n R Hn HR my_rank ltac:(lia)) as Hs.
  pose proof (my_chunk_closed n R Hn HR my_rank ltac:(lia)) as Hc.
  assert (Hfit : 0 <= Partition.my_start n R my_rank
                 /\ 0 <= Partition.my_chunk n R my_rank
                 /\ Partition.my_start n R my_rank + Partition.my_chunk n R my_rank <= n).
  { rewrite Hs, Hc. destruct (Z.ltb_spec my_rank (n mod R)); nia. }
  unfold View.extent. rewrite length_take, length_drop.
  unfold n, View.extent in Hfit. unfold n, View.extent. lia.
Qed.

Lemma group_on_rank_unfold (row : list Z) (R my_rank : Z) :
  0 < R ->
  Grouping.group_on_rank row R my_rank
  = Grouping.group_rows
      (Grouping.read_rows row (Partition.my_start (View.extent row) R my_rank)
                              (Partition.my_chunk (View.extent row) R my_rank))
      (Partition.my_start (View.extent row) R my_rank)
      (Partition.my_chunk (View.extent row) R my_rank).
Proof.
  intros HR. unfold Grouping.group_on_rank, Partition.chunks_cover.
  rewrite chunk_check_closed by (unfold View.extent; lia).
  rewrite Z.eqb_refl. reflexivity.
Qed.

Lemma all_chunks_nonempty_iff (n_s R : Z) :
  0 <= n_s -> 0 < R ->
  (forall my_rank, 0 <= my_rank < R -> 1 <= Partition.my_chunk n_s R my_rank)
  <-> R <= n_s.
Proof.
  intros Hn HR.
  pose proof (Z.div_mod n_s R ltac:(lia)) as Hdm.
  pose proof (Z.mod_pos_bound n_s R HR) as Hb.
  assert (Hq : 0 <= n_s / R) by (apply Z.div_pos; lia).
  split.
  - intros Hall. specialize (Hall (R - 1) ltac:(lia)).
    rewrite my_chunk_closed in Hall by lia.
    destruct (Z.ltb_spec (R - 1) (n_s mod R)); nia.
  - intros Hle my_rank Hrank. rewrite my_chunk_closed by lia.
    assert (1 <= n_s / R) by (apply Z.div_le_lower_bound; lia).
    destruct (Z.ltb_spec my_rank (n_s mod R)); lia.
Qed.

(** C10. Step 2 of [set_remap_segments_from_file] reads entry 0 of the
    rank's rows before its loop, whatever the size of the chunk: on an empty
    view the grouping is undefined.  With the rows of a file of [n_s] entries
    distributed over [R] ranks, the grouping on a rank is defined exactly
    when the chunk of that rank is not empty; it is defined on every rank
    exactly when [R <= n_s]; and when [n_s < R] it is undefined on some rank
    (the last one), whose chunk is empty. *)
Theorem grouping_defined_iff_chunks_nonempty (row : list Z) (R : Z) :
  0 < R ->
  let n_s := View.extent row in
  (forall my_start my_chunk,
     Grouping.group_rows [] my_start my_chunk = Undefined)
  /\ (forall my_rank, 0 <= my_rank < R ->
        (1 <= Partition.my_chunk n_s R my_rank ->
           exists c, Grouping.group_on_rank row R my_rank = Ok c)
        /\ (Partition.my_chunk n_s R my_rank = 0 ->
           Grouping.group_on_rank row R my_rank = Undefined))
  /\ ((forall my_rank, 0 <= my_rank < R ->
         exists c, Grouping.group_on_rank row R my_rank = Ok c)
      <-> R <= n_s)
  /\ (n_s < R ->
        Partition.my_chunk n_s R (R - 1) = 0
        /\ Grouping.group_on_rank row R (R - 1) = Undefined).
Proof.
  intros HR n_s.
  assert (Hn : 0 <= n_s) by (unfold n_s, View.extent; lia).
  assert (Hrank : forall my_rank, 0 <= my_rank < R ->
            (1 <= Partition.my_chunk n_s R my_rank ->
               exists c, Grouping.group_on_rank row R my_rank = Ok c)
            /\ (Partition.my_chunk n_s R my_rank = 0 ->
               Grouping.group_on_rank row R my_rank = Undefined)).
  { intros my_rank Hr. rewrite group_on_rank_unfold by exact HR. fold n_s.
    pose proof (read_rows_extent row R my_rank HR Hr) as Hext. fold n_s in Hext.
    split; intros Hc.
    - apply group_rows_defined; assumption.
    - apply group_rows_empty; [assumption | lia]. }
  assert (Hlast : n_s < R -> Partition.my_chunk n_s R (R - 1) = 0).
  { intros Hlt. rewrite my_chunk_closed by lia.
    rewrite Z.div_small, Z.mod_small by lia.
    destruct (Z.ltb_spec (R - 1) n_s); lia. }
  repeat apply conj.
  - intros my_start my_chunk. reflexivity.
  - exact Hrank.
  - intros Hall. apply all_chunks_nonempty_iff; [exact Hn | exact HR |].
    intros my_rank Hr. destruct (Hall my_rank Hr) as [c Ec].
    destruct (Hrank my_rank Hr) as [_ Hundef].
    pose proof (my_chunk_closed n_s R Hn HR my_rank ltac:(lia)) as Hc.
    assert (0 <= n_s / R) by (apply Z.div_pos; lia).
    destruct (Z.eq_dec (Partition.my_chunk n_s R my_rank) 0) as [E0|Hne].
    + rewrite (Hundef E0) in Ec. discriminate.
    + destruct (Z.ltb_spec my_rank (n_s mod R)); lia.
  - intros Hle my_rank Hr. apply (Hrank my_rank Hr).
    apply all_chunks_nonempty_iff; assumption.
  - intros Hlt. split; [exact (Hlast Hlt)|].
    apply (Hrank (R - 1)); [lia | exact (Hlast Hlt)].
Qed.

Lemma grouping_defined_iff_chunks_nonempty_witness :
  0 < 4
  /\ Partition.my_chunk 3 4 3 = 0
  /\ Grouping.group_on_rank [1; 1; 2] 4 3 = Undefined.
Proof.
  split; [lia|].
  destruct (grouping_defined_iff_chunks_nonempty [1; 1; 2] 4 ltac:(lia))
    as (_ & _ & _ & Hlast).
  apply Hlast. unfold View.extent. simpl. lia.
Defined.

(** ** Copies between views *)

Section CopyFacts.
Context {A : Type}.
Implicit Types (dst src : list A).

Lemma copy_into_prefix dst src (offset n : nat) :
  (n <= length src)%nat -> (offset + n <= length dst)%nat ->
  Map.copy_into dst src (Z.of_nat offset) (Z.of_nat n)
  = Ok (take offset dst ++ take n src ++ drop (offset + n) dst).
Proof.
  unfold Map.copy_into. rewrite range_0_of_nat.
  induction n as [|n IH]; intros Hsrc Hdst.
  - simpl. rewrite Nat.add_0_r, take_drop. reflexivity.
  - rewrite seq_S, for_each_app, IH by lia. simpl.
    destruct (lookup_lt_is_Some_2 src n ltac:(lia)) as [x Hx].
    rewrite (view_get_of_nat _ _ _ Hx). simpl.
    rewrite view_set_Ok.
    2:{ unfold View.extent. rewrite !length_app, !length_take, length_drop. lia. }
    f_equal. replace (Z.to_nat (Z.of_nat n + Z.of_nat offset)) with (offset + n)%nat by lia.
    rewrite (take_S_r _ _ _ Hx).
    rewrite insert_app_r_alt by (rewrite length_take; lia).
    rewrite length_take, Nat.min_l by lia.
    rewrite insert_app_r_alt by (rewrite length_take; lia).
    rewrite length_take, Nat.min_l by lia.
    replace (offset + n - offset - n)%nat with 0%nat by lia.
    destruct (lookup_lt_is_Some_2 dst (offset + n) ltac:(lia)) as [y Hy].
    rewrite (drop_S _ _ _ Hy). simpl.
    rewrite <- !app_assoc. simpl.
    replace (offset + Datatypes.S n)%nat with (Datatypes.S (offset + n)) by lia.
    reflexivity.
Qed.

(** Two views copied one after the other into a fresh view of the combined
    length: the first fills the front, the second the rest. *)
Lemma copy_into_front (zero : A) (old : list A) (old_len new_len : Z) :
  View.extent old = old_len -> (0 <= new_len)%Z ->
  Map.copy_into (View.alloc zero (new_len + old_len)) old 0 old_len
  = Ok (old ++ replicate (Z.to_nat new_len) zero).
Proof.
  unfold View.extent, View.alloc. intros <- Hnew.
  change 0%Z with (Z.of_nat 0).
  rewrite copy_into_prefix by (rewrite ?length_replicate; lia).
  simpl. rewrite firstn_all, drop_replicate. do 3 f_equal. lia.
Qed.

Lemma copy_into_back (zero : A) (old new : list A) (old_len new_len : Z) :
  View.extent old = old_len -> View.extent new = new_len ->
  Map.copy_into (old ++ replicate (Z.to_nat new_len) zero) new old_len new_len
  = Ok (old ++ new).
Proof.
  unfold View.extent. intros <- <-.
  rewrite copy_into_prefix by (rewrite ?length_app, ?length_replicate; lia).
  f_equal. rewrite take_app_length, firstn_all.
  rewrite drop_ge by (rewrite length_app, length_replicate; lia).
  rewrite app_nil_r. reflexivity.
Qed.

End CopyFacts.

(** ** Merging two segments *)

Lemma combine_concat (seg_match seg : GSSegment) :
  seg_wf seg_match -> seg_wf seg ->
  Map.combine seg_match seg
  = Ok (mkSegment (m_dof seg) (m_length seg + m_length seg_match)
                  (m_source_dofs seg_match ++ m_source_dofs seg)
                  (m_source_idx seg_match ++ m_source_idx seg)
                  (m_weights seg_match ++ m_weights seg)
                  None).
Proof.
  intros (Hm0 & Hm1 & Hm2 & Hm3) (Hs0 & Hs1 & Hs2 & Hs3).
  unfold Map.combine, Segment.new. simpl.
  rewrite (copy_into_front 0 (m_source_dofs seg_match)) by assumption. simpl.
  rewrite (copy_into_front 0 (m_source_idx seg_match)) by assumption. simpl.
  rewrite (copy_into_front 0%R (m_weights seg_match)) by assumption. simpl.
  rewrite (copy_into_back 0 (m_source_dofs seg_match)) by assumption. simpl.
  rewrite (copy_into_back 0 (m_source_idx seg_match)) by assumption. simpl.
  rewrite (copy_into_back 0%R (m_weights seg_match)) by assumption. simpl.
  reflexivity.
Qed.

Lemma combine_wf (seg_match seg new_seg : GSSegment) :
  seg_wf seg_match -> seg_wf seg ->
  Map.combine seg_match seg = Ok new_seg -> seg_wf new_seg.
Proof.
  intros Hm Hs. rewrite combine_concat by assumption. intros [= <-].
  destruct Hm as (Hm0 & Hm1 & Hm2 & Hm3), Hs as (Hs0 & Hs1 & Hs2 & Hs3).
  unfold seg_wf, View.extent in *. simpl. rewrite !length_app. lia.
Qed.

(** ** Searching the segments of a map *)

(** The position of the first segment for [d], if there is one. *)
Lemma scan_match_none (segs : list GSSegment) (d : Z) (lo n : nat) :
  (lo + n <= length segs)%nat ->
  (forall iseg seg, (lo <= iseg < lo + n)%nat -> segs !! iseg = Some seg -> m_dof seg <> d) ->
  Map.scan_match segs d (seq lo n) = Ok (-999).
Proof.
  revert lo. induction n as [|n IH]; intros lo Hlen Hnone; simpl; [reflexivity|].
  destruct (lookup_lt_is_Some_2 segs lo ltac:(lia)) as [seg Hseg].
  unfold Vec.at_. rewrite Hseg. simpl.
  destruct (Z.eqb_spec (m_dof seg) d) as [E|_].
  - exfalso. apply (Hnone lo seg); [lia | assumption | assumption].
  - apply IH; [lia|]. intros iseg seg' Hi. apply Hnone. lia.
Qed.

Lemma scan_match_found (segs : list GSSegment) (d : Z) (lo n loc : nat) seg :
  (lo + n <= length segs)%nat -> (lo <= loc < lo + n)%nat ->
  segs !! loc = Some seg -> m_dof seg = d ->
  (forall iseg seg', (lo <= iseg < loc)%nat -> segs !! iseg = Some seg' -> m_dof seg' <> d) ->
  Map.scan_match segs d (seq lo n) = Ok (Z.of_nat loc).
Proof.
  revert lo. induction n as [|n IH]; intros lo Hlen Hloc Hseg Hd Hfirst; [lia|].
  simpl. destruct (lookup_lt_is_Some_2 segs lo ltac:(lia)) as [seg0 Hseg0].
  unfold Vec.at_. rewrite Hseg0. simpl.
  destruct (Z.eqb_spec (m_dof seg0) d) as [E|NE].
  - destruct (Nat.eq_dec lo loc) as [->|Hne]; [reflexivity|].
    exfalso. apply (Hfirst lo seg0); [lia | assumption | assumption].
  - destruct (Nat.eq_dec lo loc) as [->|Hne]; [congruence|].
    apply IH; [lia | lia | assumption | assumption |].
    intros iseg seg' Hi. apply Hfirst. lia.
Qed.

(** ** Positions in a vector *)

Lemma find_pos_range (v : list Z) (x : Z) : 0 <= Vec.find_pos v x <= View.extent v.
Proof.
  unfold View.extent. induction v as [|y v IH]; simpl; [lia|].
  destruct (y =? x); lia.
Qed.

Lemma find_pos_absent (v : list Z) (x : Z) :
  Vec.find_pos v x = View.extent v <-> x ∉ v.
Proof.
  unfold View.extent. induction v as [|y v IH]; simpl.
  - split; [intros _; apply not_elem_of_nil | reflexivity].
  - rewrite not_elem_of_cons. pose proof (find_pos_range v x) as Hr.
    unfold View.extent in Hr.
    destruct (Z.eqb_spec y x) as [->|Hne].
    + split; [lia | intros [? _]; congruence].
    + rewrite <- IH. split; [intros; split; [congruence | lia] | lia].
Qed.

Lemma find_pos_present (v : list Z) (x : Z) :
  x ∈ v ->
  0 <= Vec.find_pos v x < View.extent v
  /\ v !! Z.to_nat (Vec.find_pos v x) = Some x
  /\ forall j : nat, Z.of_nat j < Vec.find_pos v x -> v !! j <> Some x.
Proof.
  unfold View.extent. induction v as [|y v IH]; intros Hin.
  - inversion Hin.
  - simpl. destruct (Z.eqb_spec y x) as [->|Hne].
    + split; [lia | split; [reflexivity | intros j Hj; lia]].
    + apply elem_of_cons in Hin. destruct Hin as [->|Hin]; [congruence|].
      destruct (IH Hin) as (Hr & Hl & Hf).
      split; [lia | split].
      * replace (Z.to_nat (1 + Vec.find_pos v x))
          with (Datatypes.S (Z.to_nat (Vec.find_pos v x))) by lia.
        exact Hl.
      * intros [|j] Hj; simpl; [congruence|]. apply Hf. lia.
Qed.

(** ** Sorting *)

Lemma sort_strictly_ascending (v : list Z) :
  NoDup v -> StronglySorted Z.lt (Vec.sort v).
Proof.
  intros Hnd. unfold Vec.sort.
  assert (Hs : StronglySorted Z.le (merge_sort Z.le v)).
  { apply Sorted_StronglySorted; [intros x y z; lia|].
    apply (Sorted_merge_sort Z.le). }
  assert (Hnd' : NoDup (merge_sort Z.le v)).
  { rewrite merge_sort_Permutation. exact Hnd. }
  induction Hs as [|x l Hl IH Hall]; [constructor|].
  apply NoDup_cons in Hnd'. destruct Hnd' as [Hx Hnd'].
  constructor; [apply IH; exact Hnd'|].
  rewrite Forall_forall in *. intros y Hy.
  assert (x <> y) by (intros ->; apply Hx; exact Hy).
  specialize (Hall y Hy). lia.
Qed.

Lemma sort_elem_of (v : list Z) (x : Z) : x ∈ Vec.sort v <-> x ∈ v.
Proof. unfold Vec.sort. rewrite merge_sort_Permutation. reflexivity. Qed.

(** ** The unique source DOFs *)

Lemma collect_segment_spec (seg : GSSegment) (u : list Z) :
  seg_wf seg -> NoDup u ->
  exists u', Map.collect_segment seg u = Ok u'
             /\ NoDup u'
             /\ forall x, x ∈ u' <-> x ∈ u \/ x ∈ m_source_dofs seg.
Proof.
  intros (H0 & H1 & _) Hnd. unfold Map.collect_segment.
  replace (m_length seg) with (Z.of_nat (length (m_source_dofs seg))) by exact H1.
  rewrite range_0_of_nat.
  destruct (for_each_invariant
    (fun done st => NoDup st
       /\ forall x, x ∈ st <-> x ∈ u \/ exists ii, ii ∈ done /\ m_source_dofs seg !! ii = Some x)
    (fun u ii =>
       d ← View.get (m_source_dofs seg) (Z.of_nat ii);
       if Vec.find_pos u d =? View.extent u then Ok (Vec.push_back u d) else Ok u)
    (seq 0 (length (m_source_dofs seg))) u) with (pre := @nil nat)
    as (u' & Eu & Hnd' & Hin).
  - split; [exact Hnd|]. intros x. split; [auto|].
    intros [?|(ii & Hii & _)]; [assumption | inversion Hii].
  - intros done ii st [Hst Hmem] Hii. apply elem_of_seq in Hii.
    destruct (lookup_lt_is_Some_2 (m_source_dofs seg) ii ltac:(lia)) as [d Hd].
    rewrite (view_get_of_nat _ _ _ Hd). simpl.
    destruct (Z.eqb_spec (Vec.find_pos st d) (View.extent st)) as [E|NE].
    + apply find_pos_absent in E. eexists. split; [reflexivity|].
      unfold Vec.push_back. split.
      * apply NoDup_app. repeat split; [exact Hst | | apply NoDup_singleton].
        intros y Hy Hy'. apply list_elem_of_singleton in Hy'. congruence.
      * intros x. rewrite elem_of_app, list_elem_of_singleton, Hmem.
        setoid_rewrite elem_of_app. setoid_rewrite list_elem_of_singleton.
        split.
        -- intros [[?|(jj & ? & ?)]| ->]; eauto 6.
        -- intros [?|(jj & [?| ->] & Hjj)]; eauto 6. right. congruence.
    + assert (Hdin : d ∈ st).
      { destruct (decide (d ∈ st)) as [?|Hn]; [assumption|].
        apply find_pos_absent in Hn. contradiction. }
      eexists. split; [reflexivity|]. split; [exact Hst|].
      intros x. rewrite Hmem. setoid_rewrite elem_of_app.
      setoid_rewrite list_elem_of_singleton. split.
      * intros [?|(jj & ? & ?)]; eauto 6.
      * intros [?|(jj & [?| ->] & Hjj)]; eauto 6.
        assert (x = d) as -> by congruence. apply Hmem. exact Hdin.
  - auto.
  - exists u'. split; [exact Eu|]. split; [exact Hnd'|].
    intros x. rewrite Hin. simpl. split.
    + intros [?|(ii & _ & Hii)]; [auto|]. right.
      apply list_elem_of_lookup. eauto.
    + intros [?|Hx]; [auto|]. right.
      apply list_elem_of_lookup in Hx. destruct Hx as [ii Hii].
      exists ii. split; [|exact Hii].
      apply elem_of_seq. apply lookup_lt_Some in Hii. lia.
Qed.

Lemma collect_unique_spec (segs : list GSSegment) :
  Forall seg_wf segs ->
  exists u, Map.collect_unique segs (View.extent segs) = Ok u
            /\ NoDup u
            /\ forall x, x ∈ u <-> exists seg, seg ∈ segs /\ x ∈ m_source_dofs seg.
Proof.
  intros Hwf. unfold Map.collect_unique, View.extent. rewrite range_0_of_nat.
  destruct (for_each_invariant
    (fun done st => NoDup st
       /\ forall x, x ∈ st <-> exists iseg seg, iseg ∈ done /\ segs !! iseg = Some seg
                                             /\ x ∈ m_source_dofs seg)
    (fun u iseg => seg ← Vec.at_ segs iseg; Map.collect_segment seg u)
    (seq 0 (length segs)) []) with (pre := @nil nat)
    as (u' & Eu & Hnd' & Hin).
  - split; [apply NoDup_nil_2|]. intros x. split; [inversion 1|].
    intros (iseg & seg & Hi & _). inversion Hi.
  - intros done iseg st [Hst Hmem] Hi. apply elem_of_seq in Hi.
    destruct (lookup_lt_is_Some_2 segs iseg ltac:(lia)) as [seg Hseg].
    unfold Vec.at_. rewrite Hseg. simpl.
    assert (Hsw : seg_wf seg).
    { rewrite Forall_forall in Hwf. apply Hwf. apply list_elem_of_lookup. eauto. }
    destruct (collect_segment_spec seg st Hsw Hst) as (u' & Eu & Hnd' & Hin).
    exists u'. split; [exact Eu|]. split; [exact Hnd'|].
    intros x. rewrite Hin, Hmem. setoid_rewrite elem_of_app.
    setoid_rewrite list_elem_of_singleton. split.
    + intros [(jseg & s & ? & ? & ?)|Hx]; [eauto 8|]. exists iseg, seg. auto.
    + intros (jseg & s & [?| ->] & Hs & Hx); [left; eauto 8|].
      right. congruence.
  - auto.
  - exists u'. split; [exact Eu|]. split; [exact Hnd'|].
    intros x. rewrite Hin. simpl. split.
    + intros (iseg & seg & _ & Hs & Hx). exists seg. split; [|exact Hx].
      apply list_elem_of_lookup. eauto.
    + intros (seg & Hs & Hx). apply list_elem_of_lookup in Hs.
      destruct Hs as [iseg Hs]. exists iseg, seg. split; [|auto].
      apply elem_of_seq. apply lookup_lt_Some in Hs. lia.
Qed.

(** ** Resolving one segment *)

Lemma scan_dofs_first (dofs : list Z) (d : Z) (lo n : nat) :
  (lo + n <= length dofs)%nat ->
  (exists k : nat, Map.scan_dofs dofs d (seq lo n) = Ok (Some (Z.of_nat k))
                   /\ (lo <= k < lo + n)%nat /\ dofs !! k = Some d
                   /\ forall j : nat, (lo <= j < k)%nat -> dofs !! j <> Some d)
  \/ (Map.scan_dofs dofs d (seq lo n) = Ok None
      /\ forall j : nat, (lo <= j < lo + n)%nat -> dofs !! j <> Some d).
Proof.
  revert lo. induction n as [|n IH]; intros lo Hlen; simpl.
  - right. split; [reflexivity | intros; lia].
  - destruct (lookup_lt_is_Some_2 dofs lo ltac:(lia)) as [g Hg].
    rewrite (view_get_of_nat _ _ _ Hg). simpl.
    destruct (Z.eqb_spec d g) as [->|Hne].
    + left. exists lo. repeat split; [lia | lia | exact Hg | intros; lia].
    + destruct (IH (Datatypes.S lo) ltac:(lia)) as [(k & E & Hk & Hd & Hf)|[E Hf]].
      * left. exists k. split; [exact E|]. split; [lia|]. split; [exact Hd|].
        intros j Hj. destruct (Nat.eq_dec j lo) as [->|]; [congruence|].
        apply Hf. lia.
      * right. split; [exact E|]. intros j Hj.
        destruct (Nat.eq_dec j lo) as [->|]; [congruence|]. apply Hf. lia.
Qed.

Lemma map_into_prefix (f : Z -> Z) (src h0 : list Z) (n : nat) :
  (n <= length src)%nat -> (n <= length h0)%nat ->
  for_each (fun h ii => x ← View.get src (Z.of_nat ii);
                        View.set h (Z.of_nat ii) (f x)) (seq 0 n) h0
  = Ok (map f (take n src) ++ drop n h0).
Proof.
  induction n as [|n IH]; intros Hsrc Hh; [reflexivity|].
  rewrite seq_S, for_each_app, IH by lia. simpl.
  destruct (lookup_lt_is_Some_2 src n ltac:(lia)) as [x Hx].
  rewrite (view_get_of_nat _ _ _ Hx). simpl.
  rewrite view_set_Ok.
  2:{ unfold View.extent. rewrite length_app, length_map, length_take, length_drop. lia. }
  f_equal. rewrite Nat2Z.id.
  rewrite insert_app_r_alt by (rewrite length_map, length_take; lia).
  rewrite length_map, length_take, Nat.min_l by lia.
  replace (n - n)%nat with 0%nat by lia.
  destruct (lookup_lt_is_Some_2 h0 n ltac:(lia)) as [y Hy].
  rewrite (drop_S _ _ _ Hy). simpl.
  rewrite (take_S_r _ _ _ Hx), map_app. simpl.
  rewrite <- app_assoc. reflexivity.
Qed.

(** The outcome of [resolve_segment]: fatal when the target DOF is not in
    the local list, the segment with its two indices set otherwise. *)
Lemma resolve_segment_spec (dofs unique : list Z) (seg : GSSegment) :
  seg_wf seg ->
  ((m_dof seg ∉ dofs)
   /\ Map.resolve_segment dofs (View.extent dofs) unique seg = Fatal)
  \/ (exists k : nat,
        dofs !! k = Some (m_dof seg)
        /\ (forall j : nat, (j < k)%nat -> dofs !! j <> Some (m_dof seg))
        /\ Map.resolve_segment dofs (View.extent dofs) unique seg
           = Ok (mkSegment (m_dof seg) (m_length seg) (m_source_dofs seg)
                           (map (Vec.find_pos unique) (m_source_dofs seg))
                           (m_weights seg) (Some (Z.of_nat k)))).
Proof.
  intros (H0 & H1 & H2 & H3). unfold Map.resolve_segment, View.extent.
  rewrite range_0_of_nat.
  destruct (scan_dofs_first dofs (m_dof seg) 0 (length dofs) ltac:(lia))
    as [(k & E & Hk & Hd & Hf)|[E Hf]]; rewrite E; simpl.
  - right. exists k. split; [exact Hd|]. split; [intros j Hj; apply Hf; lia|].
    replace (m_length seg) with (Z.of_nat (length (m_source_dofs seg))) at 1
      by exact H1.
    rewrite range_0_of_nat, map_into_prefix.
    + simpl. unfold Segment.set_source_idx. simpl. do 2 f_equal.
      rewrite firstn_all, drop_ge, app_nil_r; [reflexivity|].
      unfold View.extent in *. lia.
    + lia.
    + unfold View.extent in *. lia.
  - left. split; [|reflexivity]. intros Hin.
    apply list_elem_of_lookup in Hin. destruct Hin as [j Hj].
    apply (Hf j); [|exact Hj]. apply lookup_lt_Some in Hj. lia.
Qed.

Lemma resolve_segment_wf (dofs unique : list Z) (seg seg' : GSSegment) :
  seg_wf seg ->
  Map.resolve_segment dofs (View.extent dofs) unique seg = Ok seg' ->
  seg_wf seg' /\ m_dof seg' = m_dof seg /\ m_length seg' = m_length seg
  /\ m_source_dofs seg' = m_source_dofs seg /\ m_weights seg' = m_weights seg.
Proof.
  intros Hwf E.
  destruct (resolve_segment_spec dofs unique seg Hwf) as [[_ E']|(k & _ & _ & E')];
    rewrite E' in E; [discriminate|]. injection E as <-. simpl.
  destruct Hwf as (H0 & H1 & H2 & H3).
  repeat split; try assumption.
  unfold View.extent in *. simpl. rewrite length_map. lia.
Qed.

(** The second loop of [set_unique_source_dofs], segment after segment. *)
Lemma resolve_loop_spec (dofs unique : list Z) (segs : list GSSegment) (n : nat) :
  Forall seg_wf segs -> (n <= length segs)%nat ->
  let body := fun (segs : list GSSegment) (iseg : nat) =>
    seg ← Vec.at_ segs iseg;
    seg' ← Map.resolve_segment dofs (View.extent dofs) unique seg;
    Ok (<[iseg := seg']> segs) in
  (for_each body (seq 0 n) segs = Fatal
   /\ exists iseg seg, (iseg < n)%nat /\ segs !! iseg = Some seg /\ (m_dof seg ∉ dofs))
  \/ (exists segs', for_each body (seq 0 n) segs = Ok segs'
        /\ length segs' = length segs
        /\ drop n segs' = drop n segs
        /\ forall iseg seg, (iseg < n)%nat -> segs !! iseg = Some seg ->
             exists seg', segs' !! iseg = Some seg'
               /\ Map.resolve_segment dofs (View.extent dofs) unique seg = Ok seg').
Proof.
  intros Hwf Hn. cbv zeta. induction n as [|n IH].
  - right. exists segs. simpl.
    split; [reflexivity|]. split; [reflexivity|]. split; [reflexivity|].
    intros; lia.
  - rewrite seq_S, for_each_app. simpl.
    destruct (IH ltac:(lia)) as [[E (iseg & seg & Hi & Hs & Hd)]|(segs' & E & Hlen & Hdrop & Hres)];
      rewrite E; simpl.
    + left. split; [reflexivity|]. exists iseg, seg. split; [lia | auto].
    + destruct (lookup_lt_is_Some_2 segs n ltac:(lia)) as [seg Hseg].
      assert (Hseg' : segs' !! n = Some seg).
      { rewrite <- (Nat.add_0_r n). rewrite <- lookup_drop, Hdrop, lookup_drop.
        rewrite Nat.add_0_r. exact Hseg. }
      unfold Vec.at_. rewrite Hseg'. simpl.
      assert (Hsw : seg_wf seg).
      { rewrite Forall_forall in Hwf. apply Hwf, list_elem_of_lookup; eauto. }
      destruct (resolve_segment_spec dofs unique seg Hsw) as [[Hd E']|(k & Hk & Hf & E')];
        rewrite E'; simpl.
      * left. split; [reflexivity|]. exists n, seg. split; [lia | auto].
      * right. eexists. split; [reflexivity|].
        split; [rewrite length_insert; exact Hlen|]. split.
        -- rewrite drop_insert_lt by lia.
           change (Datatypes.S n) with (1 + n)%nat.
           rewrite (Nat.add_comm 1 n), <- !drop_drop, Hdrop. reflexivity.
        -- intros iseg seg0 Hi Hs0.
           destruct (Nat.eq_dec iseg n) as [->|Hne].
           ++ rewrite list_lookup_insert_eq by lia.
              eexists. split; [reflexivity|]. congruence.
           ++ rewrite list_lookup_insert_ne by lia. apply Hres; [lia | exact Hs0].
Qed.

(** The outcome of [set_unique_source_dofs] on a well-formed map. *)
Lemma set_unique_source_dofs_spec (m : GSMap) :
  map_wf m ->
  ((exists seg, seg ∈ m_map_segments m /\ (m_dof seg ∉ m_dofs_gids m)) ->
     Map.set_unique_source_dofs m = Fatal)
  /\ (local_targets m (m_map_segments m) ->
      exists segs' u,
        Map.set_unique_source_dofs m
        = Ok (mkMap (m_dofs_set m) (m_dofs_gids m) (m_num_dofs m) segs'
                    (m_num_segments m) (Vec.sort u) true)
        /\ NoDup u
        /\ (forall d, d ∈ u
                      <-> exists seg, seg ∈ m_map_segments m /\ d ∈ m_source_dofs seg)
        /\ length segs' = length (m_map_segments m)
        /\ forall iseg seg, m_map_segments m !! iseg = Some seg ->
             exists k : nat,
               m_dofs_gids m !! k = Some (m_dof seg)
               /\ (forall j : nat, (j < k)%nat -> m_dofs_gids m !! j <> Some (m_dof seg))
               /\ segs' !! iseg
                  = Some (mkSegment (m_dof seg) (m_length seg) (m_source_dofs seg)
                            (map (Vec.find_pos (Vec.sort u)) (m_source_dofs seg))
                            (m_weights seg) (Some (Z.of_nat k)))).
Proof.
  intros (Hns & Hnd & Hwf). unfold Map.set_unique_source_dofs.
  rewrite Hns, Hnd.
  destruct (collect_unique_spec _ Hwf) as (u & Eu & Hu & Hmem).
  rewrite Eu. simpl.
  change (View.extent (m_map_segments m))
    with (Z.of_nat (length (m_map_segments m))).
  rewrite range_0_of_nat.
  pose proof (resolve_loop_spec (m_dofs_gids m) (Vec.sort u) (m_map_segments m)
                (length (m_map_segments m)) Hwf ltac:(lia)) as Hloop.
  cbv zeta in Hloop. split.
  - intros (seg & Hin & Hout).
    destruct Hloop as [[E _]|(segs' & E & _ & _ & Hres)]; [rewrite E; reflexivity|].
    exfalso. apply list_elem_of_lookup in Hin. destruct Hin as [iseg Hiseg].
    destruct (Hres iseg seg) as (seg' & _ & Er); [eapply lookup_lt_Some; eauto | exact Hiseg |].
    destruct (resolve_segment_spec (m_dofs_gids m) (Vec.sort u) seg) as [[_ E']|(k & Hk & _)].
    + rewrite Forall_forall in Hwf. apply Hwf, list_elem_of_lookup; eauto.
    + congruence.
    + apply Hout, list_elem_of_lookup. eauto.
  - intros Hall.
    destruct Hloop as [[_ (iseg & seg & _ & Hs & Hout)]|(segs' & E & Hlen & _ & Hres)].
    { exfalso. apply Hout, Hall, list_elem_of_lookup. eauto. }
    rewrite E. simpl. exists segs', u. split; [reflexivity|].
    split; [exact Hu|]. split; [exact Hmem|]. split; [exact Hlen|].
    intros iseg seg Hseg.
    destruct (Hres iseg seg) as (seg' & Hseg' & Er); [eapply lookup_lt_Some; eauto | exact Hseg |].
    assert (Hsw : seg_wf seg).
    { rewrite Forall_forall in Hwf. apply Hwf, list_elem_of_lookup; eauto. }
    destruct (resolve_segment_spec (m_dofs_gids m) (Vec.sort u) seg Hsw)
      as [[_ E']|(k & Hk & Hf & E')]; rewrite E' in Er; [discriminate|].
    injection Er as <-. exists k. auto.
Qed.

(** What [set_unique_source_dofs] returns is well formed and resolved, and
    the cores of its segments are those of the map it was given. *)
Lemma set_unique_source_dofs_resolved (m : GSMap) :
  map_wf m -> local_targets m (m_map_segments m) ->
  exists m', Map.set_unique_source_dofs m = Ok m'
    /\ map_wf m' /\ resolved m'
    /\ m_dofs_set m' = m_dofs_set m
    /\ m_dofs_gids m' = m_dofs_gids m
    /\ m_num_dofs m' = m_num_dofs m
    /\ map seg_core (m_map_segments m') = map seg_core (m_map_segments m).
Proof.
  intros Hmw Hloc. pose proof Hmw as (Hns & Hnd & Hwf).
  destruct (set_unique_source_dofs_spec m Hmw) as [_ Hok].
  destruct (Hok Hloc) as (segs' & u & E & Hu & Hmem & Hlen & Hsegs).
  eexists. split; [exact E|]. simpl.
  assert (Hcore : map seg_core segs' = map seg_core (m_map_segments m)).
  { apply list_eq. intros i. rewrite !list_lookup_fmap.
    destruct (m_map_segments m !! i) as [seg|] eqn:Es.
    - destruct (Hsegs i seg Es) as (k & _ & _ & ->). reflexivity.
    - apply lookup_ge_None in Es. rewrite (proj2 (lookup_ge_None segs' i)) by lia.
      reflexivity. }
  assert (Hshape : forall seg', seg' ∈ segs' ->
            exists seg (k : nat), seg ∈ m_map_segments m
              /\ m_dofs_gids m !! k = Some (m_dof seg)
              /\ (forall j : nat, (j < k)%nat -> m_dofs_gids m !! j <> Some (m_dof seg))
              /\ seg' = mkSegment (m_dof seg) (m_length seg) (m_source_dofs seg)
                           (map (Vec.find_pos (Vec.sort u)) (m_source_dofs seg))
                           (m_weights seg) (Some (Z.of_nat k))).
  { intros seg' Hin. apply list_elem_of_lookup in Hin. destruct Hin as [i Hi].
    destruct (m_map_segments m !! i) as [seg|] eqn:Es.
    - destruct (Hsegs i seg Es) as (k & Hk & Hf & E'). exists seg, k.
      split; [apply list_elem_of_lookup; eauto|]. split; [exact Hk|].
      split; [exact Hf|]. congruence.
    - apply lookup_ge_None in Es. apply lookup_lt_Some in Hi. lia. }
  repeat apply conj; try reflexivity.
  - simpl. unfold View.extent. rewrite Hlen. exact Hns.
  - exact Hnd.
  - simpl. apply Forall_forall. intros seg' Hin.
    destruct (Hshape seg' Hin) as (seg & k & Hs & _ & _ & ->).
    rewrite Forall_forall in Hwf. destruct (Hwf seg Hs) as (H0 & H1 & H2 & H3).
    unfold seg_wf, View.extent in *. simpl. rewrite length_map. lia.
  - simpl. apply sort_strictly_ascending. exact Hu.
  - simpl. intros d. rewrite sort_elem_of, Hmem. split.
    + intros (seg & Hs & Hd). apply list_elem_of_lookup in Hs. destruct Hs as [i Hi].
      destruct (Hsegs i seg Hi) as (k & _ & _ & E').
      eexists. split; [apply list_elem_of_lookup; eauto|]. exact Hd.
    + intros (seg' & Hs & Hd).
      destruct (Hshape seg' Hs) as (seg & k & Hin & _ & _ & ->). eauto.
  - simpl. intros seg' Hin.
    destruct (Hshape seg' Hin) as (seg & k & Hs & Hk & Hf & ->). split.
    + exists k. simpl. auto.
    + split; [simpl; apply length_map|]. simpl.
      intros i idx Hi. rewrite list_lookup_fmap in Hi.
      destruct (m_source_dofs seg !! i) as [d|] eqn:Ed; [|discriminate].
      injection Hi as <-.
      assert (Hd : d ∈ Vec.sort u).
      { apply sort_elem_of, Hmem. exists seg. split; [exact Hs|].
        apply list_elem_of_lookup; eauto. }
      destruct (find_pos_present _ _ Hd) as (Hr & Hl & _). auto.
  - exact Hcore.
Qed.

(** C5. On a well-formed map, [set_unique_source_dofs] stops with a fatal
    error when some segment targets a DOF that is not in the local list;
    otherwise it returns, the unique list is strictly ascending (sorted and
    free of duplicates) and holds exactly the source DOFs of the segments,
    and every segment keeps its DOF, source DOFs and weights while its
    [dof_idx] is the first position of its DOF in the local list and every
    [source_idx] entry is a valid index of the unique list at which the
    unique list holds the segment's source DOF of the same position. *)
Theorem set_unique_source_dofs_resolves (m : GSMap) :
  map_wf m ->
  ((exists seg, seg ∈ m_map_segments m /\ (m_dof seg ∉ m_dofs_gids m)) ->
     Map.set_unique_source_dofs m = Fatal)
  /\ ((forall seg, seg ∈ m_map_segments m -> m_dof seg ∈ m_dofs_gids m) ->
      exists m', Map.set_unique_source_dofs m = Ok m'
        /\ m_unique_set m' = true
        /\ StronglySorted Z.lt (m_unique_dofs m')
        /\ (forall d, d ∈ m_unique_dofs m'
                      <-> exists seg, seg ∈ m_map_segments m /\ d ∈ m_source_dofs seg)
        /\ m_dofs_gids m' = m_dofs_gids m
        /\ length (m_map_segments m') = length (m_map_segments m)
        /\ forall iseg seg, m_map_segments m !! iseg = Some seg ->
             exists seg', m_map_segments m' !! iseg = Some seg'
               /\ m_dof seg' = m_dof seg
               /\ m_source_dofs seg' = m_source_dofs seg
               /\ m_weights seg' = m_weights seg
               /\ (exists k : nat,
                      m_dof_idx seg' = Some (Z.of_nat k)
                      /\ m_dofs_gids m !! k = Some (m_dof seg)
                      /\ forall j : nat, (j < k)%nat ->
                           m_dofs_gids m !! j <> Some (m_dof seg))
               /\ length (m_source_idx seg') = length (m_source_dofs seg')
               /\ forall (i : nat) idx, m_source_idx seg' !! i = Some idx ->
                    0 <= idx < View.extent (m_unique_dofs m')
                    /\ m_unique_dofs m' !! Z.to_nat idx = m_source_dofs seg' !! i).
Proof.
  intros Hmw. destruct (set_unique_source_dofs_spec m Hmw) as [Hfatal Hok].
  split; [exact Hfatal|]. intros Hall.
  destruct (Hok Hall) as (segs' & u & E & Hu & Hmem & Hlen & Hsegs).
  eexists. split; [exact E|]. simpl.
  split; [reflexivity|]. split; [apply sort_strictly_ascending; exact Hu|].
  split; [intros d; rewrite sort_elem_of; apply Hmem|].
  split; [reflexivity|]. split; [exact Hlen|].
  intros iseg seg Hseg. destruct (Hsegs iseg seg Hseg) as (k & Hk & Hf & Hseg').
  eexists. split; [exact Hseg'|]. simpl.
  split; [reflexivity|]. split; [reflexivity|]. split; [reflexivity|].
  split; [exists k; auto|]. split; [apply length_map|].
  intros i idx Hi. rewrite list_lookup_fmap in Hi.
  destruct (m_source_dofs seg !! i) as [d|] eqn:Ed; [|discriminate].
  injection Hi as <-.
  assert (Hd : d ∈ Vec.sort u).
  { apply sort_elem_of, Hmem. exists seg. split; apply list_elem_of_lookup; eauto. }
  destruct (find_pos_present _ _ Hd) as (Hr & Hl & _). auto.
Qed.

Lemma set_unique_source_dofs_resolves_witness :
  let m := mkMap true [3; 4] 2
                 [mkSegment 4 2 [7; 5] [0; 0] [0.5%R; 0.5%R] None;
                  mkSegment 3 1 [5] [0] [1%R] None] 2 [] false in
  map_wf m
  /\ exists m', Map.set_unique_source_dofs m = Ok m'
                /\ m_unique_dofs m' = [5; 7]
                /\ StronglySorted Z.lt (m_unique_dofs m').
Proof.
  intros m.
  assert (Hwf : map_wf m).
  { unfold map_wf, seg_wf, m. simpl.
    repeat split; try reflexivity; repeat constructor; simpl; try reflexivity; try lia. }
  split; [exact Hwf|].
  destruct (set_unique_source_dofs_resolves m Hwf) as [_ Hok].
  destruct Hok as (m' & E & _ & Hs & _).
  - intros seg Hin. unfold m in Hin. simpl in Hin.
    apply elem_of_cons in Hin. destruct Hin as [->|Hin]; simpl.
    + apply elem_of_cons. right. apply elem_of_cons. left. reflexivity.
    + apply list_elem_of_singleton in Hin. subst seg. simpl.
      apply elem_of_cons. left. reflexivity.
  - exists m'. split; [exact E|]. split; [|exact Hs].
    assert (E2 : Map.set_unique_source_dofs m
                 = Ok (mkMap true [3; 4] 2
                         [mkSegment 4 2 [7; 5] [1; 0] [0.5%R; 0.5%R] (Some 1);
                          mkSegment 3 1 [5] [0] [1%R] (Some 0)] 2 [5; 7] true))
      by reflexivity.
    rewrite E2 in E. injection E as <-. reflexivity.
Defined.

(** ** Adding a segment *)

Lemma segments_for_nil (m : GSMap) (d : Z) :
  segments_for m d = [] <-> forall seg, seg ∈ m_map_segments m -> m_dof seg <> d.
Proof.
  unfold segments_for. split.
  - intros Hnil seg Hin Hd. exact (filter_nil_not_elem_of _ _ seg Hnil Hd Hin).
  - intros Hall. induction (m_map_segments m) as [|seg segs IH]; [reflexivity|].
    rewrite filter_cons. destruct (decide (m_dof seg = d)) as [E|_].
    + exfalso. apply (Hall seg); [left | exact E].
    + apply IH. intros s Hs. apply Hall. right. exact Hs.
Qed.

Lemma filter_dof_core (l1 l2 : list GSSegment) (d : Z) :
  map seg_core l1 = map seg_core l2 ->
  map seg_core (filter (fun seg => m_dof seg = d) l1)
  = map seg_core (filter (fun seg => m_dof seg = d) l2).
Proof.
  revert l2. induction l1 as [|a l1 IH]; intros [|b l2] E; try discriminate;
    [reflexivity|].
  change (seg_core a :: map seg_core l1 = seg_core b :: map seg_core l2) in E.
  assert (Eab : seg_core a = seg_core b) by congruence.
  assert (El : map seg_core l1 = map seg_core l2) by congruence.
  rewrite !filter_cons.
  assert (Hd : m_dof a = m_dof b) by (unfold seg_core in Eab; congruence).
  rewrite Hd. destruct (decide (m_dof b = d)); simpl; [f_equal; [exact Eab|]|]; auto.
Qed.

(** The end of [add_remap_segment]: the counter is set and, on a map that
    was resolved, the unique list and the indices are computed again. *)
Lemma add_remap_segment_finish (m : GSMap) (segs : list GSSegment) :
  m_num_dofs m = View.extent (m_dofs_gids m) ->
  Forall seg_wf segs ->
  (m_unique_set m = true -> local_targets m segs) ->
  let m' := mkMap (m_dofs_set m) (m_dofs_gids m) (m_num_dofs m) segs
                  (View.extent segs) (m_unique_dofs m) (m_unique_set m) in
  exists m'',
    (if m_unique_set m' then Map.set_unique_source_dofs m' else Ok m') = Ok m''
    /\ map_wf m''
    /\ m_dofs_gids m'' = m_dofs_gids m
    /\ m_unique_set m'' = m_unique_set m
    /\ map seg_core (m_map_segments m'') = map seg_core segs
    /\ (m_unique_set m = true -> resolved m'').
Proof.
  intros Hnd Hwf Hloc m'.
  assert (Hmw : map_wf m') by (unfold map_wf, m'; simpl; auto).
  destruct (m_unique_set m) eqn:Eu; simpl.
  - destruct (set_unique_source_dofs_resolved m' Hmw) as (m'' & E & Hmw'' & Hres & _ & Hd & _ & Hcore).
    { exact (Hloc eq_refl). }
    exists m''. split; [exact E|]. split; [exact Hmw''|]. split; [exact Hd|].
    split; [apply Hres|]. split; [exact Hcore|]. intros _. exact Hres.
  - exists m'. split; [reflexivity|]. split; [exact Hmw|]. unfold m'. simpl.
    split; [reflexivity|]. split; [reflexivity|]. split; [reflexivity|].
    discriminate.
Qed.

(** A segment for a DOF that the map does not hold yet is appended. *)
Lemma add_remap_segment_new (m : GSMap) (seg : GSSegment) :
  map_wf m -> seg_wf seg ->
  segments_for m (m_dof seg) = [] ->
  (m_unique_set m = true ->
     local_targets m (m_map_segments m) /\ m_dof seg ∈ m_dofs_gids m) ->
  exists m', Map.add_remap_segment m seg = Ok m'
    /\ map_wf m'
    /\ m_dofs_gids m' = m_dofs_gids m
    /\ m_unique_set m' = m_unique_set m
    /\ map seg_core (m_map_segments m')
       = map seg_core (m_map_segments m) ++ [seg_core seg]
    /\ (m_unique_set m = true -> resolved m').
Proof.
  intros (Hns & Hnd & Hwf) Hsw Hnone Hloc. unfold Map.add_remap_segment.
  rewrite Hns.
  change (View.extent (m_map_segments m))
    with (Z.of_nat (length (m_map_segments m))).
  rewrite range_0_of_nat.
  rewrite scan_match_none; [|lia|].
  2:{ intros iseg s _ Hs. apply (proj1 (segments_for_nil m _) Hnone).
      apply list_elem_of_lookup. eauto. }
  simpl.
  destruct (add_remap_segment_finish m (Vec.push_back (m_map_segments m) seg) Hnd)
    as (m'' & E & Hmw & Hd & Hu & Hcore & Hres).
  - apply Forall_app. split; [exact Hwf|]. constructor; [exact Hsw | constructor].
  - intros Eu seg' Hin. destruct (Hloc Eu) as [Hl Hs].
    apply elem_of_app in Hin. destruct Hin as [Hin|Hin]; [apply Hl; exact Hin|].
    apply list_elem_of_singleton in Hin. subst seg'. exact Hs.
  - exists m''. split; [exact E|]. split; [exact Hmw|]. split; [exact Hd|].
    split; [exact Hu|]. split; [|exact Hres].
    rewrite Hcore. unfold Vec.push_back. rewrite map_app. reflexivity.
Qed.

(** A segment for a DOF that the map holds already replaces the held one by
    their concatenation, the held entries first. *)
Lemma add_remap_segment_merge (m : GSMap) (seg seg_match : GSSegment) (loc : nat) :
  map_wf m -> seg_wf seg ->
  m_map_segments m !! loc = Some seg_match ->
  m_dof seg_match = m_dof seg ->
  (forall iseg s, (iseg < loc)%nat -> m_map_segments m !! iseg = Some s ->
                  m_dof s <> m_dof seg) ->
  (m_unique_set m = true -> local_targets m (m_map_segments m)) ->
  exists m', Map.add_remap_segment m seg = Ok m'
    /\ map_wf m'
    /\ m_dofs_gids m' = m_dofs_gids m
    /\ m_unique_set m' = m_unique_set m
    /\ map seg_core (m_map_segments m')
       = <[loc := (m_dof seg, m_length seg + m_length seg_match,
                   m_source_dofs seg_match ++ m_source_dofs seg,
                   m_weights seg_match ++ m_weights seg)]>
           (map seg_core (m_map_segments m))
    /\ (m_unique_set m = true -> resolved m').
Proof.
  intros (Hns & Hnd & Hwf) Hsw Hloc Hd Hfirst Hlocal. unfold Map.add_remap_segment.
  rewrite Hns.
  change (View.extent (m_map_segments m))
    with (Z.of_nat (length (m_map_segments m))).
  rewrite range_0_of_nat.
  pose proof (lookup_lt_Some _ _ _ Hloc) as Hlt.
  rewrite (scan_match_found _ _ 0 _ loc seg_match); try assumption; try lia.
  2:{ intros iseg s Hi. apply Hfirst. lia. }
  simpl. destruct (Z.eqb_spec (Z.of_nat loc) (-999)) as [?|_]; [lia|].
  rewrite (view_get_of_nat _ _ _ Hloc). simpl.
  assert (Hmw : seg_wf seg_match).
  { rewrite Forall_forall in Hwf. apply Hwf, list_elem_of_lookup; eauto. }
  rewrite combine_concat by assumption. simpl. rewrite Nat2Z.id.
  set (new_seg := mkSegment _ _ _ _ _ _).
  assert (Hnw : seg_wf new_seg).
  { apply (combine_wf seg_match seg); try assumption. apply combine_concat; assumption. }
  destruct (add_remap_segment_finish m (<[loc := new_seg]> (m_map_segments m)) Hnd)
    as (m'' & E & Hmw'' & Hd'' & Hu & Hcore & Hres).
  - apply Forall_insert; assumption.
  - intros Eu seg' Hin. apply list_elem_of_lookup in Hin. destruct Hin as [i Hi].
    destruct (Nat.eq_dec i loc) as [->|Hne].
    + rewrite list_lookup_insert_eq in Hi by lia. injection Hi as <-. simpl.
      rewrite <- Hd. apply (Hlocal Eu), list_elem_of_lookup. eauto.
    + rewrite list_lookup_insert_ne in Hi by lia.
      apply (Hlocal Eu), list_elem_of_lookup. eauto.
  - exists m''. split; [exact E|]. split; [exact Hmw''|]. split; [exact Hd''|].
    split; [exact Hu|]. split; [|exact Hres].
    rewrite Hcore. rewrite list_fmap_insert. reflexivity.
Qed.

Lemma resolved_local_targets (m : GSMap) :
  resolved m -> local_targets m (m_map_segments m).
Proof.
  intros (_ & _ & _ & Hsegs) seg Hin.
  destruct (Hsegs seg Hin) as [(k & _ & Hk & _) _].
  apply list_elem_of_lookup. eauto.
Qed.

Lemma fmap_core_singleton (l : list GSSegment) c :
  map seg_core l = [c] -> exists s, l = [s] /\ seg_core s = c.
Proof.
  destruct l as [|s [|s' l]]; try discriminate.
  intros [= E]. eauto.
Qed.

(** C4, as amended.  On a well-formed map that holds no segment for the DOF
    of [s1] and [s2] (and, when the map is already resolved, whose segments
    and that DOF are locally owned), the first call appends [s1] as a new
    segment and after the second call the map holds exactly one segment for
    the DOF: its length is the sum of the two lengths and its source DOFs and
    weights are those of [s1] followed by those of [s2]; the other segments
    keep their place; a map that was resolved is resolved again after each
    call (its unique list is recomputed), a map that was not stays so. *)
Theorem add_remap_segment_twice (m : GSMap) (s1 s2 : GSSegment) :
  map_wf m -> seg_wf s1 -> seg_wf s2 ->
  m_dof s2 = m_dof s1 ->
  segments_for m (m_dof s1) = [] ->
  (m_unique_set m = true ->
     local_targets m (m_map_segments m) /\ m_dof s1 ∈ m_dofs_gids m) ->
  two_calls_merge m s1 s2
  /\ exists m1 m2,
       Map.add_remap_segment m s1 = Ok m1
       /\ Map.add_remap_segment m1 s2 = Ok m2
       /\ map seg_core (m_map_segments m1)
          = map seg_core (m_map_segments m) ++ [seg_core s1]
       /\ map seg_core (m_map_segments m2)
          = map seg_core (m_map_segments m)
            ++ [(m_dof s1, m_length s1 + m_length s2,
                 m_source_dofs s1 ++ m_source_dofs s2,
                 m_weights s1 ++ m_weights s2)]
       /\ m_unique_set m1 = m_unique_set m
       /\ m_unique_set m2 = m_unique_set m
       /\ (m_unique_set m = true -> resolved m1 /\ resolved m2).
Proof.
  intros Hmw Hs1 Hs2 Hd Hnone Hloc.
  destruct (add_remap_segment_new m s1 Hmw Hs1 Hnone Hloc)
    as (m1 & E1 & Hmw1 & Hd1 & Hu1 & Hcore1 & Hres1).
  set (loc := length (m_map_segments m)).
  assert (Hlen1 : length (m_map_segments m1) = Datatypes.S loc).
  { apply (f_equal length) in Hcore1.
    rewrite length_app, !length_map in Hcore1. simpl in Hcore1. unfold loc. lia. }
  destruct (lookup_lt_is_Some_2 (m_map_segments m1) loc ltac:(lia)) as [sm Hsm].
  assert (Hsmc : seg_core sm = seg_core s1).
  { apply (f_equal (fun l => l !! loc)) in Hcore1.
    rewrite list_lookup_fmap, Hsm in Hcore1. simpl in Hcore1.
    rewrite lookup_app_r in Hcore1 by (rewrite length_map; unfold loc; lia).
    rewrite length_map in Hcore1. unfold loc in Hcore1.
    rewrite Nat.sub_diag in Hcore1. simpl in Hcore1. congruence. }
  assert (Hfirst : forall iseg s, (iseg < loc)%nat ->
             m_map_segments m1 !! iseg = Some s -> m_dof s <> m_dof s2).
  { intros iseg s Hi Hs.
    apply (f_equal (fun l => l !! iseg)) in Hcore1.
    rewrite list_lookup_fmap, Hs in Hcore1. simpl in Hcore1.
    rewrite lookup_app_l in Hcore1 by (rewrite length_map; unfold loc in Hi; lia).
    rewrite list_lookup_fmap in Hcore1.
    destruct (m_map_segments m !! iseg) as [s0|] eqn:Es0; [|discriminate].
    simpl in Hcore1. rewrite Hd.
    assert (m_dof s = m_dof s0) as -> by (unfold seg_core in Hcore1; congruence).
    apply (proj1 (segments_for_nil m _) Hnone), list_elem_of_lookup. eauto. }
  destruct (add_remap_segment_merge m1 s2 sm loc Hmw1 Hs2 Hsm) as
    (m2 & E2 & Hmw2 & Hd2 & Hu2 & Hcore2 & Hres2).
  { unfold seg_core in Hsmc. congruence. }
  { exact Hfirst. }
  { intros Eu. apply resolved_local_targets, Hres1. congruence. }
  assert (Hcore2' : map seg_core (m_map_segments m2)
            = map seg_core (m_map_segments m)
              ++ [(m_dof s1, m_length s1 + m_length s2,
                   m_source_dofs s1 ++ m_source_dofs s2,
                   m_weights s1 ++ m_weights s2)]).
  { rewrite Hcore2, Hcore1.
    rewrite insert_app_r_alt by (rewrite length_map; unfold loc; lia).
    rewrite length_map. unfold loc. rewrite Nat.sub_diag. simpl.
    unfold seg_core in Hsmc. do 3 f_equal; try congruence.
    f_equal; [f_equal|]; try congruence.
    replace (m_length sm) with (m_length s1) by congruence. lia. }
  assert (Hfor : exists s, segments_for m2 (m_dof s1) = [s]
             /\ seg_core s = (m_dof s1, m_length s1 + m_length s2,
                              m_source_dofs s1 ++ m_source_dofs s2,
                              m_weights s1 ++ m_weights s2)).
  { apply fmap_core_singleton. unfold segments_for.
    rewrite (filter_dof_core _
               (m_map_segments m
                ++ [mkSegment (m_dof s1) (m_length s1 + m_length s2)
                              (m_source_dofs s1 ++ m_source_dofs s2) []
                              (m_weights s1 ++ m_weights s2) None])).
    - rewrite filter_app. fold (segments_for m (m_dof s1)). rewrite Hnone. simpl.
      rewrite filter_cons. simpl. destruct (decide (m_dof s1 = m_dof s1)); [|congruence].
      reflexivity.
    - rewrite Hcore2', map_app. reflexivity. }
  destruct Hfor as (s & Hs & Hsc). unfold seg_core in Hsc.
  split.
  - exists m1, m2, s. repeat split; try assumption; congruence.
  - exists m1, m2.
    split; [exact E1|]. split; [exact E2|]. split; [exact Hcore1|].
    split; [exact Hcore2'|]. split; [exact Hu1|]. split; [congruence|].
    intros Eu. split; [apply Hres1; exact Eu | apply Hres2; congruence].
Qed.

Lemma add_remap_segment_twice_witness :
  let s1 := mkSegment 3 2 [7; 5] [0; 0] [0.5%R; 0.5%R] None in
  let s2 := mkSegment 3 1 [6] [0] [1%R] None in
  let m := mkMap true [3; 4] 2 [] 0 [] true in
  map_wf m /\ seg_wf s1 /\ seg_wf s2 /\ two_calls_merge m s1 s2.
Proof.
  intros s1 s2 m.
  assert (Hm : map_wf m) by (unfold map_wf, m; simpl; repeat split; constructor).
  assert (H1 : seg_wf s1) by (unfold seg_wf, s1, View.extent; simpl; lia).
  assert (H2 : seg_wf s2) by (unfold seg_wf, s2, View.extent; simpl; lia).
  split; [exact Hm|]. split; [exact H1|]. split; [exact H2|].
  apply (add_remap_segment_twice m s1 s2 Hm H1 H2 eq_refl eq_refl).
  intros _. split.
  - intros seg Hin. inversion Hin.
  - simpl. left.
Defined.

(** C4, as stated, fails on a map that already holds a segment for the DOF
    (the merged segment then has the entries of all three), and on a
    resolved map that does not own the DOF (the call is fatal). *)
Lemma add_remap_segment_twice_counterexample :
  let held := mkSegment 3 1 [7] [0] [1%R] None in
  let s1 := mkSegment 3 1 [5] [0] [1%R] None in
  let s2 := mkSegment 3 1 [6] [0] [1%R] None in
  let m := mkMap true [3] 1 [held] 1 [] false in
  let m_resolved := mkMap true [4] 1 [] 0 [] true in
  (map_wf m /\ seg_wf s1 /\ seg_wf s2 /\ m_dof s1 = m_dof s2
   /\ ~ two_calls_merge m s1 s2)
  /\ (map_wf m_resolved /\ resolved m_resolved
      /\ Map.add_remap_segment m_resolved s1 = Fatal
      /\ ~ two_calls_merge m_resolved s1 s2).
Proof.
  intros held s1 s2 m m_resolved.
  assert (H1 : seg_wf s1) by (unfold seg_wf, s1, View.extent; simpl; lia).
  assert (H2 : seg_wf s2) by (unfold seg_wf, s2, View.extent; simpl; lia).
  split.
  - split.
    { unfold map_wf, m; simpl. repeat split.
      constructor; [unfold seg_wf, held, View.extent; simpl; lia | constructor]. }
    split; [exact H1|]. split; [exact H2|]. split; [reflexivity|].
    intros (m1 & m2 & s & E1 & E2 & Hf & Hl & _).
    assert (E1' : Map.add_remap_segment m s1
                  = Ok (mkMap true [3] 1
                          [mkSegment 3 2 [7; 5] [0; 0] [1%R; 1%R] None] 1 [] false))
      by reflexivity.
    rewrite E1' in E1. injection E1 as <-.
    assert (E2' : Map.add_remap_segment
                    (mkMap true [3] 1
                       [mkSegment 3 2 [7; 5] [0; 0] [1%R; 1%R] None] 1 [] false) s2
                  = Ok (mkMap true [3] 1
                          [mkSegment 3 3 [7; 5; 6] [0; 0; 0] [1%R; 1%R; 1%R] None]
                          1 [] false))
      by reflexivity.
    rewrite E2' in E2. injection E2 as <-.
    assert (Hf' : segments_for
                    (mkMap true [3] 1
                       [mkSegment 3 3 [7; 5; 6] [0; 0; 0] [1%R; 1%R; 1%R] None]
                       1 [] false) (m_dof s1)
                  = [mkSegment 3 3 [7; 5; 6] [0; 0; 0] [1%R; 1%R; 1%R] None])
      by reflexivity.
    rewrite Hf' in Hf. injection Hf as <-. simpl in Hl. discriminate.
  - assert (EF : Map.add_remap_segment m_resolved s1 = Fatal) by reflexivity.
    split; [unfold map_wf, m_resolved; simpl; repeat split; constructor|].
    split.
    { unfold resolved, m_resolved. simpl. split; [reflexivity|].
      split; [constructor|]. split.
      - intros d. split; [inversion 1 | intros (seg & Hin & _); inversion Hin].
      - intros seg Hin. inversion Hin. }
    split; [exact EF|].
    intros (m1 & m2 & s & E1 & _). rewrite EF in E1. discriminate.
Qed.

(** ** Applying the remap *)

Lemma foldr_Rplus_snoc (l : list R) (x : R) :
  foldr Rplus 0%R (l ++ [x]) = (foldr Rplus 0%R l + x)%R.
Proof. induction l as [|y l IH]; simpl; [lra | rewrite IH; lra]. Qed.

Lemma apply_segment_sum (seg : GSSegment) (source_data : list R) :
  seg_wf seg ->
  (forall (i : nat) idx, m_source_idx seg !! i = Some idx ->
                         0 <= idx < View.extent source_data) ->
  Segment.apply_segment View.HostSpace seg source_data
  = Ok (weighted_sum seg source_data).
Proof.
  intros (H0 & H1 & H2 & H3) Hidx. unfold Segment.apply_segment, weighted_sum.
  cbn [View.read_members mbind Res_bind].
  set (term := fun idx w => (default 0%R (source_data !! Z.to_nat idx) * w)%R).
  set (terms := zip_with term (m_source_idx seg) (m_weights seg)).
  assert (Hlen : length terms = length (m_source_idx seg)).
  { unfold terms. rewrite length_zip_with. unfold View.extent in *. lia. }
  replace (m_length seg) with (Z.of_nat (length (m_source_idx seg))) by exact H2.
  rewrite range_0_of_nat. rewrite <- (firstn_all terms), Hlen.
  assert (Hk : forall k : nat, (k <= length (m_source_idx seg))%nat ->
            for_each (fun loc ii =>
                        idx ← View.get (m_source_idx seg) (Z.of_nat ii);
                        s ← View.get source_data idx;
                        w ← View.get (m_weights seg) (Z.of_nat ii);
                        Ok (loc + s * w)%R) (seq 0 k) 0%R
            = Ok (foldr Rplus 0%R (take k terms))).
  { induction k as [|k IH]; intros Hle; [reflexivity|].
    rewrite seq_S, for_each_app, IH by lia. simpl.
    destruct (lookup_lt_is_Some_2 (m_source_idx seg) k ltac:(lia)) as [idx Hi].
    destruct (lookup_lt_is_Some_2 (m_weights seg) k) as [w Hw].
    { unfold View.extent in *. lia. }
    rewrite (view_get_of_nat _ _ _ Hi). simpl.
    destruct (Hidx k idx Hi) as [Hlo Hhi].
    destruct (lookup_lt_is_Some_2 source_data (Z.to_nat idx)) as [s Hs].
    { unfold View.extent in Hhi. lia. }
    rewrite (proj2 (view_get_Ok source_data idx s)) by auto. simpl.
    rewrite (view_get_of_nat _ _ _ Hw). simpl. f_equal.
    assert (Ht : terms !! k = Some (s * w)%R).
    { unfold terms. rewrite lookup_zip_with, Hi, Hw. simpl. unfold term.
      rewrite Hs. reflexivity. }
    rewrite (take_S_r _ _ _ Ht), foldr_Rplus_snoc. reflexivity. }
  apply Hk. lia.
Qed.

(** The loop of [apply_remap] over the first [n] segments, from the host
    view [h0]. *)
Lemma apply_remap_loop (m : GSMap) (source_data h0 : list R) (n : nat) :
  Forall seg_wf (m_map_segments m) ->
  (forall seg, seg ∈ m_map_segments m ->
     (exists k : nat, m_dof_idx seg = Some (Z.of_nat k) /\ (k < length h0)%nat)
     /\ forall (i : nat) idx, m_source_idx seg !! i = Some idx ->
                              0 <= idx < View.extent source_data) ->
  (forall j1 j2 s1 s2, m_map_segments m !! j1 = Some s1 ->
     m_map_segments m !! j2 = Some s2 -> m_dof_idx s1 = m_dof_idx s2 -> j1 = j2) ->
  (n <= length (m_map_segments m))%nat ->
  exists h,
    for_each (fun h iseg =>
                seg ← Vec.at_ (m_map_segments m) iseg;
                seg_dof_idx ← Segment.get_dof_idx seg;
                _ ← View.get h seg_dof_idx;
                v ← Segment.apply_segment View.HostSpace seg source_data;
                View.set h seg_dof_idx v) (seq 0 n) h0 = Ok h
    /\ length h = length h0
    /\ (forall (j k : nat) seg, (j < n)%nat -> m_map_segments m !! j = Some seg ->
          m_dof_idx seg = Some (Z.of_nat k) ->
          h !! k = Some (weighted_sum seg source_data))
    /\ (forall i : nat,
          (forall (j : nat) seg, (j < n)%nat -> m_map_segments m !! j = Some seg ->
                                 m_dof_idx seg <> Some (Z.of_nat i)) ->
          h !! i = h0 !! i).
Proof.
  intros Hwf Hsegs Hinj. induction n as [|n IH]; intros Hn.
  - exists h0. simpl. split; [reflexivity|]. split; [reflexivity|].
    split; [intros; lia | reflexivity].
  - destruct (IH ltac:(lia)) as (h & E & Hlen & Hval & Hframe).
    rewrite seq_S, for_each_app, E. simpl.
    destruct (lookup_lt_is_Some_2 (m_map_segments m) n ltac:(lia)) as [seg Hseg].
    assert (Hin : seg ∈ m_map_segments m) by (apply list_elem_of_lookup; eauto).
    unfold Vec.at_. rewrite Hseg. simpl.
    destruct (Hsegs seg Hin) as [(k & Hk & Hklt) Hidx].
    unfold Segment.get_dof_idx. rewrite Hk. simpl.
    destruct (view_get_in_extent h (Z.of_nat k)) as [old Eold].
    { unfold View.extent. lia. }
    rewrite Eold. simpl.
    rewrite apply_segment_sum; [|rewrite Forall_forall in Hwf; auto | exact Hidx].
    simpl. rewrite view_set_Ok by (unfold View.extent; lia). rewrite Nat2Z.id.
    eexists. split; [reflexivity|]. split; [rewrite length_insert; exact Hlen|].
    split.
    + intros j k' seg' Hj Hseg' Hk'.
      destruct (Nat.eq_dec j n) as [->|Hne].
      * assert (seg' = seg) as -> by congruence.
        assert (k' = k) as -> by (rewrite Hk in Hk'; injection Hk'; lia).
        apply list_lookup_insert_eq. lia.
      * rewrite list_lookup_insert_ne.
        -- apply (Hval j k' seg'); [lia | assumption | assumption].
        -- intros ->. apply Hne. apply (Hinj j n seg' seg); congruence.
    + intros i Hi. rewrite list_lookup_insert_ne.
      * apply Hframe. intros j seg' Hj. apply Hi. lia.
      * intros ->. apply (Hi n seg); [lia | exact Hseg | exact Hk].
Qed.

Lemma apply_remap_no_dofs (space : View.MemorySpace) (m : GSMap)
    (source_data remapped_data : list R) :
  m_num_dofs m = 0 ->
  Map.apply_remap space m source_data remapped_data = Ok remapped_data.
Proof. intros E. unfold Map.apply_remap. rewrite E. reflexivity. Qed.

Lemma resolved_segments_inj (m : GSMap) j1 j2 s1 s2 :
  resolved m -> distinct_targets m ->
  m_map_segments m !! j1 = Some s1 -> m_map_segments m !! j2 = Some s2 ->
  m_dof_idx s1 = m_dof_idx s2 -> j1 = j2.
Proof.
  intros (_ & _ & _ & Hsegs) Hnd H1 H2 Hidx.
  destruct (Hsegs s1) as [(k1 & Hk1 & Hd1 & _) _]; [apply list_elem_of_lookup; eauto|].
  destruct (Hsegs s2) as [(k2 & Hk2 & Hd2 & _) _]; [apply list_elem_of_lookup; eauto|].
  assert (k1 = k2) by (rewrite Hk1, Hk2 in Hidx; injection Hidx; lia). subst k2.
  assert (Hd : m_dof s1 = m_dof s2) by congruence.
  apply (NoDup_lookup _ j1 j2 (m_dof s1) Hnd); rewrite list_lookup_fmap.
  - rewrite H1. reflexivity.
  - rewrite H2. simpl. congruence.
Qed.

(** C1.  On a rank without local DOFs [apply_remap] returns the target view
    as it was, wherever the views live.  For a map whose segments have been
    loaded and resolved (well formed, resolved, with pairwise different
    target DOFs) and views that hold an entry per unique source DOF and per
    local DOF, in the memory that the kernel of [apply_segment] can read the
    segments from, [apply_remap] returns, the entry at the [dof_idx] of
    every segment is the weighted sum of that segment over [source_data],
    and every other entry of the target view is unchanged. *)
Theorem apply_remap_frame :
  (forall space m source_data remapped_data,
     m_num_dofs m = 0 ->
     Map.apply_remap space m source_data remapped_data = Ok remapped_data)
  /\ (forall m source_data remapped_data,
        map_wf m -> resolved m -> distinct_targets m ->
        buffers_fit m source_data remapped_data ->
        writes_only_targets View.HostSpace m source_data remapped_data).
Proof.
  split; [exact apply_remap_no_dofs|].
  (* on host memory the mirror is the view itself *)
  intros m source_data remapped_data.
  intros (Hns & Hnd & Hwf) Hres Hdist [Hsrc Htgt].
  pose proof Hres as (_ & _ & _ & Hsegs).
  destruct (Z.eq_dec (m_num_dofs m) 0) as [E0|Hne].
  - assert (Hnil : m_map_segments m = []).
    { destruct (m_map_segments m) as [|seg segs] eqn:Es; [reflexivity|].
      destruct (Hsegs seg) as [(k & _ & Hk & _) _]; [left|].
      apply lookup_lt_Some in Hk. unfold View.extent in Hnd. lia. }
    exists remapped_data. rewrite apply_remap_no_dofs by exact E0.
    split; [reflexivity|]. split; [reflexivity|]. rewrite Hnil.
    split; [intros seg Hin; inversion Hin | reflexivity].
  - unfold writes_only_targets, Map.apply_remap.
    destruct (Z.eqb_spec (m_num_dofs m) 0) as [?|_]; [contradiction|].
    simpl. rewrite Hns.
    change (View.extent (m_map_segments m))
      with (Z.of_nat (length (m_map_segments m))).
    rewrite range_0_of_nat.
    destruct (apply_remap_loop m source_data remapped_data
                (length (m_map_segments m)) Hwf) as (h & E & Hlen & Hval & Hframe).
    + intros seg Hin. destruct (Hsegs seg Hin) as [(k & Hk & Hd & _) [_ Hidx]].
      split.
      * exists k. split; [exact Hk|]. apply lookup_lt_Some in Hd.
        unfold View.extent in Htgt. lia.
      * intros i idx Hi. destruct (Hidx i idx Hi) as [Hr _]. lia.
    + intros j1 j2 s1 s2. apply resolved_segments_inj; assumption.
    + lia.
    + rewrite E. simpl. unfold View.deep_copy, View.extent. rewrite Hlen, Z.eqb_refl.
      exists h. split; [reflexivity|]. split; [exact Hlen|]. split.
      * intros seg Hin. destruct (Hsegs seg Hin) as [(k & Hk & _) _].
        exists k. split; [exact Hk|].
        apply list_elem_of_lookup in Hin. destruct Hin as [j Hj].
        apply (Hval j k seg); [eapply lookup_lt_Some; eauto | exact Hj | exact Hk].
      * intros i Hi. apply Hframe. intros j seg _ Hj. apply Hi.
        apply list_elem_of_lookup. eauto.
Qed.

Lemma example_map_ready :
  map_wf example_map /\ resolved example_map /\ distinct_targets example_map
  /\ buffers_fit example_map example_source example_target.
Proof.
  assert (Hwf : map_wf example_unresolved).
  { unfold map_wf, example_unresolved. simpl. repeat split.
    constructor; [unfold seg_wf, View.extent; simpl; lia | constructor]. }
  destruct (set_unique_source_dofs_resolved example_unresolved Hwf)
    as (m' & E & Hwf' & Hres & _).
  { intros seg Hin. apply list_elem_of_singleton in Hin. subst seg. simpl. left. }
  assert (E' : Map.set_unique_source_dofs example_unresolved = Ok example_map)
    by reflexivity.
  assert (m' = example_map) as -> by congruence.
  split; [exact Hwf'|]. split; [exact Hres|]. split.
  - unfold distinct_targets. simpl. apply NoDup_singleton.
  - unfold buffers_fit, View.extent. simpl. lia.
Qed.

Lemma apply_remap_frame_witness :
  map_wf example_map /\ resolved example_map /\ distinct_targets example_map
  /\ buffers_fit example_map example_source example_target
  /\ writes_only_targets View.HostSpace example_map example_source example_target.
Proof.
  destruct example_map_ready as (Hwf & Hres & Hdist & Hfit).
  split; [exact Hwf|]. split; [exact Hres|]. split; [exact Hdist|].
  split; [exact Hfit|].
  exact (proj2 apply_remap_frame example_map example_source example_target
               Hwf Hres Hdist Hfit).
Defined.

(** ** Checking a segment *)

Lemma check_accumulates (seg : GSSegment_ Binary64.double) :
  View.extent (m_weights seg) = m_length seg ->
  for_each (fun lsum ii => w ← View.get (m_weights seg) (Z.of_nat ii);
                           Ok (Binary64.add lsum w))
           (range 0 (m_length seg)) (Binary64.of_Z 0)
  = Ok (accumulated (m_weights seg)).
Proof.
  intros H3. replace (m_length seg) with (Z.of_nat (length (m_weights seg))) by exact H3.
  rewrite range_0_of_nat. unfold accumulated.
  assert (Hk : forall k : nat, (k <= length (m_weights seg))%nat ->
            for_each (fun lsum ii => w ← View.get (m_weights seg) (Z.of_nat ii);
                                     Ok (Binary64.add lsum w)) (seq 0 k)
                     (Binary64.of_Z 0)
            = Ok (fold_left Binary64.add (take k (m_weights seg)) (Binary64.of_Z 0))).
  { induction k as [|k IH]; intros Hle; [reflexivity|].
    rewrite seq_S, for_each_app, IH by lia. simpl.
    destruct (lookup_lt_is_Some_2 (m_weights seg) k ltac:(lia)) as [w Hw].
    rewrite (view_get_of_nat _ _ _ Hw). simpl.
    rewrite (take_S_r _ _ _ Hw), fold_left_app. reflexivity. }
  rewrite Hk by lia. rewrite firstn_all. reflexivity.
Qed.

(** What [check] returns on a segment whose views have the declared
    length. *)
Lemma check_returns (seg : GSSegment_ Binary64.double) :
  seg_wf seg ->
  Segment.check seg = Ok (negb (off_unity (accumulated (m_weights seg)))).
Proof.
  intros (H0 & H1 & H2 & H3). unfold Segment.check.
  rewrite H1, H2, H3, !Z.eqb_refl. cbn [require mbind Res_bind].
  rewrite check_accumulates by exact H3. cbn [mbind Res_bind].
  unfold off_unity. destruct (Binary64.ge _ _); reflexivity.
Qed.




(** ** Field names *)

Section FieldNameFacts.
Import FieldNames.
Variable mode_aero_species : Registry.

Lemma mmr_name_blank tag mode species :
  is_blank (mmr_name mode_aero_species tag mode species) = true ->
  mmr_name mode_aero_species tag mode species = EmptyString.
Proof.
  unfold mmr_name. destruct (mode_aero_species mode species); simpl; try discriminate.
  reflexivity.
Qed.

Lemma cache_ok_upd_int c mode species :
  cache_ok mode_aero_species c ->
  cache_ok mode_aero_species
    (mkCache (int_aero_nmr_names_ c) (cld_aero_nmr_names_ c)
             (upd2 (int_aero_mmr_names_ c) mode species
                   (mmr_name mode_aero_species "_a" mode species))
             (cld_aero_mmr_names_ c)).
Proof.
  intros Hok m s. destruct (Hok m s) as [Hi Hc]. split; [|exact Hc]. simpl.
  unfold upd2. destruct (Z.eqb_spec m mode) as [->|]; simpl; [|exact Hi].
  destruct (Z.eqb_spec s species) as [->|]; simpl; [right; reflexivity | exact Hi].
Qed.

Lemma cache_ok_upd_cld c mode species :
  cache_ok mode_aero_species c ->
  cache_ok mode_aero_species
    (mkCache (int_aero_nmr_names_ c) (cld_aero_nmr_names_ c)
             (int_aero_mmr_names_ c)
             (upd2 (cld_aero_mmr_names_ c) mode species
                   (mmr_name mode_aero_species "_c" mode species))).
Proof.
  intros Hok m s. destruct (Hok m s) as [Hi Hc]. split; [exact Hi|]. simpl.
  unfold upd2. destruct (Z.eqb_spec m mode) as [->|]; simpl; [|exact Hc].
  destruct (Z.eqb_spec s species) as [->|]; simpl; [right; reflexivity | exact Hc].
Qed.

Lemma mode_name_label mode :
  0 <= mode < 4 -> aero_mode_name mode = Ok (mode_label mode).
Proof.
  intros Hm. assert (Hmode : mode = 0 \/ mode = 1 \/ mode = 2 \/ mode = 3) by lia.
  destruct Hmode as [-> | [-> | [-> | ->]]]; reflexivity.
Qed.

Lemma species_name_label (a : AeroId) :
  a <> NoAero -> aero_species_name (aero_id_to_int a) = Ok (species_label a).
Proof. destruct a; intros Ha; try reflexivity. contradiction. Qed.

Lemma mmr_name_valid tag mode species :
  mode_aero_species mode species <> NoAero ->
  mmr_name mode_aero_species tag mode species
  = concat_3_strings (species_label (mode_aero_species mode species)) tag
                     (mode_label mode).
Proof.
  unfold mmr_name, concat_3_strings.
  destruct (mode_aero_species mode species); intros Ha; try reflexivity.
  contradiction.
Qed.

(** A first or a later call for a name. *)
Lemma int_aero_mmr_field_name_spec c mode species :
  0 <= mode < 4 -> 0 <= species < 7 -> cache_ok mode_aero_species c ->
  exists c',
    int_aero_mmr_field_name mode_aero_species c mode species
    = Ok (mmr_name mode_aero_species "_a" mode species, c')
    /\ cache_ok mode_aero_species c'
    /\ int_aero_mmr_names_ c' mode species = mmr_name mode_aero_species "_a" mode species.
Proof.
  intros Hm Hs Hok.
  unfold int_aero_mmr_field_name, in_bounds, num_aero_modes, num_aero_species.
  destruct (Z.leb_spec 0 mode), (Z.ltb_spec mode 4); try lia.
  destruct (Z.leb_spec 0 species), (Z.ltb_spec species 7); try lia. simpl.
  pose proof (cache_ok_upd_int c mode species Hok) as Hupd.
  destruct (Hok mode species) as [[Hblank|Hname] _].
  - rewrite Hblank. simpl.
    destruct (bool_decide_reflect (mode_aero_species mode species <> NoAero)) as [Hid|Hid].
    + rewrite species_name_label by exact Hid. simpl.
      rewrite mode_name_label by exact Hm. simpl.
      rewrite <- (mmr_name_valid "_a" mode species Hid).
      eexists. split; [reflexivity|]. split; [exact Hupd|].
      simpl. unfold upd2. rewrite !Z.eqb_refl. reflexivity.
    + assert (Ea : mode_aero_species mode species = NoAero).
      { destruct (mode_aero_species mode species); try reflexivity;
          exfalso; apply Hid; discriminate. }
      exists c. unfold mmr_name. rewrite Ea.
      split; [reflexivity|]. split; [exact Hok | exact Hblank].
  - destruct (is_blank (int_aero_mmr_names_ c mode species)) eqn:Eb.
    + rewrite Hname in Eb. apply mmr_name_blank in Eb.
      assert (Ea : mode_aero_species mode species = NoAero).
      { unfold mmr_name in Eb.
        destruct (mode_aero_species mode species); try reflexivity; discriminate. }
      rewrite Ea. simpl. exists c. rewrite Hname, Eb.
      split; [reflexivity|]. split; [exact Hok | reflexivity].
    + exists c. rewrite Hname. split; [reflexivity|]. split; [exact Hok | reflexivity].
Qed.

Lemma cld_aero_mmr_field_name_spec c mode species :
  0 <= mode < 4 -> 0 <= species < 7 -> cache_ok mode_aero_species c ->
  exists c',
    cld_aero_mmr_field_name mode_aero_species c mode species
    = Ok (mmr_name mode_aero_species "_c" mode species, c')
    /\ cache_ok mode_aero_species c'
    /\ cld_aero_mmr_names_ c' mode species = mmr_name mode_aero_species "_c" mode species.
Proof.
  intros Hm Hs Hok.
  unfold cld_aero_mmr_field_name, in_bounds, num_aero_modes, num_aero_species.
  destruct (Z.leb_spec 0 mode), (Z.ltb_spec mode 4); try lia.
  destruct (Z.leb_spec 0 species), (Z.ltb_spec species 7); try lia. simpl.
  pose proof (cache_ok_upd_cld c mode species Hok) as Hupd.
  destruct (Hok mode species) as [_ [Hblank|Hname]].
  - rewrite Hblank. simpl.
    destruct (bool_decide_reflect (mode_aero_species mode species <> NoAero)) as [Hid|Hid].
    + rewrite species_name_label by exact Hid. simpl.
      rewrite mode_name_label by exact Hm. simpl.
      rewrite <- (mmr_name_valid "_c" mode species Hid).
      eexists. split; [reflexivity|]. split; [exact Hupd|].
      simpl. unfold upd2. rewrite !Z.eqb_refl. reflexivity.
    + assert (Ea : mode_aero_species mode species = NoAero).
      { destruct (mode_aero_species mode species); try reflexivity;
          exfalso; apply Hid; discriminate. }
      exists c. unfold mmr_name. rewrite Ea.
      split; [reflexivity|]. split; [exact Hok | exact Hblank].
  - destruct (is_blank (cld_aero_mmr_names_ c mode species)) eqn:Eb.
    + rewrite Hname in Eb. apply mmr_name_blank in Eb.
      assert (Ea : mode_aero_species mode species = NoAero).
      { unfold mmr_name in Eb.
        destruct (mode_aero_species mode species); try reflexivity; discriminate. }
      rewrite Ea. simpl. exists c. rewrite Hname, Eb.
      split; [reflexivity|]. split; [exact Hok | reflexivity].
    + exists c. rewrite Hname. split; [reflexivity|]. split; [exact Hok | reflexivity].
Qed.

Lemma int_aero_mmr_field_name_again c mode species :
  0 <= mode < 4 -> 0 <= species < 7 ->
  int_aero_mmr_names_ c mode species = mmr_name mode_aero_species "_a" mode species ->
  int_aero_mmr_field_name mode_aero_species c mode species
  = Ok (mmr_name mode_aero_species "_a" mode species, c).
Proof.
  intros Hm Hs Hname.
  unfold int_aero_mmr_field_name, in_bounds, num_aero_modes, num_aero_species.
  destruct (Z.leb_spec 0 mode), (Z.ltb_spec mode 4); try lia.
  destruct (Z.leb_spec 0 species), (Z.ltb_spec species 7); try lia. simpl.
  destruct (is_blank (int_aero_mmr_names_ c mode species)) eqn:Eb.
  - rewrite Hname in Eb. apply mmr_name_blank in Eb.
    assert (Ea : mode_aero_species mode species = NoAero).
    { unfold mmr_name in Eb.
      destruct (mode_aero_species mode species); try reflexivity; discriminate. }
    rewrite Ea. simpl. rewrite Hname. reflexivity.
  - rewrite Hname. reflexivity.
Qed.

Lemma cld_aero_mmr_field_name_again c mode species :
  0 <= mode < 4 -> 0 <= species < 7 ->
  cld_aero_mmr_names_ c mode species = mmr_name mode_aero_species "_c" mode species ->
  cld_aero_mmr_field_name mode_aero_species c mode species
  = Ok (mmr_name mode_aero_species "_c" mode species, c).
Proof.
  intros Hm Hs Hname.
  unfold cld_aero_mmr_field_name, in_bounds, num_aero_modes, num_aero_species.
  destruct (Z.leb_spec 0 mode), (Z.ltb_spec mode 4); try lia.
  destruct (Z.leb_spec 0 species), (Z.ltb_spec species 7); try lia. simpl.
  destruct (is_blank (cld_aero_mmr_names_ c mode species)) eqn:Eb.
  - rewrite Hname in Eb. apply mmr_name_blank in Eb.
    assert (Ea : mode_aero_species mode species = NoAero).
    { unfold mmr_name in Eb.
      destruct (mode_aero_species mode species); try reflexivity; discriminate. }
    rewrite Ea. simpl. rewrite Hname. reflexivity.
  - rewrite Hname. reflexivity.
Qed.

End FieldNameFacts.

(** C8. For every mode index (0 to 3) and species index (0 to 6), from
    name buffers that are blank or hold the names of their slots (as they are
    when the program starts and after any sequence of calls), the
    interstitial (cloudborne) synthesizer returns without error the species
    name, "_a" ("_c") and the one-based mode when the registry has a species
    at that position, and the empty string when it has none; a repeated call
    returns the same string and leaves the buffers as they are. *)
Theorem mmr_field_names (mode_aero_species : Registry)
    (c : FieldNames.NameCache) (mode species : Z) :
  0 <= mode < 4 -> 0 <= species < 7 ->
  FieldNames.cache_ok mode_aero_species c ->
  let expected tag :=
    match mode_aero_species mode species with
    | NoAero => EmptyString
    | a => String.append (FieldNames.species_label a)
                         (String.append tag (FieldNames.mode_label mode))
    end in
  FieldNames.cache_ok mode_aero_species FieldNames.blank_cache
  /\ (exists c',
        FieldNames.int_aero_mmr_field_name mode_aero_species c mode species
        = Ok (expected "_a"%string, c')
        /\ FieldNames.cache_ok mode_aero_species c'
        /\ FieldNames.int_aero_mmr_field_name mode_aero_species c' mode species
           = Ok (expected "_a"%string, c'))
  /\ (exists c',
        FieldNames.cld_aero_mmr_field_name mode_aero_species c mode species
        = Ok (expected "_c"%string, c')
        /\ FieldNames.cache_ok mode_aero_species c'
        /\ FieldNames.cld_aero_mmr_field_name mode_aero_species c' mode species
           = Ok (expected "_c"%string, c')).
Proof.
  intros Hm Hs Hok expected.
  change (expected "_a"%string)
    with (FieldNames.mmr_name mode_aero_species "_a" mode species).
  change (expected "_c"%string)
    with (FieldNames.mmr_name mode_aero_species "_c" mode species).
  split; [intros m s; split; left; reflexivity|]. split.
  - destruct (int_aero_mmr_field_name_spec mode_aero_species c mode species Hm Hs Hok)
      as (c' & E & Hok' & Hc').
    exists c'. split; [exact E|]. split; [exact Hok'|].
    apply int_aero_mmr_field_name_again; assumption.
  - destruct (cld_aero_mmr_field_name_spec mode_aero_species c mode species Hm Hs Hok)
      as (c' & E & Hok' & Hc').
    exists c'. split; [exact E|]. split; [exact Hok'|].
    apply cld_aero_mmr_field_name_again; assumption.
Qed.

Lemma mmr_field_names_witness :
  FieldNames.cache_ok mam4_mode_aero_species FieldNames.blank_cache
  /\ (exists c', FieldNames.int_aero_mmr_field_name mam4_mode_aero_species
                   FieldNames.blank_cache 1 2 = Ok ("nacl_a2"%string, c'))
  /\ (exists c', FieldNames.cld_aero_mmr_field_name mam4_mode_aero_species
                   FieldNames.blank_cache 3 1 = Ok ("bc_c4"%string, c'))
  /\ (exists c', FieldNames.int_aero_mmr_field_name mam4_mode_aero_species
                   FieldNames.blank_cache 1 4 = Ok (EmptyString, c')).
Proof.
  assert (Hok : FieldNames.cache_ok mam4_mode_aero_species FieldNames.blank_cache)
    by (intros m s; split; left; reflexivity).
  split; [exact Hok|]. split; [|split].
  - destruct (mmr_field_names mam4_mode_aero_species FieldNames.blank_cache 1 2
                ltac:(lia) ltac:(lia) Hok) as (_ & (c' & E & _) & _).
    exists c'. exact E.
  - destruct (mmr_field_names mam4_mode_aero_species FieldNames.blank_cache 3 1
                ltac:(lia) ltac:(lia) Hok) as (_ & _ & (c' & E & _)).
    exists c'. exact E.
  - destruct (mmr_field_names mam4_mode_aero_species FieldNames.blank_cache 1 4
                ltac:(lia) ltac:(lia) Hok) as (_ & (c' & E & _) & _).
    exists c'. exact E.
Defined.

(** ** The scratch buffer *)

Section BufferFacts.
Import ScratchBuffer.

Lemma set_scratch_ptrs_all :
  set_scratch_ptrs mid_ptrs_array = Ok (map Some mid_views).
Proof. reflexivity. Qed.

Lemma bind_Ok {A B} (x : A) (f : A -> Res B) : (Ok x ≫= f) = f x.
Proof. reflexivity. Qed.

(** Binding the views of a list of distinct members, one after the other. *)
Lemma bind_views_consecutive (fs : list BufferField) (n ncol extent1 : Z)
    (buffer : Buffer) (mem : Z) (k : nat) :
  n = Z.of_nat k ->
  NoDup fs -> (k <= length fs)%nat ->
  exists buffer',
    bind_views (map Some fs) n ncol extent1 (buffer, mem)
    = Ok (buffer', mem + Z.of_nat k * (ncol * extent1))
    /\ wsm_data buffer' = wsm_data buffer
    /\ (forall (i : nat) f, (i < k)%nat -> fs !! i = Some f ->
          views buffer' f
          = mkView (Some (mem + Z.of_nat i * (ncol * extent1))) ncol extent1)
    /\ (forall f, f ∉ take k fs -> views buffer' f = views buffer f).
Proof.
  intros -> Hnd. unfold bind_views. rewrite range_0_of_nat.
  induction k as [|k IH]; intros Hk.
  - exists buffer. simpl. split; [f_equal; f_equal; lia|].
    split; [reflexivity|]. split; [intros; lia | reflexivity].
  - destruct (IH ltac:(lia)) as (b & E & Hw & Hbound & Hframe).
    rewrite seq_S, for_each_app, E. simpl.
    destruct (lookup_lt_is_Some_2 fs k ltac:(lia)) as [f Hf].
    rewrite (view_get_of_nat _ _ (Some f)) by (rewrite list_lookup_fmap, Hf; reflexivity).
    simpl. eexists. split.
    { do 2 f_equal. unfold set_view, size. simpl.
      destruct (decide (f = f)); [simpl; lia | congruence]. }
    split; [exact Hw|]. split.
    + intros i g Hi Hg. unfold set_view. simpl.
      destruct (decide (g = f)) as [->|Hne].
      * assert (i = k) as -> by (apply (NoDup_lookup fs i k f); assumption).
        reflexivity.
      * apply Hbound; [|exact Hg].
        destruct (Nat.eq_dec i k) as [->|]; [congruence | lia].
    + intros g Hg. unfold set_view. simpl.
      rewrite (take_S_r _ _ _ Hf) in Hg. apply not_elem_of_app in Hg.
      destruct Hg as [Hg1 Hg2]. rewrite list_elem_of_singleton in Hg2.
      destruct (decide (g = f)); [contradiction|]. apply Hframe. exact Hg1.
Qed.

(** The midpoint views in the order in which [init_buffer] binds them. *)
Lemma used_views_listed (f : BufferField) :
  is_used_view f = true <-> f ∈ mid_views ++ [z_iface].
Proof.
  split.
  - intros Hf.
    destruct f as [ | | | | | | | |m|m|m a|m a|g|i| ];
      try (do 4 (try (destruct m as [|m])));
      try (do 7 (try (destruct a as [|a])));
      try (do 6 (try (destruct g as [|g])));
      try (do 10 (try (destruct i as [|i])));
      simpl in Hf; try discriminate;
      refine (bool_decide_unpack _ _); vm_compute; exact I.
  - intros Hin. revert f Hin. apply Forall_forall.
    refine (bool_decide_unpack _ _). vm_compute. exact I.
Qed.

End BufferFacts.

Section BufferLayout.
Import ScratchBuffer.
Variables sizeof_Real memory ncol nlev : Z.
Variable buffer : Buffer.

Lemma mid_views_distinct : NoDup (mid_views ++ [z_iface]).
Proof. refine (bool_decide_unpack _ _). vm_compute. exact I. Qed.

Lemma used_view_position (f : BufferField) :
  is_used_view f = true ->
  (exists i : nat, (i < 74)%nat /\ mid_views !! i = Some f) \/ f = z_iface.
Proof.
  intros Hf. apply used_views_listed in Hf.
  apply elem_of_app in Hf. destruct Hf as [Hf|Hf].
  - left. apply list_elem_of_lookup in Hf. destruct Hf as [i Hi]. exists i.
    split; [|exact Hi]. apply lookup_lt_Some in Hi. exact Hi.
  - right. apply list_elem_of_singleton in Hf. exact Hf.
Qed.

Lemma num_reals_eq :
  num_reals ncol nlev = 74 * (ncol * nlev) + ncol * (nlev + 1).
Proof.
  unfold num_reals, num_2d_mid, num_2d_iface, num_aero_modes, num_aero_tracers,
    num_aero_gases, num_2d_scratch. lia.
Qed.

(** Where [init_buffer] puts every view, and the bytes that it counts (the
    pointers are 64 bits wide: nothing wraps there for the extents of a
    view). *)
Lemma init_buffer_layout :
  exists buffer',
    init_buffer sizeof_Real memory ncol nlev buffer
    = Ok (buffer', sizeof_Real * num_reals ncol nlev)
    /\ (forall (i : nat) f, mid_views !! i = Some f ->
          views buffer' f
          = mkView (Some (memory + Z.of_nat i * (ncol * nlev))) ncol nlev)
    /\ views buffer' z_iface
       = mkView (Some (memory + 74 * (ncol * nlev))) ncol (nlev + 1)
    /\ (forall f, is_used_view f = false -> views buffer' f = views buffer f)
    /\ wsm_data buffer' = Some (memory + num_reals ncol nlev).
Proof.
  unfold init_buffer. rewrite set_scratch_ptrs_all, bind_Ok.
  pose proof mid_views_distinct as Hnd. apply NoDup_app in Hnd.
  destruct Hnd as (Hnd & Hsep & _).
  assert (Hlen : length mid_views = 74%nat) by reflexivity.
  destruct (bind_views_consecutive mid_views num_2d_mid ncol nlev buffer memory 74
              eq_refl Hnd) as (b1 & E1 & _ & Hb1 & Hf1); [lia|].
  rewrite E1, bind_Ok.
  destruct (bind_views_consecutive [z_iface] num_2d_iface ncol (nlev + 1) b1
              (memory + Z.of_nat 74 * (ncol * nlev)) 1 eq_refl (NoDup_singleton _))
    as (b2 & E2 & _ & Hb2 & Hf2); [simpl; lia|].
  change (map Some [z_iface]) with [Some z_iface] in E2.
  cbv zeta. rewrite E2, bind_Ok.
  eexists. split.
  { do 2 f_equal. rewrite num_reals_eq. lia. }
  cbn [views wsm_data]. split; [|split; [|split]].
  - intros i f Hi. rewrite Hf2.
    + apply Hb1; [|exact Hi]. apply lookup_lt_Some in Hi. lia.
    + cbn [take]. rewrite list_elem_of_singleton. intros ->.
      apply (Hsep z_iface); [apply list_elem_of_lookup; eauto | left].
  - rewrite (Hb2 0%nat z_iface) by (try reflexivity; lia).
    do 2 f_equal. lia.
  - intros f Hf. rewrite Hf2, Hf1; [reflexivity| |].
    + intros Hin. apply (subseteq_take 74 mid_views) in Hin.
      assert (Hu : is_used_view f = true).
      { apply used_views_listed. apply elem_of_app. left. exact Hin. }
      congruence.
    + cbn [take]. rewrite list_elem_of_singleton. intros ->. discriminate.
  - f_equal. rewrite num_reals_eq. lia.
Qed.

Lemma wrap_small (z : Z) : - 2 ^ 31 <= z <= CInt.INT_MAX -> CInt.wrap z = z.
Proof.
  unfold CInt.wrap, CInt.INT_MAX. intros Hz.
  rewrite Z.mod_small by lia. lia.
Qed.

(** [buffer_size] is the size of [num_reals] values when their number fits
    an [int]. *)
Lemma buffer_size_exact :
  0 < ncol -> 0 < nlev -> 0 < sizeof_Real <= 16 ->
  num_reals ncol nlev <= CInt.INT_MAX ->
  buffer_size sizeof_Real ncol nlev = sizeof_Real * num_reals ncol nlev.
Proof.
  intros Hncol Hnlev Hsz Hfit. rewrite num_reals_eq in *.
  unfold CInt.INT_MAX in Hfit.
  assert (H1 : 0 <= ncol * nlev) by nia.
  assert (H2 : 0 <= 74 * ncol <= 74 * (ncol * nlev) + ncol * (nlev + 1)) by nia.
  unfold buffer_size, CInt.add, CInt.mul.
  change num_2d_mid with 74. change num_2d_iface with 1.
  rewrite (wrap_small (74 * ncol)) by (unfold CInt.INT_MAX; lia).
  rewrite (wrap_small (74 * ncol * nlev)) by (unfold CInt.INT_MAX; nia).
  rewrite (wrap_small (1 * ncol)) by (unfold CInt.INT_MAX; nia).
  rewrite (wrap_small (nlev + 1)) by (unfold CInt.INT_MAX; nia).
  rewrite (wrap_small (1 * ncol * (nlev + 1))) by (unfold CInt.INT_MAX; nia).
  rewrite (wrap_small (74 * ncol * nlev + 1 * ncol * (nlev + 1)))
    by (unfold CInt.INT_MAX; nia).
  unfold CInt.to_size_t, CInt.size_mul.
  rewrite (Z.mod_small (74 * ncol * nlev + 1 * ncol * (nlev + 1))) by nia.
  rewrite Z.mod_small by nia. nia.
Qed.

End BufferLayout.




(** ** Wet and dry mixing ratios *)

Section RealisesFacts.
Import CouplingSpec.
Context {S : Type} (I : S -> Prop).

Lemma realises_bind (c1 c2 : S -> Res S) (p1 p2 : S -> S) :
  realises I c1 p1 -> realises I c2 p2 ->
  realises I (fun st => st' ← c1 st; c2 st') (fun st => p2 (p1 st)).
Proof.
  intros H1 H2 st Hst. destruct (H1 st Hst) as [E1 I1]. rewrite E1. simpl.
  apply H2. exact I1.
Qed.

Lemma realises_for_each (body : S -> nat -> Res S) (p : S -> nat -> S) (iis : list nat) :
  (forall ii, ii ∈ iis -> realises I (fun st => body st ii) (fun st => p st ii)) ->
  realises I (for_each body iis) (fun st => fold_left p iis st).
Proof.
  induction iis as [|ii iis IH]; intros Hbody st Hst; simpl; [auto|].
  destruct (Hbody ii ltac:(left) st Hst) as [E1 I1]. rewrite E1. simpl.
  apply IH; [|exact I1]. intros jj Hjj. apply Hbody. right. exact Hjj.
Qed.

End RealisesFacts.

Section AerosolFacts.
Import Coupling CouplingSpec.
Context {Real : Type}.
Implicit Types (st src dst : AerosolState_ Real) (d : AeroField).

Lemma get_set_same st d v : get (set st d v) d = v.
Proof.
  destruct d; simpl; unfold set1, set2; rewrite ?Nat.eqb_refl; reflexivity.
Qed.

Lemma get_set_other st d d' v : d' <> d -> get (set st d v) d' = get st d'.
Proof.
  intros Hne. destruct d, d'; simpl; try reflexivity; unfold set1, set2.
  - destruct (Nat.eqb_spec m0 m); [congruence | reflexivity].
  - destruct (Nat.eqb_spec m0 m); [congruence | reflexivity].
  - destruct (Nat.eqb_spec m0 m), (Nat.eqb_spec a0 a); simpl; congruence.
  - destruct (Nat.eqb_spec m0 m), (Nat.eqb_spec a0 a); simpl; congruence.
  - destruct (Nat.eqb_spec g0 g); [congruence | reflexivity].
Qed.

Lemma get_conv1 f src i k d st d' :
  get (conv1 f src i k d st) d'
  = if decide (d' = d)
    then match get src d, get st d with
         | Some h, Some g => Some (upd g i k (f (h i k)))
         | _, _ => get st d
         end
    else get st d'.
Proof.
  unfold conv1. destruct (decide (d' = d)) as [->|Hne].
  - destruct (get src d), (get st d) eqn:E; rewrite ?get_set_same, ?E; reflexivity.
  - destruct (get src d), (get st d); rewrite ?get_set_other by exact Hne; reflexivity.
Qed.

Lemma conv1_same_allocation f src i k d dst0 st :
  same_allocation dst0 st -> same_allocation dst0 (conv1 f src i k d st).
Proof.
  intros Hst d'. rewrite get_conv1, <- (Hst d').
  destruct (decide (d' = d)) as [->|]; [|reflexivity].
  destruct (get src d), (get st d); reflexivity.
Qed.

Variables (f : Real -> Real) (src dst0 : AerosolState_ Real) (i k : nat).

(** The views that [dst0] holds are held by [src]; the required ones are
    held by both. *)
Hypothesis Hsrc : forall d, named d = true ->
  is_allocated (get dst0 d) = true -> is_allocated (get src d) = true.
Hypothesis Hreq : forall d, required d = true ->
  is_allocated (get dst0 d) = true /\ is_allocated (get src d) = true.

Lemma convert_realises d :
  required d = true ->
  realises (same_allocation dst0) (convert f src d i k) (conv1 f src i k d).
Proof.
  intros Hd st Hst. split; [|apply conv1_same_allocation; exact Hst].
  destruct (Hreq d Hd) as [Hdst Hs]. rewrite <- (Hst d) in Hdst.
  unfold convert, conv1.
  destruct (get src d) as [h|]; [|discriminate].
  destruct (get st d) as [g|]; [|discriminate]. reflexivity.
Qed.

Lemma convert_if_allocated_realises d :
  named d = true ->
  realises (same_allocation dst0) (convert_if_allocated f src d i k)
           (conv1 f src i k d).
Proof.
  intros Hd st Hst. split; [|apply conv1_same_allocation; exact Hst].
  unfold convert_if_allocated, convert, conv1.
  pose proof (Hsrc d Hd) as Hs. rewrite <- (Hst d) in Hs.
  destruct (get st d) as [g|]; simpl.
  - destruct (get src d) as [h|]; [reflexivity|]. discriminate (Hs eq_refl).
  - destruct (get src d); reflexivity.
Qed.

Lemma convert_level_realises :
  realises (same_allocation dst0) (convert_level f src i k) (level f src i k).
Proof.
  unfold convert_level.
  assert (Hmodes : realises (same_allocation dst0)
            (for_each (fun dst m =>
                dst ← convert f src (IntNmr m) i k dst;
                dst ← convert_if_allocated f src (CldNmr m) i k dst;
                for_each (fun dst a =>
                            dst ← convert_if_allocated f src (IntMmr m a) i k dst;
                            convert_if_allocated f src (CldMmr m a) i k dst)
                         (range 0 num_aero_species) dst)
              (range 0 num_aero_modes))
            (fun st => fold_left (fun st m =>
                fold_left (fun st a => conv1 f src i k (CldMmr m a)
                                         (conv1 f src i k (IntMmr m a) st))
                          (seq 0 7)
                          (conv1 f src i k (CldNmr m) (conv1 f src i k (IntNmr m) st)))
              (seq 0 4) st)).
  { apply (realises_for_each _ _ (fun st m =>
             fold_left (fun st a => conv1 f src i k (CldMmr m a)
                                      (conv1 f src i k (IntMmr m a) st))
                       (seq 0 7)
                       (conv1 f src i k (CldNmr m) (conv1 f src i k (IntNmr m) st)))).
    intros m Hm. apply elem_of_seq in Hm. simpl in Hm.
    apply (realises_bind _ _ _ (conv1 f src i k (IntNmr m))
             (fun st => fold_left _ (seq 0 7) (conv1 f src i k (CldNmr m) st))).
    { apply convert_realises. simpl. apply Nat.ltb_lt. lia. }
    apply (realises_bind _ _ _ (conv1 f src i k (CldNmr m))
             (fun st => fold_left _ (seq 0 7) st)).
    { apply convert_if_allocated_realises. simpl. apply Nat.ltb_lt. lia. }
    apply (realises_for_each _ _ (fun st a => conv1 f src i k (CldMmr m a)
                                               (conv1 f src i k (IntMmr m a) st))).
    intros a Ha. apply elem_of_seq in Ha. simpl in Ha.
    apply (realises_bind _ _ _ (conv1 f src i k (IntMmr m a))
             (conv1 f src i k (CldMmr m a)));
      apply convert_if_allocated_realises; simpl;
      apply andb_true_iff; split; apply Nat.ltb_lt; lia. }
  assert (Hgases : realises (same_allocation dst0)
            (for_each (fun dst g => convert f src (GasMmr g) i k dst)
                      (range 0 num_aero_gases))
            (fun st => fold_left (fun st g => conv1 f src i k (GasMmr g) st)
                                 (seq 0 6) st)).
  { apply (realises_for_each _ _ (fun st g => conv1 f src i k (GasMmr g) st)).
    intros g Hg. apply elem_of_seq in Hg. simpl in Hg.
    apply convert_realises. simpl. apply Nat.ltb_lt. lia. }
  exact (realises_bind _ _ _ _ _ Hmodes Hgases).
Qed.

End AerosolFacts.

Section ColumnFacts.
Import Coupling CouplingSpec.
Context {Real : Type}.

Lemma fields_named (d : AeroField) : named d = true <-> d ∈ fields.
Proof.
  split.
  - intros Hd.
    destruct d as [m|m|m a|m a|g];
      try (do 4 (try (destruct m as [|m])));
      try (do 7 (try (destruct a as [|a])));
      try (do 6 (try (destruct g as [|g])));
      simpl in Hd; try discriminate;
      refine (bool_decide_unpack _ _); vm_compute; exact I.
  - revert d. apply Forall_forall.
    refine (bool_decide_unpack _ _). vm_compute. exact I.
Qed.

Lemma fields_distinct : NoDup fields.
Proof. refine (bool_decide_unpack _ _). vm_compute. exact I. Qed.

Lemma get_fold_conv1 (f : Real -> Real) (src : AerosolState_ Real) (i k : nat)
    (ds : list AeroField) (st : AerosolState_ Real) (d : AeroField) :
  NoDup ds ->
  get (fold_left (fun st d => conv1 f src i k d st) ds st) d
  = if decide (d ∈ ds)
    then match get src d, get st d with
         | Some h, Some g => Some (upd g i k (f (h i k)))
         | _, _ => get st d
         end
    else get st d.
Proof.
  intros Hnd. revert st. induction Hnd as [|d0 ds Hd0 Hnd IH]; intros st; simpl.
  - destruct (decide (d ∈ [])) as [Hin|_]; [inversion Hin | reflexivity].
  - rewrite IH, !get_conv1.
    destruct (decide (d ∈ ds)) as [Hin|Hout].
    + assert (Hne : d <> d0) by congruence.
      destruct (decide (d = d0)); [contradiction|].
      destruct (decide (d ∈ d0 :: ds)) as [_|Hno]; [reflexivity|].
      exfalso. apply Hno. right. exact Hin.
    + destruct (decide (d = d0)) as [->|Hne].
      * destruct (decide (d0 ∈ d0 :: ds)) as [_|Hno]; [reflexivity|].
        exfalso. apply Hno. left.
      * destruct (decide (d ∈ d0 :: ds)) as [Hin|_]; [|reflexivity].
        apply elem_of_cons in Hin. destruct Hin; contradiction.
Qed.

Lemma get_level (f : Real -> Real) (src : AerosolState_ Real) (i k : nat)
    (st : AerosolState_ Real) (d : AeroField) :
  named d = true ->
  get (level f src i k st) d
  = match get src d, get st d with
    | Some h, Some g => Some (upd g i k (f (h i k)))
    | _, _ => get st d
    end.
Proof.
  intros Hd. unfold level. rewrite get_fold_conv1 by exact fields_distinct.
  destruct (decide (d ∈ fields)) as [_|Hno]; [reflexivity|].
  exfalso. apply Hno, fields_named, Hd.
Qed.

(** A view of the column after the levels below [n]: the entries of the
    column at those levels are converted, the others are as they were. *)
Lemma get_column (f : nat -> Real -> Real) (src : AerosolState_ Real) (i n : nat)
    (st : AerosolState_ Real) (d : AeroField) :
  named d = true ->
  match get src d, get st d with
  | Some h, Some g =>
      exists g', get (column f src i n st) d = Some g'
                 /\ (forall k, (k < n)%nat -> g' i k = f k (h i k))
                 /\ (forall i' k', i' <> i \/ (n <= k')%nat -> g' i' k' = g i' k')
  | _, _ => get (column f src i n st) d = get st d
  end.
Proof.
  intros Hd. unfold column. induction n as [|n IH].
  - simpl. destruct (get src d) as [h|], (get st d) as [g|] eqn:E; try reflexivity.
    exists g. split; [reflexivity|]. split; [intros; lia | reflexivity].
  - rewrite seq_S, fold_left_app. simpl. rewrite get_level by exact Hd.
    destruct (get src d) as [h|], (get st d) as [g|] eqn:E.
    + destruct IH as (g' & -> & Hconv & Hframe).
      eexists. split; [reflexivity|]. unfold upd. split.
      * intros k Hk. rewrite Nat.eqb_refl. simpl.
        destruct (Nat.eqb_spec k n) as [->|Hne]; [reflexivity|].
        apply Hconv. lia.
      * intros i' k' Hik.
        destruct (Nat.eqb_spec i' i) as [->|]; simpl; [|apply Hframe; lia].
        destruct (Nat.eqb_spec k' n) as [->|]; [lia|]. apply Hframe. lia.
    + rewrite IH. reflexivity.
    + exact IH.
    + rewrite IH. reflexivity.
Qed.

Lemma level_same_allocation (f : Real -> Real) (src : AerosolState_ Real) (i k : nat)
    (dst0 st : AerosolState_ Real) :
  same_allocation dst0 st -> same_allocation dst0 (level f src i k st).
Proof.
  unfold level. generalize fields as ds. intros ds. revert st.
  induction ds as [|d0 ds IHds]; intros st Hst; simpl; [exact Hst|].
  apply IHds. apply conv1_same_allocation. exact Hst.
Qed.

Lemma column_same_allocation (f : nat -> Real -> Real) (src : AerosolState_ Real) (i n : nat)
    (st : AerosolState_ Real) :
  same_allocation st (column f src i n st).
Proof.
  unfold column. induction n as [|n IH]; [intros d; reflexivity|].
  rewrite seq_S, fold_left_app. simpl. apply level_same_allocation. exact IH.
Qed.

(** An aerosol kernel over the levels of a column. *)
Lemma kernel_realises (f : Real -> Real -> Real) (factor : view_2d_ Real) (q : nat -> nat -> Real)
    (src dst : AerosolState_ Real) (i : nat) (nlev : Z) :
  factor = Some q ->
  (forall d, named d = true ->
     is_allocated (get dst d) = true -> is_allocated (get src d) = true) ->
  (forall d, required d = true ->
     is_allocated (get dst d) = true /\ is_allocated (get src d) = true) ->
  for_each (fun dst k => qv_ik ← rd factor i k;
                         convert_level (fun x => f x qv_ik) src i k dst)
           (range 0 nlev) dst
  = Ok (column (fun k x => f x (q i k)) src i (Z.to_nat nlev) dst).
Proof.
  intros -> Hsrc Hreq.
  assert (Hr : realises (same_allocation dst)
            (for_each (fun dst k => qv_ik ← rd (Some q) i k;
                                    convert_level (fun x => f x qv_ik) src i k dst)
                      (range 0 nlev))
            (column (fun k x => f x (q i k)) src i (Z.to_nat nlev))).
  { unfold range, column. rewrite Z.sub_0_r. simpl.
    apply (realises_for_each _ _ (fun st k => level (fun x => f x (q i k)) src i k st)).
    intros k _. simpl.
    apply convert_level_realises; assumption. }
  apply Hr. intros d. reflexivity.
Qed.

End ColumnFacts.

Section RoundTrip.
Import Coupling CouplingSpec.
Context {Real : Type} (ops : RealOps Real).

(** The assertion of the kernels, for the team of the column. *)
Lemma team_asserted (team : Team) (i : nat) :
  kernel_assert (Z.of_nat i =? league_rank team)
  = if decide (Z.of_nat i = league_rank team) then Ok () else Fatal.
Proof.
  unfold kernel_assert.
  destruct (Z.eqb_spec (Z.of_nat i) (league_rank team)),
           (decide (Z.of_nat i = league_rank team)); congruence.
Qed.

Lemma dry_atmosphere_kernel (nlev : Z) (team : Team) (wet_atm : WetAtmosphere_ Real)
    (dry_atm : DryAtmosphere_ Real) (i : nat) (q : nat -> nat -> Real) :
  Z.of_nat i = league_rank team ->
  wet_qv wet_atm = Some q ->
  is_allocated (wet_qc wet_atm) && is_allocated (wet_nc wet_atm)
  && is_allocated (wet_qi wet_atm) && is_allocated (wet_ni wet_atm) = true ->
  is_allocated (dry_qv dry_atm) && is_allocated (dry_qc dry_atm)
  && is_allocated (dry_nc dry_atm) && is_allocated (dry_qi dry_atm)
  && is_allocated (dry_ni dry_atm) = true ->
  exists dry_atm' q',
    compute_dry_mixing_ratios_atm ops nlev team wet_atm dry_atm i = Ok dry_atm'
    /\ dry_qv dry_atm' = Some q'
    /\ forall k : nat, (Z.of_nat k < nlev)%Z ->
         q' i k = calculate_drymmr_from_wetmmr ops (q i k) (q i k).
Proof.
  intros Hteam Hq Hwet Hdry. unfold compute_dry_mixing_ratios_atm.
  rewrite team_asserted, decide_True by exact Hteam. cbn [mbind Res_bind].
  destruct wet_atm as [wqv wqc wnc wqi wni]. simpl in *. subst wqv.
  destruct wqc as [hqc|], wnc as [hnc|], wqi as [hqi|], wni as [hni|];
    try discriminate. clear Hwet.
  destruct (for_each_invariant
    (fun done st =>
       (is_allocated (dry_qv st) && is_allocated (dry_qc st)
        && is_allocated (dry_nc st) && is_allocated (dry_qi st)
        && is_allocated (dry_ni st) = true)
       /\ exists q', dry_qv st = Some q'
            /\ forall k, k ∈ done ->
                 q' i k = calculate_drymmr_from_wetmmr ops (q i k) (q i k))
    (fun dry_atm k =>
       qv_ik ← rd (Some q) i k;
       x ← rd (Some q) i k;
       qv ← wr (dry_qv dry_atm) i k (calculate_drymmr_from_wetmmr ops x qv_ik);
       x ← rd (Some hqc) i k;
       qc ← wr (dry_qc dry_atm) i k (calculate_drymmr_from_wetmmr ops x qv_ik);
       x ← rd (Some hnc) i k;
       nc ← wr (dry_nc dry_atm) i k (calculate_drymmr_from_wetmmr ops x qv_ik);
       x ← rd (Some hqi) i k;
       qi ← wr (dry_qi dry_atm) i k (calculate_drymmr_from_wetmmr ops x qv_ik);
       x ← rd (Some hni) i k;
       ni ← wr (dry_ni dry_atm) i k (calculate_drymmr_from_wetmmr ops x qv_ik);
       Ok (mkDryAtm qv qc nc qi ni))
    (range 0 nlev) dry_atm) with (pre := @nil nat) as (st' & E & _ & q' & Hq' & Hval).
  - split; [exact Hdry|].
    destruct (dry_qv dry_atm) as [g|]; [|discriminate].
    exists g. split; [reflexivity|]. intros k Hk. inversion Hk.
  - intros done k st [Halloc (q0 & Hq0 & Hdone)] _.
    destruct st as [dqv dqc dnc dqi dni]. simpl in *. subst dqv.
    destruct dqc as [gqc|], dnc as [gnc|], dqi as [gqi|], dni as [gni|];
      try discriminate.
    simpl. eexists. split; [reflexivity|]. simpl. split; [reflexivity|].
    eexists. split; [reflexivity|].
    intros k' Hk'. unfold upd. rewrite Nat.eqb_refl. simpl.
    destruct (Nat.eqb_spec k' k) as [->|Hne]; [reflexivity|].
    apply Hdone. apply elem_of_app in Hk'. destruct Hk' as [Hk'|Hk']; [exact Hk'|].
    apply list_elem_of_singleton in Hk'. contradiction.
  - auto.
  - exists st', q'. split; [exact E|]. split; [exact Hq'|].
    intros k Hk. apply Hval. simpl. apply elem_of_range; lia.
Qed.

(** The two aerosol kernels, run by the team of the column. *)
Lemma dry_aerosol_kernel (nlev : Z) (team : Team) (wet_atm : WetAtmosphere_ Real)
    (q : nat -> nat -> Real) (src dst : AerosolState_ Real) (i : nat) :
  Z.of_nat i = league_rank team ->
  wet_qv wet_atm = Some q ->
  (forall d, named d = true ->
     is_allocated (get dst d) = true -> is_allocated (get src d) = true) ->
  (forall d, required d = true ->
     is_allocated (get dst d) = true /\ is_allocated (get src d) = true) ->
  compute_dry_mixing_ratios ops nlev team wet_atm src dst i
  = Ok (column (fun k x => calculate_drymmr_from_wetmmr ops x (q i k))
               src i (Z.to_nat nlev) dst).
Proof.
  intros Hteam Hq Hsrc Hreq. unfold compute_dry_mixing_ratios.
  rewrite team_asserted, decide_True by exact Hteam. cbn [mbind Res_bind].
  apply (kernel_realises (calculate_drymmr_from_wetmmr ops) _ q); assumption.
Qed.

Lemma wet_aerosol_kernel (nlev : Z) (team : Team) (dry_atm : DryAtmosphere_ Real)
    (q : nat -> nat -> Real) (src dst : AerosolState_ Real) (i : nat) :
  Z.of_nat i = league_rank team ->
  dry_qv dry_atm = Some q ->
  (forall d, named d = true ->
     is_allocated (get dst d) = true -> is_allocated (get src d) = true) ->
  (forall d, required d = true ->
     is_allocated (get dst d) = true /\ is_allocated (get src d) = true) ->
  compute_wet_mixing_ratios ops nlev team dry_atm src dst i
  = Ok (column (fun k x => calculate_wetmmr_from_drymmr ops x (q i k))
               src i (Z.to_nat nlev) dst).
Proof.
  intros Hteam Hq Hsrc Hreq. unfold compute_wet_mixing_ratios.
  rewrite team_asserted, decide_True by exact Hteam. cbn [mbind Res_bind].
  apply (kernel_realises (calculate_wetmmr_from_drymmr ops) _ q); assumption.
Qed.

(** A kernel that is run by another team than the one of the column stops
    at its assertion. *)
Lemma kernels_assert_team (nlev : Z) (team : Team) (wet_atm : WetAtmosphere_ Real)
    (dry_atm : DryAtmosphere_ Real) (src dst : AerosolState_ Real) (i : nat) :
  Z.of_nat i <> league_rank team ->
  compute_dry_mixing_ratios_atm ops nlev team wet_atm dry_atm i = Fatal
  /\ compute_dry_mixing_ratios ops nlev team wet_atm src dst i = Fatal
  /\ compute_wet_mixing_ratios ops nlev team dry_atm src dst i = Fatal.
Proof.
  intros Hteam.
  unfold compute_dry_mixing_ratios_atm, compute_dry_mixing_ratios,
    compute_wet_mixing_ratios.
  rewrite !team_asserted, !decide_False by exact Hteam.
  repeat split; reflexivity.
Qed.

(** What the round trip computes on states that the kernels can be run on,
    in any arithmetic: the three kernels return, and every populated view
    holds, at every level of the column, the dry-then-wet conversion of the
    value it held. *)
Lemma round_trip_values (nlev : Z) (team : Team) (wet_atm : WetAtmosphere_ Real)
    (dry_atm : DryAtmosphere_ Real)
    (wet_aero dry_aero wet_out : AerosolState_ Real) (i : nat) :
  Z.of_nat i = league_rank team ->
  conforming wet_atm dry_atm wet_aero dry_aero wet_out ->
  exists q dry_atm' dry_aero' wet_out',
    wet_qv wet_atm = Some q
    /\ compute_dry_mixing_ratios_atm ops nlev team wet_atm dry_atm i = Ok dry_atm'
    /\ compute_dry_mixing_ratios ops nlev team wet_atm wet_aero dry_aero i
       = Ok dry_aero'
    /\ compute_wet_mixing_ratios ops nlev team dry_atm' dry_aero' wet_out i
       = Ok wet_out'
    /\ same_allocation wet_out wet_out'
    /\ forall d (k : nat) original recovered,
         named d = true -> Z.of_nat k < nlev ->
         get wet_aero d = Some original ->
         get wet_out' d = Some recovered ->
         recovered i k
         = calculate_wetmmr_from_drymmr ops
             (calculate_drymmr_from_wetmmr ops (original i k) (q i k))
             (calculate_drymmr_from_wetmmr ops (q i k) (q i k)).
Proof.
  intros Hteam (Hwet & Hdry & Hall).
  destruct (wet_qv wet_atm) as [q|] eqn:Eq; [|discriminate].
  exists q.
  destruct (dry_atmosphere_kernel nlev team wet_atm dry_atm i q Hteam Eq)
    as (dry_atm' & q' & Eatm & Eq' & Hq'); [exact Hwet | exact Hdry|].
  exists dry_atm'.
  exists (column (fun k x => calculate_drymmr_from_wetmmr ops x (q i k))
                 wet_aero i (Z.to_nat nlev) dry_aero).
  exists (column (fun k x => calculate_wetmmr_from_drymmr ops x (q' i k))
            (column (fun k x => calculate_drymmr_from_wetmmr ops x (q i k))
                    wet_aero i (Z.to_nat nlev) dry_aero)
            i (Z.to_nat nlev) wet_out).
  pose proof (column_same_allocation
                (fun k x => calculate_drymmr_from_wetmmr ops x (q i k))
                wet_aero i (Z.to_nat nlev) dry_aero) as Hsame.
  split; [reflexivity|]. split; [exact Eatm|]. split; [|split; [|split]].
  - apply dry_aerosol_kernel; [exact Hteam | exact Eq | |].
    + intros d Hd. apply (Hall d Hd).
    + intros d Hd. assert (Hn : named d = true).
      { destruct d; simpl in Hd |- *; try discriminate; exact Hd. }
      destruct (Hall d Hn) as [Hr _]. destruct (Hr Hd) as (? & ? & ?). auto.
  - apply wet_aerosol_kernel; [exact Hteam | exact Eq' | |].
    + intros d Hd Ha. rewrite (Hsame d). apply (Hall d Hd). exact Ha.
    + intros d Hd. assert (Hn : named d = true).
      { destruct d; simpl in Hd |- *; try discriminate; exact Hd. }
      destruct (Hall d Hn) as [Hr _]. destruct (Hr Hd) as (? & ? & ?).
      rewrite (Hsame d). auto.
  - apply column_same_allocation.
  - intros d k original recovered Hd Hk Horig Hrec.
    pose proof (get_column
                  (fun k x => calculate_drymmr_from_wetmmr ops x (q i k))
                  wet_aero i (Z.to_nat nlev) dry_aero d Hd) as Hdrycol.
    pose proof (get_column
                  (fun k x => calculate_wetmmr_from_drymmr ops x (q' i k))
                  (column (fun k x => calculate_drymmr_from_wetmmr ops x (q i k))
                          wet_aero i (Z.to_nat nlev) dry_aero)
                  i (Z.to_nat nlev) wet_out d Hd) as Hwetcol.
    rewrite Horig in Hdrycol.
    destruct (get wet_out d) as [w|] eqn:Ew.
    2:{ destruct (get (column _ wet_aero i _ dry_aero) d);
          rewrite Hwetcol in Hrec; discriminate. }
    assert (Hda : is_allocated (get dry_aero d) = true).
    { apply (Hall d Hd). rewrite Ew. reflexivity. }
    destruct (get dry_aero d) as [g|]; [|discriminate].
    destruct Hdrycol as (g' & Eg' & Hconv & _). rewrite Eg' in Hwetcol.
    destruct Hwetcol as (w' & Ew' & Hconv' & _).
    rewrite Ew' in Hrec. injection Hrec as <-.
    rewrite Hconv', Hconv, Hq' by lia. reflexivity.
Qed.

(** The round trip, given what the two conversions do to a value. *)
Lemma round_trip_close (close : nat -> Real -> Real -> Prop) (nlev : Z) (team : Team)
    (wet_atm : WetAtmosphere_ Real) (dry_atm : DryAtmosphere_ Real)
    (wet_aero dry_aero wet_out : AerosolState_ Real) (i : nat) :
  Z.of_nat i = league_rank team ->
  conforming wet_atm dry_atm wet_aero dry_aero wet_out ->
  (forall q (k : nat) x, wet_qv wet_atm = Some q -> Z.of_nat k < nlev ->
     close k x (calculate_wetmmr_from_drymmr ops
                  (calculate_drymmr_from_wetmmr ops x (q i k))
                  (calculate_drymmr_from_wetmmr ops (q i k) (q i k)))) ->
  round_trip ops close nlev team wet_atm dry_atm wet_aero dry_aero wet_out i.
Proof.
  intros Hteam Hconf Hclose.
  destruct (round_trip_values nlev team wet_atm dry_atm wet_aero dry_aero wet_out i
              Hteam Hconf)
    as (q & dry_atm' & dry_aero' & wet_out' & Eq & Eatm & Edry & Ewet & _ & Hval).
  exists dry_atm', dry_aero', wet_out'.
  split; [exact Eatm|]. split; [exact Edry|]. split; [exact Ewet|].
  intros d k original recovered Hd Hk Horig Hrec.
  rewrite (Hval d k original recovered Hd Hk Horig Hrec).
  apply Hclose; assumption.
Qed.

End RoundTrip.

(** ** The round trip of a value under rounding *)

Section Rounding.
Open Scope R_scope.
Variables (rnd : R -> R) (u : R).

(** The standard model of rounding: the result of an operation is the exact
    one up to a relative error of at most the unit roundoff [u]. *)
Hypothesis Hrnd : forall y, Rabs (rnd y - y) <= u * Rabs y.
Hypothesis Hu : 0 <= u < 1.

Lemma Rabs_bounds (x a : R) : Rabs x <= a -> - a <= x <= a.
Proof.
  intros H. pose proof (Rle_abs x) as H1. pose proof (Rle_abs (- x)) as H2.
  rewrite Rabs_Ropp in H2. lra.
Qed.

Lemma rnd_factor (y : R) :
  exists delta, rnd y = y * (1 + delta) /\ - u <= delta <= u.
Proof.
  destruct (Req_dec y 0) as [->|Hy].
  - exists 0. split; [|lra]. pose proof (Hrnd 0) as H.
    rewrite Rabs_R0, Rmult_0_r, Rminus_0_r in H.
    pose proof (Rabs_pos (rnd 0)) as Hpos.
    assert (H0 : Rabs (rnd 0) = 0) by lra.
    destruct (Req_dec (rnd 0) 0) as [E|E]; [rewrite E; lra|].
    apply Rabs_no_R0 in E. contradiction.
  - exists ((rnd y - y) / y). split; [field; exact Hy|].
    assert (Hay : 0 < Rabs y) by (apply Rabs_pos_lt; exact Hy).
    assert (Hq : Rabs ((rnd y - y) / y) <= u).
    { unfold Rdiv. rewrite Rabs_mult, Rabs_inv.
      apply (Rmult_le_reg_r (Rabs y)); [exact Hay|].
      rewrite Rmult_assoc, Rinv_l by lra. rewrite Rmult_1_r. apply Hrnd. }
    apply Rabs_bounds in Hq. exact Hq.
Qed.

Lemma product_bound (a b A B : R) :
  - A <= a <= A -> - B <= b <= B -> - (A * B) <= a * b <= A * B.
Proof. intros Ha Hb. nra. Qed.

(** A value through the dry and then the wet conversion, [qv] being the wet
    water vapor of the level. *)
Lemma round_trip_error (x qv : R) :
  qv <> 1 -> (Rabs (1 - qv) + Rabs qv) * u < 1 ->
  let ops := rounded_ops rnd in
  Rabs (Coupling.calculate_wetmmr_from_drymmr ops
          (Coupling.calculate_drymmr_from_wetmmr ops x qv)
          (Coupling.calculate_drymmr_from_wetmmr ops qv qv) - x)
  <= Rabs x * Coupling.rel_error u qv.
Proof.
  intros Hqv Hk ops. subst ops.
  unfold Coupling.calculate_wetmmr_from_drymmr, Coupling.calculate_drymmr_from_wetmmr,
    Coupling.rel_error. cbn [rounded_ops r_div r_sub r_add r_one].
  set (kappa := Rabs (1 - qv) + Rabs qv) in *.
  assert (Hkappa : 0 <= kappa)
    by (unfold kappa; pose proof (Rabs_pos (1 - qv)); pose proof (Rabs_pos qv); lra).
  destruct (rnd_factor (1 - qv)) as (d1 & E1 & B1). rewrite E1.
  assert (Hd : (1 - qv) * (1 + d1) <> 0).
  { apply Rmult_integral_contrapositive_currified; lra. }
  set (den := (1 - qv) * (1 + d1)) in *.
  destruct (rnd_factor (x / den)) as (d2 & E2 & B2). rewrite E2.
  destruct (rnd_factor (qv / den)) as (d3 & E3 & B3). rewrite E3.
  set (eps := (1 - qv) * d1 + qv * d3).
  assert (Hsum : 1 + qv / den * (1 + d3) = (1 + eps) / den).
  { unfold eps, den. field. split; lra. }
  rewrite Hsum.
  assert (Beps : - (kappa * u) <= eps <= kappa * u).
  { pose proof (product_bound (1 - qv) d1 (Rabs (1 - qv)) u) as P1.
    pose proof (product_bound qv d3 (Rabs qv) u) as P3.
    pose proof (Rabs_bounds (1 - qv) (Rabs (1 - qv)) (Rle_refl _)) as A1.
    pose proof (Rabs_bounds qv (Rabs qv) (Rle_refl _)) as A3.
    specialize (P1 A1 B1). specialize (P3 A3 B3). unfold eps, kappa. lra. }
  assert (He : 0 < 1 + eps) by lra.
  destruct (rnd_factor ((1 + eps) / den)) as (d4 & E4 & B4). rewrite E4.
  destruct (rnd_factor (x / den * (1 + d2) / ((1 + eps) / den * (1 + d4))))
    as (d5 & E5 & B5). rewrite E5.
  set (N := (1 + d2) * (1 + d5)). set (D := (1 + eps) * (1 + d4)).
  assert (HD : (1 - u) * (1 - kappa * u) <= D).
  { unfold D. nra. }
  assert (HDpos : 0 < (1 - u) * (1 - kappa * u)) by (apply Rmult_lt_0_compat; lra).
  replace (x / den * (1 + d2) / ((1 + eps) / den * (1 + d4)) * (1 + d5) - x)
    with (x * ((N - D) / D)) by (unfold N, D; field; repeat split; lra).
  rewrite Rabs_mult. apply Rmult_le_compat_l; [apply Rabs_pos|].
  assert (HND : - (u * (3 + kappa) + u * u * (1 + kappa)) <= N - D
                <= u * (3 + kappa) + u * u * (1 + kappa)).
  { pose proof (product_bound d2 d5 u u B2 B5) as P25.
    pose proof (product_bound eps d4 (kappa * u) u Beps B4) as P4.
    unfold N, D. lra. }
  assert (HB : 0 <= u * (3 + kappa) + u * u * (1 + kappa)) by nra.
  unfold Rdiv at 1. rewrite Rabs_mult, Rabs_inv.
  rewrite (Rabs_pos_eq D) by lra.
  apply Rabs_le in HND.
  apply Rle_trans with ((u * (3 + kappa) + u * u * (1 + kappa)) * / D).
  - apply Rmult_le_compat_r; [|exact HND]. apply Rlt_le, Rinv_0_lt_compat. lra.
  - unfold Rdiv. apply Rmult_le_compat_l; [exact HB|].
    apply Rinv_le_contravar; [exact HDpos | exact HD].
Qed.

End Rounding.

(** Without rounding the value comes back as it was. *)
Lemma round_trip_exact (x qv : R) :
  qv <> 1%R ->
  Coupling.calculate_wetmmr_from_drymmr exact_ops
    (Coupling.calculate_drymmr_from_wetmmr exact_ops x qv)
    (Coupling.calculate_drymmr_from_wetmmr exact_ops qv qv) = x.
Proof.
  intros Hqv.
  unfold Coupling.calculate_wetmmr_from_drymmr, Coupling.calculate_drymmr_from_wetmmr.
  cbn [exact_ops rounded_ops r_div r_sub r_add r_one].
  assert (H1 : (1 - qv)%R <> 0%R) by (intros E; apply Hqv; lra).
  field. repeat split; try exact H1; intros E; apply Hqv; lra.
Qed.


Lemma example_states_conforming (qv x : R) :
  Coupling.conforming (CouplingExample.wet_atm qv) CouplingExample.dry_atm
    (CouplingExample.aero x) (CouplingExample.aero 0) (CouplingExample.aero 0).
Proof.
  split; [reflexivity|]. split; [reflexivity|].
  intros d Hd. destruct d; simpl; auto.
Qed.



(** ** The chemistry work arrays *)

Section WorkArrayFacts.

Import WorkArrays WorkArraysSpec.

Variables (gas_molecular_weight aero_molecular_weight : Z -> R).
Variable mw_dry_air : R.

(** One slot of the round trip: run the four loops on the tables, settle the
    test on the level, and cancel the molecular weights. *)
Ltac run_round_trip k :=
  let Hk := fresh "Hk" in
  pose proof (Z.eqb_refl k) as Hk;
  vm_compute in Hk; vm_compute; rewrite Hk; clear Hk.

Lemma round_trip_gas progs target k q0 qqcw0 vmr0 vmrcw0 g :
  mw_dry_air <> 0%R -> gas_molecular_weight g <> 0%R ->
  0 <= g < num_aero_gases ->
  q_gas (round_trip mam4_mode_aero_species gas_molecular_weight
           aero_molecular_weight mw_dry_air progs target k
           q0 qqcw0 vmr0 vmrcw0) g k
  = q_gas progs g k.
Proof.
  intros Hd Hg Hr. unfold num_aero_gases in Hr.
  assert (E : g = 0 \/ g = 1 \/ g = 2 \/ g = 3 \/ g = 4 \/ g = 5) by lia.
  destruct E as [-> | [-> | [-> | [-> | [-> | ->]]]]];
    run_round_trip k; field; split; assumption.
Qed.

Lemma round_trip_number progs target k q0 qqcw0 vmr0 vmrcw0 m :
  0 <= m < num_aero_modes ->
  let out := round_trip mam4_mode_aero_species gas_molecular_weight
               aero_molecular_weight mw_dry_air progs target k
               q0 qqcw0 vmr0 vmrcw0 in
  n_mode_i out m k = n_mode_i progs m k /\
  n_mode_c out m k = n_mode_c progs m k.
Proof.
  intros Hr out. subst out. unfold num_aero_modes in Hr.
  assert (E : m = 0 \/ m = 1 \/ m = 2 \/ m = 3) by lia.
  destruct E as [-> | [-> | [-> | ->]]];
    (split; run_round_trip k; reflexivity).
Qed.

Lemma round_trip_mass progs target k q0 qqcw0 vmr0 vmrcw0 m a :
  mw_dry_air <> 0%R -> aero_molecular_weight a <> 0%R ->
  0 <= m < num_aero_modes -> 0 <= a < num_aero_species ->
  mam4_mode_aero_species m a <> NoAero ->
  let out := round_trip mam4_mode_aero_species gas_molecular_weight
               aero_molecular_weight mw_dry_air progs target k
               q0 qqcw0 vmr0 vmrcw0 in
  q_aero_i out m a k = q_aero_i progs m a k /\
  q_aero_c out m a k = q_aero_c progs m a k.
Proof.
  intros Hd Ha Hm Hs Hin out. subst out.
  unfold num_aero_modes in Hm. unfold num_aero_species in Hs.
  assert (Em : m = 0 \/ m = 1 \/ m = 2 \/ m = 3) by lia.
  assert (Ea : a = 0 \/ a = 1 \/ a = 2 \/ a = 3 \/ a = 4 \/ a = 5 \/ a = 6) by lia.
  destruct Em as [-> | [-> | [-> | ->]]];
    destruct Ea as [-> | [-> | [-> | [-> | [-> | [-> | ->]]]]]];
    first [ exfalso; apply Hin; reflexivity
          | split; run_round_trip k; field; split; assumption ].
Qed.

Lemma modal_number_passes i :
  is_modal_number i ->
  passes_unchanged mam4_mode_aero_species gas_molecular_weight
    aero_molecular_weight mw_dry_air i.
Proof.
  intros (Hlt & Hg & Ha) q qqcw vmr vmrcw. unfold gas_pcnst in Hlt.
  do 31 (destruct i as [|i];
         [ first [ discriminate Hg | discriminate Ha
                 | vm_compute; repeat split ] |]).
  lia.
Qed.

End WorkArrayFacts.



(** ** Runs of equal rows *)

Section RunFacts.
Import Runs.

Lemma covers_length dofs starts lens first rows :
  covers dofs starts lens first rows ->
  length starts = length dofs /\ length lens = length dofs.
Proof. induction 1; simpl; lia. Qed.

Lemma covers_end dofs starts lens first rows :
  covers dofs starts lens first rows ->
  Z.of_nat (length rows) = foldr Z.add 0 lens.
Proof.
  induction 1 as [|d l dofs starts lens first rows Hl _ IH]; simpl; [reflexivity|].
  rewrite length_app, length_replicate. lia.
Qed.

Lemma covers_app dofs1 starts1 lens1 rows1 dofs2 starts2 lens2 rows2 first :
  covers dofs1 starts1 lens1 first rows1 ->
  covers dofs2 starts2 lens2 (first + Z.of_nat (length rows1)) rows2 ->
  covers (dofs1 ++ dofs2) (starts1 ++ starts2) (lens1 ++ lens2) first
         (rows1 ++ rows2).
Proof.
  induction 1 as [first|d l dofs starts lens first rows Hl _ IH]; simpl.
  - rewrite Z.add_0_r. auto.
  - intros H2. rewrite <- app_assoc. constructor; [exact Hl|].
    apply IH. rewrite length_app, length_replicate in H2.
    replace (first + l + Z.of_nat (length rows))
      with (first + Z.of_nat (Z.to_nat l + length rows)) by lia.
    exact H2.
Qed.

Lemma covers_snoc dofs starts lens rows first d l :
  covers dofs starts lens first rows -> 1 <= l ->
  covers (dofs ++ [d]) (starts ++ [first + Z.of_nat (length rows)]) (lens ++ [l])
         first (rows ++ replicate (Z.to_nat l) d).
Proof.
  intros H Hl. apply covers_app; [exact H|].
  rewrite <- (app_nil_r (replicate _ _)). constructor; [exact Hl | constructor].
Qed.

Lemma adjacent_differ_snoc dofs d t :
  adjacent_differ (dofs ++ [d]) -> d <> t -> adjacent_differ ((dofs ++ [d]) ++ [t]).
Proof.
  intros Had Hne j x y Hx Hy.
  destruct (Nat.lt_ge_cases (Datatypes.S j) (length (dofs ++ [d]))) as [Hlt|Hge].
  - rewrite lookup_app_l in Hx by lia. rewrite lookup_app_l in Hy by lia.
    exact (Had j x y Hx Hy).
  - pose proof (lookup_lt_Some _ _ _ Hy) as Hj.
    rewrite length_app in Hj. simpl in Hj.
    assert (Ej : Datatypes.S j = length (dofs ++ [d])) by lia.
    rewrite lookup_app_r in Hy by lia.
    replace (Datatypes.S j - length (dofs ++ [d]))%nat with 0%nat in Hy by lia.
    injection Hy as <-.
    rewrite lookup_app_l in Hx by lia.
    rewrite length_app in Ej. simpl in Ej.
    rewrite lookup_app_r in Hx by lia.
    replace (j - length dofs)%nat with 0%nat in Hx by lia.
    injection Hx as <-. exact Hne.
Qed.

Lemma is_min_snoc mn l t : is_min mn l -> is_min (Z.min t mn) (l ++ [t]).
Proof.
  intros [Hin Hle]. split.
  - destruct (Z.min_spec t mn) as [[_ ->]|[_ ->]].
    + apply elem_of_app. right. left.
    + apply elem_of_app. left. exact Hin.
  - intros y Hy. apply elem_of_app in Hy. destruct Hy as [Hy|Hy].
    + specialize (Hle y Hy). lia.
    + apply list_elem_of_singleton in Hy. subst y. lia.
Qed.

Lemma vec_back_snoc {A} (v : list A) (x : A) : Vec.back (v ++ [x]) = Ok x.
Proof. unfold Vec.back. rewrite last_snoc. reflexivity. Qed.

Lemma vec_set_back_snoc {A} (v : list A) (x y : A) :
  Vec.set_back (v ++ [x]) y = v ++ [y].
Proof.
  unfold Vec.set_back. rewrite length_app. simpl.
  replace (pred (length v + 1)) with (length v + 0)%nat by lia.
  rewrite insert_app_r. reflexivity.
Qed.

(** The loop of step 2 after the rows [1 .. n]. *)
Lemma group_loop (rows : list Z) (my_start t0 : Z) (n : nat) :
  rows !! 0%nat = Some t0 -> (1 + n <= length rows)%nat ->
  exists dofs starts lens rows0 d l mn,
    for_each (Grouping.group_step rows my_start) (seq 1 n)
             (Grouping.mkChunks [t0] [my_start] [1] t0)
    = Ok (Grouping.mkChunks (dofs ++ [d])
                            (starts ++ [my_start + Z.of_nat (length rows0)])
                            (lens ++ [l]) mn)
    /\ covers dofs starts lens my_start rows0
    /\ take (1 + n) rows = rows0 ++ replicate (Z.to_nat l) d
    /\ 1 <= l
    /\ adjacent_differ (dofs ++ [d])
    /\ is_min mn (take (1 + n) rows).
Proof.
  intros H0. induction n as [|n IH]; intros Hlen.
  - exists [], [], [], [], t0, 1, t0. simpl. rewrite Z.add_0_r.
    split; [reflexivity|]. split; [constructor|].
    destruct rows as [|r rows]; [discriminate|]. injection H0 as ->.
    simpl. rewrite take_0. split; [reflexivity|]. split; [lia|]. split.
    + intros j x y Hx Hy. destruct j; discriminate.
    + split; [left|]. intros y Hy. apply list_elem_of_singleton in Hy. lia.
  - destruct IH as (dofs & starts & lens & rows0 & d & l & mn & E & Hc & Ht & Hl & Had & Hmin);
      [lia|].
    rewrite seq_S, for_each_app, E, bind_Ok. cbn [for_each].
    destruct (lookup_lt_is_Some_2 rows (1 + n) ltac:(lia)) as [t Et].
    unfold Grouping.group_step at 1. cbn [Grouping.chunk_dof Grouping.chunk_len
      Grouping.chunk_start Grouping.remap_min_dof].
    rewrite (view_get_of_nat _ _ _ Et), bind_Ok. cbv beta zeta.
    rewrite (vec_back_snoc dofs d), bind_Ok. cbv beta zeta.
    assert (Htake : take (1 + Datatypes.S n) rows = take (1 + n) rows ++ [t]).
    { replace (1 + Datatypes.S n)%nat with (Datatypes.S (1 + n)) by lia.
      apply take_S_r. exact Et. }
    destruct (Z.eqb_spec t d) as [->|Hne].
    + rewrite (vec_back_snoc lens l), !bind_Ok, vec_set_back_snoc.
      exists dofs, starts, lens, rows0, d, (l + 1), (Z.min d mn).
      split; [reflexivity|]. split; [exact Hc|]. split.
      { rewrite Htake, Ht, <- app_assoc. f_equal.
        replace (Z.to_nat (l + 1)) with (Z.to_nat l + 1)%nat by lia.
        rewrite replicate_add. reflexivity. }
      split; [lia|]. split; [exact Had|].
      rewrite Htake. apply is_min_snoc. exact Hmin.
    + unfold Vec.push_back. rewrite ?bind_Ok.
      exists (dofs ++ [d]), (starts ++ [my_start + Z.of_nat (length rows0)]),
             (lens ++ [l]), (rows0 ++ replicate (Z.to_nat l) d), t, 1, (Z.min t mn).
      split.
      { do 2 f_equal. do 2 f_equal. rewrite <- Ht, length_take. lia. }
      split; [apply covers_snoc; assumption|]. split.
      { rewrite Htake, Ht. reflexivity. }
      split; [lia|]. split; [apply adjacent_differ_snoc; [exact Had | congruence]|].
      rewrite Htake. apply is_min_snoc. exact Hmin.
Qed.

(** Step 2 on the rows of a rank. *)
Lemma group_rows_spec (rows : list Z) (my_start my_chunk : Z) :
  View.extent rows = my_chunk -> 1 <= my_chunk ->
  exists c, Grouping.group_rows rows my_start my_chunk = Ok c
    /\ covers (Grouping.chunk_dof c) (Grouping.chunk_start c) (Grouping.chunk_len c)
              my_start rows
    /\ adjacent_differ (Grouping.chunk_dof c)
    /\ is_min (Grouping.remap_min_dof c) rows.
Proof.
  unfold View.extent. intros Hext Hchunk. unfold Grouping.group_rows.
  destruct (lookup_lt_is_Some_2 rows 0 ltac:(lia)) as [t0 E0].
  change 0 with (Z.of_nat 0). rewrite (view_get_of_nat _ _ _ E0). simpl.
  destruct (group_loop rows my_start t0 (length rows - 1) E0 ltac:(lia))
    as (dofs & starts & lens & rows0 & d & l & mn & E & Hc & Ht & Hl & Had & Hmin).
  replace (range 1 my_chunk) with (seq 1 (length rows - 1))
    by (unfold range; f_equal; lia).
  rewrite E. eexists. split; [reflexivity|]. simpl.
  replace (1 + (length rows - 1))%nat with (length rows) in * by lia.
  rewrite firstn_all in *.
  split; [|split; assumption].
  rewrite Ht. apply covers_snoc; assumption.
Qed.

End RunFacts.

(** ** The collectives *)

Section ExchangeFacts.
Import Exchange.

Lemma on_every_rank_spec {A} (f : Z -> Res A) (n : nat) :
  (forall r : nat, (r < n)%nat -> exists x, f (Z.of_nat r) = Ok x) ->
  exists xs, on_every_rank (Z.of_nat n) f = Ok xs
    /\ length xs = n
    /\ forall (r : nat) x, xs !! r = Some x -> f (Z.of_nat r) = Ok x.
Proof.
  unfold on_every_rank. rewrite range_0_of_nat.
  induction n as [|n IH]; intros Hf.
  - exists []. simpl. split; [reflexivity|]. split; [reflexivity|]. intros r x [=].
  - destruct IH as (xs & E & Hlen & Hxs); [intros r Hr; apply Hf; lia|].
    destruct (Hf n ltac:(lia)) as [x Ex].
    exists (xs ++ [x]). rewrite seq_S, for_each_app, E, bind_Ok. cbn [for_each].
    simpl. rewrite Ex. simpl. split; [reflexivity|].
    split; [rewrite length_app; simpl; lia|].
    intros r y Hy. destruct (Nat.lt_ge_cases r (length xs)) as [Hlt|Hge].
    + rewrite lookup_app_l in Hy by exact Hlt. apply Hxs. exact Hy.
    + pose proof (lookup_lt_Some _ _ _ Hy) as Hr. rewrite length_app in Hr.
      simpl in Hr. assert (r = n) as -> by lia.
      rewrite lookup_app_r in Hy by lia.
      replace (n - length xs)%nat with 0%nat in Hy by lia.
      injection Hy as <-. exact Ex.
Qed.

Lemma fold_min_le (xs : list Z) (x : Z) :
  fold_left Z.min xs x <= x /\ (forall y, y ∈ xs -> fold_left Z.min xs x <= y)
  /\ fold_left Z.min xs x ∈ x :: xs.
Proof.
  revert x. induction xs as [|y xs IH]; intros x; simpl.
  - split; [lia|]. split; [intros y Hy; inversion Hy | left].
  - destruct (IH (Z.min x y)) as (H1 & H2 & H3).
    split; [lia|]. split.
    + intros z Hz. apply elem_of_cons in Hz. destruct Hz as [->|Hz]; [lia|auto].
    + apply elem_of_cons in H3. destruct H3 as [H3|H3].
      * rewrite H3. destruct (Z.min_spec x y) as [[_ ->]|[_ ->]];
          [left | right; left].
      * right. right. exact H3.
Qed.

Lemma all_reduce_min_spec (xs : list Z) :
  xs <> [] -> exists mn, all_reduce_min xs = Ok mn /\ Runs.is_min mn xs.
Proof.
  destruct xs as [|x xs]; [congruence|]. intros _. simpl.
  eexists. split; [reflexivity|].
  destruct (fold_min_le xs x) as (H1 & H2 & H3).
  split; [exact H3|]. intros y Hy.
  apply elem_of_cons in Hy. destruct Hy as [->|Hy]; auto.
Qed.

Lemma is_min_unique (a b : Z) (l : list Z) :
  Runs.is_min a l -> Runs.is_min b l -> a = b.
Proof. intros [Ha1 Ha2] [Hb1 Hb2]. specialize (Ha2 b Hb1). specialize (Hb2 a Ha1). lia. Qed.

Lemma elem_of_concat {A} (x : A) (ls : list (list A)) :
  x ∈ concat ls <-> exists l, x ∈ l /\ l ∈ ls.
Proof.
  induction ls as [|l ls IH]; simpl.
  - split; [intros H; inversion H | intros (l & _ & H); inversion H].
  - rewrite elem_of_app, IH. split.
    + intros [H|(l' & H1 & H2)]; [exists l; split; [exact H | left]|].
      exists l'. split; [exact H1 | right; exact H2].
    + intros (l' & H1 & H2). apply elem_of_cons in H2.
      destruct H2 as [->|H2]; [left; exact H1 | right; eauto].
Qed.

(** The least of the least entries of the blocks is the least entry. *)
Lemma is_min_concat (mins : list Z) (blocks : list (list Z)) (mn : Z) :
  Forall2 Runs.is_min mins blocks -> Runs.is_min mn mins ->
  Runs.is_min mn (concat blocks).
Proof.
  intros Hall [Hin Hle]. split.
  - apply list_elem_of_lookup in Hin. destruct Hin as [i Hi].
    destruct (Forall2_lookup_l _ _ _ _ _ Hall Hi) as (b & Hb & [Hmb _]).
    apply elem_of_concat. exists b. split; [exact Hmb|].
    apply list_elem_of_lookup. eauto.
  - intros y Hy. apply elem_of_concat in Hy. destruct Hy as (b & Hyb & Hb).
    apply list_elem_of_lookup in Hb. destruct Hb as [i Hi].
    destruct (Forall2_lookup_r _ _ _ _ _ Hall Hi) as (m & Hm & [_ Hmle]).
    specialize (Hmle y Hyb).
    assert (mn <= m) by (apply Hle, list_elem_of_lookup; eauto). lia.
Qed.

Lemma foldr_add_snoc (l : list Z) (x : Z) :
  foldr Z.add 0 (l ++ [x]) = foldr Z.add 0 l + x.
Proof. induction l as [|y l IH]; simpl; lia. Qed.

Lemma foldr_add_app (l k : list Z) :
  foldr Z.add 0 (l ++ k) = foldr Z.add 0 l + foldr Z.add 0 k.
Proof. induction l as [|y l IH]; simpl; lia. Qed.

Lemma psum_S (counts : list Z) (r : nat) c :
  counts !! r = Some c -> psum counts (Datatypes.S r) = psum counts r + c.
Proof. intros H. unfold psum. rewrite (take_S_r _ _ _ H). apply foldr_add_snoc. Qed.

Lemma displacements_loop (counts : list Z) (n k : nat) :
  length counts = n -> (k + 1 <= n)%nat ->
  for_each (fun '(chunk_displacement, total_num_chunks) ii =>
              chunk_displacement ← View.set chunk_displacement (Z.of_nat ii)
                                            total_num_chunks;
              c ← View.get counts (Z.of_nat ii);
              Ok (chunk_displacement, total_num_chunks + c))
           (seq 1 k) (replicate n 0, psum counts 1)
  = Ok (map (psum counts) (seq 0 (k + 1)) ++ replicate (n - k - 1) 0,
        psum counts (k + 1)).
Proof.
  intros Hlen. induction k as [|k IH]; intros Hk.
  - simpl. f_equal. f_equal. unfold psum at 1. simpl.
    replace (n - 0 - 1)%nat with (n - 1)%nat by lia.
    destruct n; [lia|]. simpl. rewrite Nat.sub_0_r. reflexivity.
  - rewrite seq_S, for_each_app, IH, bind_Ok by lia. cbn [for_each].
    rewrite view_set_Ok.
    2:{ unfold View.extent. rewrite length_app, length_map, length_seq, length_replicate. lia. }
    rewrite bind_Ok.
    destruct (lookup_lt_is_Some_2 counts (1 + k) ltac:(lia)) as [c Ec].
    rewrite (view_get_of_nat _ _ _ Ec), !bind_Ok. f_equal. f_equal.
    + rewrite Nat2Z.id.
      replace (1 + k)%nat with (length (map (psum counts) (seq 0 (k + 1))) + 0)%nat
        at 1 by (rewrite length_map, length_seq; lia).
      rewrite insert_app_r.
      replace (n - k - 1)%nat with (Datatypes.S (n - Datatypes.S k - 1)) by lia.
      cbn [replicate insert list_insert].
      replace (Datatypes.S k + 1)%nat with (Datatypes.S (k + 1)) by lia.
      rewrite (seq_S (k + 1) 0), map_app, <- app_assoc. reflexivity.
    + replace (Datatypes.S k + 1)%nat with (Datatypes.S (k + 1)) by lia.
      symmetry. apply psum_S. replace (k + 1)%nat with (1 + k)%nat by lia. exact Ec.
Qed.

(** The displacement of a rank is the number of chunks of the ranks before
    it, and the total is the number of chunks of all ranks. *)
Lemma displacements_spec (counts : list Z) (n : nat) :
  length counts = n -> (1 <= n)%nat ->
  displacements counts (Z.of_nat n)
  = Ok (map (psum counts) (seq 0 n), foldr Z.add 0 counts).
Proof.
  intros Hlen Hn. unfold displacements.
  rewrite view_set_Ok by (unfold View.extent, View.alloc; rewrite length_replicate; lia).
  rewrite bind_Ok.
  destruct (lookup_lt_is_Some_2 counts 0 ltac:(lia)) as [c0 E0].
  replace (View.get counts 0) with (Ok c0)
    by (symmetry; apply view_get_Ok; split; [lia | exact E0]).
  rewrite bind_Ok.
  unfold View.alloc. rewrite Nat2Z.id.
  assert (E1 : <[Z.to_nat 0 := 0]> (replicate n 0) = replicate n 0).
  { destruct n; [lia|]. reflexivity. }
  rewrite E1.
  assert (Ep : c0 = psum counts 1).
  { unfold psum. rewrite (take_S_r _ 0 _ E0). simpl. lia. }
  rewrite Ep.
  replace (range 1 (Z.of_nat n)) with (seq 1 (n - 1)) by (unfold range; f_equal; lia).
  rewrite (displacements_loop counts n (n - 1) Hlen) by lia.
  replace (n - 1 + 1)%nat with n by lia.
  replace (n - (n - 1) - 1)%nat with 0%nat by lia. simpl. rewrite app_nil_r.
  unfold psum at 2. rewrite <- Hlen, firstn_all. reflexivity.
Qed.

Lemma length_concat_take (blocks : list (list Z)) (r : nat) :
  Z.of_nat (length (concat (take r blocks)))
  = psum (map View.extent blocks) r.
Proof.
  unfold psum. rewrite <- fmap_take.
  induction (take r blocks) as [|b bs IH]; simpl; [reflexivity|].
  rewrite length_app.
  change (list_fmap _ _ View.extent bs) with (View.extent <$> bs).
  rewrite <- IH. unfold View.extent. lia.
Qed.

Lemma concat_take_S {A} (blocks : list (list A)) (r : nat) b :
  blocks !! r = Some b ->
  concat (take (Datatypes.S r) blocks) = concat (take r blocks) ++ b.
Proof.
  intros H. rewrite (take_S_r _ _ _ H), concat_app. simpl.
  rewrite app_nil_r. reflexivity.
Qed.

Lemma length_concat_take_le {A} (blocks : list (list A)) (r : nat) :
  (length (concat (take r blocks)) <= length (concat blocks))%nat.
Proof.
  rewrite <- (take_drop r blocks) at 2. rewrite concat_app, length_app. lia.
Qed.

Lemma all_gatherv_loop (blocks : list (list Z)) (displs : list Z) (k : nat) :
  (k <= length blocks)%nat ->
  (forall r : nat, (r < length blocks)%nat ->
     displs !! r = Some (Z.of_nat (length (concat (take r blocks))))) ->
  for_each (fun recvbuf r =>
              '(sendbuf, sendcount) ← Vec.at_ (map (fun b => (b, View.extent b)) blocks) r;
              count ← View.get (map View.extent blocks) (Z.of_nat r);
              displ ← View.get displs (Z.of_nat r);
              _ ← require (sendcount =? count);
              Map.copy_into recvbuf sendbuf displ count)
           (seq 0 k) (replicate (length (concat blocks)) 0)
  = Ok (concat (take k blocks)
        ++ replicate (length (concat blocks) - length (concat (take k blocks))) 0).
Proof.
  intros Hk Hd. induction k as [|k IH].
  - simpl. rewrite Nat.sub_0_r. reflexivity.
  - rewrite seq_S, for_each_app, IH, bind_Ok by lia. cbn [for_each]. simpl "+"%nat.
    destruct (lookup_lt_is_Some_2 blocks k ltac:(lia)) as [b Eb].
    unfold Vec.at_. rewrite list_lookup_fmap, Eb. simpl.
    assert (Ec : map View.extent blocks !! k = Some (View.extent b)).
    { change (map View.extent blocks) with (View.extent <$> blocks).
      rewrite list_lookup_fmap, Eb. reflexivity. }
    rewrite (view_get_of_nat _ _ _ Ec). simpl.
    rewrite (view_get_of_nat _ _ _ (Hd k ltac:(lia))). simpl.
    rewrite Z.eqb_refl. simpl.
    pose proof (length_concat_take_le blocks (Datatypes.S k)) as Hle.
    rewrite (concat_take_S _ _ _ Eb), length_app in Hle.
    unfold View.extent.
    rewrite copy_into_prefix.
    2: lia.
    2:{ rewrite length_app, length_replicate. lia. }
    rewrite bind_Ok. f_equal. rewrite take_app_length, firstn_all.
    rewrite (concat_take_S _ _ _ Eb), <- app_assoc. f_equal. f_equal.
    rewrite drop_app_add', drop_replicate by reflexivity.
    f_equal. rewrite length_app. lia.
Qed.

Lemma sum_extents (blocks : list (list Z)) :
  foldr Z.add 0 (map View.extent blocks) = View.extent (concat blocks).
Proof.
  pose proof (length_concat_take blocks (length blocks)) as H.
  rewrite firstn_all in H. unfold View.extent at 2. rewrite H. unfold psum.
  rewrite <- (length_map View.extent blocks), firstn_all. reflexivity.
Qed.

(** A gather whose displacements are the numbers of entries of the ranks
    before packs the blocks of the ranks one after the other. *)
Lemma all_gatherv_spec (blocks : list (list Z)) :
  all_gatherv (map (fun b => (b, View.extent b)) blocks)
              (View.alloc 0 (foldr Z.add 0 (map View.extent blocks)))
              (map View.extent blocks)
              (map (psum (map View.extent blocks)) (seq 0 (length blocks)))
  = Ok (concat blocks).
Proof.
  unfold all_gatherv.
  rewrite sum_extents. unfold View.alloc.
  replace (Z.to_nat (View.extent (concat blocks))) with (length (concat blocks))
    by (unfold View.extent; lia).
  assert (Er : range 0 (View.extent (map (fun b : list Z => (b, View.extent b)) blocks))
               = seq 0 (length blocks)).
  { unfold View.extent at 1. rewrite length_map. apply range_0_of_nat. }
  rewrite Er.
  rewrite all_gatherv_loop; [|lia|].
  - rewrite firstn_all, Nat.sub_diag. simpl. rewrite app_nil_r. reflexivity.
  - intros r Hr. rewrite list_lookup_fmap, lookup_seq_lt by lia. simpl.
    rewrite length_concat_take. reflexivity.
Qed.

End ExchangeFacts.

(** ** The chunks of all ranks *)

Section AllRanks.
Import Runs Exchange.
Variable row : list Z.
Variable n : nat.
Hypothesis Hn : (1 <= n)%nat.
Hypothesis Hrows : (n <= length row)%nat.

Let n_s := View.extent row.
Let R := Z.of_nat n.
Let start (r : nat) : Z := Partition.my_start n_s R (Z.of_nat r).
Let chunk (r : nat) : Z := Partition.my_chunk n_s R (Z.of_nat r).
Let rows_of (r : nat) : list Z := Grouping.read_rows row (start r) (chunk r).

Lemma rank_range (r : nat) :
  (r < n)%nat ->
  0 <= start r /\ 1 <= chunk r /\ start r + chunk r <= n_s
  /\ start (Datatypes.S r) = start r + chunk r.
Proof.
  intros Hr. unfold start, chunk.
  assert (Hs : 0 <= n_s) by (unfold n_s, View.extent; lia).
  assert (HR : 0 < R) by (unfold R; lia).
  assert (Hle : R <= n_s) by (unfold R, n_s, View.extent; lia).
  pose proof (Z.div_mod n_s R ltac:(lia)) as Hdm.
  pose proof (Z.mod_pos_bound n_s R HR) as Hb.
  assert (Hq : 1 <= n_s / R) by (apply Z.div_le_lower_bound; lia).
  rewrite !my_start_closed, my_chunk_closed by (unfold R; lia).
  replace (Z.of_nat (Datatypes.S r)) with (Z.of_nat r + 1) by lia.
  assert (Hr' : Z.of_nat r < R) by (unfold R; lia).
  destruct (Z.ltb_spec (Z.of_nat r) (n_s mod R)); nia.
Qed.

Lemma start_0 : start 0 = 0.
Proof.
  unfold start.
  pose proof (Z.mod_pos_bound n_s R ltac:(unfold R; lia)) as Hb.
  rewrite my_start_closed; unfold n_s, R, View.extent in *; lia.
Qed.

Lemma start_n : start n = n_s.
Proof.
  unfold start.
  assert (Hs : 0 <= n_s) by (unfold n_s, View.extent; lia).
  assert (HR : 0 < R) by (unfold R; lia).
  pose proof (Z.div_mod n_s R ltac:(lia)) as Hdm.
  pose proof (Z.mod_pos_bound n_s R HR) as Hb.
  rewrite my_start_closed by (unfold R; lia). fold R. nia.
Qed.

Lemma start_bounds (k : nat) : (k <= n)%nat -> 0 <= start k <= n_s.
Proof.
  induction k as [|k IH]; intros Hk.
  - rewrite start_0. unfold n_s, View.extent. lia.
  - destruct (rank_range k ltac:(lia)) as (H0 & H1 & H2 & H3). lia.
Qed.

Lemma rows_of_length (r : nat) :
  (r < n)%nat -> Z.of_nat (length (rows_of r)) = chunk r.
Proof.
  intros Hr. destruct (rank_range r Hr) as (H0 & H1 & H2 & _).
  unfold rows_of, Grouping.read_rows. rewrite length_take, length_drop.
  unfold n_s, View.extent in H2. lia.
Qed.

(** The rows of the ranks below [k], one rank after the other, are the
    first rows of the file. *)
Lemma rows_of_ranks (k : nat) :
  (k <= n)%nat ->
  concat (map rows_of (seq 0 k)) = take (Z.to_nat (start k)) row.
Proof.
  induction k as [|k IH]; intros Hk.
  - rewrite start_0. reflexivity.
  - destruct (rank_range k ltac:(lia)) as (H0 & H1 & H2 & H3).
    rewrite seq_S, map_app, concat_app, IH by lia. simpl. rewrite app_nil_r.
    unfold rows_of at 1, Grouping.read_rows. rewrite take_take_drop.
    f_equal. rewrite H3. lia.
Qed.

(** Steps 1 and 2 return on every rank, with triples that stand for the
    rows of the rank. *)
Lemma every_rank_groups :
  exists cs, on_every_rank R (Grouping.group_on_rank row R) = Ok cs
    /\ length cs = n
    /\ forall (r : nat) c, cs !! r = Some c ->
         Grouping.group_on_rank row R (Z.of_nat r) = Ok c
         /\ covers (Grouping.chunk_dof c) (Grouping.chunk_start c) (Grouping.chunk_len c)
                   (start r) (rows_of r)
         /\ is_min (Grouping.remap_min_dof c) (rows_of r).
Proof.
  assert (Hdef : forall r : nat, (r < n)%nat ->
            exists c, Grouping.group_on_rank row R (Z.of_nat r) = Ok c
              /\ covers (Grouping.chunk_dof c) (Grouping.chunk_start c)
                        (Grouping.chunk_len c) (start r) (rows_of r)
              /\ is_min (Grouping.remap_min_dof c) (rows_of r)).
  { intros r Hr. rewrite group_on_rank_unfold by (unfold R; lia).
    destruct (rank_range r Hr) as (H0 & H1 & H2 & _).
    destruct (group_rows_spec (rows_of r) (start r) (chunk r)) as (c & E & Hc & _ & Hm).
    - unfold View.extent. apply rows_of_length. exact Hr.
    - exact H1.
    - exists c. split; [exact E|]. split; assumption. }
  destruct (on_every_rank_spec (Grouping.group_on_rank row R) n) as (cs & E & Hlen & Hcs).
  { intros r Hr. destruct (Hdef r Hr) as (c & Ec & _). eauto. }
  exists cs. split; [exact E|]. split; [exact Hlen|].
  intros r c Hc. pose proof (Hcs r c Hc) as Ec.
  destruct (Hdef r) as (c' & Ec' & H1 & H2).
  { apply lookup_lt_Some in Hc. lia. }
  rewrite Ec in Ec'. injection Ec' as <-. split; [exact Ec|]. split; assumption.
Qed.

(** The triples of all ranks, rank after rank, stand for the rows of the
    file. *)
Lemma covers_ranks (cs : list Grouping.Chunks) (k : nat) :
  (k <= n)%nat -> (k <= length cs)%nat ->
  (forall (r : nat) c, cs !! r = Some c ->
     covers (Grouping.chunk_dof c) (Grouping.chunk_start c) (Grouping.chunk_len c)
            (start r) (rows_of r)) ->
  covers (concat (map Grouping.chunk_dof (take k cs)))
         (concat (map Grouping.chunk_start (take k cs)))
         (concat (map Grouping.chunk_len (take k cs)))
         0 (take (Z.to_nat (start k)) row).
Proof.
  intros Hk Hlen Hcs. induction k as [|k IH].
  - rewrite start_0. simpl. constructor.
  - destruct (lookup_lt_is_Some_2 cs k ltac:(lia)) as [c Ec].
    rewrite (take_S_r _ _ _ Ec), !map_app, !concat_app. simpl. rewrite !app_nil_r.
    rewrite <- rows_of_ranks, seq_S, map_app, concat_app by lia. simpl.
    rewrite app_nil_r, rows_of_ranks by lia.
    apply covers_app; [apply IH; lia|].
    pose proof (start_bounds k ltac:(lia)) as Hb.
    rewrite length_take. unfold n_s, View.extent in Hb.
    replace (0 + Z.of_nat (Z.to_nat (start k) `min` length row)) with (start k) by lia.
    apply Hcs. exact Ec.
Qed.

(** What the collectives bring together: the triples of all ranks stand for
    the rows of the file, and the least DOF of the ranks is the least row. *)
Lemma exchange_result :
  exists cs, on_every_rank R (Grouping.group_on_rank row R) = Ok cs
    /\ length cs = n
    /\ (forall r : nat, (r < n)%nat ->
          exists c, Grouping.group_on_rank row R (Z.of_nat r) = Ok c)
    /\ covers (concat (map Grouping.chunk_dof cs))
              (concat (map Grouping.chunk_start cs))
              (concat (map Grouping.chunk_len cs)) 0 row
    /\ Forall (fun c => length (Grouping.chunk_start c) = length (Grouping.chunk_dof c)
                        /\ length (Grouping.chunk_len c) = length (Grouping.chunk_dof c))
              cs
    /\ exists mn, all_reduce_min (map Grouping.remap_min_dof cs) = Ok mn
                  /\ is_min mn row.
Proof.
  destruct every_rank_groups as (cs & E & Hlen & Hcs).
  exists cs. split; [exact E|]. split; [exact Hlen|].
  assert (Hrow : take (Z.to_nat (start n)) row = row).
  { rewrite start_n. unfold n_s, View.extent. rewrite Nat2Z.id. apply firstn_all. }
  split; [|split; [|split]].
  - intros r Hr. destruct (lookup_lt_is_Some_2 cs r ltac:(lia)) as [c Ec].
    exists c. apply (Hcs r c Ec).
  - rewrite <- Hrow. rewrite <- (firstn_all cs) at 1 2 3. rewrite Hlen.
    apply covers_ranks; [lia | lia|]. intros r c Hc. apply (Hcs r c Hc).
  - apply Forall_forall. intros c Hc. apply list_elem_of_lookup in Hc.
    destruct Hc as [r Hr]. destruct (Hcs r c Hr) as (_ & Hcov & _).
    apply (covers_length _ _ _ _ _ Hcov).
  - destruct (all_reduce_min_spec (map Grouping.remap_min_dof cs)) as (mn & Emn & Hmn).
    { destruct cs; [simpl in Hlen; lia | discriminate]. }
    exists mn. split; [exact Emn|].
    rewrite <- Hrow, <- rows_of_ranks by lia.
    apply (is_min_concat (map Grouping.remap_min_dof cs)); [|exact Hmn].
    apply Forall2_same_length_lookup_2.
    + rewrite !length_map, length_seq. exact Hlen.
    + intros r mn' rows' Hmn' Hrows'.
      change (map Grouping.remap_min_dof cs) with (Grouping.remap_min_dof <$> cs) in Hmn'.
      change (map rows_of (seq 0 n)) with (rows_of <$> seq 0 n) in Hrows'.
      rewrite list_lookup_fmap in Hmn'. rewrite list_lookup_fmap in Hrows'.
      destruct (cs !! r) as [c|] eqn:Ec; [|discriminate]. injection Hmn' as <-.
      pose proof (lookup_lt_Some _ _ _ Ec) as Hr.
      rewrite lookup_seq_lt in Hrows' by lia. injection Hrows' as <-.
      apply (Hcs r c Ec).
Qed.

End AllRanks.

(** ** The chunks of this rank *)

Section SelectFacts.
Import Assemble.

Lemma selection_of_snoc (ts : list (Z * (Z * Z))) (t : Z * (Z * Z)) :
  selection_of (ts ++ [t]) = push_triple (selection_of ts) t.
Proof.
  unfold selection_of, push_triple. simpl. f_equal.
  - rewrite map_app. reflexivity.
  - rewrite length_app. simpl. rewrite Nat.add_1_r, seq_S, map_app. simpl.
    rewrite take_app_length. f_equal.
    apply map_ext_in. intros j Hj. apply in_seq in Hj.
    rewrite take_app_le by lia. reflexivity.
  - rewrite map_app. reflexivity.
  - rewrite map_app, concat_app. simpl. rewrite app_nil_r. reflexivity.
Qed.

Lemma triples_lookup (dofs starts lens : list Z) (ii : nat) d sta len :
  triples dofs starts lens !! ii = Some (d, (sta, len)) <->
  dofs !! ii = Some d /\ starts !! ii = Some sta /\ lens !! ii = Some len.
Proof.
  unfold triples. rewrite lookup_zip_with_Some. split.
  - intros (x & y & E & Hx & Hy).
    apply lookup_zip_with_Some in Hy. destruct Hy as (a & b & Ey & Ha & Hb).
    subst y. injection E as -> -> ->. auto.
  - intros (Hd & Hs & Hl). exists d, (sta, len). split; [reflexivity|].
    split; [exact Hd|]. apply lookup_zip_with_Some. exists sta, len. auto.
Qed.

Lemma triples_length (dofs starts lens : list Z) :
  length starts = length dofs -> length lens = length dofs ->
  length (triples dofs starts lens) = length dofs.
Proof. intros H1 H2. unfold triples. rewrite !length_zip_with. lia. Qed.

Section OneChunk.
Variables (buff_dof buff_sta buff_len : list Z) (min_dof : Z) (dofs_gids_h : list Z).
Variables (ii : nat) (d sta len : Z).
Hypothesis Hd : buff_dof !! ii = Some d.
Hypothesis Hs : buff_sta !! ii = Some sta.
Hypothesis Hl : buff_len !! ii = Some len.
Hypothesis Hdistinct : NoDup dofs_gids_h.

(** The loop over the local DOFs selects the chunk once when its DOF is
    among them, and not at all otherwise. *)
Lemma select_inner (sel : Selection) (k : nat) :
  (k <= length dofs_gids_h)%nat ->
  for_each (select_step buff_dof buff_sta buff_len min_dof dofs_gids_h ii)
           (seq 0 k) sel
  = Ok (if decide ((d - min_dof) ∈ take k dofs_gids_h)
        then push_triple sel (d, (sta, len)) else sel).
Proof.
  induction k as [|k IH]; intros Hk.
  - simpl. reflexivity.
  - rewrite seq_S, for_each_app, IH, bind_Ok by lia. cbn [for_each].
    destruct (lookup_lt_is_Some_2 dofs_gids_h k ltac:(lia)) as [g Eg].
    rewrite (take_S_r _ _ _ Eg). simpl "+"%nat.
    assert (Hfresh : g ∉ take k dofs_gids_h).
    { intros Hin. apply list_elem_of_lookup in Hin. destruct Hin as [j Hj].
      pose proof (lookup_lt_Some _ _ _ Hj) as Hjk. rewrite length_take in Hjk.
      rewrite lookup_take_lt in Hj by lia.
      pose proof (NoDup_lookup _ _ _ _ Hdistinct Hj Eg). lia. }
    unfold select_step at 1.
    rewrite (view_get_of_nat _ _ _ Hd), bind_Ok.
    rewrite (view_get_of_nat _ _ _ Eg), bind_Ok.
    destruct (Z.eqb_spec (d - min_dof) g) as [E|NE].
    + rewrite (view_get_of_nat _ _ _ Hl), bind_Ok.
      rewrite (view_get_of_nat _ _ _ Hs), bind_Ok. cbv zeta.
      destruct (decide ((d - min_dof) ∈ take k dofs_gids_h)) as [Hin|_];
        [rewrite E in Hin; contradiction|].
      case_decide as Hout.
      * rewrite bind_Ok. reflexivity.
      * exfalso. apply Hout. apply elem_of_app. right. rewrite E. left.
    + rewrite bind_Ok. f_equal.
      destruct (decide ((d - min_dof) ∈ take k dofs_gids_h)) as [Hin|Hout];
        case_decide as Hin'; try reflexivity.
      * exfalso. apply Hin'. apply elem_of_app. left. exact Hin.
      * exfalso. apply elem_of_app in Hin'. destruct Hin' as [Hin'|Hin'];
          [contradiction|]. apply list_elem_of_singleton in Hin'. contradiction.
Qed.

End OneChunk.

(** Step 3 selects the chunks whose DOF is a DOF of this rank, in the order
    of the buffers. *)
Lemma select_chunks_spec (buff_dof buff_sta buff_len : list Z) (min_dof : Z)
    (dofs_gids_h : list Z) :
  length buff_sta = length buff_dof -> length buff_len = length buff_dof ->
  NoDup dofs_gids_h ->
  select_chunks buff_dof buff_sta buff_len (View.extent buff_dof) min_dof dofs_gids_h
  = Ok (selection_of (chosen min_dof dofs_gids_h (triples buff_dof buff_sta buff_len))).
Proof.
  intros Hs Hl Hnd. unfold select_chunks.
  replace (range 0 (View.extent buff_dof)) with (seq 0 (length buff_dof))
    by (symmetry; apply range_0_of_nat).
  set (ts := triples buff_dof buff_sta buff_len).
  assert (Hk : forall k : nat, (k <= length buff_dof)%nat ->
            for_each (fun sel ii =>
                        for_each (select_step buff_dof buff_sta buff_len min_dof
                                              dofs_gids_h ii)
                                 (range 0 (View.extent dofs_gids_h)) sel)
                     (seq 0 k) (mkSelection [] [] [] [])
            = Ok (selection_of (chosen min_dof dofs_gids_h (take k ts)))).
  { induction k as [|k IH]; intros Hk; [reflexivity|].
    rewrite seq_S, for_each_app, IH, bind_Ok by lia. cbn [for_each].
    assert (Hlen : length ts = length buff_dof) by (apply triples_length; assumption).
    destruct (lookup_lt_is_Some_2 ts k ltac:(lia)) as [[d [sta len]] Et].
    pose proof (proj1 (triples_lookup _ _ _ _ _ _ _) Et) as (Ed & Es & El).
    unfold View.extent. rewrite range_0_of_nat. simpl "+"%nat.
    rewrite (select_inner _ _ _ _ _ _ d sta len Ed Es El Hnd) by lia.
    rewrite firstn_all, bind_Ok. f_equal.
    rewrite (take_S_r _ _ _ Et). unfold chosen. rewrite filter_app.
    rewrite filter_cons, filter_nil. simpl.
    destruct (decide ((d - min_dof) ∈ dofs_gids_h)) as [Hin|Hout].
    - rewrite selection_of_snoc. reflexivity.
    - rewrite app_nil_r. reflexivity. }
  rewrite Hk by lia. unfold ts at 1.
  rewrite <- (triples_length buff_dof buff_sta buff_len Hs Hl), firstn_all.
  reflexivity.
Qed.

End SelectFacts.

(** ** Reading the entries and building the segments *)

Section ReadFacts.
Import Assemble.
Context {A : Type}.
Implicit Types (var : list A).

Lemma grid_read_prefix var (dofs : list Z) (xs : list A) (k : nat) :
  Forall2 (fun off x => 0 <= off /\ var !! Z.to_nat off = Some x) dofs xs ->
  for_each (fun data i =>
              offset ← Vec.at_ dofs i;
              x ← View.get var offset;
              Ok (data ++ [x]))
           (seq 0 k) []
  = if decide (k <= length dofs)%nat then Ok (take k xs) else Undefined.
Proof.
  intros Hall. pose proof (Forall2_length _ _ _ Hall) as Hlen.
  induction k as [|k IH].
  - simpl. rewrite take_0. reflexivity.
  - rewrite seq_S, for_each_app, IH. simpl "+"%nat.
    destruct (decide (k <= length dofs)%nat) as [Hk|Hk].
    2:{ simpl. case_decide; [lia | reflexivity]. }
    rewrite bind_Ok. cbn [for_each].
    destruct (decide (Datatypes.S k <= length dofs)%nat) as [Hk'|Hk'].
    + destruct (lookup_lt_is_Some_2 dofs k ltac:(lia)) as [off Eoff].
      destruct (Forall2_lookup_l _ _ _ _ _ Hall Eoff) as (x & Ex & Hoff & Hx).
      unfold Vec.at_. rewrite Eoff, bind_Ok.
      rewrite (proj2 (view_get_Ok var off x) (conj Hoff Hx)), !bind_Ok.
      rewrite (take_S_r _ _ _ Ex). reflexivity.
    + unfold Vec.at_. rewrite (proj2 (lookup_ge_None dofs k)) by lia. reflexivity.
Qed.

Lemma grid_read_Forall2 var (dofs : list Z) (xs : list A) :
  Forall2 (fun off x => 0 <= off /\ var !! Z.to_nat off = Some x) dofs xs ->
  grid_read_data_array var dofs = Ok xs.
Proof.
  intros Hall. unfold grid_read_data_array, View.extent. rewrite range_0_of_nat.
  rewrite (grid_read_prefix var dofs xs _ Hall).
  case_decide; [|lia]. rewrite (Forall2_length _ _ _ Hall), firstn_all. reflexivity.
Qed.

Lemma iota_slice var (t : Z * (Z * Z)) :
  0 <= t.2.1 -> 0 <= t.2.2 -> t.2.1 + t.2.2 <= View.extent var ->
  Forall2 (fun off x => 0 <= off /\ var !! Z.to_nat off = Some x)
          (block t) (slice var t).
Proof.
  destruct t as [d [sta len]]. simpl. unfold View.extent. intros Hs Hl Hfit.
  unfold block, slice, iota. simpl.
  apply Forall2_same_length_lookup_2.
  - rewrite length_map, length_seq, length_take, length_drop. lia.
  - intros i off x Hoff Hx. rewrite list_lookup_fmap in Hoff.
    destruct (seq 0 (Z.to_nat len) !! i) as [j|] eqn:Ej; [|discriminate].
    apply lookup_seq in Ej. destruct Ej as [-> Hi]. simpl in Hoff.
    injection Hoff as <-. split; [lia|].
    rewrite lookup_take_lt, lookup_drop in Hx by lia.
    rewrite <- Hx. f_equal. lia.
Qed.

(** Reading at the offsets of the triples gives the entries that the
    triples cover, one triple after the other. *)
Lemma grid_read_blocks var (ts : list (Z * (Z * Z))) :
  Forall (fun t => 0 <= t.2.1 /\ 0 <= t.2.2 /\ t.2.1 + t.2.2 <= View.extent var) ts ->
  grid_read_data_array var (concat (map block ts)) = Ok (concat (map (slice var) ts)).
Proof.
  intros Hall. apply grid_read_Forall2.
  induction Hall as [|t ts (H1 & H2 & H3) _ IH]; simpl; [constructor|].
  apply Forall2_app; [apply iota_slice; assumption | exact IH].
Qed.

Lemma length_block (t : Z * (Z * Z)) : length (block t) = Z.to_nat t.2.2.
Proof. unfold block, iota. rewrite length_map, length_seq. reflexivity. Qed.

Lemma length_slice var (t : Z * (Z * Z)) :
  0 <= t.2.1 -> 0 <= t.2.2 -> t.2.1 + t.2.2 <= View.extent var ->
  length (slice var t) = Z.to_nat t.2.2.
Proof.
  unfold slice, View.extent. intros. rewrite length_take, length_drop. lia.
Qed.

Lemma length_concat_blocks var (ts : list (Z * (Z * Z))) :
  Forall (fun t => 0 <= t.2.1 /\ 0 <= t.2.2 /\ t.2.1 + t.2.2 <= View.extent var) ts ->
  length (concat (map (slice var) ts)) = length (concat (map block ts)).
Proof.
  induction 1 as [|t ts (H1 & H2 & H3) _ IH]; simpl; [reflexivity|].
  rewrite !length_app, IH, length_block, length_slice by assumption. reflexivity.
Qed.

End ReadFacts.

Section FillFacts.
Import Assemble.

Lemma fill_segment_loop (col : list Z) (S : list R) (min_dof : Z) (a n k : nat) :
  (a + n <= length col)%nat -> (a + n <= length S)%nat -> (k <= n)%nat ->
  for_each (fun '(source_dofs, weights) jj =>
              let idx := Z.of_nat a + Z.of_nat jj in
              c ← View.get col idx;
              source_dofs ← View.set source_dofs (Z.of_nat jj) (c - min_dof);
              s ← View.get S idx;
              weights ← View.set weights (Z.of_nat jj) s;
              Ok (source_dofs, weights))
           (seq 0 k) (replicate n 0, replicate n 0%R)
  = Ok (map (fun c => c - min_dof) (take k (drop a col)) ++ replicate (n - k) 0,
        take k (drop a S) ++ replicate (n - k) 0%R).
Proof.
  intros Hc Hs. induction k as [|k IH]; intros Hk.
  - simpl. rewrite Nat.sub_0_r. reflexivity.
  - rewrite seq_S, for_each_app, IH, bind_Ok by lia. cbn [for_each]. simpl "+"%nat.
    cbv zeta.
    destruct (lookup_lt_is_Some_2 col (a + k) ltac:(lia)) as [c Ec].
    destruct (lookup_lt_is_Some_2 S (a + k) ltac:(lia)) as [s Es].
    replace (Z.of_nat a + Z.of_nat k) with (Z.of_nat (a + k)) by lia.
    rewrite (view_get_of_nat _ _ _ Ec), bind_Ok.
    rewrite view_set_Ok.
    2:{ unfold View.extent. rewrite length_app, length_map, length_take, length_drop,
          length_replicate. lia. }
    rewrite bind_Ok, (view_get_of_nat _ _ _ Es), bind_Ok.
    rewrite view_set_Ok.
    2:{ unfold View.extent. rewrite length_app, length_take, length_drop,
          length_replicate. lia. }
    rewrite !bind_Ok, Nat2Z.id. f_equal.
    assert (Ec' : drop a col !! k = Some c) by (rewrite lookup_drop; exact Ec).
    assert (Es' : drop a S !! k = Some s) by (rewrite lookup_drop; exact Es).
    rewrite (take_S_r _ _ _ Ec'), (take_S_r _ _ _ Es'), map_app.
    replace (n - k)%nat with (Datatypes.S (n - Datatypes.S k)) by lia.
    f_equal.
    + replace k with (length (map (fun c0 : Z => (c0 - min_dof)%Z) (take k (drop a col))) + 0)%nat
        at 1 by (rewrite length_map, length_take, length_drop; lia).
      rewrite insert_app_r, <- app_assoc. reflexivity.
    + replace k with (length (take k (drop a S)) + 0)%nat
        at 1 by (rewrite length_take, length_drop; lia).
      rewrite insert_app_r, <- app_assoc. reflexivity.
Qed.

Lemma fill_segment_spec (col : list Z) (S : list R) (min_dof : Z) (a n : nat) :
  (a + n <= length col)%nat -> (a + n <= length S)%nat ->
  fill_segment col S min_dof (Z.of_nat a) (Z.of_nat n)
  = Ok (map (fun c => c - min_dof) (take n (drop a col)), take n (drop a S)).
Proof.
  intros Hc Hs. unfold fill_segment, View.alloc. rewrite range_0_of_nat, Nat2Z.id.
  pose proof (fill_segment_loop col S min_dof a n n Hc Hs ltac:(lia)) as E.
  cbv zeta in E. rewrite E.
  rewrite Nat.sub_diag. simpl. rewrite !app_nil_r. reflexivity.
Qed.

(** The block [j] of a list of blocks, cut out of their concatenation. *)
Lemma concat_block {A} (blocks : list (list A)) (j : nat) (b : list A) :
  blocks !! j = Some b ->
  take (length b) (drop (length (concat (take j blocks))) (concat blocks)) = b.
Proof.
  intros Hb. rewrite <- (take_drop_middle _ _ _ Hb) at 2.
  rewrite concat_app. simpl.
  rewrite drop_app_length, take_app_length. reflexivity.
Qed.

End FillFacts.

Section AddSegmentsFacts.
Import Assemble.

Lemma add_each_snoc (segs : list GSSegment) (seg : GSSegment) (m : GSMap) :
  add_each (segs ++ [seg]) m = m' ← add_each segs m; Map.add_remap_segment m' seg.
Proof.
  revert m. induction segs as [|s segs IH]; intros m; simpl.
  - destruct (Map.add_remap_segment m seg); reflexivity.
  - destruct (Map.add_remap_segment m s); simpl; auto.
Qed.

Variables (col : list Z) (S : list R) (min_dof : Z).
Variable ts : list (Z * (Z * Z)).
Hypothesis Hcol : Forall (in_file (View.extent col)) ts.
Hypothesis HS : Forall (in_file (View.extent S)) ts.

Let col_h := concat (map (slice col) ts).
Let S_h := concat (map (slice S) ts).

Lemma block_offset {A} (var : list A) (k : nat) :
  Forall (in_file (View.extent var)) ts ->
  length (concat (map block (take k ts)))
  = length (concat (take k (map (slice var) ts))).
Proof.
  intros Hvar. change (map (slice var) ts) with (slice var <$> ts).
  rewrite <- fmap_take. symmetry. apply length_concat_blocks.
  apply Forall_take. exact Hvar.
Qed.

(** The body of the last loop builds the segment of its triple. *)
Lemma add_segments_body (m : GSMap) (k : nat) (t : Z * (Z * Z)) :
  ts !! k = Some t ->
  (seglength ← Vec.at_ (seg_length (selection_of ts)) k;
   segstart ← Vec.at_ (seg_start (selection_of ts)) k;
   '(source_dofs, weights) ← fill_segment col_h S_h min_dof segstart seglength;
   dof ← Vec.at_ (seg_dof (selection_of ts)) k;
   seg ← Segment.make (dof - min_dof) seglength source_dofs weights;
   Map.add_remap_segment m seg)
  = Map.add_remap_segment m (segment_of col S min_dof t).
Proof.
  intros Ht. pose proof (lookup_lt_Some _ _ _ Ht) as Hk.
  rewrite Forall_forall in Hcol, HS.
  destruct (Hcol t) as (Hc1 & Hc2 & Hc3); [apply list_elem_of_lookup; eauto|].
  destruct (HS t) as (_ & _ & Hs3); [apply list_elem_of_lookup; eauto|].
  rewrite <- Forall_forall in Hcol, HS.
  unfold selection_of, Vec.at_. cbn [seg_length seg_start seg_dof].
  rewrite !list_lookup_fmap, Ht, lookup_seq_lt by exact Hk. simpl.
  unfold View.extent at 1.
  rewrite <- (Z2Nat.id t.2.2) at 1 by exact Hc2.
  assert (Ecol : map (slice col) ts !! k = Some (slice col t)).
  { change (map (slice col) ts) with (slice col <$> ts).
    rewrite list_lookup_fmap, Ht. reflexivity. }
  assert (ES : map (slice S) ts !! k = Some (slice S t)).
  { change (map (slice S) ts) with (slice S <$> ts).
    rewrite list_lookup_fmap, Ht. reflexivity. }
  assert (Lcol : length (slice col t) = Z.to_nat t.2.2) by (apply length_slice; assumption).
  assert (LS : length (slice S t) = Z.to_nat t.2.2) by (apply length_slice; lia).
  rewrite fill_segment_spec.
  - simpl. rewrite (block_offset col k Hcol) at 1.
    rewrite (block_offset S k HS).
    rewrite <- Lcol at 1. unfold col_h. rewrite (concat_block _ _ _ Ecol).
    rewrite <- LS at 1. unfold S_h. rewrite (concat_block _ _ _ ES).
    unfold Segment.make, View.deep_copy, View.alloc, View.extent.
    rewrite !length_replicate, length_map, Lcol, LS, Z.eqb_refl. simpl.
    reflexivity.
  - rewrite (block_offset col k Hcol). unfold col_h.
    pose proof (length_concat_take_le (map (slice col) ts) (Datatypes.S k)) as Hle.
    rewrite (concat_take_S _ _ _ Ecol), length_app, Lcol in Hle. exact Hle.
  - rewrite (block_offset S k HS). unfold S_h.
    pose proof (length_concat_take_le (map (slice S) ts) (Datatypes.S k)) as Hle.
    rewrite (concat_take_S _ _ _ ES), length_app, LS in Hle. exact Hle.
Qed.

(** The last loop adds the segments of the selected triples, in turn. *)
Lemma add_segments_spec (m : GSMap) :
  add_segments (selection_of ts) col_h S_h min_dof m
  = add_each (map (segment_of col S min_dof) ts) m.
Proof.
  unfold add_segments.
  replace (range 0 (View.extent (seg_dof (selection_of ts)))) with (seq 0 (length ts)).
  2:{ unfold View.extent, selection_of. simpl. rewrite length_map.
      symmetry. apply range_0_of_nat. }
  assert (Hgen : forall k : nat, (k <= length ts)%nat ->
            for_each (fun m ii =>
                        seglength ← Vec.at_ (seg_length (selection_of ts)) ii;
                        segstart ← Vec.at_ (seg_start (selection_of ts)) ii;
                        '(source_dofs, weights) ← fill_segment col_h S_h min_dof
                                                               segstart seglength;
                        dof ← Vec.at_ (seg_dof (selection_of ts)) ii;
                        seg ← Segment.make (dof - min_dof) seglength
                                           source_dofs weights;
                        Map.add_remap_segment m seg)
                     (seq 0 k) m
            = add_each (map (segment_of col S min_dof) (take k ts)) m).
  { induction k as [|k IH]; intros Hk; [reflexivity|].
    destruct (lookup_lt_is_Some_2 ts k ltac:(lia)) as [t Et].
    rewrite seq_S, for_each_app, IH by lia.
    rewrite (take_S_r _ _ _ Et), map_app. simpl map. rewrite add_each_snoc.
    destruct (add_each (map (segment_of col S min_dof) (take k ts)) m) as [m'| |];
      [|reflexivity|reflexivity].
    rewrite !bind_Ok. cbn [for_each]. simpl "+"%nat.
    rewrite (add_segments_body m' k t Et).
    destruct (Map.add_remap_segment m' (segment_of col S min_dof t)); reflexivity. }
  rewrite Hgen by lia. rewrite firstn_all. reflexivity.
Qed.

End AddSegmentsFacts.

(** ** One call of add_remap_segment after the other *)

Section AddEachFacts.

Lemma entries_of_core (l1 l2 : list GSSegment) (d : Z) :
  map seg_core l1 = map seg_core l2 -> entries_of l1 d = entries_of l2 d.
Proof.
  unfold entries_of. revert l2.
  induction l1 as [|a l1 IH]; intros [|b l2] E; try discriminate; [reflexivity|].
  change (seg_core a :: map seg_core l1 = seg_core b :: map seg_core l2) in E.
  assert (Eab : seg_core a = seg_core b) by congruence.
  assert (El : map seg_core l1 = map seg_core l2) by congruence.
  unfold seg_core in Eab. injection Eab as Ed _ Es Ew.
  rewrite !filter_cons, Ed.
  destruct (decide (m_dof b = d)); simpl; rewrite ?Es, ?Ew, (IH l2 El); reflexivity.
Qed.

Lemma dofs_of_core (l1 l2 : list GSSegment) :
  map seg_core l1 = map seg_core l2 -> map m_dof l1 = map m_dof l2.
Proof.
  intros E. apply (f_equal (map (fun c : Z * Z * list Z * list R => c.1.1.1))) in E.
  rewrite !map_map in E. exact E.
Qed.

Lemma entries_of_app (l1 l2 : list GSSegment) (d : Z) :
  entries_of (l1 ++ l2) d = entries_of l1 d ++ entries_of l2 d.
Proof. unfold entries_of. rewrite filter_app, map_app, concat_app. reflexivity. Qed.

Lemma entries_of_absent (l : list GSSegment) (d : Z) :
  d ∉ map m_dof l -> entries_of l d = [].
Proof.
  intros Hd. unfold entries_of.
  replace (filter (fun seg => m_dof seg = d) l) with (@nil GSSegment); [reflexivity|].
  symmetry. induction l as [|s l IH]; [reflexivity|].
  rewrite filter_cons. destruct (decide (m_dof s = d)) as [E|_].
  - exfalso. apply Hd. simpl. rewrite E. left.
  - apply IH. intros Hin. apply Hd. simpl. right. exact Hin.
Qed.

Lemma entries_of_singleton (seg : GSSegment) (d : Z) :
  entries_of [seg] d
  = if decide (m_dof seg = d) then zip (m_source_dofs seg) (m_weights seg) else [].
Proof.
  unfold entries_of. rewrite filter_cons, filter_nil.
  destruct (decide (m_dof seg = d)); simpl; rewrite ?app_nil_r; reflexivity.
Qed.

(** What one call does to a map whose segments are for pairwise different
    DOFs: it returns, the map stays well formed with pairwise different
    DOFs, and the entries of the segment come after those held for its
    DOF. *)
Lemma add_remap_segment_step (m : GSMap) (seg : GSSegment) :
  map_wf m -> distinct_targets m -> seg_wf seg ->
  (m_unique_set m = true ->
     local_targets m (m_map_segments m) /\ m_dof seg ∈ m_dofs_gids m) ->
  exists m', Map.add_remap_segment m seg = Ok m'
    /\ map_wf m' /\ distinct_targets m'
    /\ m_dofs_gids m' = m_dofs_gids m
    /\ m_unique_set m' = m_unique_set m
    /\ (m_unique_set m = true -> resolved m')
    /\ (forall d, d ∈ map m_dof (m_map_segments m')
                  <-> d ∈ map m_dof (m_map_segments m) \/ d = m_dof seg)
    /\ (forall d, entries_of (m_map_segments m') d
                  = entries_of (m_map_segments m) d ++ entries_of [seg] d).
Proof.
  intros Hwf Hdist Hseg Hloc.
  destruct (decide (m_dof seg ∈ map m_dof (m_map_segments m))) as [Hin|Hout].
  - (* merged with the segment held for the DOF *)
    apply list_elem_of_lookup in Hin. destruct Hin as [loc Hloc'].
    change (map m_dof (m_map_segments m)) with (m_dof <$> m_map_segments m) in Hloc'.
    rewrite list_lookup_fmap in Hloc'.
    destruct (m_map_segments m !! loc) as [seg_match|] eqn:Em; [|discriminate].
    injection Hloc' as Hd.
    assert (Hfirst : forall iseg s, iseg <> loc -> m_map_segments m !! iseg = Some s ->
                                    m_dof s <> m_dof seg).
    { intros iseg s Hne Hs E. apply Hne.
      apply (NoDup_lookup _ iseg loc (m_dof seg) Hdist);
        change (map m_dof (m_map_segments m)) with (m_dof <$> m_map_segments m);
        rewrite list_lookup_fmap.
      - rewrite Hs. simpl. congruence.
      - rewrite Em. simpl. congruence. }
    destruct (add_remap_segment_merge m seg seg_match loc Hwf Hseg Em Hd)
      as (m' & E & Hwf' & Hg & Hu & Hcore & Hres).
    { intros iseg s Hlt. apply Hfirst. lia. }
    { intros Eu. apply (Hloc Eu). }
    set (merged := mkSegment (m_dof seg) (m_length seg + m_length seg_match)
                     (m_source_dofs seg_match ++ m_source_dofs seg) []
                     (m_weights seg_match ++ m_weights seg) None).
    assert (Hcore' : map seg_core (m_map_segments m')
                     = map seg_core (<[loc := merged]> (m_map_segments m))).
    { rewrite Hcore. change (map seg_core (<[loc:=merged]> (m_map_segments m)))
        with (seg_core <$> <[loc:=merged]> (m_map_segments m)).
      rewrite list_fmap_insert. reflexivity. }
    assert (Hdofs : map m_dof (m_map_segments m') = map m_dof (m_map_segments m)).
    { rewrite (dofs_of_core _ _ Hcore').
      change (map m_dof (<[loc:=merged]> (m_map_segments m)))
        with (m_dof <$> <[loc:=merged]> (m_map_segments m)).
      rewrite list_fmap_insert. simpl. apply list_insert_id.
      rewrite list_lookup_fmap, Em. simpl. congruence. }
    exists m'. split; [exact E|]. split; [exact Hwf'|].
    split; [unfold distinct_targets; rewrite Hdofs; exact Hdist|].
    split; [exact Hg|]. split; [exact Hu|]. split; [exact Hres|]. split.
    + intros d. rewrite Hdofs. split; [auto|]. intros [H | ->]; [exact H|].
      apply list_elem_of_lookup. exists loc.
      change (map m_dof (m_map_segments m)) with (m_dof <$> m_map_segments m).
      rewrite list_lookup_fmap, Em. simpl. congruence.
    + intros d. rewrite (entries_of_core _ _ d Hcore').
      rewrite <- (take_drop_middle _ _ _ Em) at 2.
      rewrite <- (take_drop_middle _ _ _ Em) at 1.
      pose proof (lookup_lt_Some _ _ _ Em) as Hlt.
      rewrite insert_app_r_alt by (rewrite length_take; lia).
      rewrite length_take, Nat.min_l by lia.
      replace (loc - loc)%nat with 0%nat by lia. simpl.
      rewrite !entries_of_app.
      change (merged :: drop (Datatypes.S loc) (m_map_segments m))
        with ([merged] ++ drop (Datatypes.S loc) (m_map_segments m)).
      change (seg_match :: drop (Datatypes.S loc) (m_map_segments m))
        with ([seg_match] ++ drop (Datatypes.S loc) (m_map_segments m)).
      rewrite !entries_of_app, !entries_of_singleton. simpl.
      destruct Hseg as (_ & Hs1 & _ & Hs3).
      assert (Hmw : seg_wf seg_match).
      { destruct Hwf as (_ & _ & Hall). rewrite Forall_forall in Hall.
        apply Hall, list_elem_of_lookup; eauto. }
      destruct Hmw as (_ & Hm1 & _ & Hm3).
      destruct (decide (m_dof seg = d)) as [Ed|Ned].
      * rewrite decide_True by congruence.
        assert (Hrest : entries_of (drop (Datatypes.S loc) (m_map_segments m)) d = []).
        { apply entries_of_absent. intros Hin.
          apply list_elem_of_lookup in Hin. destruct Hin as [j Hj].
          change (map m_dof (drop (Datatypes.S loc) (m_map_segments m)))
            with (m_dof <$> drop (Datatypes.S loc) (m_map_segments m)) in Hj.
          rewrite list_lookup_fmap, lookup_drop in Hj.
          destruct (m_map_segments m !! (Datatypes.S loc + j)%nat) as [s|] eqn:Es;
            [|discriminate].
          injection Hj as Hj. apply (Hfirst (Datatypes.S loc + j)%nat s);
            [lia | exact Es | congruence]. }
        rewrite Hrest, !app_nil_r, <- app_assoc. f_equal.
        rewrite zip_with_app; [reflexivity|].
        unfold View.extent in Hm1, Hm3. lia.
      * rewrite decide_False by congruence. rewrite !app_nil_r. reflexivity.
  - (* appended *)
    assert (Hnone : segments_for m (m_dof seg) = []).
    { apply segments_for_nil. intros s Hs E. apply Hout.
      apply list_elem_of_lookup in Hs. destruct Hs as [i Hi].
      apply list_elem_of_lookup. exists i.
      change (map m_dof (m_map_segments m)) with (m_dof <$> m_map_segments m).
      rewrite list_lookup_fmap, Hi. simpl. congruence. }
    destruct (add_remap_segment_new m seg Hwf Hseg Hnone Hloc)
      as (m' & E & Hwf' & Hg & Hu & Hcore & Hres).
    assert (Hcore' : map seg_core (m_map_segments m')
                     = map seg_core (m_map_segments m ++ [seg])).
    { rewrite Hcore, map_app. reflexivity. }
    assert (Hdofs : map m_dof (m_map_segments m')
                    = map m_dof (m_map_segments m) ++ [m_dof seg]).
    { rewrite (dofs_of_core _ _ Hcore'), map_app. reflexivity. }
    exists m'. split; [exact E|]. split; [exact Hwf'|]. split.
    { unfold distinct_targets. rewrite Hdofs. apply NoDup_app.
      split; [exact Hdist|]. split; [|apply NoDup_singleton].
      intros x Hx Hx'. apply list_elem_of_singleton in Hx'. subst x. contradiction. }
    split; [exact Hg|]. split; [exact Hu|]. split; [exact Hres|]. split.
    + intros d. rewrite Hdofs, elem_of_app, list_elem_of_singleton. reflexivity.
    + intros d. rewrite (entries_of_core _ _ d Hcore'). apply entries_of_app.
Qed.

End AddEachFacts.

Section AddEachSpec.

Lemma add_each_spec (segs : list GSSegment) (m : GSMap) :
  map_wf m -> distinct_targets m -> Forall seg_wf segs ->
  (m_unique_set m = true ->
     local_targets m (m_map_segments m)
     /\ Forall (fun seg => m_dof seg ∈ m_dofs_gids m) segs) ->
  exists m', add_each segs m = Ok m'
    /\ map_wf m' /\ distinct_targets m'
    /\ m_dofs_gids m' = m_dofs_gids m
    /\ m_unique_set m' = m_unique_set m
    /\ (m_unique_set m = true -> segs <> [] -> resolved m')
    /\ (forall d, d ∈ map m_dof (m_map_segments m')
                  <-> d ∈ map m_dof (m_map_segments m) \/ d ∈ map m_dof segs)
    /\ (forall d, entries_of (m_map_segments m') d
                  = entries_of (m_map_segments m) d ++ entries_of segs d).
Proof.
  revert m. induction segs as [|seg segs IH]; intros m Hwf Hdist Hsegs Hloc.
  - exists m. simpl. split; [reflexivity|]. split; [exact Hwf|]. split; [exact Hdist|].
    split; [reflexivity|]. split; [reflexivity|]. split; [congruence|]. split.
    + intros d. split; [auto|]. intros [H|H]; [exact H | inversion H].
    + intros d. unfold entries_of at 3. simpl. rewrite app_nil_r. reflexivity.
  - apply Forall_cons in Hsegs. destruct Hsegs as [Hseg Hsegs].
    destruct (add_remap_segment_step m seg Hwf Hdist Hseg)
      as (m1 & E1 & Hwf1 & Hdist1 & Hg1 & Hu1 & Hres1 & Hd1 & He1).
    { intros Eu. destruct (Hloc Eu) as [Hl Hall]. split; [exact Hl|].
      apply Forall_cons in Hall. apply Hall. }
    destruct (IH m1 Hwf1 Hdist1 Hsegs) as (m' & E & Hwf' & Hdist' & Hg & Hu & Hres & Hd & He).
    { rewrite Hu1, Hg1. intros Eu. destruct (Hloc Eu) as [_ Hall].
      apply Forall_cons in Hall. split; [|apply Hall].
      intros s Hs. apply (resolved_local_targets m1 (Hres1 Eu)). exact Hs. }
    exists m'. simpl. rewrite E1. simpl. split; [exact E|]. split; [exact Hwf'|].
    split; [exact Hdist'|]. split; [congruence|]. split; [congruence|]. split.
    { intros Eu _. destruct segs as [|s segs'].
      - simpl in E. injection E as <-. apply Hres1. exact Eu.
      - apply Hres; [congruence | discriminate]. }
    split.
    + intros d. rewrite Hd, Hd1. simpl. rewrite elem_of_cons. tauto.
    + intros d. rewrite He, He1, <- app_assoc. f_equal.
      change (seg :: segs) with ([seg] ++ segs). rewrite entries_of_app. reflexivity.
Qed.

(** On a map whose segments are for pairwise different DOFs, the entries
    held for the DOF of a segment are those of that segment. *)
Lemma entries_of_unique (segs : list GSSegment) (seg : GSSegment) :
  NoDup (map m_dof segs) -> seg ∈ segs ->
  entries_of segs (m_dof seg) = zip (m_source_dofs seg) (m_weights seg).
Proof.
  intros Hnd Hin. apply list_elem_of_lookup in Hin. destruct Hin as [i Hi].
  rewrite <- (take_drop_middle _ _ _ Hi) in Hnd |- *.
  rewrite map_app in Hnd. simpl in Hnd.
  apply NoDup_app in Hnd. destruct Hnd as (_ & Hdisj & Hnd).
  apply NoDup_cons in Hnd. destruct Hnd as [Hnot _].
  change (seg :: drop (Datatypes.S i) segs) with ([seg] ++ drop (Datatypes.S i) segs).
  rewrite !entries_of_app, entries_of_singleton, decide_True by reflexivity.
  rewrite (entries_of_absent (take i segs)), (entries_of_absent (drop _ segs)).
  - rewrite app_nil_r. reflexivity.
  - exact Hnot.
  - intros Hin. apply (Hdisj _ Hin). left.
Qed.

End AddEachSpec.

(** ** From the triples to the entries of the file *)

Section CoverEntries.
Import Runs Assemble.

Lemma triples_cons d s l dofs starts lens :
  triples (d :: dofs) (s :: starts) (l :: lens) = (d, (s, l)) :: triples dofs starts lens.
Proof. reflexivity. Qed.

Lemma covers_in_file dofs starts lens first rows :
  covers dofs starts lens first rows -> 0 <= first ->
  Forall (fun t => in_file (first + Z.of_nat (length rows)) t /\ 1 <= t.2.2)
         (triples dofs starts lens).
Proof.
  induction 1 as [first|d l dofs starts lens first rows Hl _ IH]; intros Hf.
  - constructor.
  - rewrite triples_cons. rewrite length_app, length_replicate. constructor.
    + unfold in_file. simpl. lia.
    + specialize (IH ltac:(lia)). eapply Forall_impl; [exact IH|].
      intros t [(H1 & H2 & H3) H4]. unfold in_file. split; [|exact H4]. lia.
Qed.

Section Entries.
Context {A : Type}.
Variable P : Z -> Prop.
Context `{HP : forall d, Decision (P d)}.

Lemma filter_zip_replicate (n : nat) (d : Z) (Y : list A) :
  length Y = n ->
  map snd (filter (fun e : Z * A => P e.1) (zip (replicate n d) Y))
  = if decide (P d) then Y else [].
Proof.
  revert Y. induction n as [|n IH]; intros [|y Y] HY; simpl in HY; try lia.
  - simpl. destruct (decide (P d)); reflexivity.
  - simpl. rewrite filter_cons. simpl.
    specialize (IH Y ltac:(lia)).
    destruct (decide (P d)); simpl; rewrite IH; reflexivity.
Qed.

(** The entries that the triples with [P] cover are the entries of the rows
    with [P]. *)
Lemma covers_entries dofs starts lens first rows (X : list A) :
  covers dofs starts lens first rows -> 0 <= first ->
  first + Z.of_nat (length rows) <= View.extent X ->
  concat (map (slice X) (filter (fun t : Z * (Z * Z) => P t.1)
                                (triples dofs starts lens)))
  = map snd (filter (fun e : Z * A => P e.1) (zip rows (drop (Z.to_nat first) X))).
Proof.
  unfold View.extent.
  induction 1 as [first|d l dofs starts lens first rows Hl _ IH]; intros Hf Hfit.
  - reflexivity.
  - rewrite length_app, length_replicate in Hfit.
    rewrite triples_cons, filter_cons. simpl fst.
    rewrite <- (take_drop (Z.to_nat l) (drop (Z.to_nat first) X)).
    rewrite zip_with_app.
    2:{ rewrite length_replicate, length_take, length_drop. lia. }
    rewrite filter_app, map_app, filter_zip_replicate.
    2:{ rewrite length_take, length_drop. lia. }
    rewrite drop_drop.
    replace (Z.to_nat first + Z.to_nat l)%nat with (Z.to_nat (first + l)) by lia.
    rewrite <- IH by lia.
    destruct (decide (P d)); reflexivity.
Qed.

End Entries.

End CoverEntries.

(** ** Loading the segments of a remap file *)

Section RemapFileFacts.
Import Runs Exchange Assemble.

Lemma min_row_is_min (file : RemapFile) :
  file_row file <> [] -> is_min (min_row file) (file_row file).
Proof.
  unfold min_row. destruct (file_row file) as [|r rows]; [congruence|]. intros _.
  destruct (fold_min_le rows r) as (H1 & H2 & H3).
  split; [exact H3|]. intros y Hy.
  apply elem_of_cons in Hy. destruct Hy as [->|Hy]; auto.
Qed.

Lemma deep_copy_alloc {A} (zero : A) (dofs : list Z) (src : list A) :
  length src = length dofs ->
  View.deep_copy (View.alloc zero (View.extent dofs)) src = Ok src.
Proof.
  intros H. unfold View.deep_copy, View.alloc, View.extent.
  rewrite length_replicate, Nat2Z.id, H, Z.eqb_refl. reflexivity.
Qed.

Lemma gather_field (cs : list Grouping.Chunks) (field : Grouping.Chunks -> list Z) :
  Forall (fun c => length (field c) = length (Grouping.chunk_dof c)) cs ->
  all_gatherv
    (map (fun c => (field c, View.extent (Grouping.chunk_dof c))) cs)
    (View.alloc 0 (foldr Z.add 0
                     (map (fun c => View.extent (Grouping.chunk_dof c)) cs)))
    (map (fun c => View.extent (Grouping.chunk_dof c)) cs)
    (map (psum (map (fun c => View.extent (Grouping.chunk_dof c)) cs))
         (seq 0 (length cs)))
  = Ok (concat (map field cs)).
Proof.
  intros Hall.
  assert (E1 : map (fun c => (field c, View.extent (Grouping.chunk_dof c))) cs
               = map (fun b => (b, View.extent b)) (map field cs)).
  { rewrite map_map. apply map_ext_Forall. eapply Forall_impl; [exact Hall|].
    intros c Hc. simpl. unfold View.extent. rewrite Hc. reflexivity. }
  assert (E2 : map (fun c => View.extent (Grouping.chunk_dof c)) cs
               = map View.extent (map field cs)).
  { rewrite map_map. apply map_ext_Forall. eapply Forall_impl; [exact Hall|].
    intros c Hc. simpl. unfold View.extent. rewrite Hc. reflexivity. }
  rewrite E1, E2. rewrite <- (length_map field cs). apply all_gatherv_spec.
Qed.

(** With chunks that are not empty, the function comes down to the calls of
    [add_remap_segment] for the triples of this rank, which are among
    triples that stand for the rows of the file. *)
Lemma remap_file_reduces (file : RemapFile) (n : nat) (my_rank : Z) (m : GSMap) :
  (1 <= n)%nat -> (n <= length (file_row file))%nat ->
  0 <= my_rank < Z.of_nat n ->
  length (file_col file) = length (file_row file) ->
  length (file_S file) = length (file_row file) ->
  NoDup (m_dofs_gids m) ->
  exists dofs starts lens,
    covers dofs starts lens 0 (file_row file)
    /\ set_remap_segments_from_file file (Z.of_nat n) my_rank m
       = add_each (map (segment_of (file_col file) (file_S file) (min_row file))
                       (chosen (min_row file) (m_dofs_gids m)
                               (triples dofs starts lens))) m.
Proof.
  intros Hn Hrows Hrank Hcol HS Hnd.
  destruct (exchange_result (file_row file) n Hn Hrows)
    as (cs & Ecs & Hlen & Hmine & Hcov & Hlens & mn & Emn & Hmn).
  exists (concat (map Grouping.chunk_dof cs)), (concat (map Grouping.chunk_start cs)),
         (concat (map Grouping.chunk_len cs)).
  split; [exact Hcov|].
  assert (Hmin : mn = min_row file).
  { apply (is_min_unique _ _ _ Hmn). apply min_row_is_min.
    destruct (file_row file); [simpl in Hrows; lia | discriminate]. }
  subst mn.
  unfold set_remap_segments_from_file.
  destruct (Hmine (Z.to_nat my_rank) ltac:(lia)) as [mine Emine].
  rewrite Z2Nat.id in Emine by lia. rewrite Emine, bind_Ok.
  rewrite Ecs, bind_Ok. cbv zeta. rewrite Emn, bind_Ok.
  rewrite displacements_spec by (rewrite ?length_map; lia).
  rewrite bind_Ok. cbv beta iota.
  rewrite <- Hlen.
  rewrite (gather_field cs Grouping.chunk_dof) by (apply Forall_forall; reflexivity).
  rewrite bind_Ok.
  rewrite (gather_field cs Grouping.chunk_start)
    by (eapply Forall_impl; [exact Hlens | intros c Hc; apply Hc]).
  rewrite bind_Ok.
  rewrite (gather_field cs Grouping.chunk_len)
    by (eapply Forall_impl; [exact Hlens | intros c Hc; apply Hc]).
  rewrite bind_Ok.
  set (dofs := concat (map Grouping.chunk_dof cs)) in *.
  set (starts := concat (map Grouping.chunk_start cs)) in *.
  set (lens := concat (map Grouping.chunk_len cs)) in *.
  destruct (covers_length _ _ _ _ _ Hcov) as [Ls Ll].
  assert (Etot : foldr Z.add 0 (map (fun c => View.extent (Grouping.chunk_dof c)) cs)
                 = View.extent dofs).
  { unfold dofs. rewrite <- sum_extents, map_map. reflexivity. }
  rewrite Etot, (select_chunks_spec dofs starts lens _ _ Ls Ll Hnd), bind_Ok.
  set (ts := chosen (min_row file) (m_dofs_gids m) (triples dofs starts lens)).
  assert (Hin : Forall (in_file (View.extent (file_row file))) ts).
  { pose proof (covers_in_file _ _ _ _ _ Hcov ltac:(lia)) as Hall.
    apply Forall_forall. intros t Ht. unfold ts, chosen in Ht.
    apply list_elem_of_filter in Ht. destruct Ht as [_ Ht].
    rewrite Forall_forall in Hall. destruct (Hall t Ht) as [Hf _].
    unfold View.extent. rewrite Z.add_0_l in Hf. exact Hf. }
  assert (Hinc : Forall (in_file (View.extent (file_col file))) ts)
    by (unfold View.extent in *; rewrite Hcol; exact Hin).
  assert (HinS : Forall (in_file (View.extent (file_S file))) ts)
    by (unfold View.extent in *; rewrite HS; exact Hin).
  cbn [var_dof selection_of].
  rewrite (grid_read_blocks (file_col file) ts Hinc), bind_Ok.
  rewrite (grid_read_blocks (file_S file) ts HinS), bind_Ok.
  rewrite (deep_copy_alloc 0 _ (concat (map (slice (file_col file)) ts)))
    by (apply length_concat_blocks; exact Hinc).
  rewrite bind_Ok.
  rewrite (deep_copy_alloc 0%R _ (concat (map (slice (file_S file)) ts)))
    by (apply length_concat_blocks; exact HinS).
  rewrite bind_Ok.
  apply add_segments_spec; assumption.
Qed.

End RemapFileFacts.

Section RemapFileSegments.
Import Runs Exchange Assemble.

Lemma elem_of_map {A B} (f : A -> B) (l : list A) (y : B) :
  y ∈ map f l <-> exists x, y = f x /\ x ∈ l.
Proof. exact (list_elem_of_fmap f l y). Qed.

Lemma segment_of_wf (col : list Z) (S : list R) (min_dof : Z) (t : Z * (Z * Z)) :
  in_file (View.extent col) t -> in_file (View.extent S) t ->
  seg_wf (segment_of col S min_dof t).
Proof.
  intros (Hc1 & Hc2 & Hc3) (_ & _ & Hs3).
  unfold seg_wf, segment_of, View.extent, View.alloc. simpl.
  rewrite length_map, length_replicate, !length_slice by assumption. lia.
Qed.

Lemma zip_fmap_l {A B C} (f : A -> C) (l : list A) (k : list B) :
  zip (map f l) k = map (fun e => (f e.1, e.2)) (zip l k).
Proof.
  revert k. induction l as [|x l IH]; intros [|y k]; simpl; try reflexivity.
  rewrite IH. reflexivity.
Qed.

Lemma slice_zip {A B} (l : list A) (k : list B) (t : Z * (Z * Z)) :
  slice (zip l k) t = zip (slice l t) (slice k t).
Proof. unfold slice. rewrite zip_with_drop, zip_with_take. reflexivity. Qed.

(** The entries of the segments built for the triples [ts]. *)
Lemma entries_of_segments (col : list Z) (S : list R) (min_dof : Z)
    (ts : list (Z * (Z * Z))) (d : Z) :
  entries_of (map (segment_of col S min_dof) ts) d
  = map (fun e => (e.1 - min_dof, e.2))
        (concat (map (slice (zip col S))
                     (filter (fun t : Z * (Z * Z) => t.1 - min_dof = d) ts))).
Proof.
  unfold entries_of. induction ts as [|t ts IH]; [reflexivity|].
  simpl map. rewrite !filter_cons. simpl m_dof.
  destruct (decide (t.1 - min_dof = d)) as [E|NE]; [|exact IH].
  simpl. rewrite map_app, <- IH. f_equal.
  rewrite slice_zip. apply (zip_fmap_l (fun c => c - min_dof)).
Qed.

Lemma filter_chosen (min_dof : Z) (dofs_gids : list Z) (ts : list (Z * (Z * Z))) (d : Z) :
  filter (fun t : Z * (Z * Z) => t.1 - min_dof = d) (chosen min_dof dofs_gids ts)
  = if decide (d ∈ dofs_gids)
    then filter (fun t : Z * (Z * Z) => t.1 - min_dof = d) ts else [].
Proof.
  unfold chosen. induction ts as [|t ts IH].
  - destruct (decide (d ∈ dofs_gids)); reflexivity.
  - rewrite (filter_cons _ t ts).
    destruct (decide ((t.1 - min_dof) ∈ dofs_gids)) as [Hin|Hout].
    + rewrite !filter_cons, IH.
      destruct (decide (t.1 - min_dof = d)) as [E|NE].
      * rewrite E in Hin. rewrite !decide_True by exact Hin. reflexivity.
      * reflexivity.
    + rewrite IH. rewrite (filter_cons _ t ts).
      destruct (decide (t.1 - min_dof = d)) as [E|NE]; [|reflexivity].
      rewrite E in Hout. rewrite !decide_False by exact Hout. reflexivity.
Qed.

Lemma entries_of_nonempty (segs : list GSSegment) (seg : GSSegment) :
  seg ∈ segs -> zip (m_source_dofs seg) (m_weights seg) <> [] ->
  entries_of segs (m_dof seg) <> [].
Proof.
  intros Hin Hne. apply list_elem_of_lookup in Hin. destruct Hin as [i Hi].
  rewrite <- (take_drop_middle _ _ _ Hi).
  change (seg :: drop (Datatypes.S i) segs) with ([seg] ++ drop (Datatypes.S i) segs).
  rewrite !entries_of_app, entries_of_singleton, decide_True by reflexivity.
  intros E. apply app_eq_nil in E. destruct E as [_ E].
  apply app_eq_nil in E. destruct E as [E _]. contradiction.
Qed.

(** What the loaded map holds, DOF by DOF. *)
Lemma remap_file_entries (file : RemapFile) (n : nat) (my_rank : Z) (m : GSMap) :
  (1 <= n)%nat -> (n <= length (file_row file))%nat ->
  0 <= my_rank < Z.of_nat n ->
  length (file_col file) = length (file_row file) ->
  length (file_S file) = length (file_row file) ->
  map_wf m -> m_map_segments m = [] -> NoDup (m_dofs_gids m) ->
  exists m', set_remap_segments_from_file file (Z.of_nat n) my_rank m = Ok m'
    /\ map_wf m' /\ distinct_targets m'
    /\ m_dofs_gids m' = m_dofs_gids m
    /\ m_unique_set m' = m_unique_set m
    /\ (forall d, d ∈ map m_dof (m_map_segments m') ->
                  d ∈ m_dofs_gids m
                  /\ entries_of (m_map_segments m') d <> [])
    /\ (forall d, entries_of (m_map_segments m') d
                  = if decide (d ∈ m_dofs_gids m)
                    then entries_for file (min_row file) d else []).
Proof.
  intros Hn Hrows Hrank Hcol HS Hwf Hempty Hnd.
  destruct (remap_file_reduces file n my_rank m Hn Hrows Hrank Hcol HS Hnd)
    as (dofs & starts & lens & Hcov & E).
  set (ts := chosen (min_row file) (m_dofs_gids m) (triples dofs starts lens)) in *.
  pose proof (covers_in_file _ _ _ _ _ Hcov ltac:(lia)) as Hall.
  rewrite Z.add_0_l in Hall.
  assert (Hts : forall t, t ∈ ts ->
            in_file (View.extent (file_row file)) t /\ 1 <= t.2.2
            /\ (t.1 - min_row file) ∈ m_dofs_gids m).
  { intros t Ht. unfold ts, chosen in Ht. apply list_elem_of_filter in Ht.
    destruct Ht as [Hg Ht]. rewrite Forall_forall in Hall.
    destruct (Hall t Ht) as [H1 H2]. auto. }
  assert (Hwfs : Forall seg_wf
                   (map (segment_of (file_col file) (file_S file) (min_row file)) ts)).
  { apply Forall_forall. intros seg Hseg. apply elem_of_map in Hseg.
    destruct Hseg as (t & -> & Ht).
    destruct (Hts t Ht) as (Hf & _ & _).
    apply segment_of_wf; unfold View.extent in *; rewrite ?Hcol, ?HS; exact Hf. }
  destruct (add_each_spec
              (map (segment_of (file_col file) (file_S file) (min_row file)) ts)
              m Hwf)
    as (m' & E' & Hwf' & Hdist' & Hg & Hu & _ & Hd & He); [| exact Hwfs | |].
  { unfold distinct_targets. rewrite Hempty. constructor. }
  { intros _. split; [rewrite Hempty; intros s Hs; inversion Hs|].
    apply Forall_forall. intros seg Hseg. apply elem_of_map in Hseg.
    destruct Hseg as (t & -> & Ht).
    apply (Hts t Ht). }
  rewrite Hempty in Hd, He.
  exists m'. rewrite E. split; [exact E'|]. split; [exact Hwf'|].
  split; [exact Hdist'|]. split; [exact Hg|]. split; [exact Hu|].
  split.
  - intros d Hin. apply Hd in Hin. destruct Hin as [Hin|Hin]; [inversion Hin|].
    apply elem_of_map in Hin. destruct Hin as (seg & -> & Hseg).
    pose proof Hseg as Hseg'. apply elem_of_map in Hseg'.
    destruct Hseg' as (t & -> & Ht).
    destruct (Hts t Ht) as ((Hf1 & Hf2 & Hf3) & Hlen & Hloc).
    split; [exact Hloc|]. rewrite He. simpl.
    apply (entries_of_nonempty _ (segment_of (file_col file) (file_S file)
                                             (min_row file) t)).
    + exact Hseg.
    + simpl. intros Hnil. apply (f_equal length) in Hnil.
      rewrite length_zip_with, length_map, !length_slice in Hnil
        by (unfold View.extent in *; rewrite ?Hcol, ?HS; assumption).
      simpl in Hnil. lia.
  - intros d. rewrite He. simpl. rewrite entries_of_segments.
    unfold ts. rewrite filter_chosen.
    destruct (decide (d ∈ m_dofs_gids m)); [|reflexivity].
    pose proof (covers_entries (fun x => x - min_row file = d) dofs starts lens 0
                  (file_row file) (zip (file_col file) (file_S file)) Hcov
                  ltac:(lia)) as Hce.
    cbv beta in Hce. rewrite Hce.
    + unfold entries_for, file_entries. rewrite map_map. reflexivity.
    + unfold View.extent. rewrite length_zip_with. lia.
Qed.

End RemapFileSegments.

(** ** The triples of a chunk, spelt out *)

Section RunsExplicit.
Import Runs.

Lemma covers_explicit dofs starts lens first rows :
  covers dofs starts lens first rows ->
  concat (zip_with (fun d l => replicate (Z.to_nat l) d) dofs lens) = rows
  /\ Forall (fun l => 1 <= l) lens
  /\ forall (j : nat) s, starts !! j = Some s ->
       s = first + foldr Z.add 0 (take j lens).
Proof.
  induction 1 as [first|d l dofs starts lens first rows Hl _ (IH1 & IH2 & IH3)].
  - split; [reflexivity|]. split; [constructor|]. intros j s [=].
  - split; [simpl; rewrite IH1; reflexivity|]. split; [constructor; assumption|].
    intros [|j] s Hs; simpl in Hs.
    + injection Hs as <-. simpl. lia.
    + rewrite (IH3 j s Hs). simpl. lia.
Qed.

End RunsExplicit.

(** X1: on a chunk of [my_chunk >= 1] rows, step 2 of
    [set_remap_segments_from_file] returns as many DOFs as starts as
    lengths; repeating every DOF as often as its length gives back the rows
    of the chunk; every length is at least 1; the first triple starts at
    [my_start] and every other one where the one before it ends; two triples
    that follow one another are for different DOFs; and [remap_min_dof] is
    the least row of the chunk. *)
Theorem group_rows_runs (rows : list Z) (my_start my_chunk : Z) :
  View.extent rows = my_chunk -> 1 <= my_chunk ->
  exists c, Grouping.group_rows rows my_start my_chunk = Ok c
    /\ length (Grouping.chunk_start c) = length (Grouping.chunk_dof c)
    /\ length (Grouping.chunk_len c) = length (Grouping.chunk_dof c)
    /\ concat (zip_with (fun d l => replicate (Z.to_nat l) d)
                        (Grouping.chunk_dof c) (Grouping.chunk_len c)) = rows
    /\ Forall (fun l => 1 <= l) (Grouping.chunk_len c)
    /\ (forall (j : nat) s, Grouping.chunk_start c !! j = Some s ->
          s = my_start + foldr Z.add 0 (take j (Grouping.chunk_len c)))
    /\ Runs.adjacent_differ (Grouping.chunk_dof c)
    /\ Runs.is_min (Grouping.remap_min_dof c) rows.
Proof.
  intros Hext Hchunk.
  destruct (group_rows_spec rows my_start my_chunk Hext Hchunk)
    as (c & E & Hcov & Had & Hmin).
  exists c. split; [exact E|].
  destruct (covers_length _ _ _ _ _ Hcov) as [Hs Hl].
  destruct (covers_explicit _ _ _ _ _ Hcov) as (Hrows & Hpos & Hstart).
  split; [exact Hs|]. split; [exact Hl|]. split; [exact Hrows|].
  split; [exact Hpos|]. split; [exact Hstart|]. split; [exact Had | exact Hmin].
Qed.

Lemma group_rows_runs_witness :
  View.extent [7; 7; 5; 7] = 4 /\ 1 <= 4
  /\ exists c, Grouping.group_rows [7; 7; 5; 7] 10 4 = Ok c
       /\ Grouping.chunk_dof c = [7; 5; 7]
       /\ Grouping.chunk_start c = [10; 12; 13]
       /\ Grouping.chunk_len c = [2; 1; 1]
       /\ Runs.is_min (Grouping.remap_min_dof c) [7; 7; 5; 7].
Proof.
  split; [reflexivity|]. split; [lia|].
  destruct (group_rows_runs [7; 7; 5; 7] 10 4 eq_refl ltac:(lia))
    as (c & E & _ & _ & _ & _ & _ & _ & Hmin).
  exists c. split; [exact E|].
  assert (E' : Grouping.group_rows [7; 7; 5; 7] 10 4
               = Ok (Grouping.mkChunks [7; 5; 7] [10; 12; 13] [2; 1; 1] 5))
    by reflexivity.
  rewrite E' in E. injection E as <-. simpl.
  split; [reflexivity|]. split; [reflexivity|]. split; [reflexivity|]. exact Hmin.
Defined.

(** X2: for [num_ranks >= 1] ranks, the displacement of every rank is the
    number of chunks of the ranks before it and [total_num_chunks] is the
    number of chunks of all ranks; with these displacements the gather packs
    the vectors of the ranks one after the other, rank by rank, without a gap
    and without an overlap. *)
Theorem gather_packs_ranks (blocks : list (list Z)) :
  blocks <> [] ->
  let counts := map View.extent blocks in
  exists displs total,
    Exchange.displacements counts (View.extent blocks) = Ok (displs, total)
    /\ total = View.extent (concat blocks)
    /\ (forall (r : nat) b, blocks !! r = Some b ->
          displs !! r = Some (View.extent (concat (take r blocks))))
    /\ Exchange.all_gatherv (map (fun b => (b, View.extent b)) blocks)
                            (View.alloc 0 total) counts displs
       = Ok (concat blocks).
Proof.
  intros Hne counts.
  assert (Hn : (1 <= length blocks)%nat).
  { destruct blocks; [congruence | simpl; lia]. }
  exists (map (Exchange.psum counts) (seq 0 (length blocks))), (foldr Z.add 0 counts).
  split.
  - unfold View.extent at 1. apply displacements_spec; [|exact Hn].
    unfold counts. apply length_map.
  - split; [apply sum_extents|]. split.
    + intros r b Hb. pose proof (lookup_lt_Some _ _ _ Hb) as Hr.
      rewrite list_lookup_fmap, lookup_seq_lt by exact Hr. simpl.
      unfold counts. rewrite <- length_concat_take. reflexivity.
    + apply all_gatherv_spec.
Qed.

Lemma gather_packs_ranks_witness :
  [[4; 5]; [6]; [7; 8; 9]] <> []
  /\ exists displs total,
       Exchange.displacements [2; 1; 3] 3 = Ok (displs, total)
       /\ total = 6
       /\ Exchange.all_gatherv [([4; 5], 2); ([6], 1); ([7; 8; 9], 3)]
                               (View.alloc 0 total) [2; 1; 3] displs
          = Ok [4; 5; 6; 7; 8; 9].
Proof.
  split; [discriminate|].
  destruct (gather_packs_ranks [[4; 5]; [6]; [7; 8; 9]] ltac:(discriminate))
    as (displs & total & E & Et & _ & Eg).
  exists displs, total. split; [exact E|]. split; [exact Et | exact Eg].
Defined.

(** X3: when the local DOFs are pairwise different, step 3 selects exactly
    the chunks whose zero-based DOF is a local DOF, once each and in the
    order of the buffers; [var_dof] lists the file offsets of their entries,
    chunk after chunk, and [seg_start] holds for every selected chunk the
    place of its first entry in [var_dof]. *)
Theorem select_chunks_selects (buff_dof buff_sta buff_len : list Z) (min_dof : Z)
    (dofs_gids_h : list Z) :
  length buff_sta = length buff_dof -> length buff_len = length buff_dof ->
  NoDup dofs_gids_h ->
  let ts := Assemble.chosen min_dof dofs_gids_h
              (Assemble.triples buff_dof buff_sta buff_len) in
  exists sel,
    Assemble.select_chunks buff_dof buff_sta buff_len (View.extent buff_dof)
                           min_dof dofs_gids_h = Ok sel
    /\ Assemble.seg_dof sel = map fst ts
    /\ Assemble.seg_length sel = map (fun t => t.2.2) ts
    /\ Assemble.var_dof sel = concat (map Assemble.block ts)
    /\ length (Assemble.seg_start sel) = length ts
    /\ (forall (j : nat) s, Assemble.seg_start sel !! j = Some s ->
          s = View.extent (concat (map Assemble.block (take j ts))))
    /\ Forall (fun d => (d - min_dof) ∈ dofs_gids_h) (Assemble.seg_dof sel).
Proof.
  intros Hs Hl Hnd ts. eexists. split; [apply select_chunks_spec; assumption|].
  fold ts. unfold Assemble.selection_of. simpl.
  split; [reflexivity|]. split; [reflexivity|]. split; [reflexivity|].
  split; [rewrite length_map, length_seq; reflexivity|]. split.
  - intros j s Hj. rewrite list_lookup_fmap in Hj.
    destruct (seq 0 (length ts) !! j) as [j'|] eqn:Ej; [|discriminate].
    apply lookup_seq in Ej. destruct Ej as [-> _]. injection Hj as <-. reflexivity.
  - apply Forall_forall. intros d Hd. apply elem_of_map in Hd.
    destruct Hd as (t & -> & Ht). unfold ts, Assemble.chosen in Ht.
    apply list_elem_of_filter in Ht. apply Ht.
Qed.

Lemma select_chunks_selects_witness :
  length [0; 2; 3] = length [5; 6; 7] /\ length [2; 1; 2] = length [5; 6; 7]
  /\ NoDup [0; 2]
  /\ exists sel,
       Assemble.select_chunks [5; 6; 7] [0; 2; 3] [2; 1; 2] 3 5 [0; 2] = Ok sel
       /\ Assemble.seg_dof sel = [5; 7]
       /\ Assemble.var_dof sel = [0; 1; 3; 4].
Proof.
  assert (Hnd : NoDup [0; 2]).
  { refine (bool_decide_unpack _ _). vm_compute. exact I. }
  split; [reflexivity|]. split; [reflexivity|]. split; [exact Hnd|].
  destruct (select_chunks_selects [5; 6; 7] [0; 2; 3] [2; 1; 2] 5 [0; 2]
              eq_refl eq_refl Hnd) as (sel & E & Hd & _ & Hv & _).
  exists sel. split; [exact E|]. split; [exact Hd | exact Hv].
Defined.

(** X4: starting from a well-formed map whose segments are for pairwise
    different DOFs (for one that is resolved: whose segments and the new ones
    are for local DOFs), any number of calls of [add_remap_segment] with
    well-formed segments return; the map stays well formed, its segments are
    for pairwise different DOFs, a resolved map is resolved again, and every
    segment of the map holds the source DOFs and weights that were held for
    its DOF before, followed by those of the added segments for that DOF in
    the order of the calls. *)
Theorem add_remap_segment_calls (segs : list GSSegment) (m : GSMap) :
  map_wf m -> distinct_targets m -> Forall seg_wf segs ->
  (m_unique_set m = true ->
     local_targets m (m_map_segments m)
     /\ Forall (fun seg => m_dof seg ∈ m_dofs_gids m) segs) ->
  exists m', add_each segs m = Ok m'
    /\ map_wf m' /\ distinct_targets m'
    /\ (m_unique_set m = true -> segs <> [] -> resolved m')
    /\ (forall seg, seg ∈ m_map_segments m' ->
          (m_dof seg ∈ map m_dof (m_map_segments m) \/ m_dof seg ∈ map m_dof segs)
          /\ zip (m_source_dofs seg) (m_weights seg)
             = entries_of (m_map_segments m) (m_dof seg)
               ++ entries_of segs (m_dof seg))
    /\ (forall seg, seg ∈ m_map_segments m ++ segs ->
          exists seg', seg' ∈ m_map_segments m' /\ m_dof seg' = m_dof seg).
Proof.
  intros Hwf Hdist Hsegs Hloc.
  destruct (add_each_spec segs m Hwf Hdist Hsegs Hloc)
    as (m' & E & Hwf' & Hdist' & _ & _ & Hres & Hd & He).
  exists m'. split; [exact E|]. split; [exact Hwf'|]. split; [exact Hdist'|].
  split; [exact Hres|]. split.
  - intros seg Hseg. split.
    + apply Hd. apply elem_of_map. eauto.
    + rewrite <- He. symmetry. apply entries_of_unique; assumption.
  - intros seg Hseg.
    assert (Hin : m_dof seg ∈ map m_dof (m_map_segments m')).
    { apply Hd. apply elem_of_app in Hseg.
      destruct Hseg as [H|H]; [left | right]; apply elem_of_map; eauto. }
    apply elem_of_map in Hin. destruct Hin as (seg' & E' & Hseg'). eauto.
Qed.

Lemma add_remap_segment_calls_witness :
  exists m', add_each [mkSegment 3 1 [7] [0] [0.5%R] None;
                       mkSegment 4 1 [8] [0] [1%R] None;
                       mkSegment 3 1 [5] [0] [0.5%R] None] Map.new = Ok m'
    /\ map seg_core (m_map_segments m')
       = [(3, 2, [7; 5], [0.5%R; 0.5%R]); (4, 1, [8], [1%R])].
Proof.
  assert (Hwf : map_wf Map.new).
  { unfold map_wf, Map.new. simpl. repeat split. constructor. }
  assert (Hsegs : Forall seg_wf [mkSegment 3 1 [7] [0] [0.5%R] None;
                                 mkSegment 4 1 [8] [0] [1%R] None;
                                 mkSegment 3 1 [5] [0] [0.5%R] None]).
  { repeat (constructor; [unfold seg_wf, View.extent; simpl; lia|]). constructor. }
  destruct (add_remap_segment_calls _ Map.new Hwf ltac:(constructor) Hsegs
              ltac:(discriminate)) as (m' & E & _).
  exists m'. split; [exact E|].
  assert (E' : add_each [mkSegment 3 1 [7] [0] [0.5%R] None;
                         mkSegment 4 1 [8] [0] [1%R] None;
                         mkSegment 3 1 [5] [0] [0.5%R] None] Map.new
               = Ok (mkMap false [] 0
                       [mkSegment 3 2 [7; 5] [0; 0] [0.5%R; 0.5%R] None;
                        mkSegment 4 1 [8] [0] [1%R] None] 2 [] false))
    by reflexivity.
  rewrite E' in E. injection E as <-. reflexivity.
Defined.

(** X5: for a remap file of [n_s] entries read by [1 <= num_ranks <= n_s]
    ranks into a well-formed map without segments whose local DOFs are
    pairwise different, [set_remap_segments_from_file] returns; the map then
    holds one segment for every local DOF that is the zero-based row of some
    entry of the file, and no other segment; the source DOFs and weights of
    that segment are the zero-based [col] and the [S] of all entries of the
    file with this row, in the order of the file, whether or not these
    entries are next to one another and however the rows are distributed over
    the ranks. *)
Theorem remap_file_segments (file : RemapFile) (num_ranks my_rank : Z) (m : GSMap) :
  let n_s := View.extent (file_row file) in
  View.extent (file_col file) = n_s -> View.extent (file_S file) = n_s ->
  1 <= num_ranks <= n_s -> 0 <= my_rank < num_ranks ->
  map_wf m -> m_map_segments m = [] -> NoDup (m_dofs_gids m) ->
  exists m', set_remap_segments_from_file file num_ranks my_rank m = Ok m'
    /\ map_wf m' /\ distinct_targets m'
    /\ m_dofs_gids m' = m_dofs_gids m
    /\ (forall seg, seg ∈ m_map_segments m' ->
          m_dof seg ∈ m_dofs_gids m
          /\ 1 <= m_length seg
          /\ zip (m_source_dofs seg) (m_weights seg)
             = entries_for file (min_row file) (m_dof seg))
    /\ (forall d, d ∈ m_dofs_gids m -> entries_for file (min_row file) d <> [] ->
          exists seg, seg ∈ m_map_segments m' /\ m_dof seg = d).
Proof.
  intros n_s Hcol HS Hranks Hrank Hwf Hempty Hnd.
  unfold n_s, View.extent in Hcol, HS, Hranks.
  destruct (remap_file_entries file (Z.to_nat num_ranks) my_rank m)
    as (m' & E & Hwf' & Hdist' & Hg & _ & Hd & He); try assumption; try lia.
  rewrite Z2Nat.id in E by lia.
  exists m'. split; [exact E|]. split; [exact Hwf'|]. split; [exact Hdist'|].
  split; [exact Hg|]. split.
  - intros seg Hseg.
    assert (Hin : m_dof seg ∈ map m_dof (m_map_segments m'))
      by (apply elem_of_map; eauto).
    destruct (Hd _ Hin) as [Hloc Hne].
    pose proof (entries_of_unique _ seg Hdist' Hseg) as Hzip.
    split; [exact Hloc|]. split.
    + destruct Hwf' as (_ & _ & Hall). rewrite Forall_forall in Hall.
      destruct (Hall seg Hseg) as (H0 & H1 & _ & H3).
      rewrite Hzip in Hne. destruct (m_source_dofs seg) as [|x xs] eqn:Ex.
      * exfalso. apply Hne. reflexivity.
      * unfold View.extent in H1. simpl in H1. lia.
    + rewrite <- Hzip, He. rewrite decide_True by exact Hloc. reflexivity.
  - intros d Hloc Hne.
    assert (Hin : d ∈ map m_dof (m_map_segments m')).
    { destruct (decide (d ∈ map m_dof (m_map_segments m'))) as [H|H]; [exact H|].
      exfalso. apply Hne. rewrite <- (decide_True (P := d ∈ m_dofs_gids m)
        (entries_for file (min_row file) d) [] Hloc).
      rewrite <- He. apply entries_of_absent. exact H. }
    apply elem_of_map in Hin. destruct Hin as (seg & -> & Hseg). eauto.
Qed.

Lemma remap_file_segments_witness :
  exists m',
    set_remap_segments_from_file example_file 2 1 (mkMap true [0; 2] 2 [] 0 [] false)
    = Ok m'
    /\ map (fun seg => (m_dof seg, m_source_dofs seg)) (m_map_segments m')
       = [(0, [6; 7; 11]); (2, [9; 10])].
Proof.
  assert (Hwf : map_wf (mkMap true [0; 2] 2 [] 0 [] false)).
  { unfold map_wf. simpl. repeat split. constructor. }
  assert (Hnd : NoDup [0; 2]).
  { refine (bool_decide_unpack _ _). vm_compute. exact I. }
  destruct (remap_file_segments example_file 2 1 (mkMap true [0; 2] 2 [] 0 [] false)
              eq_refl eq_refl ltac:(unfold View.extent, example_file; simpl; lia)
              ltac:(lia) Hwf eq_refl Hnd)
    as (m' & E & _).
  exists m'. split; [exact E|].
  assert (E' : match set_remap_segments_from_file example_file 2 1
                       (mkMap true [0; 2] 2 [] 0 [] false) with
               | Ok m'' => map (fun seg => (m_dof seg, m_source_dofs seg))
                               (m_map_segments m'')
               | _ => []
               end = [(0, [6; 7; 11]); (2, [9; 10])]) by reflexivity.
  rewrite E in E'. exact E'.
Defined.

(** ** Resolving a map twice *)

Section ResolveTwice.

Lemma first_position_unique (dofs : list Z) (d : Z) (k1 k2 : nat) :
  dofs !! k1 = Some d -> (forall j : nat, (j < k1)%nat -> dofs !! j <> Some d) ->
  dofs !! k2 = Some d -> (forall j : nat, (j < k2)%nat -> dofs !! j <> Some d) ->
  k1 = k2.
Proof.
  intros H1 F1 H2 F2.
  destruct (Nat.lt_trichotomy k1 k2) as [H|[H|H]]; [|exact H|].
  - exfalso. exact (F2 k1 H H1).
  - exfalso. exact (F1 k2 H H2).
Qed.

Lemma sort_same_elements (u1 u2 : list Z) :
  NoDup u1 -> NoDup u2 -> (forall x, x ∈ u1 <-> x ∈ u2) -> Vec.sort u1 = Vec.sort u2.
Proof.
  intros H1 H2 Hel. unfold Vec.sort.
  apply (Sorted_unique Z.le).
  - apply (Sorted_merge_sort Z.le).
  - apply (Sorted_merge_sort Z.le).
  - etransitivity; [apply merge_sort_Permutation|].
    etransitivity; [|symmetry; apply merge_sort_Permutation].
    apply NoDup_Permutation; assumption.
Qed.

Lemma returns_local (m : GSMap) (m' : GSMap) :
  map_wf m -> Map.set_unique_source_dofs m = Ok m' ->
  local_targets m (m_map_segments m).
Proof.
  intros Hwf E seg Hseg.
  destruct (decide (m_dof seg ∈ m_dofs_gids m)) as [H|H]; [exact H|].
  destruct (set_unique_source_dofs_spec m Hwf) as [Hfatal _].
  rewrite Hfatal in E by eauto. discriminate.
Qed.

End ResolveTwice.

(** X6: [set_unique_source_dofs] is idempotent: on a well-formed map on which
    it returns, a second call returns the very same map (the same unique
    list, and for every segment the same [dof_idx] and the same
    [source_idx]). *)
Theorem set_unique_source_dofs_idempotent (m m' : GSMap) :
  map_wf m -> Map.set_unique_source_dofs m = Ok m' ->
  Map.set_unique_source_dofs m' = Ok m'.
Proof.
  intros Hwf E.
  pose proof (returns_local m m' Hwf E) as Hloc.
  destruct (set_unique_source_dofs_spec m Hwf) as [_ Hok].
  destruct (Hok Hloc) as (segs' & u & E1 & Hnd & Hu & Hlen & Hsegs).
  rewrite E in E1. injection E1 as ->.
  destruct Hwf as (Hns & Hnds & Hall).
  set (m1 := mkMap (m_dofs_set m) (m_dofs_gids m) (m_num_dofs m) segs'
                   (m_num_segments m) (Vec.sort u) true).
  assert (Hshape : forall iseg seg', segs' !! iseg = Some seg' ->
            exists seg (k : nat), m_map_segments m !! iseg = Some seg
              /\ m_dofs_gids m !! k = Some (m_dof seg)
              /\ (forall j : nat, (j < k)%nat -> m_dofs_gids m !! j <> Some (m_dof seg))
              /\ seg' = mkSegment (m_dof seg) (m_length seg) (m_source_dofs seg)
                          (map (Vec.find_pos (Vec.sort u)) (m_source_dofs seg))
                          (m_weights seg) (Some (Z.of_nat k))).
  { intros iseg seg' Hs'. pose proof (lookup_lt_Some _ _ _ Hs') as Hlt.
    destruct (lookup_lt_is_Some_2 (m_map_segments m) iseg ltac:(lia)) as [seg Hs].
    destruct (Hsegs iseg seg Hs) as (k & Hk & Hfirst & Es).
    exists seg, k. rewrite Es in Hs'. injection Hs' as <-. auto. }
  assert (Hwf1 : map_wf m1).
  { unfold map_wf, m1. simpl. split; [unfold View.extent in *; lia|].
    split; [exact Hnds|]. apply Forall_forall. intros seg' Hin.
    apply list_elem_of_lookup in Hin. destruct Hin as [iseg Hs'].
    destruct (Hshape iseg seg' Hs') as (seg & k & Hs & _ & _ & ->).
    rewrite Forall_forall in Hall.
    destruct (Hall seg) as (H0 & H1 & H2 & H3); [apply list_elem_of_lookup; eauto|].
    unfold seg_wf, View.extent in *. simpl. rewrite length_map. lia. }
  assert (Hloc1 : local_targets m1 (m_map_segments m1)).
  { intros seg' Hin. unfold m1 in *. simpl in *.
    apply list_elem_of_lookup in Hin. destruct Hin as [iseg Hs'].
    destruct (Hshape iseg seg' Hs') as (seg & k & Hs & Hk & _ & ->). simpl.
    apply list_elem_of_lookup. eauto. }
  destruct (set_unique_source_dofs_spec m1 Hwf1) as [_ Hok1].
  destruct (Hok1 Hloc1) as (segs'' & u2 & E2 & Hnd2 & Hu2 & Hlen2 & Hsegs2).
  fold m1. rewrite E2. unfold m1 in *. simpl in *.
  assert (Eu : Vec.sort u2 = Vec.sort u).
  { apply sort_same_elements; [exact Hnd2 | exact Hnd|].
    intros x. rewrite Hu2, Hu. split.
    - intros (seg' & Hin & Hx). apply list_elem_of_lookup in Hin.
      destruct Hin as [iseg Hs'].
      destruct (Hshape iseg seg' Hs') as (seg & k & Hs & _ & _ & ->). simpl in Hx.
      exists seg. split; [apply list_elem_of_lookup; eauto | exact Hx].
    - intros (seg & Hin & Hx). apply list_elem_of_lookup in Hin.
      destruct Hin as [iseg Hs].
      destruct (Hsegs iseg seg Hs) as (k & _ & _ & Es).
      eexists. split; [apply list_elem_of_lookup; eauto | exact Hx]. }
  rewrite Eu. do 2 f_equal.
  apply (list_eq_same_length _ _ (length segs')); [lia | lia |].
  intros i x y Hi Hx Hy.
  destruct (Hshape i y Hy) as (seg & k & Hs & Hk & Hfirst & Ey).
  destruct (Hsegs2 i y Hy) as (k2 & Hk2 & Hfirst2 & Ex).
  rewrite Ex in Hx. injection Hx as <-. rewrite Eu. subst y. simpl in *.
  rewrite (first_position_unique _ _ _ _ Hk2 Hfirst2 Hk Hfirst). reflexivity.
Qed.

Lemma set_unique_source_dofs_idempotent_witness :
  map_wf example_unresolved
  /\ Map.set_unique_source_dofs example_unresolved = Ok example_map
  /\ Map.set_unique_source_dofs example_map = Ok example_map.
Proof.
  assert (Hwf : map_wf example_unresolved).
  { unfold map_wf, example_unresolved. simpl. repeat split.
    constructor; [unfold seg_wf, View.extent; simpl; lia | constructor]. }
  split; [exact Hwf|]. split; [reflexivity|].
  apply (set_unique_source_dofs_idempotent example_unresolved example_map Hwf).
  reflexivity.
Defined.

(** ** The remap as a weighted sum over source DOFs *)

Section ApplyKeyed.

(** [apply_remap] on views that the host can reach. *)
Lemma apply_remap_on_host (m : GSMap) (source_data remapped_data : list R) :
  map_wf m -> resolved m -> distinct_targets m ->
  buffers_fit m source_data remapped_data ->
  writes_only_targets View.HostSpace m source_data remapped_data.
Proof.
  intros (Hns & Hnd & Hwf) Hres Hdist [Hsrc Htgt].
  pose proof Hres as (_ & _ & _ & Hsegs).
  assert (Hloop : exists h,
            for_each (fun h iseg =>
                        seg ← Vec.at_ (m_map_segments m) iseg;
                        seg_dof_idx ← Segment.get_dof_idx seg;
                        _ ← View.get h seg_dof_idx;
                        v ← Segment.apply_segment View.HostSpace seg source_data;
                        View.set h seg_dof_idx v)
                     (seq 0 (length (m_map_segments m))) remapped_data = Ok h
            /\ length h = length remapped_data
            /\ (forall seg, seg ∈ m_map_segments m ->
                  exists k : nat, m_dof_idx seg = Some (Z.of_nat k)
                                  /\ h !! k = Some (weighted_sum seg source_data))
            /\ (forall i : nat,
                  (forall seg, seg ∈ m_map_segments m ->
                               m_dof_idx seg <> Some (Z.of_nat i)) ->
                  h !! i = remapped_data !! i)).
  { destruct (apply_remap_loop m source_data remapped_data
                (length (m_map_segments m)) Hwf) as (h & E & Hlen & Hval & Hframe).
    - intros seg Hin. destruct (Hsegs seg Hin) as [(k & Hk & Hd & _) [_ Hidx]].
      split.
      + exists k. split; [exact Hk|]. apply lookup_lt_Some in Hd.
        unfold View.extent in Htgt. lia.
      + intros i idx Hi. destruct (Hidx i idx Hi) as [Hr _]. lia.
    - intros j1 j2 s1 s2. apply resolved_segments_inj; assumption.
    - lia.
    - exists h. split; [exact E|]. split; [exact Hlen|]. split.
      + intros seg Hin. destruct (Hsegs seg Hin) as [(k & Hk & _) _].
        exists k. split; [exact Hk|].
        apply list_elem_of_lookup in Hin. destruct Hin as [j Hj].
        apply (Hval j k seg); [eapply lookup_lt_Some; eauto | exact Hj | exact Hk].
      + intros i Hi. apply Hframe. intros j seg _ Hj. apply Hi.
        apply list_elem_of_lookup. eauto. }
  destruct Hloop as (h & E & Hlen & Hval & Hframe).
  unfold writes_only_targets, Map.apply_remap.
  destruct (Z.eqb_spec (m_num_dofs m) 0) as [E0|_].
  - assert (Hnil : m_map_segments m = []).
    { destruct (m_map_segments m) as [|seg segs] eqn:Es; [reflexivity|].
      destruct (Hsegs seg) as [(k & _ & Hk & _) _]; [left|].
      apply lookup_lt_Some in Hk. unfold View.extent in Hnd. lia. }
    exists remapped_data. split; [reflexivity|]. split; [reflexivity|].
    rewrite Hnil. split; [intros seg Hin; inversion Hin | reflexivity].
  - cbn [View.create_mirror_view]. rewrite Hns.
    change (View.extent (m_map_segments m))
      with (Z.of_nat (length (m_map_segments m))).
    rewrite range_0_of_nat, E, bind_Ok.
    unfold View.deep_copy, View.extent. rewrite Hlen, Z.eqb_refl.
    exists h. auto.
Qed.

(** With the source field laid out along the unique source DOFs, the
    weighted sum of a resolved segment is a sum over its source DOFs. *)
Lemma weighted_sum_keyed (m : GSMap) (seg : GSSegment) (x : Z -> R) :
  seg_wf seg -> source_idx_resolved m seg ->
  weighted_sum seg (map x (m_unique_dofs m))
  = remap_value (zip (m_source_dofs seg) (m_weights seg)) x.
Proof.
  intros (_ & Hsd & Hsi & Hw) [Hlen Hidx]. unfold weighted_sum, remap_value.
  f_equal. apply list_eq. intros i.
  rewrite lookup_zip_with, list_lookup_fmap, lookup_zip_with.
  destruct (m_source_idx seg !! i) as [idx|] eqn:Ei; simpl.
  - destruct (Hidx i idx Ei) as [Hr Hu].
    destruct (m_source_dofs seg !! i) as [c|] eqn:Ec; simpl.
    + destruct (m_weights seg !! i) as [w|]; simpl; [|reflexivity].
      change (map x (m_unique_dofs m)) with (x <$> m_unique_dofs m).
      rewrite list_lookup_fmap, Hu. reflexivity.
    + apply lookup_ge_None in Ec. apply lookup_lt_Some in Ei. lia.
  - apply lookup_ge_None in Ei.
    rewrite (proj2 (lookup_ge_None (m_source_dofs seg) i)) by lia. reflexivity.
Qed.

End ApplyKeyed.

(** X7: on a well-formed, resolved map with pairwise different target DOFs,
    with the source field laid out along the unique source DOFs
    ([source_data(j)] is the value at the DOF [unique_dofs(j)]) and views that
    the host can reach, [apply_remap] returns; the entry of the target view
    at the first position of a segment's DOF in the local list receives the
    sum over the segment of (value at the source DOF) times (weight), which
    does not depend on how the unique list numbers the source DOFs; every
    other entry keeps its value. *)
Theorem apply_remap_keyed (m : GSMap) (x : Z -> R) (remapped_data : list R) :
  map_wf m -> resolved m -> distinct_targets m ->
  View.extent (m_dofs_gids m) <= View.extent remapped_data ->
  exists remapped,
    Map.apply_remap View.HostSpace m (map x (m_unique_dofs m)) remapped_data
    = Ok remapped
    /\ length remapped = length remapped_data
    /\ (forall seg, seg ∈ m_map_segments m ->
          exists k : nat,
            m_dofs_gids m !! k = Some (m_dof seg)
            /\ (forall j : nat, (j < k)%nat -> m_dofs_gids m !! j <> Some (m_dof seg))
            /\ remapped !! k
               = Some (remap_value (zip (m_source_dofs seg) (m_weights seg)) x))
    /\ (forall i : nat,
          (forall seg, seg ∈ m_map_segments m -> m_dof_idx seg <> Some (Z.of_nat i)) ->
          remapped !! i = remapped_data !! i).
Proof.
  intros Hwf Hres Hdist Htgt.
  destruct (apply_remap_on_host m (map x (m_unique_dofs m)) remapped_data Hwf Hres Hdist)
    as (remapped & E & Hlen & Hval & Hframe).
  { split; [|exact Htgt]. unfold View.extent. rewrite length_map. lia. }
  exists remapped. split; [exact E|]. split; [exact Hlen|]. split; [|exact Hframe].
  intros seg Hin. destruct (Hval seg Hin) as (k & Hk & Hv).
  destruct Hres as (_ & _ & _ & Hsegs).
  destruct (Hsegs seg Hin) as [(k' & Hk' & Hd & Hfirst) Hsrc].
  assert (k' = k) as -> by (rewrite Hk in Hk'; injection Hk'; lia).
  exists k. split; [exact Hd|]. split; [exact Hfirst|].
  rewrite Hv. f_equal. apply weighted_sum_keyed; [|exact Hsrc].
  destruct Hwf as (_ & _ & Hall). rewrite Forall_forall in Hall. auto.
Qed.

Lemma apply_remap_keyed_witness :
  exists remapped,
    Map.apply_remap View.HostSpace example_map
                    (map (fun c => IZR c) (m_unique_dofs example_map)) example_target
    = Ok remapped
    /\ remapped !! 0%nat = Some (remap_value [(7, 0.5%R); (5, 0.5%R)] IZR)
    /\ remapped !! 1%nat = Some 2%R.
Proof.
  destruct example_map_ready as (Hwf & Hres & Hdist & Hfit).
  destruct (apply_remap_keyed example_map IZR example_target Hwf Hres Hdist)
    as (remapped & E & _ & Hval & Hframe).
  { unfold View.extent. simpl. lia. }
  exists remapped. split; [exact E|]. split.
  - destruct (Hval (mkSegment 3 2 [7; 5] [1; 0] [0.5%R; 0.5%R] (Some 0%Z)))
      as (k & Hk & _ & Hv); [left|].
    simpl in Hk. destruct k as [|[|k]]; try discriminate. exact Hv.
  - rewrite (Hframe 1%nat); [reflexivity|].
    intros seg Hin. apply list_elem_of_singleton in Hin. subst seg. discriminate.
Defined.

(** ** From the remap file to the remapped field *)

Section FileApplied.

(** The segments of a map after the file is loaded and the source DOFs are
    resolved. *)
Lemma remap_file_resolved (file : RemapFile) (n : nat) (my_rank : Z) (m : GSMap) :
  (1 <= n)%nat -> (n <= length (file_row file))%nat ->
  0 <= my_rank < Z.of_nat n ->
  length (file_col file) = length (file_row file) ->
  length (file_S file) = length (file_row file) ->
  map_wf m -> m_map_segments m = [] -> NoDup (m_dofs_gids m) ->
  exists m1 m2,
    set_remap_segments_from_file file (Z.of_nat n) my_rank m = Ok m1
    /\ Map.set_unique_source_dofs m1 = Ok m2
    /\ map_wf m2 /\ resolved m2 /\ distinct_targets m2
    /\ m_dofs_gids m2 = m_dofs_gids m
    /\ (forall d, d ∈ map m_dof (m_map_segments m2) ->
                  entries_for file (min_row file) d <> [])
    /\ (forall d, d ∈ m_dofs_gids m ->
                  entries_of (m_map_segments m2) d = entries_for file (min_row file) d).
Proof.
  intros Hn1 Hn2 Hr Hc HS Hwf Hnil Hnd.
  destruct (remap_file_entries file n my_rank m Hn1 Hn2 Hr Hc HS Hwf Hnil Hnd)
    as (m1 & E1 & Hwf1 & Hdist1 & Hg1 & _ & Hin1 & Hent1).
  assert (Hloc : local_targets m1 (m_map_segments m1)).
  { intros seg Hin. rewrite Hg1. apply Hin1. apply elem_of_map. eauto. }
  destruct (set_unique_source_dofs_resolved m1 Hwf1 Hloc)
    as (m2 & E2 & Hwf2 & Hres2 & _ & Hg2 & _ & Hcore).
  exists m1, m2. split; [exact E1|]. split; [exact E2|].
  split; [exact Hwf2|]. split; [exact Hres2|].
  pose proof (dofs_of_core _ _ Hcore) as Hdofs.
  split; [unfold distinct_targets; rewrite Hdofs; exact Hdist1|].
  split; [congruence|]. split.
  - intros d Hd. rewrite Hdofs in Hd. destruct (Hin1 d Hd) as [Hl Hne].
    rewrite Hent1 in Hne. rewrite decide_True in Hne by exact Hl. exact Hne.
  - intros d Hd. rewrite (entries_of_core _ _ d Hcore), Hent1.
    rewrite decide_True by exact Hd. reflexivity.
Qed.

(** The values that a loaded and resolved map gives the target view. *)
Lemma applied_values (file : RemapFile) (m m2 : GSMap) (x : Z -> R) (y : list R) :
  NoDup (m_dofs_gids m) ->
  map_wf m2 -> resolved m2 -> distinct_targets m2 ->
  m_dofs_gids m2 = m_dofs_gids m ->
  (forall d, d ∈ map m_dof (m_map_segments m2) ->
             entries_for file (min_row file) d <> []) ->
  (forall d, d ∈ m_dofs_gids m ->
             entries_of (m_map_segments m2) d = entries_for file (min_row file) d) ->
  View.extent (m_dofs_gids m) <= View.extent y ->
  exists y',
    Map.apply_remap View.HostSpace m2 (map x (m_unique_dofs m2)) y = Ok y'
    /\ length y' = length y
    /\ (forall (k : nat) d, m_dofs_gids m !! k = Some d ->
          (entries_for file (min_row file) d <> [] ->
             y' !! k = Some (remap_value (entries_for file (min_row file) d) x))
          /\ (entries_for file (min_row file) d = [] -> y' !! k = y !! k))
    /\ (forall k : nat, (length (m_dofs_gids m) <= k)%nat -> y' !! k = y !! k).
Proof.
  intros Hnd Hwf2 Hres2 Hdist2 Hg2 Hin2 Hent2 Hy.
  destruct (apply_remap_on_host m2 (map x (m_unique_dofs m2)) y Hwf2 Hres2 Hdist2)
    as (y' & E3 & Hlen & Hval & Hframe).
  { split; [unfold View.extent; rewrite length_map; lia | rewrite Hg2; exact Hy]. }
  exists y'. split; [exact E3|]. split; [exact Hlen|].
  pose proof Hres2 as (_ & _ & _ & Hsegs).
  assert (Hpos : forall seg (i : nat), seg ∈ m_map_segments m2 ->
                   m_dof_idx seg = Some (Z.of_nat i) ->
                   m_dofs_gids m !! i = Some (m_dof seg)).
  { intros seg i Hin Hi. destruct (Hsegs seg Hin) as [(k' & Hk' & Hd' & _) _].
    rewrite Hi in Hk'. injection Hk' as Hk'. apply Nat2Z.inj in Hk'. subst k'.
    rewrite <- Hg2. exact Hd'. }
  split.
  - intros k d Hk. split.
    + intros Hne.
      assert (Hd : d ∈ m_dofs_gids m) by (apply list_elem_of_lookup; eauto).
      assert (Hex : d ∈ map m_dof (m_map_segments m2)).
      { destruct (decide (d ∈ map m_dof (m_map_segments m2))) as [H|H]; [exact H|].
        apply entries_of_absent in H. rewrite Hent2 in H by exact Hd. contradiction. }
      apply elem_of_map in Hex. destruct Hex as (seg & Hseg & Hin).
      destruct (Hval seg Hin) as (k' & Hk' & Hv).
      pose proof (Hpos seg k' Hin Hk') as Hd'. subst d.
      assert (k' = k) as -> by exact (NoDup_lookup _ _ _ _ Hnd Hd' Hk).
      rewrite Hv. f_equal. rewrite weighted_sum_keyed.
      * rewrite <- (entries_of_unique (m_map_segments m2) seg Hdist2 Hin).
        rewrite Hent2 by exact Hd. reflexivity.
      * destruct Hwf2 as (_ & _ & Hall). rewrite Forall_forall in Hall. auto.
      * apply Hsegs. exact Hin.
    + intros Hempty. apply Hframe. intros seg Hin Hi.
      pose proof (Hpos seg k Hin Hi) as Hd'. rewrite Hk in Hd'. injection Hd' as Hd'.
      apply (Hin2 (m_dof seg)); [apply elem_of_map; eauto | rewrite <- Hd'; exact Hempty].
  - intros k Hk. apply Hframe. intros seg Hin Hi.
    pose proof (Hpos seg k Hin Hi) as Hd'. apply lookup_lt_Some in Hd'. lia.
Qed.

End FileApplied.

(** X8: loading a remap file ([n_s] entries, [1 <= num_ranks <= n_s] ranks)
    into a well-formed map without segments whose local DOFs are pairwise
    different, resolving the source DOFs and applying the remap to a source
    field laid out along the unique source DOFs, all return, and the result
    is the product of the sparse matrix of the file with the source field,
    restricted to the local rows: the entry at the position of a local DOF
    [d] is the sum, over the entries of the file whose zero-based row is [d]
    and in the order of the file, of (value at the zero-based [col]) times
    [S]; where the file has no entry for [d], and beyond the local DOFs, the
    target view keeps its value. *)
Theorem remap_file_applied (file : RemapFile) (num_ranks my_rank : Z) (m : GSMap)
    (x : Z -> R) (y : list R) :
  let n_s := View.extent (file_row file) in
  View.extent (file_col file) = n_s -> View.extent (file_S file) = n_s ->
  1 <= num_ranks <= n_s -> 0 <= my_rank < num_ranks ->
  map_wf m -> m_map_segments m = [] -> NoDup (m_dofs_gids m) ->
  View.extent (m_dofs_gids m) <= View.extent y ->
  exists m1 m2 y',
    set_remap_segments_from_file file num_ranks my_rank m = Ok m1
    /\ Map.set_unique_source_dofs m1 = Ok m2
    /\ Map.apply_remap View.HostSpace m2 (map x (m_unique_dofs m2)) y = Ok y'
    /\ length y' = length y
    /\ (forall (k : nat) d, m_dofs_gids m !! k = Some d ->
          (entries_for file (min_row file) d <> [] ->
             y' !! k = Some (remap_value (entries_for file (min_row file) d) x))
          /\ (entries_for file (min_row file) d = [] -> y' !! k = y !! k))
    /\ (forall k : nat, (length (m_dofs_gids m) <= k)%nat -> y' !! k = y !! k).
Proof.
  intros n_s Hc HS Hn Hr Hwf Hnil Hnd Hy. subst n_s. unfold View.extent in Hc, HS, Hn.
  destruct (remap_file_resolved file (Z.to_nat num_ranks) my_rank m)
    as (m1 & m2 & E1 & E2 & Hwf2 & Hres2 & Hdist2 & Hg2 & Hin2 & Hent2);
    try lia; try assumption.
  rewrite Z2Nat.id in E1 by lia.
  destruct (applied_values file m m2 x y Hnd Hwf2 Hres2 Hdist2 Hg2 Hin2 Hent2 Hy)
    as (y' & E3 & Hlen & Hloc & Hout).
  exists m1, m2, y'. auto 10.
Qed.

Lemma remap_file_applied_witness :
  exists m1 m2 y',
    set_remap_segments_from_file example_file 2 1 (mkMap true [0; 2; 3] 3 [] 0 [] false)
    = Ok m1
    /\ Map.set_unique_source_dofs m1 = Ok m2
    /\ Map.apply_remap View.HostSpace m2 (map IZR (m_unique_dofs m2)) [1%R; 2%R; 3%R; 4%R]
       = Ok y'
    /\ y' !! 0%nat = Some (remap_value [(6, 0.25%R); (7, 0.25%R); (11, 0.5%R)] IZR)
    /\ y' !! 2%nat = Some 3%R
    /\ y' !! 3%nat = Some 4%R.
Proof.
  assert (Hwf : map_wf (mkMap true [0; 2; 3] 3 [] 0 [] false)).
  { unfold map_wf. simpl. repeat split. constructor. }
  assert (Hnd : NoDup [0; 2; 3]).
  { refine (bool_decide_unpack _ _). vm_compute. exact I. }
  destruct (remap_file_applied example_file 2 1 (mkMap true [0; 2; 3] 3 [] 0 [] false)
              IZR [1%R; 2%R; 3%R; 4%R]
              eq_refl eq_refl ltac:(unfold View.extent, example_file; simpl; lia)
              ltac:(lia) Hwf eq_refl Hnd ltac:(unfold View.extent; simpl; lia))
    as (m1 & m2 & y' & E1 & E2 & E3 & _ & Hloc & Hout).
  exists m1, m2, y'. split; [exact E1|]. split; [exact E2|]. split; [exact E3|].
  split; [|split].
  - destruct (Hloc 0%nat 0 eq_refl) as [Hv _]. apply Hv. discriminate.
  - destruct (Hloc 2%nat 3 eq_refl) as [_ Hv]. rewrite Hv; reflexivity.
  - rewrite (Hout 3%nat); [reflexivity | simpl; lia].
Defined.

(** X22: the remapped field does not depend on how the file is distributed.
    For two numbers of ranks and two ranks (each number between 1 and
    [n_s]), loading the remap file into the same well-formed map without
    segments (pairwise different local DOFs), resolving the source DOFs and
    applying the remap to a source field laid out along the unique source
    DOFs return in both cases, and give the same target view. *)
Theorem remap_rank_independent (file : RemapFile) (num_ranks my_rank : Z)
    (num_ranks' my_rank' : Z) (m : GSMap) (x : Z -> R) (y : list R) :
  let n_s := View.extent (file_row file) in
  View.extent (file_col file) = n_s -> View.extent (file_S file) = n_s ->
  1 <= num_ranks <= n_s -> 0 <= my_rank < num_ranks ->
  1 <= num_ranks' <= n_s -> 0 <= my_rank' < num_ranks' ->
  map_wf m -> m_map_segments m = [] -> NoDup (m_dofs_gids m) ->
  View.extent (m_dofs_gids m) <= View.extent y ->
  exists m1 m2 m1' m2' remapped,
    set_remap_segments_from_file file num_ranks my_rank m = Ok m1
    /\ Map.set_unique_source_dofs m1 = Ok m2
    /\ Map.apply_remap View.HostSpace m2 (map x (m_unique_dofs m2)) y = Ok remapped
    /\ set_remap_segments_from_file file num_ranks' my_rank' m = Ok m1'
    /\ Map.set_unique_source_dofs m1' = Ok m2'
    /\ Map.apply_remap View.HostSpace m2' (map x (m_unique_dofs m2')) y = Ok remapped.
Proof.
  intros n_s Hc HS Hn Hr Hn' Hr' Hwf Hnil Hnd Hy. subst n_s.
  unfold View.extent in Hc, HS, Hn, Hn'.
  destruct (remap_file_resolved file (Z.to_nat num_ranks) my_rank m)
    as (m1 & m2 & E1 & E2 & Hwf2 & Hres2 & Hdist2 & Hg2 & Hin2 & Hent2);
    try lia; try assumption.
  destruct (remap_file_resolved file (Z.to_nat num_ranks') my_rank' m)
    as (m1' & m2' & E1' & E2' & Hwf2' & Hres2' & Hdist2' & Hg2' & Hin2' & Hent2');
    try lia; try assumption.
  rewrite Z2Nat.id in E1, E1' by lia.
  destruct (applied_values file m m2 x y Hnd Hwf2 Hres2 Hdist2 Hg2 Hin2 Hent2 Hy)
    as (y1 & E3 & Hlen & Hloc & Hout).
  destruct (applied_values file m m2' x y Hnd Hwf2' Hres2' Hdist2' Hg2' Hin2' Hent2' Hy)
    as (y2 & E3' & Hlen' & Hloc' & Hout').
  assert (Ey : y2 = y1).
  { apply list_eq. intros k.
    destruct (m_dofs_gids m !! k) as [d|] eqn:Hk.
    - destruct (Hloc k d Hk) as [H1 H0], (Hloc' k d Hk) as [H1' H0'].
      destruct (entries_for file (min_row file) d) as [|e es] eqn:Ee.
      + rewrite H0, H0' by reflexivity. reflexivity.
      + rewrite H1, H1' by discriminate. reflexivity.
    - apply lookup_ge_None in Hk. rewrite Hout, Hout' by exact Hk. reflexivity. }
  subst y2. exists m1, m2, m1', m2', y1. auto 10.
Qed.

Lemma remap_rank_independent_witness :
  exists m1 m2 m1' m2' remapped,
    set_remap_segments_from_file example_file 2 1 (mkMap true [0; 2; 3] 3 [] 0 [] false)
    = Ok m1
    /\ Map.set_unique_source_dofs m1 = Ok m2
    /\ Map.apply_remap View.HostSpace m2 (map IZR (m_unique_dofs m2))
         [1%R; 2%R; 3%R; 4%R] = Ok remapped
    /\ set_remap_segments_from_file example_file 5 0
         (mkMap true [0; 2; 3] 3 [] 0 [] false) = Ok m1'
    /\ Map.set_unique_source_dofs m1' = Ok m2'
    /\ Map.apply_remap View.HostSpace m2' (map IZR (m_unique_dofs m2'))
         [1%R; 2%R; 3%R; 4%R] = Ok remapped.
Proof.
  assert (Hwf : map_wf (mkMap true [0; 2; 3] 3 [] 0 [] false)).
  { unfold map_wf. simpl. repeat split. constructor. }
  assert (Hnd : NoDup [0; 2; 3]).
  { refine (bool_decide_unpack _ _). vm_compute. exact I. }
  exact (remap_rank_independent example_file 2 1 5 0
           (mkMap true [0; 2; 3] 3 [] 0 [] false) IZR [1%R; 2%R; 3%R; 4%R]
           eq_refl eq_refl ltac:(unfold View.extent, example_file; simpl; lia)
           ltac:(lia) ltac:(unfold View.extent, example_file; simpl; lia)
           ltac:(lia) Hwf eq_refl Hnd ltac:(unfold View.extent; simpl; lia)).
Defined.

(** ** Checking a map *)

Section CheckFacts.

Lemma segment_check_passes (seg : GSSegment_ Binary64.double) :
  passes_check seg -> Segment.check seg = Ok true.
Proof.
  intros (H1 & H2 & H3 & Hs).
  assert (Hwf : seg_wf seg).
  { unfold seg_wf. repeat split; try assumption.
    rewrite <- H1. unfold View.extent. lia. }
  rewrite (check_returns seg Hwf), Hs. reflexivity.
Qed.

Lemma segment_check_rejects (seg : GSSegment_ Binary64.double) :
  ~ passes_check seg ->
  Segment.check seg = Ok false \/ Segment.check seg = Fatal.
Proof.
  intros Hn. unfold Segment.check.
  destruct (Z.eqb_spec (View.extent (m_source_dofs seg)) (m_length seg)) as [H1|_];
    [|right; reflexivity].
  destruct (Z.eqb_spec (View.extent (m_weights seg)) (m_length seg)) as [H2|_];
    [|right; reflexivity].
  destruct (Z.eqb_spec (View.extent (m_source_idx seg)) (m_length seg)) as [H3|_];
    [|right; reflexivity].
  cbn [require]. rewrite !bind_Ok.
  rewrite check_accumulates by exact H2. rewrite bind_Ok. cbv zeta.
  fold (off_unity (accumulated (m_weights seg))).
  destruct (off_unity (accumulated (m_weights seg))) eqn:Hs; [left; reflexivity|].
  exfalso. apply Hn. unfold passes_check. repeat split; assumption.
Qed.

Lemma passes_check_dec (seg : GSSegment_ Binary64.double) :
  passes_check seg \/ ~ passes_check seg.
Proof.
  unfold passes_check.
  destruct (Z.eq_dec (View.extent (m_source_dofs seg)) (m_length seg));
    [|right; tauto].
  destruct (Z.eq_dec (View.extent (m_weights seg)) (m_length seg)); [|right; tauto].
  destruct (Z.eq_dec (View.extent (m_source_idx seg)) (m_length seg)); [|right; tauto].
  destruct (off_unity (accumulated (m_weights seg))); [right | left];
    [intros (_ & _ & _ & H); discriminate | tauto].
Qed.

Lemma all_pass_dec (segs : list (GSSegment_ Binary64.double)) :
  Forall passes_check segs \/ ~ Forall passes_check segs.
Proof.
  induction segs as [|seg segs IH]; [left; constructor|].
  destruct (passes_check_dec seg) as [Hp|Hn].
  - destruct IH as [Hall|Hnall]; [left; constructor; assumption|].
    right. intros H. inversion H. contradiction.
  - right. intros H. inversion H. contradiction.
Qed.

(** The loop of [GSMap::check] over the first [k] segments. *)
Lemma map_check_loop (segs : list (GSSegment_ Binary64.double)) (k : nat) :
  (k <= length segs)%nat ->
  let loop := for_each (fun _ iseg =>
                          seg ← Vec.at_ segs iseg;
                          seg_check ← Segment.check seg;
                          require seg_check) (seq 0 k) () in
  (Forall passes_check (take k segs) -> loop = Ok ())
  /\ (~ Forall passes_check (take k segs) -> loop = Fatal).
Proof.
  induction k as [|k IH]; intros Hk; cbv zeta.
  - split; [reflexivity|]. intros H. exfalso. apply H. constructor.
  - destruct (IH ltac:(lia)) as [IHok IHbad]. cbv zeta in IHok, IHbad.
    destruct (lookup_lt_is_Some_2 segs k ltac:(lia)) as [seg Hseg].
    rewrite (take_S_r _ _ _ Hseg), seq_S, for_each_app. rewrite Forall_app.
    split.
    + intros [Hall Hlast]. rewrite IHok by exact Hall. rewrite bind_Ok.
      cbn [for_each]. unfold Vec.at_. cbn [Nat.add]. rewrite Hseg, bind_Ok.
      inversion Hlast as [|? ? Hp _]; subst.
      rewrite (segment_check_passes seg Hp). reflexivity.
    + intros Hbad.
      destruct (all_pass_dec (take k segs)) as [Hall|Hnall].
      * rewrite IHok by exact Hall. rewrite bind_Ok.
        cbn [for_each]. unfold Vec.at_. cbn [Nat.add]. rewrite Hseg, bind_Ok.
        assert (Hn : ~ passes_check seg).
        { intros Hp. apply Hbad. split; [exact Hall|]. constructor; [exact Hp|constructor]. }
        destruct (segment_check_rejects seg Hn) as [E|E]; rewrite E; reflexivity.
      * rewrite IHbad by exact Hnall. reflexivity.
Qed.

(** [GSMap::check] returns when the DOFs are set and all segments pass, and
    stops at a failed requirement otherwise. *)
Lemma map_check_cases (m : GSMap_ Binary64.double) :
  (m_dofs_set m = true /\ Forall passes_check (m_map_segments m) ->
   Map.check m = Ok ())
  /\ (~ (m_dofs_set m = true /\ Forall passes_check (m_map_segments m)) ->
      Map.check m = Fatal).
Proof.
  unfold Map.check.
  change (View.extent (m_map_segments m)) with (Z.of_nat (length (m_map_segments m))).
  rewrite range_0_of_nat.
  destruct (map_check_loop (m_map_segments m) (length (m_map_segments m))
              ltac:(lia)) as [Hok Hbad].
  cbv zeta in Hok, Hbad. rewrite firstn_all in Hok, Hbad.
  destruct (m_dofs_set m); cbn [require].
  - rewrite bind_Ok. split.
    + intros [_ Hall]. exact (Hok Hall).
    + intros Hn. apply Hbad. tauto.
  - split; [intros [H _]; discriminate | reflexivity].
Qed.

End CheckFacts.

(** X9: [GSMap::check], on a map whose segments hold doubles, returns exactly
    when the DOFs of the map have been set and every segment passes its own
    check: its three views have the declared length and, for the sum [wgt]
    of its weights accumulated in binary64 in index order from [0.0],
    [std::abs(wgt - 1.0) >= tol] is false, [tol] being the machine epsilon
    times [100.0].  In every other case it stops at a failed requirement; it
    never reads outside a view or a vector. *)
Theorem map_check_accepts (m : GSMap_ Binary64.double) :
  (Map.check m = Ok ()
   <-> m_dofs_set m = true /\ Forall passes_check (m_map_segments m))
  /\ (Map.check m = Ok () \/ Map.check m = Fatal).
Proof.
  destruct (map_check_cases m) as [Hok Hbad].
  assert (Hdec : (m_dofs_set m = true /\ Forall passes_check (m_map_segments m))
                 \/ ~ (m_dofs_set m = true
                       /\ Forall passes_check (m_map_segments m))).
  { destruct (m_dofs_set m); [|right; intros [H _]; discriminate].
    destruct (all_pass_dec (m_map_segments m)); [left | right]; tauto. }
  destruct Hdec as [H|H].
  - rewrite (Hok H). split; [tauto | left; reflexivity].
  - rewrite (Hbad H). split; [|right; reflexivity]. split; [discriminate | tauto].
Qed.

Lemma map_check_accepts_witness :
  let quarter := Binary64.of_scaled 1 (-2) in
  let half := Binary64.of_scaled 1 (-1) in
  let good := mkSegment 3 3 [7; 5; 6] [0; 0; 0] [quarter; quarter; half] None in
  let lossy := mkSegment 4 3 [7; 5; 6] [0; 0; 0]
                 [Binary64.of_Z (2 ^ 60); Binary64.of_Z 1; Binary64.of_Z (- 2 ^ 60)]
                 None in
  Map.check (mkMap true [3; 4] 2 [good] 1 [] false) = Ok ()
  /\ Map.check (mkMap true [3; 4] 2 [good; lossy] 2 [] false) = Fatal
  /\ Map.check (mkMap false [] 0 [good] 1 [] false) = Fatal.
Proof.
  intros quarter half good lossy.
  assert (Hgood : passes_check good).
  { unfold passes_check, View.extent. simpl. repeat split; reflexivity. }
  assert (Hlossy : ~ passes_check lossy).
  { intros (_ & _ & _ & H). vm_compute in H. discriminate. }
  split; [|split].
  - apply (map_check_accepts (mkMap true [3; 4] 2 [good] 1 [] false)).
    split; [reflexivity|]. constructor; [exact Hgood | constructor].
  - destruct (map_check_accepts (mkMap true [3; 4] 2 [good; lossy] 2 [] false))
      as [Hiff [E|E]]; [|exact E].
    exfalso. apply Hiff in E. destruct E as [_ Hall].
    inversion Hall as [|? ? _ Hrest]; subst.
    inversion Hrest as [|? ? Hl _]; subst. exact (Hlossy Hl).
  - destruct (map_check_accepts (mkMap false [] 0 [good] 1 [] false))
      as [Hiff [E|E]]; [|exact E].
    apply Hiff in E. destruct E as [E _]. discriminate.
Defined.

(** ** What the aerosol kernels leave alone *)

Section KernelFrame.
Import Coupling CouplingSpec.
Context {Real : Type}.

(** The views of [dst] after the levels below [n] of column [i]: the same
    allocation, and the same entries outside of the column and from level
    [n] on. *)
Lemma column_frame (f : nat -> Real -> Real) (src dst : AerosolState_ Real)
    (i n : nat) (d : AeroField) :
  named d = true ->
  match get dst d with
  | None => get (column f src i n dst) d = None
  | Some g =>
      exists g', get (column f src i n dst) d = Some g'
                 /\ forall i' k', i' <> i \/ (n <= k')%nat -> g' i' k' = g i' k'
  end.
Proof.
  intros Hd. pose proof (get_column f src i n dst d Hd) as H.
  destruct (get src d) as [h|], (get dst d) as [g|].
  - destruct H as (g' & E & _ & Hframe). exists g'. split; [exact E | exact Hframe].
  - exact H.
  - exists g. split; [exact H | reflexivity].
  - exact H.
Qed.

End KernelFrame.

(** X12: in any arithmetic, run by the team of the column on aerosol states
    where the water vapor views are allocated, the views converted
    unconditionally (the interstitial number mixing ratios and the gases)
    are allocated in source and destination, and every view allocated in the
    destination is allocated in the source, [compute_dry_mixing_ratios]
    (aerosols) and [compute_wet_mixing_ratios] return and write nothing but
    the entries of column [column_index] at the levels below [nlev]: every
    view of the destination that is not allocated stays so, and every
    allocated one keeps all its entries of the other columns and of the
    levels from [nlev] on.  Run by any other team, both stop at their
    assertion. *)
Theorem aerosol_kernels_write_one_column {Real : Type} (ops : RealOps Real)
    (nlev : Z) (team : Coupling.Team)
    (wet_atm : Coupling.WetAtmosphere_ Real) (dry_atm : Coupling.DryAtmosphere_ Real)
    (src dst : Coupling.AerosolState_ Real) (column_index : nat) :
  Coupling.is_allocated (Coupling.wet_qv wet_atm) = true ->
  Coupling.is_allocated (Coupling.dry_qv dry_atm) = true ->
  (forall d, Coupling.named d = true ->
     Coupling.is_allocated (Coupling.get dst d) = true ->
     Coupling.is_allocated (Coupling.get src d) = true) ->
  (forall d, Coupling.required d = true ->
     Coupling.is_allocated (Coupling.get dst d) = true
     /\ Coupling.is_allocated (Coupling.get src d) = true) ->
  let only_column (st' : Coupling.AerosolState_ Real) :=
    forall d, Coupling.named d = true ->
      match Coupling.get dst d with
      | None => Coupling.get st' d = None
      | Some g =>
          exists g', Coupling.get st' d = Some g'
                     /\ forall i' k' : nat,
                          i' <> column_index \/ nlev <= Z.of_nat k' ->
                          g' i' k' = g i' k'
      end in
  (Z.of_nat column_index = Coupling.league_rank team ->
   (exists st', Coupling.compute_dry_mixing_ratios ops nlev team wet_atm src dst
                  column_index = Ok st' /\ only_column st')
   /\ (exists st', Coupling.compute_wet_mixing_ratios ops nlev team dry_atm src dst
                     column_index = Ok st' /\ only_column st'))
  /\ (Z.of_nat column_index <> Coupling.league_rank team ->
      Coupling.compute_dry_mixing_ratios ops nlev team wet_atm src dst column_index
      = Fatal
      /\ Coupling.compute_wet_mixing_ratios ops nlev team dry_atm src dst column_index
         = Fatal).
Proof.
  intros Hwet Hdry Hsrc Hreq only_column. subst only_column.
  destruct (Coupling.wet_qv wet_atm) as [q|] eqn:Eq; [|discriminate].
  destruct (Coupling.dry_qv dry_atm) as [q'|] eqn:Eq'; [|discriminate].
  split.
  - intros Hteam. split.
    + eexists. split.
      * apply (dry_aerosol_kernel ops nlev team wet_atm q);
          [exact Hteam | exact Eq | exact Hsrc | exact Hreq].
      * intros d Hd.
        pose proof (column_frame
                      (fun k x => Coupling.calculate_drymmr_from_wetmmr ops x
                                    (q column_index k))
                      src dst column_index (Z.to_nat nlev) d Hd) as H.
        destruct (Coupling.get dst d) as [g|]; [|exact H].
        destruct H as (g' & E & Hframe). exists g'. split; [exact E|].
        intros i' k' Hik. apply Hframe. lia.
    + eexists. split.
      * apply (wet_aerosol_kernel ops nlev team dry_atm q');
          [exact Hteam | exact Eq' | exact Hsrc | exact Hreq].
      * intros d Hd.
        pose proof (column_frame
                      (fun k x => Coupling.calculate_wetmmr_from_drymmr ops x
                                    (q' column_index k))
                      src dst column_index (Z.to_nat nlev) d Hd) as H.
        destruct (Coupling.get dst d) as [g|]; [|exact H].
        destruct H as (g' & E & Hframe). exists g'. split; [exact E|].
        intros i' k' Hik. apply Hframe. lia.
  - intros Hteam.
    destruct (kernels_assert_team ops nlev team wet_atm dry_atm src dst column_index
                Hteam) as (_ & Ed & Ew).
    split; [exact Ed | exact Ew].
Qed.

Lemma aerosol_kernels_write_one_column_witness :
  (exists st',
     Coupling.compute_dry_mixing_ratios exact_ops 2 (CouplingExample.team 1)
       (CouplingExample.wet_atm 0.5) (CouplingExample.aero 3) (CouplingExample.aero 7) 1
     = Ok st'
     /\ exists g', Coupling.get st' (Coupling.IntMmr 1 2) = Some g'
                   /\ g' 0%nat 0%nat = 7%R /\ g' 1%nat 2%nat = 7%R)
  /\ Coupling.compute_dry_mixing_ratios exact_ops 2 (CouplingExample.team 0)
       (CouplingExample.wet_atm 0.5) (CouplingExample.aero 3) (CouplingExample.aero 7) 1
     = Fatal.
Proof.
  destruct (aerosol_kernels_write_one_column exact_ops 2 (CouplingExample.team 1)
              (CouplingExample.wet_atm 0.5) CouplingExample.dry_atm
              (CouplingExample.aero 3) (CouplingExample.aero 7) 1 eq_refl eq_refl)
    as [Hrun _].
  { intros d _ _. destruct d; reflexivity. }
  { intros d _. destruct d; split; reflexivity. }
  destruct (aerosol_kernels_write_one_column exact_ops 2 (CouplingExample.team 0)
              (CouplingExample.wet_atm 0.5) CouplingExample.dry_atm
              (CouplingExample.aero 3) (CouplingExample.aero 7) 1 eq_refl eq_refl)
    as [_ Hstop].
  { intros d _ _. destruct d; reflexivity. }
  { intros d _. destruct d; split; reflexivity. }
  split.
  - destruct (Hrun eq_refl) as [(st' & E & Hframe) _].
    exists st'. split; [exact E|].
    destruct (Hframe (Coupling.IntMmr 1 2) eq_refl) as (g' & Eg & Hg).
    exists g'. split; [exact Eg|]. split.
    + rewrite Hg by (left; lia). reflexivity.
    + rewrite Hg by (right; lia). reflexivity.
  - apply Hstop. simpl. lia.
Defined.

(** ** The transfers between prognostics and work arrays *)

Section TransferFacts.

Import WorkArrays WorkArraysSpec.

Variable registry : Registry.

(** The prognostics agree at the level [k']. *)
Let same_at (k' : Z) (p p' : Prognostics) : Prop :=
  (forall m, n_mode_i p' m k' = n_mode_i p m k')
  /\ (forall m, n_mode_c p' m k' = n_mode_c p m k')
  /\ (forall m a, q_aero_i p' m a k' = q_aero_i p m a k')
  /\ (forall m a, q_aero_c p' m a k' = q_aero_c p m a k')
  /\ (forall g, q_gas p' g k' = q_gas p g k').

Lemma put1_other_level (f : Z -> Z -> R) (m k : Z) (x : R) (m' k' : Z) :
  k' <> k -> put1 f m k x m' k' = f m' k'.
Proof.
  intros Hk. unfold put1. destruct (m' =? m); [|reflexivity].
  destruct (Z.eqb_spec k' k); [contradiction | reflexivity].
Qed.

Lemma put2_other_level (f : Z -> Z -> Z -> R) (m a k : Z) (x : R) (m' a' k' : Z) :
  k' <> k -> put2 f m a k x m' a' k' = f m' a' k'.
Proof.
  intros Hk. unfold put2. destruct ((m' =? m) && (a' =? a)); [|reflexivity].
  destruct (Z.eqb_spec k' k); [contradiction | reflexivity].
Qed.

(** The loop of [transfer_work_arrays_to_prognostics] over any counter
    values writes at the level [k] only. *)
Lemma transfer_back_levels (q qqcw : work_array) (k k' : Z) (iis : list nat)
    (progs : Prognostics) :
  k' <> k ->
  same_at k' progs
    (fold_left (fun progs i =>
       let mode_index := mode_at i in
       let aero_id := aero_at i in
       let gas_id := gas_at i in
       if bool_decide (gas_id <> NoGas) then
         let g := gas_to_int gas_id in
         mkProgs (n_mode_i progs) (n_mode_c progs) (q_aero_i progs) (q_aero_c progs)
                 (put1 (q_gas progs) g k (q i))
       else
         let m := mode_to_int mode_index in
         if bool_decide (aero_id <> NoAero) then
           let a := aerosol_index_for_mode registry mode_index aero_id in
           mkProgs (n_mode_i progs) (n_mode_c progs)
                   (put2 (q_aero_i progs) m a k (q i))
                   (put2 (q_aero_c progs) m a k (qqcw i))
                   (q_gas progs)
         else
           mkProgs (put1 (n_mode_i progs) m k (q i))
                   (put1 (n_mode_c progs) m k (qqcw i))
                   (q_aero_i progs) (q_aero_c progs) (q_gas progs))
       iis progs).
Proof.
  intros Hk.
  assert (Hgen : forall p, same_at k' progs p ->
            same_at k' progs
              (fold_left (fun progs i =>
                 let mode_index := mode_at i in
                 let aero_id := aero_at i in
                 let gas_id := gas_at i in
                 if bool_decide (gas_id <> NoGas) then
                   let g := gas_to_int gas_id in
                   mkProgs (n_mode_i progs) (n_mode_c progs) (q_aero_i progs)
                           (q_aero_c progs) (put1 (q_gas progs) g k (q i))
                 else
                   let m := mode_to_int mode_index in
                   if bool_decide (aero_id <> NoAero) then
                     let a := aerosol_index_for_mode registry mode_index aero_id in
                     mkProgs (n_mode_i progs) (n_mode_c progs)
                             (put2 (q_aero_i progs) m a k (q i))
                             (put2 (q_aero_c progs) m a k (qqcw i))
                             (q_gas progs)
                   else
                     mkProgs (put1 (n_mode_i progs) m k (q i))
                             (put1 (n_mode_c progs) m k (qqcw i))
                             (q_aero_i progs) (q_aero_c progs) (q_gas progs))
                 iis p)).
  { induction iis as [|i iis IH]; intros p Hp; [exact Hp|].
    cbn [fold_left]. apply IH. destruct Hp as (H1 & H2 & H3 & H4 & H5).
    cbv zeta. destruct (bool_decide (gas_at i <> NoGas)).
    - repeat split; cbn; intros; rewrite ?put1_other_level by exact Hk; auto.
    - destruct (bool_decide (aero_at i <> NoAero)).
      + repeat split; cbn; intros; rewrite ?put2_other_level by exact Hk; auto.
      + repeat split; cbn; intros; rewrite ?put1_other_level by exact Hk; auto. }
  apply Hgen. repeat split; reflexivity.
Qed.

End TransferFacts.

(** X13: [transfer_work_arrays_to_prognostics] at the level [k] writes at
    that level only: whatever the work arrays hold and whatever the
    mode-species registry is, every view of the prognostics keeps its value
    at every other level. *)
Theorem transfer_back_other_levels (registry : Registry)
    (q qqcw : WorkArrays.work_array) (progs : WorkArrays.Prognostics) (k k' : Z) :
  k' <> k ->
  let progs' := WorkArrays.transfer_work_arrays_to_prognostics registry q qqcw progs k in
  (forall m, WorkArrays.n_mode_i progs' m k' = WorkArrays.n_mode_i progs m k')
  /\ (forall m, WorkArrays.n_mode_c progs' m k' = WorkArrays.n_mode_c progs m k')
  /\ (forall m a, WorkArrays.q_aero_i progs' m a k' = WorkArrays.q_aero_i progs m a k')
  /\ (forall m a, WorkArrays.q_aero_c progs' m a k' = WorkArrays.q_aero_c progs m a k')
  /\ (forall g, WorkArrays.q_gas progs' g k' = WorkArrays.q_gas progs g k').
Proof.
  intros Hk progs'. subst progs'.
  exact (transfer_back_levels registry q qqcw k k' _ progs Hk).
Qed.

Lemma transfer_back_other_levels_witness :
  WorkArrays.q_gas
    (WorkArrays.transfer_work_arrays_to_prognostics mam4_mode_aero_species
       WorkArraysExample.work WorkArraysExample.work (WorkArraysExample.progs 3) 0)
    2 1 = 3%R.
Proof.
  destruct (transfer_back_other_levels mam4_mode_aero_species WorkArraysExample.work
              WorkArraysExample.work (WorkArraysExample.progs 3) 0 1 ltac:(lia))
    as (_ & _ & _ & _ & Hg).
  rewrite Hg. reflexivity.
Defined.

(** X14: the transfer back is a one-sided inverse only.  Writing the work
    arrays [q], [qqcw] to the prognostics at the level [k] and reading the
    work arrays again at that level gives back, whatever the registry is,
    [q] at every gas and modal-number constituent and [qqcw] at every
    modal-number constituent; but at a gas constituent the second work array
    comes back holding the entry of [q], not the one of [qqcw], which the
    transfer back does not read. *)
Theorem work_arrays_through_prognostics (registry : Registry)
    (q qqcw q0 qqcw0 : WorkArrays.work_array) (progs : WorkArrays.Prognostics)
    (k : Z) (i : nat) :
  Z.of_nat i < WorkArrays.gas_pcnst ->
  let progs' := WorkArrays.transfer_work_arrays_to_prognostics registry q qqcw progs k in
  let back := WorkArrays.transfer_prognostics_to_work_arrays registry progs' k q0 qqcw0 in
  (WorkArrays.gas_at i <> NoGas -> back.1 i = q i /\ back.2 i = q i)
  /\ (WorkArrays.gas_at i = NoGas -> WorkArrays.aero_at i = NoAero ->
      back.1 i = q i /\ back.2 i = qqcw i).
Proof.
  intros Hi progs' back. subst back progs'. unfold WorkArrays.gas_pcnst in Hi.
  pose proof (Z.eqb_refl k) as Hk. vm_compute in Hk.
  do 31 (destruct i as [|i];
         [ split; [intros Hg | intros Hg Ha];
           first [ exfalso; apply Hg; reflexivity
                 | discriminate Hg | discriminate Ha
                 | split; vm_compute; rewrite Hk; reflexivity ] |]).
  lia.
Qed.

Lemma work_arrays_through_prognostics_witness :
  let progs' := WorkArrays.transfer_work_arrays_to_prognostics mam4_mode_aero_species
                  (fun _ => 5%R) (fun _ => 6%R) (WorkArraysExample.progs 3) 0 in
  let back := WorkArrays.transfer_prognostics_to_work_arrays mam4_mode_aero_species
                progs' 0 WorkArraysExample.work WorkArraysExample.work in
  back.2 2%nat = 5%R /\ back.2 13%nat = 6%R.
Proof.
  destruct (work_arrays_through_prognostics mam4_mode_aero_species
              (fun _ => 5%R) (fun _ => 6%R) WorkArraysExample.work
              WorkArraysExample.work (WorkArraysExample.progs 3) 0 2 ltac:(reflexivity))
    as [Hgas _].
  destruct (work_arrays_through_prognostics mam4_mode_aero_species
              (fun _ => 5%R) (fun _ => 6%R) WorkArraysExample.work
              WorkArraysExample.work (WorkArraysExample.progs 3) 0 13 ltac:(reflexivity))
    as [_ Hnum].
  split.
  - apply Hgas. discriminate.
  - apply Hnum; reflexivity.
Defined.

(** ** The names of the number mixing ratios *)

Section NmrNameFacts.
Import FieldNames FieldNamesSpec.

Lemma nmr_name_not_blank tag mode :
  tag = "num_a"%string \/ tag = "num_c"%string ->
  is_blank (nmr_name tag mode) = false.
Proof. intros [-> | ->]; reflexivity. Qed.

Lemma int_aero_nmr_field_name_spec c mode :
  0 <= mode < 4 -> nmr_cache_ok c ->
  exists c',
    int_aero_nmr_field_name c mode = Ok (nmr_name "num_a" mode, c')
    /\ nmr_cache_ok c'
    /\ int_aero_nmr_names_ c' mode = nmr_name "num_a" mode
    /\ int_aero_mmr_names_ c' = int_aero_mmr_names_ c
    /\ cld_aero_mmr_names_ c' = cld_aero_mmr_names_ c.
Proof.
  intros Hm Hok. unfold int_aero_nmr_field_name, in_bounds, num_aero_modes.
  destruct (Z.leb_spec 0 mode), (Z.ltb_spec mode 4); try lia. simpl.
  destruct (Hok mode) as [[Hblank|Hname] _].
  - rewrite Hblank. simpl. rewrite mode_name_label by exact Hm. simpl.
    eexists. split; [reflexivity|]. split; [|split; [|split; reflexivity]].
    + intros m. destruct (Hok m) as [Hi Hc]. split; [|exact Hc]. simpl.
      unfold upd1. destruct (Z.eqb_spec m mode) as [->|]; [right; reflexivity | exact Hi].
    + simpl. unfold upd1. rewrite Z.eqb_refl. reflexivity.
  - exists c. rewrite Hname, nmr_name_not_blank by (left; reflexivity).
    split; [reflexivity|]. split; [exact Hok|]. repeat split; reflexivity.
Qed.

Lemma cld_aero_nmr_field_name_spec c mode :
  0 <= mode < 4 -> nmr_cache_ok c ->
  exists c',
    cld_aero_nmr_field_name c mode = Ok (nmr_name "num_c" mode, c')
    /\ nmr_cache_ok c'
    /\ cld_aero_nmr_names_ c' mode = nmr_name "num_c" mode
    /\ int_aero_mmr_names_ c' = int_aero_mmr_names_ c
    /\ cld_aero_mmr_names_ c' = cld_aero_mmr_names_ c.
Proof.
  intros Hm Hok. unfold cld_aero_nmr_field_name, in_bounds, num_aero_modes.
  destruct (Z.leb_spec 0 mode), (Z.ltb_spec mode 4); try lia. simpl.
  destruct (Hok mode) as [_ [Hblank|Hname]].
  - rewrite Hblank. simpl. rewrite mode_name_label by exact Hm. simpl.
    eexists. split; [reflexivity|]. split; [|split; [|split; reflexivity]].
    + intros m. destruct (Hok m) as [Hi Hc]. split; [exact Hi|]. simpl.
      unfold upd1. destruct (Z.eqb_spec m mode) as [->|]; [right; reflexivity | exact Hc].
    + simpl. unfold upd1. rewrite Z.eqb_refl. reflexivity.
  - exists c. rewrite Hname, nmr_name_not_blank by (right; reflexivity).
    split; [reflexivity|]. split; [exact Hok|]. repeat split; reflexivity.
Qed.

Lemma nmr_field_name_again (c : NameCache) mode :
  0 <= mode < 4 ->
  (int_aero_nmr_names_ c mode = nmr_name "num_a" mode ->
   int_aero_nmr_field_name c mode = Ok (nmr_name "num_a" mode, c))
  /\ (cld_aero_nmr_names_ c mode = nmr_name "num_c" mode ->
      cld_aero_nmr_field_name c mode = Ok (nmr_name "num_c" mode, c)).
Proof.
  intros Hm. unfold int_aero_nmr_field_name, cld_aero_nmr_field_name, in_bounds,
    num_aero_modes.
  destruct (Z.leb_spec 0 mode), (Z.ltb_spec mode 4); try lia. simpl.
  split; intros Hname; rewrite Hname, nmr_name_not_blank by auto; reflexivity.
Qed.

Lemma nmr_field_name_outside (c : NameCache) mode :
  ~ 0 <= mode < 4 ->
  int_aero_nmr_field_name c mode = Undefined
  /\ cld_aero_nmr_field_name c mode = Undefined.
Proof.
  intros Hm. unfold int_aero_nmr_field_name, cld_aero_nmr_field_name, in_bounds,
    num_aero_modes.
  destruct (Z.leb_spec 0 mode), (Z.ltb_spec mode 4); try lia; split; reflexivity.
Qed.

End NmrNameFacts.



(** ** All field names together *)

Section AllNameFacts.
Import FieldNames FieldNamesSpec.

Variable mode_aero_species : Registry.

Let expected := expected_name mode_aero_species.

Lemma field_name_expected (c : NameCache) (r : NameRequest) :
  cache_ok mode_aero_species c -> nmr_cache_ok c -> in_range r ->
  field_name mode_aero_species c r = Ok (expected r).
Proof.
  intros Hok Hnmr Hr. unfold expected.
  destruct r as [m|m|m s|m s|g]; simpl in Hr |- *.
  - destruct (int_aero_nmr_field_name_spec c m Hr Hnmr) as (c' & -> & _). reflexivity.
  - destruct (cld_aero_nmr_field_name_spec c m Hr Hnmr) as (c' & -> & _). reflexivity.
  - destruct Hr as [Hm Hs].
    destruct (int_aero_mmr_field_name_spec mode_aero_species c m s Hm Hs Hok)
      as (c' & -> & _). reflexivity.
  - destruct Hr as [Hm Hs].
    destruct (cld_aero_mmr_field_name_spec mode_aero_species c m s Hm Hs Hok)
      as (c' & -> & _). reflexivity.
  - unfold num_aero_gases in Hr.
    assert (E : g = 0 \/ g = 1 \/ g = 2 \/ g = 3 \/ g = 4 \/ g = 5) by lia.
    destruct E as [-> | [-> | [-> | [-> | [-> | ->]]]]]; reflexivity.
Qed.

Ltac split_mode m :=
  let E := fresh "E" in
  assert (E : m = 0 \/ m = 1 \/ m = 2 \/ m = 3) by (unfold num_aero_modes in *; lia);
  destruct E as [-> | [-> | [-> | ->]]].

Ltac split_gas g :=
  let E := fresh "E" in
  assert (E : g = 0 \/ g = 1 \/ g = 2 \/ g = 3 \/ g = 4 \/ g = 5)
    by (unfold num_aero_gases in *; lia);
  destruct E as [-> | [-> | [-> | [-> | [-> | ->]]]]].

Ltac settle :=
  cbn in *; try discriminate; try contradiction; try (split; congruence);
  try congruence; try reflexivity.

(** Case analysis on the species first, then on the modes and gases. *)
Ltac by_cases Hr Hr' :=
  unfold mmr_name in *; cbn [in_range] in Hr, Hr';
  repeat match goal with
         | H : _ /\ _ |- _ => destruct H
         end;
  repeat match goal with
         | |- context [mode_aero_species ?m ?s] =>
             destruct (mode_aero_species m s) eqn:?
         | H : context [mode_aero_species ?m ?s] |- _ =>
             lazymatch type of H with
             | mode_aero_species m s = _ => fail
             | _ => destruct (mode_aero_species m s) eqn:?
             end
         end.

Lemma expected_same (r r' : NameRequest) :
  in_range r -> in_range r' ->
  expected r <> EmptyString ->
  expected r = expected r' -> same_field mode_aero_species r r'.
Proof.
  unfold expected.
  destruct r as [m|m|m s|m s|g], r' as [m'|m'|m' s'|m' s'|g'];
    cbn [expected_name same_field]; intros Hr Hr' Hne E; by_cases Hr Hr'.
  all: try (split_mode m); try (split_mode m'); try (split_gas g); try (split_gas g').
  all: settle.
Qed.

Lemma same_expected (r r' : NameRequest) :
  same_field mode_aero_species r r' -> expected r = expected r'.
Proof.
  unfold expected.
  destruct r as [m|m|m s|m s|g], r' as [m'|m'|m' s'|m' s'|g'];
    cbn [expected_name same_field]; try contradiction.
  - intros ->. reflexivity.
  - intros ->. reflexivity.
  - intros [-> E]. unfold mmr_name. rewrite E. reflexivity.
  - intros [-> E]. unfold mmr_name. rewrite E. reflexivity.
  - intros ->. reflexivity.
Qed.

End AllNameFacts.

(** X16: the field names tell the fields apart.  From name buffers that are
    blank or hold the names of their slots, two requests with indices in
    range (each to any of the five name functions) are both answered; they
    get the same name when they are for the same field (the same function,
    the same mode and the same species of the registry, or the same gas),
    and a name that is not blank is shared only by requests for the same
    field. *)
Theorem field_names_distinct (mode_aero_species : Registry)
    (c c' : FieldNames.NameCache) (r r' : FieldNamesSpec.NameRequest) :
  FieldNames.cache_ok mode_aero_species c -> FieldNamesSpec.nmr_cache_ok c ->
  FieldNames.cache_ok mode_aero_species c' -> FieldNamesSpec.nmr_cache_ok c' ->
  FieldNamesSpec.in_range r -> FieldNamesSpec.in_range r' ->
  exists n n',
    FieldNamesSpec.field_name mode_aero_species c r = Ok n
    /\ FieldNamesSpec.field_name mode_aero_species c' r' = Ok n'
    /\ (FieldNamesSpec.same_field mode_aero_species r r' -> n = n')
    /\ (n <> EmptyString -> n = n' ->
        FieldNamesSpec.same_field mode_aero_species r r').
Proof.
  intros Hok Hnmr Hok' Hnmr' Hr Hr'.
  exists (FieldNamesSpec.expected_name mode_aero_species r),
         (FieldNamesSpec.expected_name mode_aero_species r').
  split; [apply field_name_expected; assumption|].
  split; [apply field_name_expected; assumption|].
  split; [apply same_expected|].
  intros Hne E. apply expected_same; assumption.
Qed.

Lemma field_names_distinct_witness :
  exists n n',
    FieldNamesSpec.field_name mam4_mode_aero_species FieldNames.blank_cache
      (FieldNamesSpec.IntMmrName 1 2) = Ok n
    /\ FieldNamesSpec.field_name mam4_mode_aero_species FieldNames.blank_cache
         (FieldNamesSpec.CldMmrName 1 2) = Ok n'
    /\ n <> n'.
Proof.
  assert (Hok : FieldNames.cache_ok mam4_mode_aero_species FieldNames.blank_cache)
    by (intros m s; split; left; reflexivity).
  assert (Hnmr : FieldNamesSpec.nmr_cache_ok FieldNames.blank_cache)
    by (intros m; split; left; reflexivity).
  destruct (field_names_distinct mam4_mode_aero_species FieldNames.blank_cache
              FieldNames.blank_cache (FieldNamesSpec.IntMmrName 1 2)
              (FieldNamesSpec.CldMmrName 1 2) Hok Hnmr Hok Hnmr)
    as (n & n' & E & E' & _ & Hdiff).
  - unfold FieldNamesSpec.in_range, num_aero_modes, num_aero_species. lia.
  - unfold FieldNamesSpec.in_range, num_aero_modes, num_aero_species. lia.
  - exists n, n'. split; [exact E|]. split; [exact E'|].
    intros En. apply (Hdiff) in En; [exact En|].
    intros Hn. rewrite Hn in E. discriminate E.
Defined.

(** ** C strings *)

Section CStringFacts.
Import CString.

Lemma view_set_outside {A} (v : list A) (i : Z) (x : A) :
  View.extent v <= i -> View.set v i x = Undefined.
Proof.
  unfold View.set, View.extent. intros Hi.
  destruct (Z.ltb_spec i 0); [reflexivity|].
  destruct (Nat.ltb_spec (Z.to_nat i) (length v)); [lia | reflexivity].
Qed.

(** The loop of [gpu_strlen] from the position [l] of a terminated array. *)
Lemma strlen_loop_terminated (t rest : list Z) (fuel l : nat) :
  Forall (fun c => c <> 0) t ->
  (l <= length t)%nat -> (length t - l < fuel)%nat ->
  strlen_loop (t ++ 0 :: rest) fuel l = Ok (length t).
Proof.
  intros Ht. revert l. induction fuel as [|fuel IH]; intros l Hl Hfuel; [lia|].
  cbn [strlen_loop]. destruct (decide (l = length t)) as [->|Hne].
  - rewrite (view_get_of_nat _ _ 0).
    + reflexivity.
    + rewrite lookup_app_r by lia. rewrite Nat.sub_diag. reflexivity.
  - destruct (lookup_lt_is_Some_2 t l ltac:(lia)) as [c Hc].
    rewrite (view_get_of_nat _ _ c) by (rewrite lookup_app_l by lia; exact Hc).
    rewrite bind_Ok.
    assert (Hnz : c <> 0).
    { rewrite Forall_forall in Ht. apply Ht. apply list_elem_of_lookup. eauto. }
    destruct (Z.eqb_spec c 0); [contradiction|]. apply IH; lia.
Qed.

Lemma gpu_strlen_terminated (s t : list Z) :
  holds s t -> gpu_strlen s = Ok (length t).
Proof.
  intros [Ht [rest ->]]. unfold gpu_strlen.
  apply strlen_loop_terminated; [exact Ht | lia |].
  rewrite length_app. simpl. lia.
Qed.

(** On an array without a zero the loop runs beyond the array. *)
Lemma strlen_loop_unterminated (s : list Z) (fuel l : nat) :
  Forall (fun c => c <> 0) s -> strlen_loop s fuel l = Undefined.
Proof.
  intros Hs. revert l. induction fuel as [|fuel IH]; intros l; [reflexivity|].
  cbn [strlen_loop]. destruct (s !! l) as [c|] eqn:Hc.
  - rewrite (view_get_of_nat _ _ c Hc), bind_Ok.
    assert (Hnz : c <> 0).
    { rewrite Forall_forall in Hs. apply Hs. apply list_elem_of_lookup. eauto. }
    destruct (Z.eqb_spec c 0); [contradiction|]. apply IH.
  - rewrite view_get_outside; [reflexivity|].
    right. apply lookup_ge_None in Hc. unfold View.extent. lia.
Qed.

Lemma copy_chars_copy_into (b s : list Z) (offset n : nat) :
  copy_chars b s offset n = Map.copy_into b s (Z.of_nat offset) (Z.of_nat n).
Proof. unfold copy_chars, Map.copy_into. rewrite range_0_of_nat. reflexivity. Qed.

Lemma copy_chars_ok (b s : list Z) (offset n : nat) :
  (n <= length s)%nat -> (offset + n <= length b)%nat ->
  copy_chars b s offset n = Ok (take offset b ++ take n s ++ drop (offset + n) b).
Proof. intros Hs Hb. rewrite copy_chars_copy_into. apply copy_into_prefix; assumption. Qed.

Lemma copy_chars_overflow (b s : list Z) (offset n : nat) :
  (n <= length s)%nat -> (offset <= length b)%nat -> (length b < offset + n)%nat ->
  copy_chars b s offset n = Undefined.
Proof.
  intros Hs Hoff Hb. remember (length b - offset)%nat as n0 eqn:En0.
  assert (Hn0 : (n0 < n)%nat) by lia.
  unfold copy_chars.
  replace n with (n0 + S (n - S n0))%nat by lia.
  rewrite seq_app, for_each_app. cbn [Nat.add].
  pose proof (copy_chars_ok b s offset n0 ltac:(lia) ltac:(lia)) as E.
  unfold copy_chars in E. rewrite E, bind_Ok. cbn [seq for_each].
  destruct (lookup_lt_is_Some_2 s n0 ltac:(lia)) as [c Hc].
  rewrite (view_get_of_nat _ _ c Hc), bind_Ok. rewrite view_set_outside; [reflexivity|].
  unfold View.extent. rewrite ?length_app, ?length_take, ?length_drop. lia.
Qed.

(** One copy behind the characters [pre] that the buffer holds already. *)
Lemma copy_chars_behind (b pre s t rest : list Z) :
  s = t ++ 0 :: rest ->
  (length pre + length t <= length b)%nat ->
  copy_chars (pre ++ drop (length pre) b) s (length pre) (length t)
  = Ok ((pre ++ t) ++ drop (length (pre ++ t)) b).
Proof.
  intros -> Hb.
  rewrite copy_chars_ok.
  2:{ rewrite length_app. lia. }
  2:{ rewrite length_app, length_drop. lia. }
  rewrite !take_app_length.
  rewrite drop_app_ge by lia. rewrite drop_drop.
  rewrite <- app_assoc, length_app. do 4 f_equal. lia.
Qed.

(** The terminator behind the characters [pre]. *)
Lemma set_terminator (b pre : list Z) :
  (length pre < length b)%nat ->
  View.set (pre ++ drop (length pre) b) (Z.of_nat (length pre)) 0
  = Ok (pre ++ 0 :: drop (S (length pre)) b).
Proof.
  intros Hb. rewrite view_set_Ok.
  2:{ unfold View.extent. rewrite length_app, length_drop. lia. }
  rewrite Nat2Z.id. f_equal.
  rewrite insert_app_r_alt by lia. rewrite Nat.sub_diag.
  destruct (lookup_lt_is_Some_2 b (length pre) Hb) as [x Hx].
  rewrite (drop_S _ _ _ Hx). reflexivity.
Qed.

(** The three copies and the terminator of [concat_3_strings]. *)
Lemma concat_3_strings_ok (s1 s2 s3 t1 t2 t3 b : list Z) :
  holds s1 t1 -> holds s2 t2 -> holds s3 t3 ->
  (length t1 + length t2 + length t3 < length b)%nat ->
  concat_3_strings s1 s2 s3 b
  = Ok ((t1 ++ t2 ++ t3)
        ++ 0 :: drop (S (length t1 + length t2 + length t3)) b).
Proof.
  intros H1 H2 H3 Hb. unfold concat_3_strings.
  rewrite (gpu_strlen_terminated s1 t1 H1), bind_Ok.
  rewrite (gpu_strlen_terminated s2 t2 H2).
  rewrite (gpu_strlen_terminated s3 t3 H3).
  destruct H1 as [_ [r1 E1]], H2 as [_ [r2 E2]], H3 as [_ [r3 E3]].
  pose proof (copy_chars_behind b [] s1 t1 r1 E1 ltac:(simpl; lia)) as C1.
  cbn [length app] in C1. rewrite drop_0 in C1. rewrite C1, !bind_Ok.
  pose proof (copy_chars_behind b t1 s2 t2 r2 E2 ltac:(lia)) as C2.
  rewrite C2, !bind_Ok.
  pose proof (copy_chars_behind b (t1 ++ t2) s3 t3 r3 E3
                ltac:(rewrite length_app; lia)) as C3.
  rewrite length_app in C3 at 2. rewrite C3, !bind_Ok.
  pose proof (set_terminator b ((t1 ++ t2) ++ t3)
                ltac:(rewrite !length_app; lia)) as T.
  assert (EL : length ((t1 ++ t2) ++ t3)
               = (length t1 + length t2 + length t3)%nat)
    by (rewrite !length_app; lia).
  rewrite EL in T |- *. rewrite <- (app_assoc t1 t2 t3) in T |- *. exact T.
Qed.

Lemma concat_3_strings_overflow (s1 s2 s3 t1 t2 t3 b : list Z) :
  holds s1 t1 -> holds s2 t2 -> holds s3 t3 ->
  (length b <= length t1 + length t2 + length t3)%nat ->
  concat_3_strings s1 s2 s3 b = Undefined.
Proof.
  intros H1 H2 H3 Hb. unfold concat_3_strings.
  rewrite (gpu_strlen_terminated s1 t1 H1), bind_Ok.
  rewrite (gpu_strlen_terminated s2 t2 H2).
  rewrite (gpu_strlen_terminated s3 t3 H3).
  destruct H1 as [_ [r1 E1]], H2 as [_ [r2 E2]], H3 as [_ [r3 E3]].
  destruct (decide (length t1 <= length b)%nat) as [L1|L1].
  2:{ rewrite copy_chars_overflow; [reflexivity | | lia | lia].
      subst s1. rewrite length_app. lia. }
  pose proof (copy_chars_behind b [] s1 t1 r1 E1 ltac:(simpl; lia)) as C1.
  cbn [length app] in C1. rewrite drop_0 in C1. rewrite C1, !bind_Ok.
  destruct (decide (length t1 + length t2 <= length b)%nat) as [L2|L2].
  2:{ rewrite copy_chars_overflow; [reflexivity | | |].
      - subst s2. rewrite length_app. lia.
      - rewrite length_app, length_drop. lia.
      - rewrite length_app, length_drop. lia. }
  pose proof (copy_chars_behind b t1 s2 t2 r2 E2 ltac:(lia)) as C2.
  rewrite C2, !bind_Ok.
  destruct (decide (length t1 + length t2 + length t3 <= length b)%nat) as [L3|L3].
  2:{ rewrite copy_chars_overflow; [reflexivity | | |].
      - subst s3. rewrite length_app. lia.
      - rewrite ?length_app, ?length_drop, ?length_app. lia.
      - rewrite ?length_app, ?length_drop, ?length_app. lia. }
  pose proof (copy_chars_behind b (t1 ++ t2) s3 t3 r3 E3
                ltac:(rewrite length_app; lia)) as C3.
  rewrite length_app in C3 at 2. rewrite C3, !bind_Ok.
  apply view_set_outside. unfold View.extent.
  rewrite ?length_app, ?length_drop, ?length_app. lia.
Qed.

(** [concat_2_strings] is [concat_3_strings] with an empty third string. *)
Lemma concat_2_as_3 (s1 s2 b : list Z) :
  concat_2_strings s1 s2 b = concat_3_strings s1 s2 [0] b.
Proof.
  unfold concat_2_strings, concat_3_strings.
  destruct (gpu_strlen s1) as [len1| |]; try reflexivity. rewrite !bind_Ok.
  destruct (copy_chars b s1 0 len1) as [b1| |]; try reflexivity. rewrite !bind_Ok.
  destruct (gpu_strlen s2) as [len2| |]; try reflexivity. rewrite !bind_Ok.
  destruct (copy_chars b1 s2 len1 len2) as [b2| |]; try reflexivity. rewrite !bind_Ok.
  change (gpu_strlen [0]) with (@Ok nat 0%nat). rewrite bind_Ok.
  change (copy_chars b2 [0] (len1 + len2) 0) with (Ok b2). rewrite bind_Ok.
  rewrite Nat.add_0_r. reflexivity.
Qed.

End CStringFacts.

(** X17: [concat_3_strings], byte by byte.  For three arrays that hold C
    strings (characters other than zero, then a zero) of [n] characters in
    all: into a buffer of more than [n] bytes it returns, and the buffer
    then holds the three strings one after the other and a terminating zero,
    all its bytes further on being as they were, so that [gpu_strlen] of the
    result is [n]; into a buffer of [n] bytes or fewer it writes beyond the
    buffer.  [gpu_strlen] of an array without a zero reads beyond the array.
    [concat_2_strings] is [concat_3_strings] with an empty third string. *)
Theorem concat_strings_bytes (s1 s2 s3 t1 t2 t3 concatted : list Z) :
  CString.holds s1 t1 -> CString.holds s2 t2 -> CString.holds s3 t3 ->
  let n := (length t1 + length t2 + length t3)%nat in
  ((n < length concatted)%nat ->
   CString.concat_3_strings s1 s2 s3 concatted
   = Ok ((t1 ++ t2 ++ t3) ++ 0 :: drop (S n) concatted)
   /\ CString.gpu_strlen ((t1 ++ t2 ++ t3) ++ 0 :: drop (S n) concatted) = Ok n)
  /\ ((length concatted <= n)%nat ->
      CString.concat_3_strings s1 s2 s3 concatted = Undefined)
  /\ (forall s, Forall (fun c => c <> 0) s -> CString.gpu_strlen s = Undefined)
  /\ CString.concat_2_strings s1 s2 concatted
     = CString.concat_3_strings s1 s2 [0] concatted.
Proof.
  intros H1 H2 H3 n. split; [|split; [|split]].
  - intros Hn. split; [apply concat_3_strings_ok; assumption|].
    replace n with (length (t1 ++ t2 ++ t3)) at 2 by (rewrite !length_app; lia).
    apply gpu_strlen_terminated. split; [|eauto].
    destruct H1 as [Z1 _], H2 as [Z2 _], H3 as [Z3 _].
    rewrite !Forall_app. auto.
  - apply concat_3_strings_overflow; assumption.
  - intros s Hs. apply strlen_loop_unterminated. exact Hs.
  - apply concat_2_as_3.
Qed.

Lemma concat_strings_bytes_witness :
  CString.concat_3_strings (CString.literal "so4") (CString.literal "_a")
    (CString.literal "2") (replicate 8 7)
  = Ok [115; 111; 52; 95; 97; 50; 0; 7]
  /\ CString.concat_3_strings (CString.literal "so4") (CString.literal "_a")
       (CString.literal "2") (replicate 6 7)
     = Undefined.
Proof.
  assert (H1 : CString.holds (CString.literal "so4") [115; 111; 52]).
  { split; [repeat constructor; lia | exists []; reflexivity]. }
  assert (H2 : CString.holds (CString.literal "_a") [95; 97]).
  { split; [repeat constructor; lia | exists []; reflexivity]. }
  assert (H3 : CString.holds (CString.literal "2") [50]).
  { split; [repeat constructor; lia | exists []; reflexivity]. }
  split.
  - destruct (concat_strings_bytes _ _ _ _ _ _ (replicate 8 7) H1 H2 H3)
      as [Hok _].
    destruct (Hok ltac:(simpl; lia)) as [E _]. exact E.
  - destruct (concat_strings_bytes _ _ _ _ _ _ (replicate 6 7) H1 H2 H3)
      as (_ & Hbad & _).
    apply Hbad. simpl. lia.
Defined.

(** ** The name buffers refine the name cache *)

Section NameBufferFacts.
Import CString CNames.

Lemma chars_append (s1 s2 : string) :
  chars (String.append s1 s2) = chars s1 ++ chars s2.
Proof.
  unfold chars. induction s1 as [|a s1 IH]; [reflexivity|].
  cbn [String.append list_ascii_of_string map app]. f_equal. exact IH.
Qed.

Lemma literal_holds (s : string) :
  Forall (fun c => c <> 0) (chars s) -> holds (literal s) (chars s).
Proof. intros Hs. split; [exact Hs | exists []; reflexivity]. Qed.

(** The test [!buffer[0]] on a buffer that holds a string. *)
Lemma blank_test (buffer : list Z) (s : string) :
  holds_name buffer s ->
  exists c0, View.get buffer 0 = Ok c0
             /\ (c0 =? 0) = FieldNames.is_blank s
             /\ (FieldNames.is_blank s = true -> s = EmptyString).
Proof.
  intros [_ [Hnz [rest ->]]]. destruct s as [|a s].
  - exists 0. repeat split; reflexivity.
  - exists (Z.of_nat (nat_of_ascii a)). split; [reflexivity|].
    cbn [chars list_ascii_of_string map] in Hnz. inversion Hnz as [|? ? Ha _]; subst.
    cbn [FieldNames.is_blank].
    destruct (Ascii.eqb_spec a Ascii.zero) as [->|Hne]; [contradiction Ha; reflexivity|].
    split; [|discriminate]. apply Z.eqb_neq. exact Ha.
Qed.

Ltac no_zero :=
  unfold chars; simpl;
  repeat (apply Forall_cons_2; [vm_compute; discriminate|]); apply Forall_nil_2.

Lemma species_label_chars (a : AeroId) :
  Forall (fun c => c <> 0) (chars (FieldNames.species_label a))
  /\ (length (chars (FieldNames.species_label a)) <= 4)%nat.
Proof. destruct a; (split; [no_zero | simpl; lia]). Qed.

Lemma mode_label_chars (mode : Z) :
  Forall (fun c => c <> 0) (chars (FieldNames.mode_label mode))
  /\ length (chars (FieldNames.mode_label mode)) = 1%nat.
Proof.
  unfold FieldNames.mode_label.
  destruct (mode =? 0); [|destruct (mode =? 1); [|destruct (mode =? 2)]];
    (split; [no_zero | reflexivity]).
Qed.

(** A name of three parts written into a buffer of [max_field_name_len]
    bytes. *)
Lemma concat_3_name (s1 s2 s3 : string) (buffer : list Z) :
  Forall (fun c => c <> 0) (chars s1) ->
  Forall (fun c => c <> 0) (chars s2) ->
  Forall (fun c => c <> 0) (chars s3) ->
  (length (chars s1) + length (chars s2) + length (chars s3) < 128)%nat ->
  View.extent buffer = max_field_name_len ->
  exists b, concat_3_strings (literal s1) (literal s2) (literal s3) buffer = Ok b
            /\ holds_name b (FieldNames.concat_3_strings s1 s2 s3).
Proof.
  intros H1 H2 H3 Hn Hb. unfold View.extent, max_field_name_len in Hb.
  eexists. split.
  - apply concat_3_strings_ok; try (apply literal_holds; assumption). lia.
  - unfold holds_name, FieldNames.concat_3_strings, holds.
    rewrite !chars_append. split; [|split].
    + unfold View.extent, max_field_name_len.
      rewrite !length_app. cbn [length]. rewrite length_drop. lia.
    + rewrite !Forall_app. auto.
    + eexists. reflexivity.
Qed.

Lemma concat_2_name (s1 s2 : string) (buffer : list Z) :
  Forall (fun c => c <> 0) (chars s1) ->
  Forall (fun c => c <> 0) (chars s2) ->
  (length (chars s1) + length (chars s2) < 128)%nat ->
  View.extent buffer = max_field_name_len ->
  exists b, concat_2_strings (literal s1) (literal s2) buffer = Ok b
            /\ holds_name b (FieldNames.concat_2_strings s1 s2).
Proof.
  intros H1 H2 Hn Hb. rewrite concat_2_as_3.
  destruct (concat_3_name s1 s2 EmptyString buffer H1 H2) as (b & E & Hh);
    [apply Forall_nil_2 | simpl; lia | exact Hb |].
  exists b. split; [exact E|].
  unfold FieldNames.concat_3_strings in Hh. unfold FieldNames.concat_2_strings.
  replace (String.append s2 EmptyString) with s2 in Hh; [exact Hh|].
  clear. induction s2 as [|a s2 IH]; [reflexivity|]. simpl. f_equal. exact IH.
Qed.

Lemma in_bounds_inside (i n : Z) : 0 <= i < n -> FieldNames.in_bounds i n = Ok ().
Proof.
  intros Hi. unfold FieldNames.in_bounds.
  destruct (Z.leb_spec 0 i), (Z.ltb_spec i n); try lia. reflexivity.
Qed.

Variable mode_aero_species : Registry.

Lemma int_aero_mmr_refines (bufs : NameBuffers) (c : FieldNames.NameCache)
    (mode species : Z) :
  0 <= mode < 4 -> 0 <= species < 7 -> holds_cache bufs c ->
  exists n c' b bufs',
    FieldNames.int_aero_mmr_field_name mode_aero_species c mode species = Ok (n, c')
    /\ int_aero_mmr_field_name mode_aero_species bufs mode species = Ok (b, bufs')
    /\ holds_name b n /\ holds_cache bufs' c'.
Proof.
  intros Hm Hs Hh. pose proof Hh as (H1 & H2 & H3 & H4).
  unfold FieldNames.int_aero_mmr_field_name, int_aero_mmr_field_name.
  rewrite !in_bounds_inside by (unfold num_aero_modes, num_aero_species; lia).
  rewrite !bind_Ok.
  destruct (blank_test _ _ (H3 mode species)) as (c0 & E0 & Et & Hblank).
  rewrite E0, bind_Ok, Et.
  destruct (FieldNames.is_blank _) eqn:Eb; [|eauto 10]. cbv zeta.
  destruct (bool_decide_reflect (mode_aero_species mode species <> NoAero)) as [Hid|Hid];
    [|eauto 10].
  unfold aero_species_name, aero_mode_name.
  rewrite species_name_label by exact Hid. rewrite mode_name_label by exact Hm.
  rewrite !bind_Ok.
  destruct (species_label_chars (mode_aero_species mode species)) as [Z1 L1].
  destruct (mode_label_chars mode) as [Z3 L3].
  destruct (concat_3_name (FieldNames.species_label (mode_aero_species mode species))
              "_a" (FieldNames.mode_label mode)
              (int_aero_mmr_names_ bufs mode species) Z1
              ltac:(no_zero) Z3 ltac:(simpl; lia)
              (proj1 (H3 mode species))) as (b & -> & Hb).
  rewrite bind_Ok. do 4 eexists. split; [reflexivity|]. split; [reflexivity|].
  split; [exact Hb|]. split; [exact H1|]. split; [exact H2|]. split; [|exact H4].
  intros m s. cbn. unfold upd2, FieldNames.upd2.
  destruct ((m =? mode) && (s =? species)); [exact Hb | apply H3].
Qed.

Lemma cld_aero_mmr_refines (bufs : NameBuffers) (c : FieldNames.NameCache)
    (mode species : Z) :
  0 <= mode < 4 -> 0 <= species < 7 -> holds_cache bufs c ->
  exists n c' b bufs',
    FieldNames.cld_aero_mmr_field_name mode_aero_species c mode species = Ok (n, c')
    /\ cld_aero_mmr_field_name mode_aero_species bufs mode species = Ok (b, bufs')
    /\ holds_name b n /\ holds_cache bufs' c'.
Proof.
  intros Hm Hs Hh. pose proof Hh as (H1 & H2 & H3 & H4).
  unfold FieldNames.cld_aero_mmr_field_name, cld_aero_mmr_field_name.
  rewrite !in_bounds_inside by (unfold num_aero_modes, num_aero_species; lia).
  rewrite !bind_Ok.
  destruct (blank_test _ _ (H4 mode species)) as (c0 & E0 & Et & Hblank).
  rewrite E0, bind_Ok, Et.
  destruct (FieldNames.is_blank _) eqn:Eb; [|eauto 10]. cbv zeta.
  destruct (bool_decide_reflect (mode_aero_species mode species <> NoAero)) as [Hid|Hid];
    [|eauto 10].
  unfold aero_species_name, aero_mode_name.
  rewrite species_name_label by exact Hid. rewrite mode_name_label by exact Hm.
  rewrite !bind_Ok.
  destruct (species_label_chars (mode_aero_species mode species)) as [Z1 L1].
  destruct (mode_label_chars mode) as [Z3 L3].
  destruct (concat_3_name (FieldNames.species_label (mode_aero_species mode species))
              "_c" (FieldNames.mode_label mode)
              (cld_aero_mmr_names_ bufs mode species) Z1
              ltac:(no_zero) Z3 ltac:(simpl; lia)
              (proj1 (H4 mode species))) as (b & -> & Hb).
  rewrite bind_Ok. do 4 eexists. split; [reflexivity|]. split; [reflexivity|].
  split; [exact Hb|]. split; [exact H1|]. split; [exact H2|]. split; [exact H3|].
  intros m s. cbn. unfold upd2, FieldNames.upd2.
  destruct ((m =? mode) && (s =? species)); [exact Hb | apply H4].
Qed.

Lemma int_aero_nmr_refines (bufs : NameBuffers) (c : FieldNames.NameCache)
    (mode : Z) :
  0 <= mode < 4 -> holds_cache bufs c ->
  exists n c' b bufs',
    FieldNames.int_aero_nmr_field_name c mode = Ok (n, c')
    /\ int_aero_nmr_field_name bufs mode = Ok (b, bufs')
    /\ holds_name b n /\ holds_cache bufs' c'.
Proof.
  intros Hm Hh. pose proof Hh as (H1 & H2 & H3 & H4).
  unfold FieldNames.int_aero_nmr_field_name, int_aero_nmr_field_name.
  rewrite !in_bounds_inside by (unfold num_aero_modes; lia).
  rewrite !bind_Ok.
  destruct (blank_test _ _ (H1 mode)) as (c0 & E0 & Et & Hblank).
  rewrite E0, bind_Ok, Et.
  destruct (FieldNames.is_blank _) eqn:Eb; [|eauto 10].
  unfold aero_mode_name. rewrite mode_name_label by exact Hm. rewrite !bind_Ok.
  destruct (mode_label_chars mode) as [Z3 L3].
  destruct (concat_2_name "num_a" (FieldNames.mode_label mode)
              (int_aero_nmr_names_ bufs mode)
              ltac:(no_zero) Z3 ltac:(simpl; lia)
              (proj1 (H1 mode))) as (b & -> & Hb).
  rewrite bind_Ok. cbv zeta. do 4 eexists.
  split; [reflexivity|]. split; [reflexivity|].
  split; [exact Hb|]. split; [|split; [exact H2|split; [exact H3 | exact H4]]].
  intros m. cbn. unfold upd1, FieldNames.upd1.
  destruct (m =? mode); [exact Hb | apply H1].
Qed.

Lemma cld_aero_nmr_refines (bufs : NameBuffers) (c : FieldNames.NameCache)
    (mode : Z) :
  0 <= mode < 4 -> holds_cache bufs c ->
  exists n c' b bufs',
    FieldNames.cld_aero_nmr_field_name c mode = Ok (n, c')
    /\ cld_aero_nmr_field_name bufs mode = Ok (b, bufs')
    /\ holds_name b n /\ holds_cache bufs' c'.
Proof.
  intros Hm Hh. pose proof Hh as (H1 & H2 & H3 & H4).
  unfold FieldNames.cld_aero_nmr_field_name, cld_aero_nmr_field_name.
  rewrite !in_bounds_inside by (unfold num_aero_modes; lia).
  rewrite !bind_Ok.
  destruct (blank_test _ _ (H2 mode)) as (c0 & E0 & Et & Hblank).
  rewrite E0, bind_Ok, Et.
  destruct (FieldNames.is_blank _) eqn:Eb; [|eauto 10].
  unfold aero_mode_name. rewrite mode_name_label by exact Hm. rewrite !bind_Ok.
  destruct (mode_label_chars mode) as [Z3 L3].
  destruct (concat_2_name "num_c" (FieldNames.mode_label mode)
              (cld_aero_nmr_names_ bufs mode)
              ltac:(no_zero) Z3 ltac:(simpl; lia)
              (proj1 (H2 mode))) as (b & -> & Hb).
  rewrite bind_Ok. cbv zeta. do 4 eexists.
  split; [reflexivity|]. split; [reflexivity|].
  split; [exact Hb|]. split; [exact H1|]. split; [|split; [exact H3 | exact H4]].
  intros m. cbn. unfold upd1, FieldNames.upd1.
  destruct (m =? mode); [exact Hb | apply H2].
Qed.

Lemma blank_buffers_hold : holds_cache blank_buffers FieldNames.blank_cache.
Proof.
  assert (H : holds_name blank_buffer EmptyString).
  { split; [reflexivity|]. split; [apply Forall_nil_2|].
    exists (replicate 127 0). reflexivity. }
  split; [|split; [|split]]; intros; exact H.
Qed.

End NameBufferFacts.

(** X18: the name functions on their static buffers of 128 bytes, with the
    byte-wise [gpu_strlen], [concat_2_strings] and [concat_3_strings], agree
    with the functions on strings.  From buffers that hold, byte by byte (as
    C strings), the strings of a name cache, as the zeroed buffers hold the
    blank cache, and for a mode index from 0 to 3 and a species index from 0
    to 6, each of the four functions returns on both sides; the returned
    buffer has 128 bytes and holds the returned string, the buffers still
    hold the cache, and no byte is read or written outside of an array. *)
Theorem name_buffers_refine (mode_aero_species : Registry)
    (bufs : CNames.NameBuffers) (c : FieldNames.NameCache) (mode species : Z) :
  0 <= mode < 4 -> 0 <= species < 7 -> CNames.holds_cache bufs c ->
  CNames.holds_cache CNames.blank_buffers FieldNames.blank_cache
  /\ (exists n c' b bufs',
        FieldNames.int_aero_nmr_field_name c mode = Ok (n, c')
        /\ CNames.int_aero_nmr_field_name bufs mode = Ok (b, bufs')
        /\ CNames.holds_name b n /\ CNames.holds_cache bufs' c')
  /\ (exists n c' b bufs',
        FieldNames.cld_aero_nmr_field_name c mode = Ok (n, c')
        /\ CNames.cld_aero_nmr_field_name bufs mode = Ok (b, bufs')
        /\ CNames.holds_name b n /\ CNames.holds_cache bufs' c')
  /\ (exists n c' b bufs',
        FieldNames.int_aero_mmr_field_name mode_aero_species c mode species
        = Ok (n, c')
        /\ CNames.int_aero_mmr_field_name mode_aero_species bufs mode species
           = Ok (b, bufs')
        /\ CNames.holds_name b n /\ CNames.holds_cache bufs' c')
  /\ (exists n c' b bufs',
        FieldNames.cld_aero_mmr_field_name mode_aero_species c mode species
        = Ok (n, c')
        /\ CNames.cld_aero_mmr_field_name mode_aero_species bufs mode species
           = Ok (b, bufs')
        /\ CNames.holds_name b n /\ CNames.holds_cache bufs' c').
Proof.
  intros Hm Hs Hh. split; [exact blank_buffers_hold|].
  split; [apply int_aero_nmr_refines; assumption|].
  split; [apply cld_aero_nmr_refines; assumption|].
  split; [apply int_aero_mmr_refines; assumption|].
  apply cld_aero_mmr_refines; assumption.
Qed.

Lemma name_buffers_refine_witness :
  exists b bufs',
    CNames.int_aero_mmr_field_name mam4_mode_aero_species CNames.blank_buffers 1 2
    = Ok (b, bufs')
    /\ CNames.holds_name b "nacl_a2".
Proof.
  destruct (name_buffers_refine mam4_mode_aero_species CNames.blank_buffers
              FieldNames.blank_cache 1 2 ltac:(lia) ltac:(lia) blank_buffers_hold)
    as (Hblank & _ & _ & (n & c' & b & bufs' & E & E' & Hb & _) & _).
  exists b, bufs'. split; [exact E'|].
  {
    assert (En : n = "nacl_a2"%string).
    { assert (E2 : match FieldNames.int_aero_mmr_field_name mam4_mode_aero_species
                          FieldNames.blank_cache 1 2 with
                   | Ok p => p.1 | _ => EmptyString end = "nacl_a2"%string)
        by reflexivity.
      rewrite E in E2. exact E2. }
    rewrite <- En. exact Hb. }
Defined.

(** ** The kernel of the dry atmosphere *)

Section DryAtmosphereFacts.
Import Coupling CouplingFrame.
Context {Real : Type} (ops : RealOps Real).

Variables (hv hc hn hi hni : nat -> nat -> Real).
Variable i : nat.

(** The view [g'] is [g] with the entries of column [i] below level [n]
    converted from [h]. *)
Let converted (n : nat) (h g g' : nat -> nat -> Real) : Prop :=
  column_converted (calculate_drymmr_from_wetmmr ops) hv h g g' i (Z.of_nat n).

Lemma converted_start (h g : nat -> nat -> Real) : converted 0 h g g.
Proof. split; [intros; lia | reflexivity]. Qed.

Lemma converted_step (n : nat) (h g g' : nat -> nat -> Real) :
  converted n h g g' ->
  converted (S n) h g
    (upd g' i n (calculate_drymmr_from_wetmmr ops (h i n) (hv i n))).
Proof.
  intros [Hc Hf]. unfold upd. split.
  - intros k Hk. rewrite Nat.eqb_refl. simpl.
    destruct (Nat.eqb_spec k n) as [->|Hne]; [reflexivity | apply Hc; lia].
  - intros i' k' Hik.
    destruct (Nat.eqb_spec i' i) as [->|]; simpl; [|apply Hf; lia].
    destruct (Nat.eqb_spec k' n) as [->|]; [lia | apply Hf; lia].
Qed.

Lemma dry_atmosphere_levels (team : Team) (gv gc gn gi gni : nat -> nat -> Real)
    (n : nat) :
  Z.of_nat i = league_rank team ->
  exists gv' gc' gn' gi' gni',
    compute_dry_mixing_ratios_atm ops (Z.of_nat n) team
      (mkWetAtm (Some hv) (Some hc) (Some hn) (Some hi) (Some hni))
      (mkDryAtm (Some gv) (Some gc) (Some gn) (Some gi) (Some gni)) i
    = Ok (mkDryAtm (Some gv') (Some gc') (Some gn') (Some gi') (Some gni'))
    /\ converted n hv gv gv' /\ converted n hc gc gc' /\ converted n hn gn gn'
    /\ converted n hi gi gi' /\ converted n hni gni gni'.
Proof.
  intros Hteam. unfold compute_dry_mixing_ratios_atm.
  rewrite team_asserted, decide_True by exact Hteam. cbn [mbind Res_bind].
  rewrite range_0_of_nat.
  induction n as [|n IH].
  - exists gv, gc, gn, gi, gni. split; [reflexivity|].
    repeat split; intros; try lia; reflexivity.
  - destruct IH as (gv' & gc' & gn' & gi' & gni' & E & Cv & Cc & Cn & Ci & Cni).
    rewrite seq_S, for_each_app, E, bind_Ok. cbn.
    do 5 eexists. split; [reflexivity|].
    repeat split; try (apply converted_step; assumption);
      first [ apply (converted_step n hv gv gv' Cv)
            | apply (converted_step n hc gc gc' Cc)
            | apply (converted_step n hn gn gn' Cn)
            | apply (converted_step n hi gi gi' Ci)
            | apply (converted_step n hni gni gni' Cni) ].
Qed.

End DryAtmosphereFacts.

Section DryAtmosphereErrors.
Import Coupling CouplingFrame.
Context {Real : Type} (ops : RealOps Real).

Lemma dry_atmosphere_missing (nlev : Z) (team : Team) (wet_atm : WetAtmosphere_ Real)
    (dry_atm : DryAtmosphere_ Real) (i : nat) :
  Z.of_nat i = league_rank team ->
  0 < nlev -> all_allocated wet_atm dry_atm = false ->
  compute_dry_mixing_ratios_atm ops nlev team wet_atm dry_atm i = Undefined.
Proof.
  intros Hteam Hn Hall. unfold compute_dry_mixing_ratios_atm, range.
  rewrite team_asserted, decide_True by exact Hteam. cbn [mbind Res_bind].
  replace (Z.to_nat (nlev - 0)) with (S (Z.to_nat (nlev - 1))) by lia.
  cbn [seq for_each Z.to_nat].
  destruct wet_atm as [[?|] [?|] [?|] [?|] [?|]];
    destruct dry_atm as [[?|] [?|] [?|] [?|] [?|]];
    try discriminate Hall; reflexivity.
Qed.

End DryAtmosphereErrors.

(** X19: [compute_dry_mixing_ratios] on the atmosphere, in any arithmetic.
    Run by the team of the column with all ten mixing-ratio views allocated
    it returns, and each of the five dry views (vapor, cloud liquid mass and
    number, cloud ice mass and number) holds, in column [column_index] at
    the levels below [nlev], the conversion of the wet view of the same
    quantity with the wet water vapor of that entry as the factor, and
    elsewhere what it held.  When one of the ten views is not allocated and
    there is a level to convert, the kernel accesses an unallocated view;
    without levels it does nothing.  Run by any other team it stops at its
    assertion. *)
Theorem dry_atmosphere_kernel_columns {Real : Type} (ops : RealOps Real) (nlev : Z)
    (team : Coupling.Team)
    (hv hc hn hi hni gv gc gn gi gni : nat -> nat -> Real)
    (wet_atm : Coupling.WetAtmosphere_ Real) (dry_atm : Coupling.DryAtmosphere_ Real)
    (column_index : nat) :
  let converted h g g' :=
    CouplingFrame.column_converted (Coupling.calculate_drymmr_from_wetmmr ops)
      hv h g g' column_index nlev in
  (Z.of_nat column_index = Coupling.league_rank team ->
   (exists gv' gc' gn' gi' gni',
      Coupling.compute_dry_mixing_ratios_atm ops nlev team
        (Coupling.mkWetAtm (Some hv) (Some hc) (Some hn) (Some hi) (Some hni))
        (Coupling.mkDryAtm (Some gv) (Some gc) (Some gn) (Some gi) (Some gni))
        column_index
      = Ok (Coupling.mkDryAtm (Some gv') (Some gc') (Some gn') (Some gi') (Some gni'))
      /\ converted hv gv gv' /\ converted hc gc gc' /\ converted hn gn gn'
      /\ converted hi gi gi' /\ converted hni gni gni')
   /\ (0 < nlev -> CouplingFrame.all_allocated wet_atm dry_atm = false ->
       Coupling.compute_dry_mixing_ratios_atm ops nlev team wet_atm dry_atm
         column_index = Undefined)
   /\ (nlev <= 0 ->
       Coupling.compute_dry_mixing_ratios_atm ops nlev team wet_atm dry_atm
         column_index = Ok dry_atm))
  /\ (Z.of_nat column_index <> Coupling.league_rank team ->
      Coupling.compute_dry_mixing_ratios_atm ops nlev team wet_atm dry_atm
        column_index = Fatal).
Proof.
  intros converted. subst converted. split.
  - intros Hteam. split; [|split].
    + destruct (dry_atmosphere_levels ops hv hc hn hi hni column_index team
                  gv gc gn gi gni (Z.to_nat nlev) Hteam)
        as (gv' & gc' & gn' & gi' & gni' & E & Cv & Cc & Cn & Ci & Cni).
      exists gv', gc', gn', gi', gni'. split.
      * assert (Hr : range 0 (Z.of_nat (Z.to_nat nlev)) = range 0 nlev)
          by (unfold range; f_equal; lia).
        rewrite <- E. unfold Coupling.compute_dry_mixing_ratios_atm.
        rewrite Hr. reflexivity.
      * assert (Hconv : forall h g g',
                  CouplingFrame.column_converted
                    (Coupling.calculate_drymmr_from_wetmmr ops)
                    hv h g g' column_index (Z.of_nat (Z.to_nat nlev)) ->
                  CouplingFrame.column_converted
                    (Coupling.calculate_drymmr_from_wetmmr ops)
                    hv h g g' column_index nlev).
        { intros h g g' [Hc Hf]. split.
          - intros k Hk. apply Hc. lia.
          - intros i' k' Hik. apply Hf. lia. }
        split; [exact (Hconv _ _ _ Cv)|]. split; [exact (Hconv _ _ _ Cc)|].
        split; [exact (Hconv _ _ _ Cn)|]. split; [exact (Hconv _ _ _ Ci)|].
        exact (Hconv _ _ _ Cni).
    + apply dry_atmosphere_missing. exact Hteam.
    + intros Hn. unfold Coupling.compute_dry_mixing_ratios_atm, range.
      rewrite team_asserted, decide_True by exact Hteam. cbn [mbind Res_bind].
      replace (Z.to_nat (nlev - 0)) with 0%nat by lia. reflexivity.
  - intros Hteam.
    destruct (kernels_assert_team ops nlev team wet_atm dry_atm
                (Coupling.mkAero (fun _ => None) (fun _ => None) (fun _ _ => None)
                   (fun _ _ => None) (fun _ => None))
                (Coupling.mkAero (fun _ => None) (fun _ => None) (fun _ _ => None)
                   (fun _ _ => None) (fun _ => None))
                column_index Hteam) as (E & _).
    exact E.
Qed.

Lemma dry_atmosphere_kernel_columns_witness :
  let wet_atm :=
    Coupling.mkWetAtm (Some (fun _ _ => (/ 2)%R)) (Some (fun _ _ => 3%R))
      (Some (fun _ _ => 0%R)) (Some (fun _ _ => 0%R)) (Some (fun _ _ => 0%R)) in
  (exists qv' qc' nc' qi' ni',
     Coupling.compute_dry_mixing_ratios_atm exact_ops 2 (CouplingExample.team 0)
       wet_atm CouplingExample.dry_atm 0
     = Ok (Coupling.mkDryAtm (Some qv') (Some qc') (Some nc') (Some qi') (Some ni'))
     /\ qv' 0%nat 0%nat = 1%R /\ qc' 0%nat 1%nat = 6%R
     /\ qc' 0%nat 2%nat = 0%R /\ qc' 1%nat 0%nat = 0%R)
  /\ Coupling.compute_dry_mixing_ratios_atm exact_ops 2 (CouplingExample.team 1)
       wet_atm CouplingExample.dry_atm 0
     = Fatal
  /\ Coupling.compute_dry_mixing_ratios_atm exact_ops 2 (CouplingExample.team 0)
       (Coupling.mkWetAtm None (CouplingExample.uniform 0) (CouplingExample.uniform 0)
          (CouplingExample.uniform 0) (CouplingExample.uniform 0))
       CouplingExample.dry_atm 0
     = Undefined.
Proof.
  intros wet_atm.
  pose (z := fun _ _ : nat => 0%R).
  split; [|split].
  - destruct (dry_atmosphere_kernel_columns exact_ops 2 (CouplingExample.team 0)
                (fun _ _ => (/ 2)%R) (fun _ _ => 3%R) z z z z z z z z
                wet_atm CouplingExample.dry_atm 0) as [Hrun _].
    destruct (Hrun eq_refl)
      as [(qv' & qc' & nc' & qi' & ni' & E & [Cv _] & [Cc Fc] & _) _].
    exists qv', qc', nc', qi', ni'. split; [exact E|].
    split; [|split; [|split]].
    + rewrite (Cv 0%nat) by lia.
      unfold Coupling.calculate_drymmr_from_wetmmr.
      cbn [exact_ops rounded_ops r_div r_sub r_one]. field.
    + rewrite (Cc 1%nat) by lia.
      unfold Coupling.calculate_drymmr_from_wetmmr.
      cbn [exact_ops rounded_ops r_div r_sub r_one]. field.
    + rewrite Fc by (right; lia). reflexivity.
    + rewrite Fc by (left; lia). reflexivity.
  - apply (dry_atmosphere_kernel_columns exact_ops 2 (CouplingExample.team 1)
             z z z z z z z z z z wet_atm CouplingExample.dry_atm 0).
    simpl. lia.
  - apply (dry_atmosphere_kernel_columns exact_ops 2 (CouplingExample.team 0)
             z z z z z z z z z z); [reflexivity | lia | reflexivity].
Defined.

(** ** The prognostics of a column *)

Section ColumnProgsFacts.
Import Coupling Columns.

Lemma progs_get_set_same progs d v : Columns.get (Columns.set progs d v) d = v.
Proof.
  destruct d; simpl; unfold Columns.set1, Columns.set2; rewrite ?Nat.eqb_refl; reflexivity.
Qed.

Lemma progs_get_set_other progs d d' v :
  d' <> d -> Columns.get (Columns.set progs d v) d' = Columns.get progs d'.
Proof.
  intros Hne. destruct d, d'; simpl; try reflexivity;
    unfold Columns.set1, Columns.set2.
  all: repeat match goal with
         | |- context [(?x =? ?y)%nat] => destruct (Nat.eqb_spec x y)
         end; simpl; try reflexivity; subst; contradiction.
Qed.

Variable dry_aero : AerosolState.
Variable i : nat.

(** The view [d] of the prognostics becomes the column of that of the
    aerosol state, when that one is allocated. *)
Let copy (d : AeroField) (progs : Prognostics) : Prognostics :=
  match Coupling.get dry_aero d with
  | Some v => Columns.set progs d (Some (subview v i))
  | None => progs
  end.

Lemma get_copy d progs d' :
  Columns.get (copy d progs) d'
  = if decide (d' = d) then column_of dry_aero i progs d' else Columns.get progs d'.
Proof.
  unfold copy, column_of. destruct (decide (d' = d)) as [->|Hne].
  - destruct (Coupling.get dry_aero d); [apply progs_get_set_same | reflexivity].
  - destruct (Coupling.get dry_aero d); [apply progs_get_set_other; exact Hne | reflexivity].
Qed.

Lemma get_fold_copy (ds : list AeroField) (progs : Prognostics) (d : AeroField) :
  Columns.get (fold_left (fun st d => copy d st) ds progs) d
  = if decide (d ∈ ds) then column_of dry_aero i progs d else Columns.get progs d.
Proof.
  revert progs. induction ds as [|d0 ds IH]; intros progs; cbn [fold_left].
  - destruct (decide (d ∈ [])) as [Hin|_]; [inversion Hin | reflexivity].
  - rewrite IH. unfold column_of. rewrite get_copy.
    destruct (decide (d = d0)) as [->|Hne].
    + destruct (decide (d0 ∈ d0 :: ds)) as [_|Hno]; [|exfalso; apply Hno; left].
      unfold column_of.
      destruct (decide (d0 ∈ ds)); destruct (Coupling.get dry_aero d0); reflexivity.
    + destruct (decide (d ∈ ds)) as [Hin|Hout].
      * destruct (decide (d ∈ d0 :: ds)) as [_|Hno]; [reflexivity|].
        exfalso. apply Hno. right. exact Hin.
      * destruct (decide (d ∈ d0 :: ds)) as [Hin|_]; [|reflexivity].
        apply elem_of_cons in Hin. destruct Hin; contradiction.
Qed.

(** A loop whose body asserts a condition on the counter and then returns. *)
Lemma assert_loop {S} (ok : nat -> bool) (body : S -> nat -> Res S) (p : S -> nat -> S)
    (iis : list nat) (st : S) :
  (forall st ii, body st ii = if ok ii then Ok (p st ii) else Fatal) ->
  for_each body iis st
  = if forallb ok iis then Ok (fold_left p iis st) else Fatal.
Proof.
  intros Hbody. revert st. induction iis as [|ii iis IH]; intros st; [reflexivity|].
  cbn [for_each forallb fold_left]. rewrite Hbody.
  destruct (ok ii); [rewrite bind_Ok; apply IH | reflexivity].
Qed.

Lemma take_column_if_allocated_copy d progs :
  take_column_if_allocated dry_aero d i progs = Ok (copy d progs).
Proof.
  unfold take_column_if_allocated, take_column, copy.
  destruct (Coupling.get dry_aero d); reflexivity.
Qed.

Lemma assert_take_column d progs :
  (_ ← kernel_assert (is_allocated (Coupling.get dry_aero d));
   take_column dry_aero d i progs)
  = if is_allocated (Coupling.get dry_aero d) then Ok (copy d progs) else Fatal.
Proof.
  unfold take_column, copy. destruct (Coupling.get dry_aero d); reflexivity.
Qed.

(** The views of the loops, in the order of the loops. *)
Let int_fields : list AeroField :=
  flat_map (fun m => IntNmr m :: map (IntMmr m) (seq 0 7)) (seq 0 4)
  ++ map GasMmr (seq 0 6).

Let cld_fields : list AeroField :=
  flat_map (fun m => CldNmr m :: map (CldMmr m) (seq 0 7)) (seq 0 4).

Lemma species_loop (mk : nat -> AeroField) progs :
  for_each (fun progs a => take_column_if_allocated dry_aero (mk a) i progs)
           (range 0 num_aero_species) progs
  = Ok (fold_left (fun st d => copy d st) (map mk (seq 0 7)) progs).
Proof.
  rewrite (assert_loop (fun _ => true) _ (fun st a => copy (mk a) st)).
  - reflexivity.
  - intros st a. apply take_column_if_allocated_copy.
Qed.

Lemma interstitial_aerosols_for_column_cases (progs : Prognostics) :
  interstitial_aerosols_for_column progs dry_aero i
  = if forallb (fun m => is_allocated (int_aero_nmr dry_aero m)) (seq 0 4)
       && forallb (fun g => is_allocated (gas_mmr dry_aero g)) (seq 0 6)
    then Ok (fold_left (fun st d => copy d st) int_fields progs)
    else Fatal.
Proof.
  unfold interstitial_aerosols_for_column.
  rewrite (assert_loop (fun m => is_allocated (int_aero_nmr dry_aero m)) _
             (fun st m => fold_left (fun st d => copy d st)
                                    (IntNmr m :: map (IntMmr m) (seq 0 7)) st)).
  2:{ intros st m.
      change (is_allocated (int_aero_nmr dry_aero m))
        with (is_allocated (Coupling.get dry_aero (IntNmr m))).
      destruct (Coupling.get dry_aero (IntNmr m)) as [v|] eqn:Ev; [|reflexivity].
      cbn [is_allocated kernel_assert]. rewrite bind_Ok.
      unfold take_column. rewrite Ev, bind_Ok. rewrite species_loop.
      cbn [fold_left]. unfold copy at 3. rewrite Ev. reflexivity. }
  change (range 0 num_aero_modes) with (seq 0 4).
  destruct (forallb _ (seq 0 4)); [|reflexivity]. rewrite bind_Ok.
  rewrite (assert_loop (fun g => is_allocated (gas_mmr dry_aero g)) _
             (fun st g => copy (GasMmr g) st)).
  2:{ intros st g. apply (assert_take_column (GasMmr g)). }
  change (range 0 num_aero_gases) with (seq 0 6).
  destruct (forallb _ (seq 0 6)); reflexivity.
Qed.

Lemma aerosols_for_column_cases (progs : Prognostics) :
  aerosols_for_column progs dry_aero i
  = if forallb (fun m => is_allocated (int_aero_nmr dry_aero m)) (seq 0 4)
       && forallb (fun g => is_allocated (gas_mmr dry_aero g)) (seq 0 6)
       && forallb (fun m => is_allocated (cld_aero_nmr dry_aero m)) (seq 0 4)
    then Ok (fold_left (fun st d => copy d st) (int_fields ++ cld_fields) progs)
    else Fatal.
Proof.
  unfold aerosols_for_column. rewrite interstitial_aerosols_for_column_cases.
  destruct (forallb _ (seq 0 4) && forallb _ (seq 0 6)); [|reflexivity].
  rewrite bind_Ok.
  rewrite (assert_loop (fun m => is_allocated (cld_aero_nmr dry_aero m)) _
             (fun st m => fold_left (fun st d => copy d st)
                                    (CldNmr m :: map (CldMmr m) (seq 0 7)) st)).
  2:{ intros st m.
      change (is_allocated (cld_aero_nmr dry_aero m))
        with (is_allocated (Coupling.get dry_aero (CldNmr m))).
      destruct (Coupling.get dry_aero (CldNmr m)) as [v|] eqn:Ev; [|reflexivity].
      cbn [is_allocated kernel_assert]. rewrite bind_Ok.
      unfold take_column. rewrite Ev, bind_Ok. rewrite species_loop.
      cbn [fold_left]. unfold copy at 3. rewrite Ev. reflexivity. }
  change (range 0 num_aero_modes) with (seq 0 4).
  destruct (forallb _ (seq 0 4)); [|reflexivity].
  rewrite fold_left_app. reflexivity.
Qed.

Lemma all_fields_named (d : AeroField) :
  named d = true <-> d ∈ int_fields ++ cld_fields.
Proof.
  split.
  - intros Hd.
    destruct d as [m|m|m a|m a|g];
      try (do 4 (try (destruct m as [|m])));
      try (do 7 (try (destruct a as [|a])));
      try (do 6 (try (destruct g as [|g])));
      simpl in Hd; try discriminate;
      refine (bool_decide_unpack _ _); vm_compute; exact I.
  - revert d. apply Forall_forall.
    refine (bool_decide_unpack _ _). vm_compute. exact I.
Qed.

Lemma int_fields_named (d : AeroField) :
  named d && interstitial d = true <-> d ∈ int_fields.
Proof.
  split.
  - intros Hd.
    destruct d as [m|m|m a|m a|g];
      try (do 4 (try (destruct m as [|m])));
      try (do 7 (try (destruct a as [|a])));
      try (do 6 (try (destruct g as [|g])));
      simpl in Hd; try discriminate;
      refine (bool_decide_unpack _ _); vm_compute; exact I.
  - revert d. apply Forall_forall.
    refine (bool_decide_unpack _ _). vm_compute. exact I.
Qed.

(** The assertions, as conditions on the views. *)
Ltac settle_false Hn :=
  simpl in Hn; cbn [forallb seq]; rewrite Hn;
  rewrite ?andb_false_r, ?andb_false_l; reflexivity.

Lemma assertions_hold (keep : AeroField -> bool) :
  (forall d, asserted d = true -> keep d = true ->
             is_allocated (Coupling.get dry_aero d) = true) ->
  (keep (IntNmr 0) = true -> keep (IntNmr 1) = true -> keep (IntNmr 2) = true ->
   keep (IntNmr 3) = true ->
   forallb (fun m => is_allocated (int_aero_nmr dry_aero m)) (seq 0 4) = true)
  /\ (keep (GasMmr 0) = true -> keep (GasMmr 1) = true -> keep (GasMmr 2) = true ->
      keep (GasMmr 3) = true -> keep (GasMmr 4) = true -> keep (GasMmr 5) = true ->
      forallb (fun g => is_allocated (gas_mmr dry_aero g)) (seq 0 6) = true)
  /\ (keep (CldNmr 0) = true -> keep (CldNmr 1) = true -> keep (CldNmr 2) = true ->
      keep (CldNmr 3) = true ->
      forallb (fun m => is_allocated (cld_aero_nmr dry_aero m)) (seq 0 4) = true).
Proof.
  intros H. split; [|split]; intros; cbn [forallb seq].
  - pose proof (H (IntNmr 0) eq_refl ltac:(assumption)) as E0.
    pose proof (H (IntNmr 1) eq_refl ltac:(assumption)) as E1.
    pose proof (H (IntNmr 2) eq_refl ltac:(assumption)) as E2.
    pose proof (H (IntNmr 3) eq_refl ltac:(assumption)) as E3.
    simpl in E0, E1, E2, E3. rewrite E0, E1, E2, E3. reflexivity.
  - pose proof (H (GasMmr 0) eq_refl ltac:(assumption)) as E0.
    pose proof (H (GasMmr 1) eq_refl ltac:(assumption)) as E1.
    pose proof (H (GasMmr 2) eq_refl ltac:(assumption)) as E2.
    pose proof (H (GasMmr 3) eq_refl ltac:(assumption)) as E3.
    pose proof (H (GasMmr 4) eq_refl ltac:(assumption)) as E4.
    pose proof (H (GasMmr 5) eq_refl ltac:(assumption)) as E5.
    simpl in E0, E1, E2, E3, E4, E5. rewrite E0, E1, E2, E3, E4, E5. reflexivity.
  - pose proof (H (CldNmr 0) eq_refl ltac:(assumption)) as E0.
    pose proof (H (CldNmr 1) eq_refl ltac:(assumption)) as E1.
    pose proof (H (CldNmr 2) eq_refl ltac:(assumption)) as E2.
    pose proof (H (CldNmr 3) eq_refl ltac:(assumption)) as E3.
    simpl in E0, E1, E2, E3. rewrite E0, E1, E2, E3. reflexivity.
Qed.

Lemma assertion_fails (d : AeroField) :
  asserted d = true -> is_allocated (Coupling.get dry_aero d) = false ->
  match d with
  | IntNmr _ => forallb (fun m => is_allocated (int_aero_nmr dry_aero m)) (seq 0 4)
  | GasMmr _ => forallb (fun g => is_allocated (gas_mmr dry_aero g)) (seq 0 6)
  | _ => forallb (fun m => is_allocated (cld_aero_nmr dry_aero m)) (seq 0 4)
  end = false.
Proof.
  intros Ha Hn.
  destruct d as [m|m|m a|m a|g]; simpl in Ha; try discriminate;
    try (do 4 (try (destruct m as [|m])));
    try (do 6 (try (destruct g as [|g])));
    simpl in Ha; try discriminate; settle_false Hn.
Qed.

End ColumnProgsFacts.

(** X20: the prognostics of a column, in a build that keeps assertions.
    [aerosols_for_column] returns exactly
    when the views that it asserts are allocated (the interstitial and the
    cloudborne number mixing ratios of the four modes, and the six gases),
    and stops at a failed assertion otherwise; a mass mixing ratio that is
    not allocated is no error.  On return every view of the prognostics that
    corresponds to an allocated view of the aerosol state is the column
    [column_index] of that view, and every other view is the one of the
    object that was declared.  [interstitial_aerosols_for_column] asserts
    the interstitial number mixing ratios and the gases only, sets the
    interstitial views and the gases in the same way, and leaves every
    cloudborne view as declared. *)
Theorem aerosols_for_column_views (progs0 : Columns.Prognostics)
    (dry_aero : Coupling.AerosolState) (column_index : nat) :
  ((forall d, Columns.asserted d = true ->
      Coupling.is_allocated (Coupling.get dry_aero d) = true) ->
   exists progs,
     Columns.aerosols_for_column progs0 dry_aero column_index = Ok progs
     /\ forall d, Columns.get progs d
                  = if Coupling.named d
                    then Columns.column_of dry_aero column_index progs0 d
                    else Columns.get progs0 d)
  /\ ((exists d, Columns.asserted d = true
                 /\ Coupling.is_allocated (Coupling.get dry_aero d) = false) ->
      Columns.aerosols_for_column progs0 dry_aero column_index = Fatal)
  /\ ((forall d, Columns.asserted d = true -> Columns.interstitial d = true ->
         Coupling.is_allocated (Coupling.get dry_aero d) = true) ->
      exists progs,
        Columns.interstitial_aerosols_for_column progs0 dry_aero column_index
        = Ok progs
        /\ forall d, Columns.get progs d
                     = if Coupling.named d && Columns.interstitial d
                       then Columns.column_of dry_aero column_index progs0 d
                       else Columns.get progs0 d)
  /\ ((exists d, Columns.asserted d = true /\ Columns.interstitial d = true
                 /\ Coupling.is_allocated (Coupling.get dry_aero d) = false) ->
      Columns.interstitial_aerosols_for_column progs0 dry_aero column_index = Fatal).
Proof.
  split; [|split; [|split]].
  - intros H. rewrite aerosols_for_column_cases.
    destruct (assertions_hold dry_aero (fun _ => true)) as (H1 & H2 & H3); [auto|].
    rewrite H1, H2, H3 by reflexivity. cbn [andb].
    eexists. split; [reflexivity|]. intros d. rewrite get_fold_copy.
    destruct (Coupling.named d) eqn:Hd.
    + apply all_fields_named in Hd. destruct (decide _); [reflexivity | contradiction].
    + destruct (decide _) as [Hin|_]; [|reflexivity].
      apply all_fields_named in Hin. congruence.
  - intros (d & Ha & Hn). rewrite aerosols_for_column_cases.
    pose proof (assertion_fails dry_aero d Ha Hn) as Hf.
    destruct d; rewrite Hf; rewrite ?andb_false_r, ?andb_false_l; reflexivity.
  - intros H. rewrite interstitial_aerosols_for_column_cases.
    destruct (assertions_hold dry_aero Columns.interstitial) as (H1 & H2 & _);
      [exact H|].
    rewrite H1, H2 by reflexivity. cbn [andb].
    eexists. split; [reflexivity|]. intros d. rewrite get_fold_copy.
    destruct (Coupling.named d && Columns.interstitial d) eqn:Hd.
    + apply int_fields_named in Hd. destruct (decide _); [reflexivity | contradiction].
    + destruct (decide _) as [Hin|_]; [|reflexivity].
      apply int_fields_named in Hin. congruence.
  - intros (d & Ha & Hi & Hn). rewrite interstitial_aerosols_for_column_cases.
    pose proof (assertion_fails dry_aero d Ha Hn) as Hf.
    destruct d; try discriminate Hi; try discriminate Ha; rewrite Hf;
      rewrite ?andb_false_r, ?andb_false_l; reflexivity.
Qed.

Lemma aerosols_for_column_views_witness :
  let progs0 := Columns.mkProgs (fun _ => None) (fun _ => None) (fun _ _ => None)
                                (fun _ _ => None) (fun _ => None) in
  let no_cloud := Coupling.mkAero (fun _ => CouplingExample.uniform 3) (fun _ => None)
                    (fun _ _ => None) (fun _ _ => None)
                    (fun _ => CouplingExample.uniform 3) in
  Columns.aerosols_for_column progs0 no_cloud 0 = Fatal
  /\ exists progs,
       Columns.interstitial_aerosols_for_column progs0 no_cloud 0 = Ok progs
       /\ Columns.get progs (Coupling.IntNmr 1)
          = Some (Columns.subview (fun _ _ => 3%R) 0)
       /\ Columns.get progs (Coupling.IntMmr 1 2) = None.
Proof.
  intros progs0 no_cloud.
  destruct (aerosols_for_column_views progs0 no_cloud 0) as (_ & Hfatal & Hint & _).
  split.
  - apply Hfatal. exists (Coupling.CldNmr 0). split; reflexivity.
  - destruct Hint as (progs & E & Hget).
    + intros d Ha Hi. destruct d; try discriminate Hi; try discriminate Ha; reflexivity.
    + exists progs. split; [exact E|]. rewrite !Hget. split; reflexivity.
Defined.

(** X21: the layout that [init_buffer] gives the arena, for any numbers of
    columns and levels that are not negative (zero included): it returns
    the size of [num_reals ncol nlev] values, which [buffer_size] gives too
    when the numbers are positive and their product fits an [int]; the
    midpoint views are bound in the order of the pointer table (the eight
    fields of the dry atmosphere, the number and mass mixing ratios, the
    gases, then the ten scratch fields), the view at position [i] of the
    table at [i * ncol * nlev] reals from the start of the arena with the
    extents [ncol] and [nlev]; the interface view follows the 74 midpoint
    views, with the extents [ncol] and [nlev + 1]; [wsm_data] is the end of
    the arena; and without columns nothing is used. *)
Theorem init_buffer_layout_order (sizeof_Real memory ncol nlev : Z)
    (buffer : ScratchBuffer.Buffer) :
  0 <= ncol -> 0 <= nlev ->
  exists buffer',
    ScratchBuffer.init_buffer sizeof_Real memory ncol nlev buffer
    = Ok (buffer', sizeof_Real * ScratchBuffer.num_reals ncol nlev)
    /\ (forall (i : nat) f, ScratchBuffer.mid_views !! i = Some f ->
          ScratchBuffer.views buffer' f
          = ScratchBuffer.mkView (Some (memory + Z.of_nat i * (ncol * nlev))) ncol nlev)
    /\ ScratchBuffer.views buffer' ScratchBuffer.z_iface
       = ScratchBuffer.mkView (Some (memory + 74 * (ncol * nlev))) ncol (nlev + 1)
    /\ ScratchBuffer.wsm_data buffer'
       = Some (memory + ScratchBuffer.num_reals ncol nlev)
    /\ ScratchBuffer.num_reals ncol nlev = 74 * (ncol * nlev) + ncol * (nlev + 1)
    /\ (0 < ncol -> 0 < nlev -> 0 < sizeof_Real <= 16 ->
        ScratchBuffer.num_reals ncol nlev <= CInt.INT_MAX ->
        ScratchBuffer.buffer_size sizeof_Real ncol nlev
        = sizeof_Real * ScratchBuffer.num_reals ncol nlev)
    /\ (ncol = 0 -> ScratchBuffer.num_reals ncol nlev = 0
                    /\ ScratchBuffer.buffer_size sizeof_Real ncol nlev = 0).
Proof.
  intros Hncol Hnlev.
  destruct (init_buffer_layout sizeof_Real memory ncol nlev buffer)
    as (buffer' & E & Hmid & Hiface & _ & Hwsm).
  exists buffer'. split; [exact E|]. split; [exact Hmid|]. split; [exact Hiface|].
  split; [exact Hwsm|]. split; [apply num_reals_eq|]. split.
  - apply buffer_size_exact.
  - intros ->. split; [rewrite num_reals_eq; lia|].
    unfold ScratchBuffer.buffer_size, CInt.mul, CInt.add.
    rewrite !Z.mul_0_r. change (CInt.wrap 0) with 0. rewrite !Z.mul_0_l.
    change (CInt.wrap 0) with 0. change (CInt.wrap (0 + 0)) with 0.
    change (CInt.to_size_t 0) with 0. unfold CInt.size_mul.
    rewrite Z.mul_0_r. reflexivity.
Qed.

Lemma init_buffer_layout_order_witness :
  exists buffer',
    ScratchBuffer.init_buffer 8 1000 2 3 ScratchBuffer.fresh_buffer = Ok (buffer', 3616)
    /\ ScratchBuffer.views buffer' ScratchBuffer.qv_dry
       = ScratchBuffer.mkView (Some 1012) 2 3
    /\ ScratchBuffer.views buffer' (ScratchBuffer.scratch 9)
       = ScratchBuffer.mkView (Some 1438) 2 3
    /\ ScratchBuffer.views buffer' ScratchBuffer.z_iface
       = ScratchBuffer.mkView (Some 1444) 2 4
    /\ ScratchBuffer.wsm_data buffer' = Some 1452
    /\ ScratchBuffer.buffer_size 8 2 3 = 3616.
Proof.
  destruct (init_buffer_layout_order 8 1000 2 3 ScratchBuffer.fresh_buffer)
    as (buffer' & E & Hmid & Hiface & Hwsm & _ & Hsize & _); [lia | lia|].
  exists buffer'. split; [exact E|].
  split; [exact (Hmid 2%nat ScratchBuffer.qv_dry eq_refl)|].
  split; [exact (Hmid 73%nat (ScratchBuffer.scratch 9) eq_refl)|].
  split; [exact Hiface|]. split; [exact Hwsm|].
  rewrite Hsize; [reflexivity | lia | lia | lia | vm_compute; discriminate].
Defined.
